(* ===== verification/_CoqProject ===== *)
-Q . S2P
Prelude.v
Goroutine.v
GoString.v
Identity.v
Transcript.v
Thinking.v
Compaction.v
Tools.v
Planner.v
Llm.v
Loop.v
Memory.v
Prompt.v
Engine.v
Env.v
Adapter.v
Session.v
Pg.v
Usage.v
PgStore.v
Skills.v
Client.v
Memorywork.v
Config.v
Runtime.v
Gateway.v
Locks.v
Connection.v
Main.v
Tenancy.v
Turns.v
Shutdown.v
