(* ===== verification/Prelude.v ===== *)
(** * A verification development for ascentia-core

    ascentia-core is a chat-agent server in Go.  A WebSocket client sends user
    messages; each one becomes a turn in which a language model is called, runs
    tools, is called again, and answers.  This development models the agent engine
    ([src/pkg/agent_core]) and what the server puts around it ([src/internal]), and
    proves what each part promises to the others.

    ** How the program is put together

    - [src/cmd/ascentia-core] starts the process: it merges pushed settings into the
      environment, opens NATS, PostgreSQL and Redis if they are configured, builds the
      model client, the chat service and the gateway, and starts the periodic
      consolidation of memories;
    - [src/internal/gateway/ws] accepts a connection (authentication, limits,
      origin), limits its rate and gives each valid frame to the runtime;
    - [src/internal/runtime] runs one chat turn: it stores the user's message in the
      session, builds the engine's request for the tenant, gives the engine hooks
      that stream to the client, and stores the messages of the turn;
    - [src/internal/session] is the bounded history of a session, in memory or in
      Redis; [src/internal/integration/pg] is the long-term memory, written by the
      tools of [src/internal/skills] and by [src/internal/memorywork], and recalled
      through [src/internal/adapter/memory];
    - [src/pkg/agent_core/engine.go] prepares the turn (system prompt, recall, todo
      focus, pruning, compaction, the tool registry with its allow-list) and runs
      [src/pkg/agent_core/loop], the ReAct loop;
    - the loop calls a model through the interfaces of [src/pkg/agent_core/llm],
      implemented by the scripted client and by [src/internal/adapter/llm] over the
      HTTP client of [src/internal/llm], and tools through
      [src/pkg/agent_core/tools].

    ** Files, in dependency order

    - [Prelude]: byte strings, errors, the monad [Go W A] of computations over a
      world [W] that end normally or by a panic, simulation of computations
      ([go_sim]), the relation a computation keeps between worlds ([go_rel]), shared
      list lemmas, the tactic [go_inv] and the database [go_db].
    - [Goroutine]: methods behind a mutex, access by access, the interleavings of any
      number of goroutines that call them, and their reduction to sequences of whole
      calls ([linearizable]).
    - [GoString]: the part of the standard library's [strings], [utf8], [strconv] and
      [sort] the program uses, on arbitrary bytes.
    - [Identity] ([identity/scope.go]), [Transcript] ([transcript/message.go]),
      [Thinking] ([thinking/split.go]), [Compaction] ([compaction/heuristic.go],
      [truncate.go]), [Tools] ([tools/registry.go] and its neighbours), [Planner]
      ([planner/*.go]), [Llm] ([llm/types.go], [mock.go]), [Loop] ([loop/react.go],
      [react_stream.go]), [Memory] ([memory/*.go]), [Prompt] ([prompt/assembler.go],
      [profile], [reflection]) and [Engine] ([engine.go]): package [agent_core].
    - [Env]: environment variables, conversions and the host (packages [os],
      [strconv], the [go] statement).
    - [Adapter]: [internal/types], [internal/adapter/transcript/convert.go] and
      [internal/adapter/llm/bridge.go].
    - [Session]: [internal/session/store.go].
    - [Pg]: the pool, the two tenant-wide reads of
      [internal/integration/pg/memory_store.go], and
      [internal/adapter/memory/sidequery.go]; [PgStore]: the rest of the memory store.
    - [Usage]: [internal/usage], [internal/llm/context_model.go] and
      [internal/integration/pg/token_usage_store.go].
    - [Skills]: [internal/skills] and [internal/integration/nats].
    - [Client]: [internal/llm/client.go] and [holder.go].
    - [Memorywork]: [internal/memorywork].
    - [Config]: [internal/configenv], [internal/configbus],
      [internal/integration/pg/core_settings.go], [internal/llm/from_env.go].
    - [Runtime]: [internal/runtime/service.go], [prompt.go], [scoped_session.go],
      [stream_conn.go].
    - [Gateway]: [internal/gateway/ws]: [server.go], [auth.go], [limits.go],
      [origin.go], [ratelimit.go], [errors_client.go].
    - [Locks]: the objects that goroutines share, as instances of [Goroutine]: the
      session store, the todo store, the memory provider, the scripted client and the
      rate limiter; [Connection]: the handler and the ping goroutine of a connection
      ([server.go], [writer.go]).
    - [Main]: [cmd/ascentia-core], up to the start of the server; [Shutdown]: the signal
      and the end of the process ([main.go], [Run] of [server.go]).
    - [Tenancy]: what a whole connection can change, through all of the above;
      [Turns]: concurrent turns on the session store.

    A Go struct is a [Record] with the source's field names behind a short prefix, a
    Go function or method a [Definition] with its name (prefixed by the receiver's
    type where two would clash), an interface a [Record] of operations or a [Class].
    An interface or pointer that may be nil is an [option] where the code tests it
    or where dereferencing nil is a behaviour (a [Panicked] outcome).

    ** What the theorems show

    - Streaming ([Thinking], [Llm], [Adapter], [Client]): however a stream is cut into
      chunks, the demultiplexer and the reader of server-sent events deliver what one
      scan of the whole text does; an answer cut into events is reassembled.
    - The loop ([Loop]): both loops implement one abstract machine, completed rounds
      ([runs]) with four endings ([ended]); the streamed loop returns what the plain
      one returns; the loop returns when its model and tools do, within [MaxTurns]
      rounds; every tool result stays in the round of its call ([no_orphans]).
    - The transcript ([Compaction]): compaction drops whole rounds, oldest first,
      never the system prefix or the last message, never part of a round, and stops
      within the budget or at the minimum tail; pruning bounds tool results.
    - Sandboxing ([Tools], [Engine], [Planner], [Skills]): a request executes only the
      tools of its allow-list, in its own tenant; the todo tools and the memory tools
      touch their session only; the catalog always forms a registry.
    - Tenancy ([Identity], [Memory], [Session], [Runtime], [Tenancy]): invalid scopes have
      no effect; memories of a tenant are not changed or shown by another; sessions of
      different users, agents or clients have different keys, when the ids hold no
      separator; a connection opened with a token changes no memory of any user but the
      token's, and no session, in the process or in Redis, of any other user whose id
      holds no separator, end to end.
    - Concurrency ([Goroutine], [Locks], [Turns], [Connection], [Shutdown]): the shared
      objects are atomic under every interleaving; concurrent turns on
      different chats do not disturb each other, when their session keys differ, as those
      of ids without separator do, and nothing is lost on any chat; and a turn of the service is such a
      program; the frames of a connection and its pings do not overlap, and nothing of a
      connection is left behind; what the rate limiter still promises when clock readings
      are out of order; in what order a process ends.
    - Long-term memory ([PgStore], [Skills], [Memorywork], [Pg]): the store implements
      a map with atomic replacement ([spec_cmd]); what is written is read back; every
      writer keeps the rows well formed ([memory_wf]); extraction writes at most five
      facts of its session; consolidation never empties a session and never leaves
      its tenant; what the side query recalls.
    - Short-term memory ([Session]): the window of a session, the Redis store as a
      refinement of the in-memory one while the server answers, and what is left of it
      when it does not.
    - The turn and the edge ([Runtime], [Gateway]): what a turn stores, on success
      only; exactly which requests become connections in each mode of authentication; the
      sliding window of the rate limiter; the answer to every frame, refused or served.
    - The process ([Config], [Main], [Client]): pushed settings only reach the
      whitelist; what a process that starts has; an update takes effect and never
      takes the client away; the exact row a model call adds to the ledger.

    ** Conditions to know about

    - Mode none, which [ParseAuthMode] gives when [WS_AUTH_MODE] is empty, authenticates
      nobody: the user of a connection is then whoever its query names
      ([handle_upgrade_authenticated]).  What [jwt_connection_confined] says is of mode jwt.
    - Session keys join the user, the agent and the client's session with the byte 0x1f,
      which the gateway refuses in session ids only: theorems that tell sessions of
      different users apart ask for ids without it, or for different keys; the ids of
      tokens are numbers.
    - [turn_refines], [turns_isolated] and [turns_log] are about sessions in the memory of
      the process; so is [main_without_database].  With Redis, a read that fails is an
      empty history and a write that fails is lost ([Redis_refines_memory]).
    - [SelectForTurn_newest] needs as many recent rows read as are recalled, which every
      turn has (12 and 5); between rows of one creation time, as a consolidation leaves
      them, a keyword match does decide ([keyword_breaks_tie]).
    - The round trips ([StreamChat_reassembles], [Redis_refines_memory]) are for values
      JSON can carry: valid UTF-8 strings and integers of 64 bits ([valid_event],
      [valid_message]).

    Some theorems and examples state behaviour a maintainer may not expect:
    [Main.main_without_database], [Memory.Write_update_nil_metadata],
    [Pg.SelectForTurn_newest], [Session.trimmed_orphan],
    [Compaction.empty_ids_orphan], [Compaction.MinTail_not_kept],
    [Compaction.notice_over_budget], [Gateway.session_id_padding],
    [Runtime.session_key_collision], [Client.index_gap], [Client.truncated_stream],
    [Client.nil_callback], [PgStore.update_not_recent],
    [Memorywork.unloaded_rows_lost], [Memorywork.duplicate_key_stops],
    [Config.blank_keys_race], [Config.failed_setenv_counted],
    [Main.dream_interval_overflow], [Main.redis_url_ignores_bounds],
    [Memorywork.concurrent_write_lost], [Locks.late_reading], [Turns.turns_race],
    [Shutdown.turn_cut].

    ** Bounds and fuel

    The two loops recurse on [Z.to_nat MaxTurns] of the normalised options, which is
    the bound of the Go [for].  [drop_blocks] recurses on the length of the list it
    shortens at each step; [process_loop] is well-founded on the length of the
    buffer it consumes; [trim_right_fuel] recurses on the length of the string
    ([trim_right_fuel_enough]); a loop over runes is structural, skipping the
    continuation bytes of the rune read.  The read loop of [StreamChat] has fuel for
    the bytes of the body ([read_fuel]); [StreamChat_scan] shows that it is enough.
    Integers that only count or compare are [Z]; a duration computed from an option
    and the sum of token counts wrap at 64 bits ([int64]); instants are nanoseconds
    in [Z], and [time.Since] saturates at 64 bits as in Go.

    ** Parameters and what is not modelled

    Code that is not in the repository is a parameter: the JSON codecs
    ([TodoDecoder], [MessageCodec], [FrameDecoder], [SkillCodec], [ItemDecoder],
    [ConfigDecoder]), HTTP and the JSON of the model's API ([HttpLib]), the JWT library
    ([JwtLib]), the WebSocket handshake ([Upgrader]), Redis ([RedisClient],
    [RedisLaws]), the PostgreSQL pool ([Pool], [PoolLaws], [PostgresLaws]), NATS
    ([NatsConn]), the drivers' constructors ([Drivers]), the Unicode tables beyond
    white space and ASCII ([UnicodeTables]), the permutation an unstable sort chooses
    ([SortSlice]), the iteration order of a map ([MapOrder]), the clock ([Clock]) and
    the host ([Host]).  Laws are hypotheses of the theorems that need them, and have
    instances used in the witnesses.

    Concurrency is modelled where goroutines share state of the process.  A method behind
    a mutex is a sequence of single accesses ([Goroutine.body]) in [Locks] and
    [Connection]; elsewhere it is one step, which the theorems of [Locks] justify.  A turn
    is one step in [Runtime], [Gateway] and [Tenancy], and three calls of the session store
    in [Turns], where its engine is any function of the history it is given.  A goroutine
    started by a turn (the ledger, the extraction) is handed to the host ([go_spawn]).  The
    laws of PostgreSQL are those of one statement or transaction at a time, with the unique
    index in place, and those of Redis of one pipeline at a time; the update of the model
    client by the holder is a single atomic store in the source as well.

    Not modelled: logging; HTTP before the gateway's handler; the contents of pings; the
    read deadline, which only appears as a read that fails; the deadlines of a
    [context.Context], which only appear as errors the parameters may return; and the
    scheduling of Go: a step relation says what can happen, not when. *)

From Stdlib Require Export ZArith Strings.Byte.
From stdpp Require Export base tactics numbers sorting gmap list.

#[export] Set Warnings "-clear-no-such-hyp,-via-type-remapping,-via-type-mismatch".

(** ** Byte strings

    A Go [string] is a sequence of bytes.  It is modelled as [list byte], so
    every list lemma applies to it; string literals are the UTF-8 bytes of the
    source text.  [go_literal] only serves to declare that notation. *)

Abbreviation byte := Byte.byte.
Abbreviation gostring := (list byte).

Declare Scope go_scope.
Delimit Scope go_scope with go.

Inductive byte_literal :=
| BNil
| BCons (b : byte) (l : byte_literal).

Fixpoint literal_of_bytes (l : list byte) : byte_literal :=
  match l with
  | [] => BNil
  | b :: l => BCons b (literal_of_bytes l)
  end.

Fixpoint bytes_of_literal (l : byte_literal) : list byte :=
  match l with
  | BNil => []
  | BCons b l => b :: bytes_of_literal l
  end.

Definition go_literal := list byte.
String Notation go_literal literal_of_bytes bytes_of_literal
  (via byte_literal mapping [ [nil] => BNil, [cons] => BCons ]) : go_scope.
Open Scope go_scope.

#[global] Instance byte_eq_decision : EqDecision byte := Byte.byte_eq_dec.

#[global] Instance byte_countable : Countable byte :=
  inj_countable Byte.to_N Byte.of_N Byte.of_to_N.

(** ** Errors

    The dynamic types of [error] values the code builds: [errors.New] and
    [fmt.Errorf] without [%w] ([ErrorString]), package-level sentinels compared
    by identity ([PkgError], named by the variable), [identity.ValidationError],
    and [fmt.Errorf] with [%w] ([WrapError], with its full text). *)

Inductive goerror :=
| ErrorString (msg : gostring)
| PkgError (var msg : gostring)
| ValidationError (msg : gostring)
| WrapError (msg : gostring) (inner : goerror).

#[global] Instance goerror_eq_decision : EqDecision goerror.
Proof. solve_decision. Defined.

(** [err.Error()] *)
Definition error_text (e : goerror) : gostring :=
  match e with
  | ErrorString m | PkgError _ m | ValidationError m | WrapError m _ => m
  end.

(** A Go call [(T, error)] whose [T] is the zero value whenever the error is
    non-nil. *)
Inductive result (A : Type) :=
| Ok (a : A)
| Err (e : goerror).
Arguments Ok {_} _.
Arguments Err {_} _.

Definition is_Ok {A} (r : result A) : Prop := ∃ a, r = Ok a.

#[global] Instance result_ret : MRet result := λ _, Ok.
#[global] Instance result_bind : MBind result := λ _ _ f r,
  match r with Ok a => f a | Err e => Err e end.
#[global] Instance result_fmap : FMap result := λ _ _ f r,
  match r with Ok a => Ok (f a) | Err e => Err e end.

Lemma result_bind_Ok {A B} (r : result A) (f : A → result B) b :
  (r ≫= f) = Ok b ↔ ∃ a, r = Ok a ∧ f a = Ok b.
Proof. destruct r as [a|e]; cbn; naive_solver. Qed.

(** ** Effects

    [Go W A] is a computation over a world [W] (whatever the tools, the model
    client and the stores change).  It ends normally ([Done]) or by a Go panic
    ([Panicked]); the effects made before a panic stay in the world. *)

Inductive outcome (A : Type) :=
| Done (a : A)
| Panicked (why : gostring).
Arguments Done {_} _.
Arguments Panicked {_} _.

#[global] Instance outcome_eq_decision `{EqDecision A} : EqDecision (outcome A).
Proof. solve_decision. Defined.

Definition Go (W A : Type) : Type := W → W * outcome A.

#[global] Instance Go_ret W : MRet (Go W) := λ _ a w, (w, Done a).
#[global] Instance Go_bind W : MBind (Go W) := λ _ _ f m w,
  match m w with
  | (w', Done a) => f a w'
  | (w', Panicked p) => (w', Panicked p)
  end.

#[global] Instance Go_fmap W : FMap (Go W) := λ _ _ f m, m ≫= λ a, mret (f a).

Definition go_panic {W A} (why : gostring) : Go W A := λ w, (w, Panicked why).
Definition go_gets {W A} (f : W → A) : Go W A := λ w, (w, Done (f w)).
Definition go_state {W A} (f : W → W * A) : Go W A := λ w,
  let '(w', a) := f w in (w', Done a).

(** [v, err := m; if err != nil { return ..., err }] *)
Definition go_try {W A B} (m : Go W (result A)) (k : A → Go W (result B)) :
    Go W (result B) :=
  r ← m; match r with Ok a => k a | Err e => mret (Err e) end.

(** [defer d], for the function body [m]: [d] runs whatever the end of [m]; a panic
    of [d] replaces it. *)
Definition go_defer {W A} (m : Go W A) (d : Go W unit) : Go W A := λ w,
  let '(w', o) := m w in
  match d w' with
  | (w2, Done _) => (w2, o)
  | (w2, Panicked p) => (w2, Panicked p)
  end.

(** The state relation of a computation: whatever its end, the world it leaves is
    related to the one it starts in. *)
Definition go_rel {W A} (R : relation W) (m : Go W A) : Prop := ∀ w, R w (m w).1.

Section go_monad.
Context {W : Type}.

Lemma go_bind_Done {A B} (m : Go W A) (f : A → Go W B) w w' b :
  (m ≫= f) w = (w', Done b) ↔ ∃ w1 a, m w = (w1, Done a) ∧ f a w1 = (w', Done b).
Proof.
  unfold mbind, Go_bind. destruct (m w) as [w1 [a|p]]; naive_solver.
Qed.

Lemma go_bind_eq {A B} (m : Go W A) (f : A → Go W B) w w1 a :
  m w = (w1, Done a) → (m ≫= f) w = f a w1.
Proof. unfold mbind, Go_bind. by intros ->. Qed.

Lemma go_bind_Panicked {A B} (m : Go W A) (f : A → Go W B) w w1 p :
  m w = (w1, Panicked p) → (m ≫= f) w = (w1, Panicked p).
Proof. unfold mbind, Go_bind. by intros ->. Qed.

Lemma go_ret_Done {A} (a b : A) (w w' : W) :
  (mret a : Go W A) w = (w', Done b) ↔ w' = w ∧ b = a.
Proof. unfold mret, Go_ret. naive_solver. Qed.

Lemma go_try_Ok {A B} (m : Go W (result A)) (k : A → Go W (result B)) w w' b :
  go_try m k w = (w', Done (Ok b)) ↔
  ∃ w1 a, m w = (w1, Done (Ok a)) ∧ k a w1 = (w', Done (Ok b)).
Proof.
  unfold go_try. rewrite go_bind_Done. split.
  - intros (w1 & [a|e] & H1 & H2); [by eauto|].
    apply go_ret_Done in H2 as [_ ?]; discriminate.
  - intros (w1 & a & H1 & H2). exists w1, (Ok a). auto.
Qed.

Lemma go_try_Err {A B} (m : Go W (result A)) (k : A → Go W (result B)) w w1 e :
  m w = (w1, Done (Err e)) → go_try m k w = (w1, Done (Err e)).
Proof. intros H. unfold go_try. by rewrite (go_bind_eq _ _ _ _ _ H). Qed.

Lemma go_try_eq {A B} (m : Go W (result A)) (k : A → Go W (result B)) w w1 a :
  m w = (w1, Done (Ok a)) → go_try m k w = k a w1.
Proof. intros H. unfold go_try. by rewrite (go_bind_eq _ _ _ _ _ H). Qed.
End go_monad.

(** Simulation: from worlds related by [RW], both computations end the same way,
    with related worlds and results. *)

Definition outcome_rel {A B} (R : A → B → Prop) (o : outcome A) (o' : outcome B) : Prop :=
  match o, o' with
  | Done a, Done b => R a b
  | Panicked p, Panicked q => p = q
  | _, _ => False
  end.

Definition go_sim {W V A B} (RW : W → V → Prop) (R : A → B → Prop) (m : Go W A) (n : Go V B) :
    Prop := ∀ w v, RW w v → RW (m w).1 (n v).1 ∧ outcome_rel R (m w).2 (n v).2.

Section go_sim.
Context {W V : Type} (RW : W → V → Prop).

Lemma go_sim_ret {A B} (R : A → B → Prop) a b : R a b → go_sim RW R (mret a) (mret b).
Proof. done. Qed.

Lemma go_sim_panic {A B} (R : A → B → Prop) p : go_sim RW R (go_panic p) (go_panic p).
Proof. done. Qed.

Lemma go_sim_bind {A B A' B'} (R : A → B → Prop) (R' : A' → B' → Prop) m n f g :
  go_sim RW R m n → (∀ a b, R a b → go_sim RW R' (f a) (g b)) →
  go_sim RW R' (m ≫= f) (n ≫= g).
Proof.
  intros Hm Hf w v Hw. destruct (Hm w v Hw) as [Hw' Ho]. unfold mbind, Go_bind.
  destruct (m w) as [w' [a|p]], (n v) as [v' [b|q]]; cbn in *; try done.
  by apply Hf.
Qed.

Lemma go_sim_mono {A B} (R R' : A → B → Prop) m n :
  (∀ a b, R a b → R' a b) → go_sim RW R m n → go_sim RW R' m n.
Proof.
  intros HR Hm w v Hw. destruct (Hm w v Hw) as [? Ho]. split; [done|].
  destruct (m w).2, (n v).2; cbn in *; auto.
Qed.

Lemma go_sim_Done {A B} (R : A → B → Prop) m n w w' v a :
  go_sim RW R m n → RW w v → m w = (w', Done a) →
  ∃ v' b, n v = (v', Done b) ∧ RW w' v' ∧ R a b.
Proof.
  intros Hm Hw E. destruct (Hm w v Hw) as [Hw' Ho]. rewrite E in *. cbn in *.
  destruct (n v) as [v' [b|q]]; [|done]. by exists v', b.
Qed.
End go_sim.

(** On one equivalence of worlds, simulation is a partial equivalence. *)
#[export] Instance go_sim_symmetric {W A} (RW : relation W) (R : relation A) :
  Symmetric RW → Symmetric R → Symmetric (go_sim RW R).
Proof.
  intros HW HR m n Hm w v Hw. destruct (Hm v w) as [? Ho]; [by symmetry|].
  split; [by symmetry|]. destruct (m v).2, (n w).2; cbn in *; done || by symmetry.
Qed.

#[export] Instance go_sim_transitive {W A} (RW : relation W) (R : relation A) :
  Equivalence RW → Transitive R → Transitive (go_sim RW R).
Proof.
  intros HW HR m n k Hm Hn w v Hw. destruct (Hm w w) as [? Ho1]; [done|].
  destruct (Hn w v Hw) as [? Ho2]. split; [by etrans|].
  destruct (m w).2, (n w).2, (k v).2; cbn in *; try done; [by etrans|congruence].
Qed.

(** A computation changes the world only as its parts do. *)
Section go_rel.
Context {W : Type} (R : relation W) `{!PreOrder R}.

Lemma go_rel_ret {A} (a : A) : go_rel R (mret a).
Proof. intros w. cbn. reflexivity. Qed.

Lemma go_rel_panic {A} p : go_rel R (go_panic (A := A) p).
Proof. intros w. cbn. reflexivity. Qed.

Lemma go_rel_gets {A} (f : W → A) : go_rel R (go_gets f).
Proof. intros w. cbn. reflexivity. Qed.

Lemma go_rel_bind {A B} (m : Go W A) (f : A → Go W B) :
  go_rel R m → (∀ a, go_rel R (f a)) → go_rel R (m ≫= f).
Proof.
  intros Hm Hf w. unfold mbind, Go_bind. specialize (Hm w).
  destruct (m w) as [w' [a|p]]; cbn in *; [|done]. etrans; [exact Hm|apply Hf].
Qed.

Lemma go_rel_try {A B} (m : Go W (result A)) (k : A → Go W (result B)) :
  go_rel R m → (∀ a, go_rel R (k a)) → go_rel R (go_try m k).
Proof. intros Hm Hk. apply go_rel_bind; [done|]. intros [a|e]; [apply Hk|apply go_rel_ret]. Qed.

Lemma go_rel_defer {A} (m : Go W A) (d : Go W unit) :
  go_rel R m → go_rel R d → go_rel R (go_defer m d).
Proof.
  intros Hm Hd w. unfold go_defer. specialize (Hm w). destruct (m w) as [w' o]. specialize (Hd w').
  destruct (d w') as [w2 [[]|p]]; cbn in *; by etrans.
Qed.

(** From a computation to one of its runs. *)
Lemma go_rel_run {A} (m : Go W A) w w' o : go_rel R m → m w = (w', o) → R w w'.
Proof. intros Hm E. specialize (Hm w). by rewrite E in Hm. Qed.
End go_rel.

(** ** Lists *)

Section lists.
Context {A : Type}.
Implicit Types l k : list A.

Lemma app_drop_inv l k n : length k = n → drop n (k ++ l) = l.
Proof. intros <-. apply drop_app_length. Qed.

Lemma last_app_singleton l (x : A) : last (l ++ [x]) = Some x.
Proof. apply last_snoc. Qed.

Lemma app_inj_tail_length l1 l2 k1 k2 :
  l1 ++ k1 = l2 ++ k2 → length k1 = length k2 → l1 = l2 ∧ k1 = k2.
Proof.
  intros H Hl. apply app_inj_1; [|done].
  apply (f_equal length) in H. rewrite !length_app in H. lia.
Qed.

(** A list that is a suffix of another is that list after a [drop]. *)
Lemma suffix_drop l k : k `suffix_of` l → k = drop (length l - length k) l.
Proof.
  intros [l' ->]. rewrite length_app.
  replace (length l' + length k - length k) with (length l') by lia.
  by rewrite drop_app_length.
Qed.

Lemma drop_suffix l n : drop n l `suffix_of` l.
Proof. exists (take n l). by rewrite take_drop. Qed.
End lists.

(** Two strings cut at the first occurrence of a separator. *)
Lemma cut_inj {A} (x : A) u v r s :
  x ∉ u → x ∉ v → u ++ x :: r = v ++ x :: s → u = v ∧ r = s.
Proof.
  revert v. induction u as [|a u IH]; intros [|b v] Hu Hv H; cbn in H; simplify_eq.
  - done.
  - by destruct Hv; left.
  - by destruct Hu; left.
  - rewrite elem_of_cons in Hu, Hv. destruct (IH v) as [-> ->]; naive_solver.
Qed.

(** The automation of the development: [go_inv] inverts a run that
    ended normally. *)

Create HintDb go_db.
#[export] Hint Resolve drop_suffix prefix_app_r : go_db.
#[export] Hint Resolve go_rel_ret go_rel_panic go_rel_gets : go_db.

Ltac go_inv :=
  repeat match goal with
  | H : (_ ≫= _) _ = (_, Done _) |- _ =>
      apply go_bind_Done in H as (? & ? & ? & H)
  | H : go_try _ _ _ = (_, Done (Ok _)) |- _ =>
      apply go_try_Ok in H as (? & ? & ? & H)
  | H : mret _ _ = (_, Done _) |- _ =>
      apply go_ret_Done in H as [? ?]
  end; simplify_eq.
