(* ===== verification/Goroutine.v ===== *)
(** * Goroutines and the mutex of an object

    The shared objects of the program ([session.Store], the two [MemoryStore]s, the
    rate limiter, the scripted client, the writer of a connection) protect their state
    by one [sync.Mutex] or [sync.RWMutex], which each method takes first and releases
    by a [defer].  Here such a method is a [body] of single accesses to the state; any
    number of goroutines call methods, and their accesses interleave.  The theorems of
    this file reduce those interleavings to sequences of whole calls, which is how the
    other files model the objects; [Locks] has the objects. *)

From S2P Require Import Prelude.

(** ** Methods *)

(** What a method does between taking and releasing the mutex: accesses to the state,
    each of which may change it, and what follows, which depends on what was read. *)
Inductive body (S A : Type) :=
| Leave (a : A)
| Access (put : S → S) (next : S → body S A).
Arguments Leave {_ _} _.
Arguments Access {_ _} _ _.

(** The body alone, without interruption. *)
Fixpoint run_body {S A} (b : body S A) (s : S) : S * A :=
  match b with
  | Leave a => (s, a)
  | Access put next => run_body (next s) (put s)
  end.

(** [Lock] or [RLock]. *)
Inductive mode := Exclusive | Shared.

#[global] Instance mode_eq_decision : EqDecision mode.
Proof. solve_decision. Defined.

(** A body that only reads. *)
Inductive reads_only {S A} : body S A → Prop :=
| Leave_reads a : reads_only (Leave a)
| Access_reads put next :
    (∀ s, put s = s) → (∀ s, reads_only (next s)) → reads_only (Access put next).

(** An access that reads, and one that writes. *)
Definition Read {S A B} (get : S → B) (k : B → body S A) : body S A :=
  Access id (λ s, k (get s)).
Definition Update {S A} (put : S → S) (k : body S A) : body S A :=
  Access put (λ _, k).

(** An object: its methods, the lock each one takes, its body, and the operation on
    the state it is meant to be. *)
Class Locked (S Op : Type) (res : Op → Type) := {
  op_mode : Op → mode;
  op_body : ∀ o, body S (res o);
  op_spec : ∀ o, S → S * res o;
}.

Class LockedLaws {S Op res} (L : Locked S Op res) : Prop := {
  op_correct o s : run_body (op_body o) s = op_spec o s;
  op_reads o : op_mode o = Shared → reads_only (op_body o);
}.

(** ** Interleavings *)

(** A goroutine, as far as the object goes: a sequence of calls, each of which may
    depend on the results of those before. *)
Inductive prog (Op : Type) (res : Op → Type) :=
| Exit
| Call (o : Op) (k : res o → prog Op res).
Arguments Exit {_ _}.
Arguments Call {_ _} _ _.

Section pool.
Context {S Op : Type} {res : Op → Type} `{L : Locked S Op res}.

(** Between two calls, or waiting for the mutex; or inside a method. *)
Inductive goroutine :=
| Outside (p : prog Op res)
| Inside (o : Op) (b : body S (res o)) (k : res o → prog Op res).

(** The goroutines that hold the mutex. *)
Inductive rwmutex :=
| Writer (i : nat)
| Readers (X : gset nat).

Record config := {
  cf_state : S;
  cf_mutex : rwmutex;
  cf_pool : list goroutine;
}.

Definition unlocked : rwmutex := Readers ∅.

Definition acquire (m : mode) (i : nat) (mu : rwmutex) : option rwmutex :=
  match m, mu with
  | Exclusive, Readers X => if decide (X = ∅) then Some (Writer i) else None
  | Shared, Readers X => Some (Readers ({[i]} ∪ X))
  | _, Writer _ => None
  end.

Definition release (m : mode) (i : nat) (mu : rwmutex) : rwmutex :=
  match m, mu with
  | Shared, Readers X => Readers (X ∖ {[i]})
  | _, _ => unlocked
  end.

(** One step of goroutine [i]; [None] when it has exited or must wait. *)
Definition advance (i : nat) (g : goroutine) (s : S) (mu : rwmutex) :
    option (S * rwmutex * goroutine) :=
  match g with
  | Outside Exit => None
  | Outside (Call o k) =>
      match acquire (op_mode o) i mu with
      | Some mu' => Some (s, mu', Inside o (op_body o) k)
      | None => None
      end
  | Inside o (Access put next) k => Some (put s, mu, Inside o (next s) k)
  | Inside o (Leave a) k => Some (s, release (op_mode o) i mu, Outside (k a))
  end.

Definition step (c c' : config) : Prop :=
  ∃ i g s mu g', cf_pool c !! i = Some g ∧
    advance i g (cf_state c) (cf_mutex c) = Some (s, mu, g') ∧
    c' = {| cf_state := s; cf_mutex := mu; cf_pool := <[i := g']> (cf_pool c) |}.

Definition start (s : S) (ps : list (prog Op res)) : config :=
  {| cf_state := s; cf_mutex := unlocked; cf_pool := Outside <$> ps |}.

(** The steps a schedule names; a goroutine that cannot move is passed over. *)
Fixpoint run_schedule (sched : list nat) (c : config) : config :=
  match sched with
  | [] => c
  | i :: sched' =>
      match cf_pool c !! i with
      | Some g =>
          match advance i g (cf_state c) (cf_mutex c) with
          | Some (s, mu, g') =>
              run_schedule sched'
                {| cf_state := s; cf_mutex := mu; cf_pool := <[i := g']> (cf_pool c) |}
          | None => run_schedule sched' c
          end
      | None => run_schedule sched' c
      end
  end.

(** ** The specification: whole calls, one at a time *)

(** Goroutine [l.1] makes its call [l.2]. *)
Definition call_at (l : nat * Op) (c c' : S * list (prog Op res)) : Prop :=
  ∃ k, c.2 !! l.1 = Some (Call l.2 k) ∧
    let '(s, a) := op_spec l.2 c.1 in c' = (s, <[l.1 := k a]> c.2).

Inductive calls : S * list (prog Op res) → list (nat * Op) → S * list (prog Op res) → Prop :=
| calls_nil c : calls c [] c
| calls_cons l tr c c1 c' : call_at l c c1 → calls c1 tr c' → calls c (l :: tr) c'.

(** The state after a sequence of calls. *)
Definition after_calls (tr : list (nat * Op)) (s : S) : S :=
  foldl (λ s l, (op_spec l.2 s).1) s tr.

(** A goroutine that has the object to itself. *)
Fixpoint alone (p : prog Op res) (s : S) : S :=
  match p with
  | Exit => s
  | Call o k => alone (k (op_spec o s).2) (op_spec o s).1
  end.

(** What is left of a goroutine once the call it is in has been made. *)
Definition rest (s : S) (g : goroutine) : prog Op res :=
  match g with
  | Outside p => p
  | Inside o b k => k (run_body b s).2
  end.

(** The state once the writer, if there is one, is done. *)
Definition settled (c : config) : S :=
  match cf_mutex c with
  | Writer i =>
      match cf_pool c !! i with
      | Some (Inside o b k) => (run_body b (cf_state c)).1
      | _ => cf_state c
      end
  | Readers _ => cf_state c
  end.

Definition abstraction (c : config) : S * list (prog Op res) :=
  (settled c, rest (cf_state c) <$> cf_pool c).

(** ** Mutual exclusion *)

Definition inside (g : goroutine) : option mode :=
  match g with
  | Outside _ => None
  | Inside o _ _ => Some (op_mode o)
  end.

Definition holds (mu : rwmutex) (m : mode) (i : nat) : Prop :=
  match m, mu with
  | Exclusive, Writer j => i = j
  | Shared, Readers X => i ∈ X
  | _, _ => False
  end.

Definition reader_ok (g : goroutine) : Prop :=
  match g with
  | Inside o b _ => op_mode o = Shared → reads_only b
  | Outside _ => True
  end.

(** The mutex is held by the goroutines that are inside, in their modes. *)
Definition consistent (c : config) : Prop :=
  (∀ i m, holds (cf_mutex c) m i ↔ ∃ g, cf_pool c !! i = Some g ∧ inside g = Some m) ∧
  Forall reader_ok (cf_pool c).
End pool.
Arguments Outside {_ _ _} _.
Arguments Inside {_ _ _} _ _ _.
Arguments cf_state {_ _ _} _.
Arguments cf_mutex {_ _ _} _.
Arguments cf_pool {_ _ _} _.
Arguments goroutine : clear implicits.
Arguments config : clear implicits.

(** ** Lemmas *)

Section lemmas.
Context {S Op : Type} {res : Op → Type} `{L : Locked S Op res} `{LL : !LockedLaws L}.
Implicit Types (c : config S Op res) (g : goroutine S Op res) (mu : rwmutex).

Lemma run_reads {A} (b : body S A) s : reads_only b → (run_body b s).1 = s.
Proof.
  intros Hb. revert s. induction Hb as [a|put next Hput _ IH]; intros s; cbn; [done|].
  by rewrite Hput.
Qed.

Lemma start_consistent s (ps : list (prog Op res)) : consistent (start s ps).
Proof.
  split.
  - intros i m. cbn. split; [by destruct m|]. intros (g & Hg & Hi).
    apply list_lookup_fmap_Some in Hg as (p & -> & _). done.
  - apply Forall_fmap, Forall_true. done.
Qed.

(** The holders after a step of [i]: the others are as before. *)
Lemma advance_holds i g s mu s' mu' g' :
  (∀ m, holds mu m i ↔ inside g = Some m) → advance i g s mu = Some (s', mu', g') →
  (∀ m, holds mu' m i ↔ inside g' = Some m) ∧ (∀ m j, i ≠ j → holds mu' m j ↔ holds mu m j).
Proof.
  intros Hi E. pose proof (Hi Exclusive) as HE. pose proof (Hi Shared) as HS. clear Hi.
  destruct g as [[|o k]|o [a|put next] k]; cbn in *; [done| | |].
  - destruct (acquire (op_mode o) i mu) as [mu1|] eqn:Ea; simplify_eq. cbn.
    destruct (op_mode o), mu as [j|X]; cbn in *; try case_decide; simplify_eq; cbn.
    + split; intros []; set_solver.
    + split; intros []; set_solver.
  - simplify_eq. cbn. destruct (op_mode o), mu as [j|X]; cbn in *;
      (split; intros []; cbn; set_solver || naive_solver).
  - simplify_eq. cbn. split; [|done]. by intros [].
Qed.

Lemma advance_reader_ok i g s mu s' mu' g' :
  reader_ok g → advance i g s mu = Some (s', mu', g') → reader_ok g'.
Proof.
  destruct g as [[|o k]|o [a|put next] k]; cbn; intros Hg E; [done| | |].
  - destruct (acquire _ _ _); simplify_eq. cbn. apply op_reads.
  - by simplify_eq.
  - simplify_eq. cbn. intros Hm. specialize (Hg Hm). by inversion Hg.
Qed.

Lemma step_consistent c c' : consistent c → step c c' → consistent c'.
Proof.
  intros [Hh Hr] (i & g & s & mu & g' & Hg & E & ->).
  destruct (advance_holds i g (cf_state c) (cf_mutex c) s mu g') as [Hi Ho]; [|done|].
  { intros m. rewrite Hh, Hg. naive_solver. }
  split; cbn.
  - intros j m. destruct (decide (i = j)) as [<-|Hne].
    + rewrite Hi, list_lookup_insert_eq by by eapply lookup_lt_Some. naive_solver.
    + rewrite Ho, Hh by done. by rewrite list_lookup_insert_ne.
  - apply Forall_insert; [done|]. eapply advance_reader_ok; [|done].
    by eapply Forall_lookup_1 in Hr.
Qed.

Lemma steps_consistent c c' : consistent c → rtc step c c' → consistent c'.
Proof. intros Hc. induction 1 as [|c c1 c' H _ IH]; [done|]. by eapply IH, step_consistent. Qed.

(** A goroutine inside in exclusive mode is alone inside. *)
Lemma consistent_exclusive c i j g g' m :
  consistent c → cf_pool c !! i = Some g → inside g = Some Exclusive →
  cf_pool c !! j = Some g' → inside g' = Some m → i = j.
Proof.
  intros [Hh _] Hg Hi Hg' Hj.
  assert (holds (cf_mutex c) Exclusive i) as H1 by (apply Hh; eauto).
  assert (holds (cf_mutex c) m j) as H2 by (apply Hh; eauto).
  destruct (cf_mutex c), m; cbn in *; by subst.
Qed.
(** ** Refinement *)

Lemma rest_reader s s' g : s = s' ∨ inside g = None → rest s g = rest s' g.
Proof. intros [->|H]; [done|]. by destruct g. Qed.

(** The other goroutines do not notice a step: the state is the same or they are
    outside. *)
Lemma advance_others i g c s mu g' j gj :
  consistent c → cf_pool c !! i = Some g →
  advance i g (cf_state c) (cf_mutex c) = Some (s, mu, g') →
  cf_pool c !! j = Some gj → i ≠ j → rest s gj = rest (cf_state c) gj.
Proof.
  intros Hc Hg E Hj Hne. apply rest_reader.
  destruct g as [[|o k]|o [a|put next] k]; cbn in E; [done| | |].
  - destruct (acquire _ _ _); simplify_eq. by left.
  - simplify_eq. by left.
  - simplify_eq. destruct (op_mode o) eqn:Em.
    + right. destruct (inside gj) as [m|] eqn:Ej; [|done]. destruct Hne.
      eapply consistent_exclusive; [done..| |done|done]. cbn. by rewrite Em.
    + left. destruct Hc as [_ Hr]. eapply Forall_lookup_1 in Hr; [|exact Hg]. specialize (Hr Em).
      by inversion Hr.
Qed.

(** What the step of [i] is for the specification: nothing, or a whole call. *)
Lemma advance_settled i g s mu s' mu' g' :
  (∀ m, holds mu m i ↔ inside g = Some m) → reader_ok g →
  advance i g s mu = Some (s', mu', g') →
  let settle s mu g :=
    match mu, g with Writer j, Inside o b k => if decide (i = j) then (run_body b s).1 else s
    | _, _ => s end in
  (settle s' mu' g' = settle s mu g ∧ rest s' g' = rest s g) ∨
  (∃ o k X, mu = Readers X ∧ g = Outside (Call o k) ∧
     settle s' mu' g' = (op_spec o s).1 ∧ rest s' g' = k (op_spec o s).2).
Proof.
  intros Hi Hr E settle. destruct g as [[|o k]|o [a|put next] k]; cbn in E; [done| | |].
  - right. destruct (acquire (op_mode o) i mu) as [mu1|] eqn:Ea; simplify_eq.
    destruct mu as [j|X]; [by destruct (op_mode o)|]. exists o, k, X. cbn. rewrite <- !op_correct.
    split_and!; try done. destruct (op_mode o) eqn:Em; cbn in Ea; simplify_eq; cbn.
    + case_decide; simplify_eq. cbn. by rewrite decide_True.
    + by rewrite run_reads by (by apply op_reads).
  - left. simplify_eq. split; [|done]. pose proof (Hi Exclusive) as HE. pose proof (Hi Shared) as HS.
    unfold settle. destruct (op_mode o), mu as [j|X]; cbn in *; try done; by case_decide.
  - left. injection E as <- <- <-. split; [|done]. unfold settle. cbn in *.
    assert (holds mu (op_mode o) i) as Hm by by apply Hi.
    destruct (op_mode o), mu as [j|X]; cbn in *; try done.
    + by rewrite !decide_True.
    + specialize (Hr eq_refl). by inversion Hr.
Qed.

(** A goroutine moves only when no other one has the mutex for writing. *)
Lemma advance_writer i g s mu s' mu' g' j :
  (∀ m, holds mu m i ↔ inside g = Some m) → advance i g s mu = Some (s', mu', g') →
  mu = Writer j ∨ mu' = Writer j → j = i.
Proof.
  intros Hi E Hw. destruct g as [[|o k]|o b k]; cbn in E; [done| |].
  - destruct (acquire (op_mode o) i mu) as [mu1|] eqn:Ea; [|done]. injection E as <- <- <-.
    destruct (op_mode o), mu as [j'|X]; cbn in *; try case_decide; naive_solver.
  - assert (holds mu (op_mode o) i) as Hm by by apply Hi.
    destruct b; injection E as <- <- <-;
      destruct (op_mode o), mu as [j'|X]; cbn in *; naive_solver.
Qed.

Lemma settled_at c i g :
  cf_pool c !! i = Some g → (∀ j, cf_mutex c = Writer j → j = i) →
  settled c = match cf_mutex c, g with
              | Writer j, Inside o b k => if decide (i = j) then (run_body b (cf_state c)).1 else cf_state c
              | _, _ => cf_state c
              end.
Proof.
  intros Hg Hw. unfold settled. destruct (cf_mutex c) as [j|X]; [|done].
  rewrite (Hw j eq_refl), Hg. destruct g; [done|]. by rewrite decide_True.
Qed.

(** Every step is a step of the specification, or none. *)
Lemma step_refines c c' :
  consistent c → step c c' →
  abstraction c' = abstraction c ∨ ∃ l, call_at l (abstraction c) (abstraction c').
Proof.
  intros Hc (i & g & s & mu & g' & Hg & E & ->).
  assert (∀ m, holds (cf_mutex c) m i ↔ inside g = Some m) as Hi
    by (intros m; destruct Hc as [-> _]; rewrite Hg; naive_solver).
  assert (reader_ok g) as Hr by (destruct Hc as [_ Hr]; by eapply Forall_lookup_1 in Hr).
  assert (i < length (cf_pool c))%nat as Hlt by by eapply lookup_lt_Some.
  assert (∀ p, rest s g' = p → rest s <$> <[i := g']> (cf_pool c) =
                 <[i := p]> (rest (cf_state c) <$> cf_pool c)) as Hpool.
  { intros p <-. apply list_eq. intros j. rewrite list_lookup_fmap.
    destruct (decide (i = j)) as [<-|Hne].
    - rewrite !list_lookup_insert_eq; [done|by rewrite length_fmap|done].
    - rewrite !list_lookup_insert_ne, list_lookup_fmap by done.
      destruct (cf_pool c !! j) as [gj|] eqn:Hj; cbn; [|done]. f_equal.
      exact (advance_others i g c s mu g' j gj Hc Hg E Hj Hne). }
  assert (settled {| cf_state := s; cf_mutex := mu; cf_pool := <[i:=g']> (cf_pool c) |} =
    match mu, g' with Writer j, Inside o b k => if decide (i = j) then (run_body b s).1 else s
    | _, _ => s end) as Hs'.
  { rewrite (settled_at _ i g'); cbn; [done|by apply list_lookup_insert_eq|].
    intros j ->. eapply advance_writer; eauto. }
  assert (settled c = match cf_mutex c, g with
    | Writer j, Inside o b k => if decide (i = j) then (run_body b (cf_state c)).1 else cf_state c
    | _, _ => cf_state c end) as Hs.
  { apply settled_at; [done|]. intros j Hj. eapply advance_writer; eauto. }
  destruct (advance_settled i g _ _ _ _ _ Hi Hr E) as [[H1 H2]|(o & k & X & Hmu & -> & H1 & H2)].
  - left. unfold abstraction. rewrite Hs', Hs. cbn [cf_state cf_pool]. f_equal; [exact H1|].
    rewrite (Hpool _ H2). apply list_insert_id. by rewrite list_lookup_fmap, Hg.
  - right. exists (i, o), k. cbn. rewrite list_lookup_fmap, Hg. split; [done|].
    rewrite Hs, Hmu. destruct (op_spec o (cf_state c)) as [s1 a]. cbn in *.
    unfold abstraction. rewrite Hs'. cbn. f_equal; [exact H1|]. by apply Hpool.
Qed.

Lemma abstraction_start s (ps : list (prog Op res)) : abstraction (start s ps : config S Op res) = (s, ps).
Proof. unfold abstraction, start. cbn. f_equal. rewrite <- list_fmap_compose. apply list_fmap_id. Qed.

Lemma steps_refine c c' :
  consistent c → rtc step c c' → ∃ tr, calls (abstraction c) tr (abstraction c').
Proof.
  intros Hc H. induction H as [|c c1 c' H _ IH]; [eexists; constructor|].
  destruct (IH (step_consistent _ _ Hc H)) as [tr Htr].
  destruct (step_refines _ _ Hc H) as [<-|[l Hl]]; [by exists tr|]. exists (l :: tr). by econstructor.
Qed.

Lemma calls_state (x x' : S * list (prog Op res)) tr : calls x tr x' → x'.1 = after_calls tr x.1.
Proof.
  induction 1 as [|l tr x x1 x' (k & _ & E) _ IH]; [done|]. rewrite IH. cbn. f_equal.
  destruct (op_spec l.2 x.1) as [s a]. by subst.
Qed.

(** While no writer is inside, the state is the specification's. *)
Lemma settled_unlocked c : cf_mutex c = unlocked → settled c = cf_state c.
Proof. unfold settled. by intros ->. Qed.

Lemma unlocked_outside c :
  consistent c → cf_mutex c = unlocked → cf_pool c = Outside <$> (abstraction c).2.
Proof.
  intros [Hh _] Hm. cbn. apply list_eq. intros i. rewrite !list_lookup_fmap.
  destruct (cf_pool c !! i) as [[p|o b k]|] eqn:Hg; cbn; [done| |done].
  assert (holds (cf_mutex c) (op_mode o) i) as H by (apply Hh; eauto).
  rewrite Hm in H. by destruct (op_mode o).
Qed.
(** ** Every call returns *)

(** One step of some goroutine, whatever the state and the mutex. *)
Definition moves (g' g : goroutine S Op res) : Prop :=
  ∃ i s mu s' mu', advance i g s mu = Some (s', mu', g').

Lemma moves_Inside_Acc o (b : body S (res o)) k :
  (∀ a, Acc moves (Outside (k a))) → Acc moves (Inside o b k).
Proof.
  intros Hk. induction b as [a|put next IH]; constructor; intros g' (i & s & mu & s' & mu' & E);
    cbn in E; injection E as <- <- <-; [apply Hk|apply IH].
Qed.

Lemma moves_Acc g : Acc moves g.
Proof.
  assert (∀ p, Acc moves (Outside p)) as Hp.
  { induction p as [|o k IH]; constructor; intros g' (i & s & mu & s' & mu' & E); cbn in E; [done|].
    destruct (acquire _ _ _); [|done]. injection E as <- <- <-. by apply moves_Inside_Acc. }
  destruct g; [apply Hp|]. by apply moves_Inside_Acc.
Qed.

(** One element of a list moves. *)
Definition pool_moves (gs' gs : list (goroutine S Op res)) : Prop :=
  ∃ i g g', gs !! i = Some g ∧ moves g' g ∧ gs' = <[i := g']> gs.

Lemma pool_moves_Acc gs : Acc pool_moves gs.
Proof.
  induction gs as [|g gs IH].
  { constructor. intros gs' (i & g & g' & Hi & _). by rewrite lookup_nil in Hi. }
  revert gs IH. induction (moves_Acc g) as [g _ IHg]. intros gs IH.
  induction IH as [gs Hgs IH]. constructor. intros gs' ([|i] & h & h' & Hi & Hm & ->); cbn in *.
  - simplify_eq. apply IHg; [done|]. by constructor.
  - apply IH. by exists i, h, h'.
Qed.

Lemma step_sn c : sn step c.
Proof.
  remember (cf_pool c) as gs eqn:E. revert c E.
  induction (pool_moves_Acc gs) as [gs _ IH]. intros c ->. constructor.
  intros c' (i & g & s & mu & g' & Hg & E & ->). eapply IH; [|reflexivity].
  exists i, g, g'. split_and!; [done| |done]. by exists i, (cf_state c), (cf_mutex c), s, mu.
Qed.

(** Some goroutine can move, unless all have exited. *)
Lemma progress c : consistent c → nf step c → cf_pool c = (λ _, Outside Exit) <$> cf_pool c.
Proof.
  intros [Hh Hr] Hnf. assert (∀ i g, cf_pool c !! i = Some g →
    advance i g (cf_state c) (cf_mutex c) = None) as Hstuck.
  { intros i g Hg. destruct (advance i g _ _) as [[[s mu] g']|] eqn:E; [|done].
    destruct Hnf. eexists. by exists i, g, s, mu, g'. }
  assert (∀ i g, cf_pool c !! i = Some g → inside g = None) as Hout.
  { intros i g Hg. specialize (Hstuck i g Hg). by destruct g as [|o [|]]. }
  assert (∀ m i, ¬ holds (cf_mutex c) m i) as Hfree.
  { intros m i (g & Hg & Hi)%Hh. by rewrite (Hout i g Hg) in Hi. }
  apply list_eq. intros i. rewrite list_lookup_fmap.
  destruct (cf_pool c !! i) as [g|] eqn:Hg; cbn; [|done]. f_equal.
  specialize (Hout i g Hg). specialize (Hstuck i g Hg).
  destruct g as [[|o k]|]; [done| |done]. cbn in Hstuck.
  destruct (cf_mutex c) as [j|X] eqn:Em; [by destruct (Hfree Exclusive j)|].
  destruct (op_mode o); cbn in Hstuck; [|done]. case_decide as HX; [done|].
  apply set_choose_L in HX as [j Hj]. by destruct (Hfree Shared j).
Qed.

Lemma exited_nf c : Forall (λ g, g = Outside Exit) (cf_pool c) → nf step c.
Proof.
  intros Hc [c' (i & g & s & mu & g' & Hg & E & _)]. rewrite Forall_forall in Hc.
  rewrite (Hc g) in E by by eapply list_elem_of_lookup_2. done.
Qed.

(** ** The reduction *)

(** Whatever the interleaving of the accesses of the goroutines that call the object:
    when no method is running, the state and what every goroutine has been told are
    those of some sequence of whole calls, in the order of each goroutine; every
    schedule is finite, and one that cannot go on has made every call. *)
Definition atomic_object : Prop := ∀ (s : S) (ps : list (prog Op res)) (c : config S Op res),
  rtc step (start s ps) c →
  (cf_mutex c = unlocked → ∃ ps' tr, cf_pool c = Outside <$> ps' ∧
     calls (s, ps) tr (cf_state c, ps')) ∧
  sn step c ∧
  (nf step c → cf_pool c = (λ _, Outside Exit) <$> ps ∧
     ∃ tr, calls (s, ps) tr (cf_state c, (λ _, Exit) <$> ps)).

(** An object whose methods hold the lock they need is atomic. *)
Lemma linearizable : atomic_object.
Proof.
  intros s ps c H. assert (consistent c) as Hc by (eapply steps_consistent, H; apply start_consistent).
  destruct (steps_refine _ _ (start_consistent s ps) H) as [tr Hr]. rewrite abstraction_start in Hr.
  assert (length (cf_pool c) = length ps) as Hlen.
  { clear -H. remember (start s ps) as c0 eqn:E0.
    assert (length (cf_pool c0) = length ps) as H0 by (subst; cbn; by rewrite length_fmap).
    clear E0. induction H as [|c0 c1 c (i & g & s1 & mu & g' & _ & _ & ->) _ IH]; [done|].
    apply IH. cbn. by rewrite length_insert. }
  split_and!.
  - intros Hm. exists (abstraction c).2, tr. split; [by apply unlocked_outside|].
    rewrite <- settled_unlocked by done. exact Hr.
  - apply step_sn.
  - intros Hnf. pose proof (progress c Hc Hnf) as Hp.
    assert (cf_pool c = (λ _, Outside Exit) <$> ps) as Hps.
    { rewrite Hp. clear -Hlen. revert ps Hlen. induction (cf_pool c) as [|g gs IH];
        intros [|p ps]; intros [=]; cbn; [done|]. f_equal. by apply IH. }
    split; [done|]. exists tr.
    assert (abstraction c = (cf_state c, (λ _, Exit) <$> ps)) as <-; [|done].
    unfold abstraction, settled. rewrite Hps, <- list_fmap_compose. f_equal.
    destruct (cf_mutex c); [|done]. rewrite list_lookup_fmap. by destruct (ps !! i).
Qed.
End lemmas.
Arguments atomic_object {_ _ _} _.

(** Running a schedule takes steps. *)
Lemma run_schedule_steps {S Op res} `{L : Locked S Op res} sched (c : config S Op res) :
  rtc step c (run_schedule sched c).
Proof.
  revert c. induction sched as [|i sched IH]; intros c; [done|]. cbn.
  destruct (cf_pool c !! i) as [g|] eqn:Hg; [|apply IH].
  destruct (advance i g _ _) as [[[s mu] g']|] eqn:E; [|apply IH].
  eapply rtc_l; [|apply IH]. by exists i, g, s, mu, g'.
Qed.
