(* ===== verification/GoString.v ===== *)
(** * The part of Go's [strings], [unicode], [utf8] and [strconv] the program uses

    Definitions follow the documented behaviour of the standard library on
    arbitrary byte sequences (invalid UTF-8 included): [DecodeRune] is
    [utf8.DecodeRuneInString], [runes] is what [range s] and [[]rune(s)] yield,
    [TrimSpace], [Index], [HasPrefix] and so on are the functions of package
    [strings], [Quote] is [%q], [FormatInt] is [%d]. *)

From Stdlib Require DecimalPos.
From S2P Require Import Prelude.
Open Scope Z_scope.

(** ** Bytes as integers *)

Definition byteZ (b : byte) : Z := Z.of_N (Byte.to_N b).
Definition byte_of_Z (z : Z) : byte := default x00 (Byte.of_N (Z.to_N z)).

Lemma byteZ_range b : 0 ≤ byteZ b < 256.
Proof. unfold byteZ. pose proof (Byte.to_N_bounded b). lia. Qed.

Lemma byteZ_of_Z z : 0 ≤ z < 256 → byteZ (byte_of_Z z) = z.
Proof.
  intros Hz. unfold byteZ, byte_of_Z.
  destruct (Byte.of_N (Z.to_N z)) as [b|] eqn:E; cbn.
  - apply Byte.to_of_N in E. lia.
  - apply Byte.of_N_None_iff in E. lia.
Qed.

Lemma byte_of_Z_byteZ b : byte_of_Z (byteZ b) = b.
Proof. unfold byteZ, byte_of_Z. by rewrite N2Z.id, Byte.of_to_N. Qed.

#[global] Instance byteZ_inj : Inj (=) (=) byteZ.
Proof. intros a b H. by rewrite <- (byte_of_Z_byteZ a), H, byte_of_Z_byteZ. Qed.

(** ** UTF-8 *)

Definition RuneError : Z := 0xFFFD.
Definition RuneSelf : Z := 0x80.

Definition within (lo hi z : Z) : bool := (lo <=? z) && (z <=? hi).

(** [utf8.ValidRune]: a Unicode scalar value. *)
Definition ValidRune (r : Z) : bool := within 0 0xD7FF r || within 0xE000 0x10FFFF r.

(** [utf8.RuneStart]: not a continuation byte. *)
Definition RuneStart (b : byte) : bool := negb (within 0x80 0xBF (byteZ b)).

(** A lead byte: the number of bytes of its sequence and the range its second
    byte must be in. *)
Definition lead (c : Z) : option (nat * Z * Z) :=
  if within 0xC2 0xDF c then Some (2%nat, 0x80, 0xBF)
  else if c =? 0xE0 then Some (3%nat, 0xA0, 0xBF)
  else if c =? 0xED then Some (3%nat, 0x80, 0x9F)
  else if within 0xE1 0xEF c then Some (3%nat, 0x80, 0xBF)
  else if c =? 0xF0 then Some (4%nat, 0x90, 0xBF)
  else if within 0xF1 0xF3 c then Some (4%nat, 0x80, 0xBF)
  else if c =? 0xF4 then Some (4%nat, 0x80, 0x8F)
  else None.

(** [utf8.DecodeRuneInString]: the first rune and its width. *)
Definition DecodeRune (s : gostring) : Z * nat :=
  match s with
  | [] => (RuneError, 0%nat)
  | b0 :: t =>
      let c0 := byteZ b0 in
      if c0 <? RuneSelf then (c0, 1%nat) else
      match lead c0, t with
      | Some (2%nat, lo, hi), b1 :: _ =>
          if within lo hi (byteZ b1)
          then (c0 mod 32 * 64 + byteZ b1 mod 64, 2%nat) else (RuneError, 1%nat)
      | Some (3%nat, lo, hi), b1 :: b2 :: _ =>
          if within lo hi (byteZ b1) && within 0x80 0xBF (byteZ b2)
          then ((c0 mod 16 * 64 + byteZ b1 mod 64) * 64 + byteZ b2 mod 64, 3%nat)
          else (RuneError, 1%nat)
      | Some (4%nat, lo, hi), b1 :: b2 :: b3 :: _ =>
          if within lo hi (byteZ b1) && within 0x80 0xBF (byteZ b2)
             && within 0x80 0xBF (byteZ b3)
          then (((c0 mod 8 * 64 + byteZ b1 mod 64) * 64 + byteZ b2 mod 64) * 64
                + byteZ b3 mod 64, 4%nat)
          else (RuneError, 1%nat)
      | _, _ => (RuneError, 1%nat)
      end
  end.

(** [utf8.AppendRune]: an invalid rune is written as U+FFFD. *)
Definition EncodeRune (r0 : Z) : gostring :=
  let r := if ValidRune r0 then r0 else RuneError in
  if r <? 0x80 then [byte_of_Z r]
  else if r <? 0x800 then [byte_of_Z (0xC0 + r / 64); byte_of_Z (0x80 + r mod 64)]
  else if r <? 0x10000 then
    [byte_of_Z (0xE0 + r / 4096); byte_of_Z (0x80 + r / 64 mod 64);
     byte_of_Z (0x80 + r mod 64)]
  else
    [byte_of_Z (0xF0 + r / 262144); byte_of_Z (0x80 + r / 4096 mod 64);
     byte_of_Z (0x80 + r / 64 mod 64); byte_of_Z (0x80 + r mod 64)].

(** The runes of [s], in order; [skip] counts the bytes of the current rune
    still to be passed. *)
Fixpoint runes_from (skip : nat) (s : gostring) : list Z :=
  match s with
  | [] => []
  | _ :: s' =>
      match skip with
      | S k => runes_from k s'
      | O => let '(r, w) := DecodeRune s in r :: runes_from (pred w) s'
      end
  end.

(** [[]rune(s)]. *)
Definition runes (s : gostring) : list Z := runes_from 0 s.
(** [string(rs)]. *)
Definition string_of_runes (rs : list Z) : gostring := mjoin (EncodeRune <$> rs).
(** [utf8.RuneCountInString]. *)
Definition RuneCount (s : gostring) : Z := Z.of_nat (length (runes s)).
(** [len(s)]. *)
Definition len {A} (l : list A) : Z := Z.of_nat (length l).

(** ** White space *)

(** [unicode.IsSpace]. *)
Definition IsSpace (r : Z) : bool :=
  within 9 13 r || (r =? 0x20) || (r =? 0x85) || (r =? 0xA0) || (r =? 0x1680)
  || within 0x2000 0x200A r || (r =? 0x2028) || (r =? 0x2029) || (r =? 0x202F)
  || (r =? 0x205F) || (r =? 0x3000).

Fixpoint trim_left_from (skip : nat) (s : gostring) : gostring :=
  match s with
  | [] => []
  | _ :: s' =>
      match skip with
      | S k => trim_left_from k s'
      | O => let '(r, w) := DecodeRune s in
             if IsSpace r then trim_left_from (pred w) s' else s
      end
  end.

(** [strings.TrimLeftFunc(s, unicode.IsSpace)]. *)
Definition TrimLeft (s : gostring) : gostring := trim_left_from 0 s.

(** The last [k] bytes. *)
Definition tail_bytes (k : nat) (s : gostring) : gostring := drop (length s - k) s.

(** [utf8.DecodeLastRuneInString]: go back to the nearest byte that starts a
    rune, at most four bytes; what is decoded there must reach the end. *)
Fixpoint decode_last_at (tries k : nat) (s : gostring) : Z * nat :=
  match tries with
  | O => (RuneError, 1%nat)
  | S tries' =>
      match tail_bytes k s with
      | b :: t =>
          if RuneStart b then
            let '(r, w) := DecodeRune (b :: t) in
            if (w =? k)%nat then (r, w) else (RuneError, 1%nat)
          else if (length s <=? k)%nat then (RuneError, 1%nat)
          else decode_last_at tries' (S k) s
      | [] => (RuneError, 0%nat)
      end
  end.

Definition DecodeLastRune (s : gostring) : Z * nat := decode_last_at 4 1 s.

Fixpoint trim_right_fuel (fuel : nat) (s : gostring) : gostring :=
  match fuel, s with
  | S fuel', _ :: _ =>
      let '(r, w) := DecodeLastRune s in
      if IsSpace r then trim_right_fuel fuel' (take (length s - w) s) else s
  | _, _ => s
  end.

(** [strings.TrimRightFunc(s, unicode.IsSpace)]; every round drops a byte. *)
Definition TrimRight (s : gostring) : gostring := trim_right_fuel (length s) s.

(** [strings.TrimSpace]. *)
Definition TrimSpace (s : gostring) : gostring := TrimRight (TrimLeft s).

(** ** Searching and cutting *)

Definition HasPrefix (s p : gostring) : bool := bool_decide (p `prefix_of` s).
Definition HasSuffix (s p : gostring) : bool := bool_decide (p `suffix_of` s).
Definition TrimPrefix (s p : gostring) : gostring :=
  if HasPrefix s p then drop (length p) s else s.
Definition TrimSuffix (s p : gostring) : gostring :=
  if HasSuffix s p then take (length s - length p) s else s.

(** [strings.Index], [None] for -1. *)
Fixpoint Index (s sub : gostring) : option nat :=
  if HasPrefix s sub then Some 0%nat else
  match s with
  | [] => None
  | _ :: s' => S <$> Index s' sub
  end.

Definition Contains (s sub : gostring) : bool := bool_decide (is_Some (Index s sub)).

(** [strings.Join]. *)
Fixpoint Join (parts : list gostring) (sep : gostring) : gostring :=
  match parts with
  | [] => []
  | [p] => p
  | p :: ps => p ++ sep ++ Join ps sep
  end.

(** [strings.Split] at a one-byte separator. *)
Fixpoint SplitByte (s : gostring) (sep : byte) : list gostring :=
  match s with
  | [] => [[]]
  | b :: s' =>
      if decide (b = sep) then [] :: SplitByte s' sep
      else match SplitByte s' sep with
           | p :: ps => (b :: p) :: ps
           | [] => [[b]]
           end
  end.

(** ** Numbers as text *)

Fixpoint uint_bytes (u : Decimal.uint) : gostring :=
  match u with
  | Decimal.Nil => []
  | Decimal.D0 u => "0" ++ uint_bytes u
  | Decimal.D1 u => "1" ++ uint_bytes u
  | Decimal.D2 u => "2" ++ uint_bytes u
  | Decimal.D3 u => "3" ++ uint_bytes u
  | Decimal.D4 u => "4" ++ uint_bytes u
  | Decimal.D5 u => "5" ++ uint_bytes u
  | Decimal.D6 u => "6" ++ uint_bytes u
  | Decimal.D7 u => "7" ++ uint_bytes u
  | Decimal.D8 u => "8" ++ uint_bytes u
  | Decimal.D9 u => "9" ++ uint_bytes u
  end.

(** [strconv.FormatInt(z, 10)], the [%d] verb. *)
Definition FormatInt (z : Z) : gostring :=
  match Z.to_int z with
  | Decimal.Pos u => uint_bytes u
  | Decimal.Neg u => "-" ++ uint_bytes u
  end.

Definition hex_digit (z : Z) : byte :=
  byte_of_Z (if z <? 10 then 0x30 + z else 0x57 + z).
Fixpoint hex (digits : nat) (z : Z) : gostring :=
  match digits with
  | O => []
  | S d => hex_digit (z / 16 ^ Z.of_nat d mod 16) :: hex d z
  end.

(** ** Unicode tables

    The two properties of non-ASCII runes the program's calls to
    [strings.ToLower] and [%q] depend on.  Their values for ASCII are fixed
    below; the tables themselves are a parameter. *)

Class UnicodeTables := {
  table_ToLower : Z → Z;
  table_IsPrint : Z → bool;
}.

(** The tables restricted to ASCII: nothing else has a lower case or is
    printable. *)
Definition ascii_tables : UnicodeTables :=
  {| table_ToLower := λ r, r; table_IsPrint := λ _, false |}.

Section tables.
Context `{UT : UnicodeTables}.

Definition RuneToLower (r : Z) : Z :=
  if r <? RuneSelf then (if within 0x41 0x5A r then r + 32 else r)
  else table_ToLower r.

(** [strings.ToLower]. *)
Definition ToLower (s : gostring) : gostring :=
  string_of_runes (RuneToLower <$> runes s).

Definition IsPrint (r : Z) : bool :=
  if r <? RuneSelf then within 0x20 0x7E r else table_IsPrint r.

Definition quote_rune (r : Z) : gostring :=
  if (r =? 0x22) || (r =? 0x5C) then "\" ++ [byte_of_Z r]
  else if IsPrint r then EncodeRune r
  else if r =? 7 then "\a" else if r =? 8 then "\b" else if r =? 12 then "\f"
  else if r =? 10 then "\n" else if r =? 13 then "\r" else if r =? 9 then "\t"
  else if r =? 11 then "\v"
  else if (r <? 0x20) || (r =? 0x7F) then "\x" ++ hex 2 r
  else if r <? 0x10000 then "\u" ++ hex 4 r else "\U" ++ hex 8 r.

Fixpoint quote_from (skip : nat) (s : gostring) : gostring :=
  match s with
  | [] => []
  | b :: s' =>
      match skip with
      | S k => quote_from k s'
      | O => let '(r, w) := DecodeRune s in
             (if (r =? RuneError) && (w =? 1)%nat then "\x" ++ hex 2 (byteZ b)
              else quote_rune r) ++ quote_from (pred w) s'
      end
  end.

(** [strconv.Quote], the [%q] verb; the quotes are byte 0x22. *)
Definition Quote (s : gostring) : gostring := [x22] ++ quote_from 0 s ++ [x22].
End tables.

#[global] Arguments DecodeRune : simpl never.
#[global] Arguments EncodeRune : simpl never.
#[global] Arguments DecodeLastRune : simpl never.
#[global] Arguments IsSpace : simpl never.
#[global] Arguments TrimSpace : simpl never.
#[global] Arguments FormatInt : simpl never.
#[global] Arguments Quote : simpl never.

(** ** Lemmas on decoding *)

Ltac bool_simp :=
  repeat match goal with
  | H : within _ _ _ = true |- _ => unfold within in H
  | H : within _ _ _ = false |- _ => unfold within in H
  | H : _ && _ = true |- _ => apply andb_prop in H as [? ?]
  | H : _ && _ = false |- _ => apply andb_false_iff in H as [?|?]
  | H : _ || _ = false |- _ => apply orb_false_iff in H as [? ?]
  | H : (_ <=? _) = true |- _ => apply Z.leb_le in H
  | H : (_ <=? _) = false |- _ => apply Z.leb_gt in H
  | H : (_ <? _) = true |- _ => apply Z.ltb_lt in H
  | H : (_ <? _) = false |- _ => apply Z.ltb_ge in H
  | H : (_ =? _) = true |- _ => apply Z.eqb_eq in H
  | H : (_ =? _) = false |- _ => apply Z.eqb_neq in H
  end.

Lemma len_nonneg {A} (l : list A) : 0 ≤ len l.
Proof. unfold len. lia. Qed.

Lemma len_app {A} (l k : list A) : len (l ++ k) = len l + len k.
Proof. unfold len. rewrite length_app. lia. Qed.

Lemma len_cons {A} (x : A) l : len (x :: l) = len l + 1.
Proof. unfold len. cbn [length]. lia. Qed.

Lemma withinP lo hi z : within lo hi z = true ↔ lo ≤ z ≤ hi.
Proof. unfold within. rewrite andb_true_iff, !Z.leb_le. done. Qed.

Lemma within_false lo hi z : within lo hi z = false ↔ z < lo ∨ hi < z.
Proof. unfold within. rewrite andb_false_iff, !Z.leb_gt. done. Qed.

Lemma ValidRuneP r :
  ValidRune r = true ↔ 0 ≤ r ≤ 0xD7FF ∨ 0xE000 ≤ r ≤ 0x10FFFF.
Proof. unfold ValidRune. rewrite orb_true_iff, !withinP. done. Qed.

(** The lead bytes and the ranges that keep the decoded rune a scalar value. *)
Lemma lead_spec c n lo hi :
  lead c = Some (n, lo, hi) →
  0x80 ≤ lo ∧ hi ≤ 0xBF ∧
  ((n = 2%nat ∧ 0xC2 ≤ c ≤ 0xDF) ∨
   (n = 3%nat ∧ 0xE0 ≤ c ≤ 0xEF ∧ (c = 0xE0 → lo = 0xA0) ∧ (c = 0xED → hi = 0x9F)) ∨
   (n = 4%nat ∧ 0xF0 ≤ c ≤ 0xF4 ∧ (c = 0xF0 → lo = 0x90) ∧ (c = 0xF4 → hi = 0x8F))).
Proof.
  unfold lead. intros H.
  repeat case_match; simplify_eq; bool_simp; lia.
Qed.

Lemma EncodeRune_valid r : ValidRune r = true →
  EncodeRune r =
    if r <? 0x80 then [byte_of_Z r]
    else if r <? 0x800 then [byte_of_Z (0xC0 + r / 64); byte_of_Z (0x80 + r mod 64)]
    else if r <? 0x10000 then
      [byte_of_Z (0xE0 + r / 4096); byte_of_Z (0x80 + r / 64 mod 64);
       byte_of_Z (0x80 + r mod 64)]
    else
      [byte_of_Z (0xF0 + r / 262144); byte_of_Z (0x80 + r / 4096 mod 64);
       byte_of_Z (0x80 + r / 64 mod 64); byte_of_Z (0x80 + r mod 64)].
Proof. unfold EncodeRune. by intros ->. Qed.

Lemma byte_eq b z : byteZ b = z → b = byte_of_Z z.
Proof. intros <-. by rewrite byte_of_Z_byteZ. Qed.

Ltac bytes_range :=
  repeat match goal with
  | |- context [byteZ ?b] =>
      lazymatch goal with
      | _ : 0 ≤ byteZ b < 256 |- _ => fail
      | _ => pose proof (byteZ_range b)
      end
  | _ : context [byteZ ?b] |- _ =>
      lazymatch goal with
      | _ : 0 ≤ byteZ b < 256 |- _ => fail
      | _ => pose proof (byteZ_range b)
      end
  end.

(** What [DecodeRune] returns on a non-empty string: either a scalar value whose
    encoding is exactly the bytes consumed, or U+FFFD for one invalid byte. *)
Variant decoded (s : gostring) : Z * nat → Prop :=
| decoded_rune r : ValidRune r = true →
    take (length (EncodeRune r)) s = EncodeRune r →
    decoded s (r, length (EncodeRune r))
| decoded_error : decoded s (RuneError, 1%nat).

Lemma decode2 b0 b1 s :
  0xC2 ≤ byteZ b0 ≤ 0xDF → 0x80 ≤ byteZ b1 ≤ 0xBF →
  decoded (b0 :: b1 :: s) (byteZ b0 mod 32 * 64 + byteZ b1 mod 64, 2%nat).
Proof.
  intros H0 H1. set (r := _ + _).
  assert (Hr : 0x80 ≤ r < 0x800) by (unfold r; Z.div_mod_to_equations; lia).
  assert (Hv : ValidRune r = true) by (apply ValidRuneP; lia).
  assert (He : EncodeRune r = [b0; b1]).
  { rewrite EncodeRune_valid by done.
    rewrite (proj2 (Z.ltb_ge _ _)), (proj2 (Z.ltb_lt _ _)) by lia.
    repeat f_equal; symmetry; apply byte_eq; unfold r; Z.div_mod_to_equations; lia. }
  change 2%nat with (length [b0; b1]). rewrite <- He. constructor; [done|].
  rewrite He. done.
Qed.

Lemma decode3 b0 b1 b2 s :
  0xE0 ≤ byteZ b0 ≤ 0xEF → 0x80 ≤ byteZ b1 ≤ 0xBF → 0x80 ≤ byteZ b2 ≤ 0xBF →
  (byteZ b0 = 0xE0 → 0xA0 ≤ byteZ b1) → (byteZ b0 = 0xED → byteZ b1 ≤ 0x9F) →
  decoded (b0 :: b1 :: b2 :: s)
    ((byteZ b0 mod 16 * 64 + byteZ b1 mod 64) * 64 + byteZ b2 mod 64, 3%nat).
Proof.
  intros H0 H1 H2 Hlo Hhi. set (r := _ + _ mod _).
  assert (Hr : r = (byteZ b0 - 0xE0) * 4096 + (byteZ b1 - 0x80) * 64 + (byteZ b2 - 0x80))
    by (unfold r; Z.div_mod_to_equations; lia).
  assert (Hv : ValidRune r = true) by (apply ValidRuneP; lia).
  assert (He : EncodeRune r = [b0; b1; b2]).
  { rewrite EncodeRune_valid by done.
    rewrite (proj2 (Z.ltb_ge r 0x80)), (proj2 (Z.ltb_ge r 0x800)),
      (proj2 (Z.ltb_lt r _)) by lia.
    repeat f_equal; symmetry; apply byte_eq; rewrite Hr; Z.div_mod_to_equations; lia. }
  change 3%nat with (length [b0; b1; b2]). rewrite <- He. constructor; [done|].
  rewrite He. done.
Qed.

Lemma decode4 b0 b1 b2 b3 s :
  0xF0 ≤ byteZ b0 ≤ 0xF4 → 0x80 ≤ byteZ b1 ≤ 0xBF → 0x80 ≤ byteZ b2 ≤ 0xBF →
  0x80 ≤ byteZ b3 ≤ 0xBF →
  (byteZ b0 = 0xF0 → 0x90 ≤ byteZ b1) → (byteZ b0 = 0xF4 → byteZ b1 ≤ 0x8F) →
  decoded (b0 :: b1 :: b2 :: b3 :: s)
    (((byteZ b0 mod 8 * 64 + byteZ b1 mod 64) * 64 + byteZ b2 mod 64) * 64
     + byteZ b3 mod 64, 4%nat).
Proof.
  intros H0 H1 H2 H3 Hlo Hhi. set (r := _ + _ mod _).
  assert (Hr : r = (byteZ b0 - 0xF0) * 262144 + (byteZ b1 - 0x80) * 4096
                   + (byteZ b2 - 0x80) * 64 + (byteZ b3 - 0x80))
    by (unfold r; Z.div_mod_to_equations; lia).
  assert (Hv : ValidRune r = true) by (apply ValidRuneP; lia).
  assert (He : EncodeRune r = [b0; b1; b2; b3]).
  { rewrite EncodeRune_valid by done.
    rewrite (proj2 (Z.ltb_ge r 0x80)), (proj2 (Z.ltb_ge r 0x800)),
      (proj2 (Z.ltb_ge r 0x10000)) by lia.
    repeat f_equal; symmetry; apply byte_eq; rewrite Hr; Z.div_mod_to_equations; lia. }
  change 4%nat with (length [b0; b1; b2; b3]). rewrite <- He. constructor; [done|].
  rewrite He. done.
Qed.

Lemma decode1 b0 s : byteZ b0 < 0x80 → decoded (b0 :: s) (byteZ b0, 1%nat).
Proof.
  intros H0. bytes_range.
  assert (He : EncodeRune (byteZ b0) = [b0]).
  { rewrite EncodeRune_valid by (apply ValidRuneP; lia).
    rewrite (proj2 (Z.ltb_lt _ _)) by lia. by rewrite byte_of_Z_byteZ. }
  change 1%nat with (length [b0]). rewrite <- He. constructor.
  - apply ValidRuneP; lia.
  - rewrite He. done.
Qed.

Lemma DecodeRune_decoded s : s ≠ [] → decoded s (DecodeRune s).
Proof.
  intros Hs. destruct s as [|b0 t]; [done|]. unfold DecodeRune, RuneSelf.
  destruct (Z.ltb_spec (byteZ b0) 0x80); [by apply decode1|].
  destruct (lead (byteZ b0)) as [[[n lo] hi]|] eqn:E; [|constructor].
  apply lead_spec in E as (Hlo & Hhi & [(-> & E)|[(-> & E)|(-> & E)]]).
  - destruct t as [|b1 t]; [constructor|].
    destruct (within lo hi (byteZ b1)) eqn:W; [|constructor].
    apply withinP in W. apply decode2; lia.
  - destruct t as [|b1 [|b2 t]]; [constructor..|].
    destruct (_ && _) eqn:W; [|constructor]. bool_simp. apply decode3; lia.
  - destruct t as [|b1 [|b2 [|b3 t]]]; [constructor..|].
    destruct (_ && _) eqn:W; [|constructor]. bool_simp. apply decode4; lia.
Qed.

Lemma DecodeRune_encode r s :
  ValidRune r = true → DecodeRune (EncodeRune r ++ s) = (r, length (EncodeRune r)).
Proof.
  intros Hv. rewrite EncodeRune_valid by done. apply ValidRuneP in Hv.
  destruct (Z.ltb_spec r 0x80); [|destruct (Z.ltb_spec r 0x800);
    [|destruct (Z.ltb_spec r 0x10000)]];
    cbn [app length]; unfold DecodeRune, RuneSelf;
    rewrite !byteZ_of_Z by (Z.div_mod_to_equations; lia).
  - by rewrite (proj2 (Z.ltb_lt r 0x80)) by lia.
  - rewrite (proj2 (Z.ltb_ge _ _)) by (Z.div_mod_to_equations; lia).
    unfold lead. rewrite (proj2 (withinP 0xC2 0xDF _)) by (Z.div_mod_to_equations; lia).
    rewrite (proj2 (withinP 0x80 0xBF _)) by (Z.div_mod_to_equations; lia).
    f_equal. Z.div_mod_to_equations; lia.
  - rewrite (proj2 (Z.ltb_ge _ _)) by (Z.div_mod_to_equations; lia).
    destruct (lead (0xE0 + r / 4096)) as [[[n lo] hi]|] eqn:E.
    + assert (n = 3%nat ∧ within lo hi (0x80 + r / 64 mod 64) = true) as [-> ->].
      { unfold lead in E. rewrite withinP.
        repeat case_match; simplify_eq; bool_simp; Z.div_mod_to_equations; lia. }
      rewrite (proj2 (withinP 0x80 0xBF _)) by (Z.div_mod_to_equations; lia).
      cbn [andb]. f_equal. Z.div_mod_to_equations; lia.
    + exfalso. unfold lead in E.
      repeat case_match; simplify_eq; bool_simp; Z.div_mod_to_equations; lia.
  - rewrite (proj2 (Z.ltb_ge _ _)) by (Z.div_mod_to_equations; lia).
    destruct (lead (0xF0 + r / 262144)) as [[[n lo] hi]|] eqn:E.
    + assert (n = 4%nat ∧ within lo hi (0x80 + r / 4096 mod 64) = true) as [-> ->].
      { unfold lead in E. rewrite withinP.
        repeat case_match; simplify_eq; bool_simp; Z.div_mod_to_equations; lia. }
      rewrite !(proj2 (withinP 0x80 0xBF _)) by (Z.div_mod_to_equations; lia).
      cbn [andb]. f_equal. Z.div_mod_to_equations; lia.
    + exfalso. unfold lead in E.
      repeat case_match; simplify_eq; bool_simp; Z.div_mod_to_equations; lia.
Qed.

Lemma EncodeRune_length r : (1 ≤ length (EncodeRune r) ≤ 4)%nat.
Proof. unfold EncodeRune. repeat case_match; cbn; lia. Qed.

Lemma DecodeRune_width s :
  s ≠ [] → (1 ≤ (DecodeRune s).2 ≤ 4 ∧ (DecodeRune s).2 ≤ length s)%nat.
Proof.
  intros Hs. destruct (DecodeRune_decoded s Hs) as [r Hv Ht|]; cbn.
  - split; [apply EncodeRune_length|].
    apply (f_equal length) in Ht. rewrite length_take in Ht. lia.
  - destruct s; [done|]. cbn. lia.
Qed.

Lemma DecodeRune_valid s : ValidRune (DecodeRune s).1 = true.
Proof.
  destruct (decide (s = [])) as [->|Hs]; [done|].
  by destruct (DecodeRune_decoded s Hs).
Qed.

(** Decoding a non-empty prefix finds the same rune or, when the rune is cut, an
    error. *)
Lemma DecodeRune_prefix p s :
  p ≠ [] → p `prefix_of` s →
  DecodeRune p = DecodeRune s ∨ DecodeRune p = (RuneError, 1%nat).
Proof.
  intros Hp [t ->]. destruct (DecodeRune_decoded p Hp) as [r Hv Ht|]; [left|right; done].
  rewrite <- (take_drop (length (EncodeRune r)) p), Ht, <- app_assoc.
  by rewrite DecodeRune_encode.
Qed.

(** ** Lemmas on runes *)

Lemma runes_from_drop k s : runes_from k s = runes (drop k s).
Proof.
  revert k. induction s as [|b s IH]; intros [|k]; try done. cbn. apply IH.
Qed.

Lemma runes_cons s : s ≠ [] →
  runes s = (DecodeRune s).1 :: runes (drop (DecodeRune s).2 s).
Proof.
  intros Hs. pose proof (DecodeRune_width s Hs) as [? _].
  destruct s as [|b s]; [done|]. unfold runes at 1. cbn [runes_from].
  destruct (DecodeRune (b :: s)) as [r w]; cbn in *. rewrite runes_from_drop.
  destruct w; [lia|]. done.
Qed.

(** Induction on a string rune by rune. *)
Lemma rune_ind (P : gostring → Prop) :
  P [] → (∀ s, s ≠ [] → P (drop (DecodeRune s).2 s) → P s) → ∀ s, P s.
Proof.
  intros H0 H1 s. remember (length s) as n eqn:Hn. revert s Hn.
  induction (lt_wf n) as [n _ IH]. intros s ->.
  destruct (decide (s = [])) as [->|Hs]; [done|].
  pose proof (DecodeRune_width s Hs). apply H1; [done|].
  eapply IH; [|done]. rewrite length_drop. lia.
Qed.

Lemma runes_encode_app r s :
  ValidRune r = true → runes (EncodeRune r ++ s) = r :: runes s.
Proof.
  intros Hv. pose proof (EncodeRune_length r).
  rewrite runes_cons by (destruct (EncodeRune r); cbn in *; [lia|done]).
  rewrite DecodeRune_encode by done. cbn. by rewrite drop_app_length.
Qed.

Lemma string_of_runes_cons r rs :
  string_of_runes (r :: rs) = EncodeRune r ++ string_of_runes rs.
Proof. done. Qed.

(** [[]rune(string(rs) + s)] gives back valid runes. *)
Lemma runes_string_of_runes_app rs s :
  Forall (λ r, ValidRune r = true) rs →
  runes (string_of_runes rs ++ s) = rs ++ runes s.
Proof.
  induction 1 as [|r rs Hr _ IH]; [done|].
  by rewrite string_of_runes_cons, <- app_assoc, runes_encode_app, IH.
Qed.

Lemma runes_string_of_runes rs :
  Forall (λ r, ValidRune r = true) rs → runes (string_of_runes rs) = rs.
Proof.
  intros H. rewrite <- (app_nil_r (string_of_runes rs)).
  rewrite runes_string_of_runes_app by done. by rewrite app_nil_r.
Qed.

Lemma runes_valid s : Forall (λ r, ValidRune r = true) (runes s).
Proof.
  induction s as [|s Hs IH] using rune_ind; [done|].
  rewrite runes_cons by done. constructor; [apply DecodeRune_valid|done].
Qed.

Lemma string_of_runes_app rs rs' :
  string_of_runes (rs ++ rs') = string_of_runes rs ++ string_of_runes rs'.
Proof. unfold string_of_runes. by rewrite fmap_app, join_app. Qed.

Lemma runes_nil_inv s : runes s = [] → s = [].
Proof. intros H. destruct (decide (s = [])) as [|Hs]; [done|]. by rewrite runes_cons in H. Qed.

Lemma runes_length_le s : (length (runes s) ≤ length s)%nat.
Proof.
  induction s as [|s Hs IH] using rune_ind; [done|].
  rewrite runes_cons by done. pose proof (DecodeRune_width s Hs).
  cbn. rewrite length_drop in IH. lia.
Qed.

(** ** Lemmas on white space *)

Lemma trim_left_from_drop k s : trim_left_from k s = TrimLeft (drop k s).
Proof.
  revert k. induction s as [|b s IH]; intros [|k]; try done. cbn. apply IH.
Qed.

Lemma TrimLeft_cons s : s ≠ [] →
  TrimLeft s =
    if IsSpace (DecodeRune s).1 then TrimLeft (drop (DecodeRune s).2 s) else s.
Proof.
  intros Hs. pose proof (DecodeRune_width s Hs) as [? _].
  destruct s as [|b s]; [done|]. unfold TrimLeft at 1. cbn [trim_left_from].
  destruct (DecodeRune (b :: s)) as [r w]; cbn in *.
  destruct (IsSpace r); [|done]. rewrite trim_left_from_drop.
  destruct w; [lia|]. done.
Qed.

Lemma IsSpace_RuneError : IsSpace RuneError = false.
Proof. done. Qed.

(** The result of [TrimLeft] is empty or starts with a rune that is not white
    space; such strings are its fixed points. *)
Definition starts_visible (s : gostring) : Prop := IsSpace (DecodeRune s).1 = false.

Lemma TrimLeft_starts s : starts_visible (TrimLeft s).
Proof.
  induction s as [|s Hs IH] using rune_ind; [done|].
  rewrite TrimLeft_cons by done. destruct (IsSpace (DecodeRune s).1) eqn:E; done.
Qed.

Lemma TrimLeft_fixed s : starts_visible s → TrimLeft s = s.
Proof.
  intros H. destruct (decide (s = [])) as [->|Hs]; [done|].
  rewrite TrimLeft_cons by done. by rewrite H.
Qed.

Lemma TrimLeft_suffix s : TrimLeft s `suffix_of` s.
Proof.
  induction s as [|s Hs IH] using rune_ind; [done|].
  rewrite TrimLeft_cons by done. case_match; [|done].
  etrans; [exact IH|]. apply drop_suffix.
Qed.

Lemma TrimLeft_nil s : TrimLeft s = [] ↔ Forall (λ r, IsSpace r = true) (runes s).
Proof.
  induction s as [|s Hs IH] using rune_ind; [done|].
  rewrite TrimLeft_cons, runes_cons, Forall_cons by done.
  destruct (IsSpace (DecodeRune s).1); [by rewrite IH; naive_solver|naive_solver].
Qed.

Lemma starts_visible_prefix p s :
  p `prefix_of` s → starts_visible s → starts_visible p.
Proof.
  unfold starts_visible. intros Hp Hs. destruct (decide (p = [])) as [->|Hn]; [done|].
  destruct (DecodeRune_prefix p s Hn Hp) as [->| ->]; done.
Qed.

Lemma decode_last_at_width tries k s :
  (1 ≤ k ≤ length s)%nat →
  (1 ≤ (decode_last_at tries k s).2 ≤ length s)%nat.
Proof.
  revert k. induction tries as [|n IH]; intros k Hk; cbn; [lia|].
  destruct (tail_bytes k s) as [|b t] eqn:E.
  { apply (f_equal length) in E. unfold tail_bytes in E. rewrite length_drop in E.
    cbn in E. lia. }
  destruct (RuneStart b).
  - destruct (DecodeRune (b :: t)) as [r w].
    destruct (Nat.eqb_spec w k) as [->|?]; cbn [snd]; lia.
  - destruct (Nat.leb_spec (length s) k); cbn; [lia|]. apply IH. lia.
Qed.

Lemma DecodeLastRune_width s : s ≠ [] → (1 ≤ (DecodeLastRune s).2 ≤ length s)%nat.
Proof. intros Hs. apply decode_last_at_width. destruct s; [done|cbn; lia]. Qed.

Lemma trim_right_fuel_enough n s :
  (length s ≤ n)%nat → trim_right_fuel n s = TrimRight s.
Proof.
  unfold TrimRight. remember (length s) as m eqn:Hm. revert n s Hm.
  induction (lt_wf m) as [m _ IH]. intros n s -> Hn.
  destruct s as [|b s]; [by destruct n|]. destruct n as [|n]; [cbn in Hn; lia|].
  pose proof (DecodeLastRune_width (b :: s)) as Hw.
  cbn [trim_right_fuel length]. destruct (DecodeLastRune (b :: s)) as [r w].
  specialize (Hw ltac:(done)). cbn [snd length] in Hw.
  destruct (IsSpace r); [|done].
  set (t := take (S (length s) - w) (b :: s)).
  assert (length t ≤ length s)%nat by (unfold t; rewrite length_take; cbn in *; lia).
  cbn in Hn. etrans; [|symmetry]; eapply (IH (length t)); cbn; done || lia.
Qed.

Lemma TrimRight_cons s : s ≠ [] →
  TrimRight s =
    if IsSpace (DecodeLastRune s).1 then TrimRight (take (length s - (DecodeLastRune s).2) s)
    else s.
Proof.
  intros Hs. pose proof (DecodeLastRune_width s Hs) as Hw.
  unfold TrimRight at 1. destruct s as [|b s]; [done|]. cbn [trim_right_fuel length].
  destruct (DecodeLastRune (b :: s)) as [r w]. cbn [fst snd] in *.
  case_match; [|done]. apply trim_right_fuel_enough. rewrite length_take. cbn in *; lia.
Qed.

(** Strings that do not end in white space: the fixed points of [TrimRight]. *)
Definition ends_visible (s : gostring) : Prop := IsSpace (DecodeLastRune s).1 = false.

Lemma trim_right_ind (P : gostring → Prop) :
  P [] → (∀ s, s ≠ [] → P (take (length s - (DecodeLastRune s).2) s) → P s) → ∀ s, P s.
Proof.
  intros H0 H1 s. remember (length s) as n eqn:Hn. revert s Hn.
  induction (lt_wf n) as [n _ IH]. intros s ->.
  destruct (decide (s = [])) as [->|Hs]; [done|].
  pose proof (DecodeLastRune_width s Hs). apply H1; [done|].
  eapply IH; [|done]. rewrite length_take. lia.
Qed.

Lemma TrimRight_fixed s : ends_visible s → TrimRight s = s.
Proof.
  intros H. destruct (decide (s = [])) as [->|Hs]; [done|].
  rewrite TrimRight_cons by done. by rewrite H.
Qed.

Lemma TrimRight_ends s : ends_visible (TrimRight s).
Proof.
  induction s as [|s Hs IH] using trim_right_ind; [done|].
  rewrite TrimRight_cons by done. destruct (IsSpace _) eqn:E; done.
Qed.

Lemma TrimRight_prefix s : TrimRight s `prefix_of` s.
Proof.
  induction s as [|s Hs IH] using trim_right_ind; [done|].
  rewrite TrimRight_cons by done. case_match; [|done].
  etrans; [exact IH|]. apply prefix_take.
Qed.

Lemma TrimSpace_starts s : starts_visible (TrimSpace s).
Proof. eapply starts_visible_prefix; [apply TrimRight_prefix|apply TrimLeft_starts]. Qed.

Lemma TrimSpace_ends s : ends_visible (TrimSpace s).
Proof. apply TrimRight_ends. Qed.

Lemma TrimSpace_fixed s : starts_visible s → ends_visible s → TrimSpace s = s.
Proof. intros. unfold TrimSpace. by rewrite TrimLeft_fixed, TrimRight_fixed. Qed.

(** [strings.TrimSpace] is idempotent, on invalid UTF-8 too. *)
Lemma TrimSpace_idem s : TrimSpace (TrimSpace s) = TrimSpace s.
Proof. apply TrimSpace_fixed; [apply TrimSpace_starts|apply TrimSpace_ends]. Qed.

Lemma tail_bytes_app k q s : (k ≤ length s)%nat → tail_bytes k (q ++ s) = tail_bytes k s.
Proof.
  intros H. unfold tail_bytes. rewrite length_app.
  replace (length q + length s - k)%nat with (length q + (length s - k))%nat by lia.
  rewrite drop_app_ge by lia. f_equal. lia.
Qed.

(** A newline before a non-empty string cannot change its last rune into white
    space. *)
Lemma decode_last_at_newline tries k q s :
  (1 ≤ k ≤ length s)%nat →
  (decode_last_at tries k (q ++ x0a :: s)).1 = (decode_last_at tries k s).1.
Proof.
  rewrite cons_middle, app_assoc. generalize (eq_refl (q ++ [x0a])).
  generalize (q ++ [x0a]) at 2 3. intros q' Hq.
  revert k. induction tries as [|n IH]; intros k Hk; cbn [decode_last_at]; [done|].
  rewrite tail_bytes_app by lia. destruct (tail_bytes k s) as [|b t] eqn:E; [done|].
  destruct (RuneStart b); [by destruct (DecodeRune (b :: t)); destruct (_ =? _)%nat|].
  rewrite (proj2 (Nat.leb_gt _ _)) by (rewrite <- Hq, !length_app; cbn; lia).
  destruct (Nat.leb_spec (length s) k); [|apply IH; lia].
  destruct n as [|n]; [done|]. cbn [decode_last_at].
  assert (tail_bytes (S k) (q' ++ s) = x0a :: s) as ->.
  { unfold tail_bytes. rewrite <- Hq, <- app_assoc. cbn [app].
    rewrite !length_app. cbn [length].
    replace (length q + S (length s) - S k)%nat with (length q) by lia.
    apply drop_app_length. }
  change (RuneStart x0a) with true. cbn [DecodeRune].
  replace (DecodeRune (x0a :: s)) with (10, 1%nat) by done.
  destruct k as [|k]; [lia|done].
Qed.

Lemma ends_visible_newline q s : s ≠ [] → ends_visible s → ends_visible (q ++ x0a :: s).
Proof.
  intros Hs H. unfold ends_visible, DecodeLastRune in *. rewrite decode_last_at_newline; [done|].
  destruct s; [done|cbn; lia].
Qed.

(** An ASCII byte other than white space makes a string start visibly. *)
Lemma starts_visible_ascii b s :
  byteZ b < RuneSelf → IsSpace (byteZ b) = false → starts_visible (b :: s).
Proof.
  intros Hb Hs. unfold starts_visible, DecodeRune.
  by rewrite (proj2 (Z.ltb_lt _ _) Hb).
Qed.

(** So it does at the end. *)
Lemma ends_visible_ascii b s :
  byteZ b < RuneSelf → IsSpace (byteZ b) = false → ends_visible (s ++ [b]).
Proof.
  intros Hb Hs. assert (RuneStart b = true) as Hr.
  { unfold RuneStart. rewrite (proj2 (within_false _ _ _)); [done|]. unfold RuneSelf in Hb. lia. }
  assert (DecodeRune [b] = (byteZ b, 1%nat)) as Hd
    by (unfold DecodeRune; by rewrite (proj2 (Z.ltb_lt _ _) Hb)).
  unfold ends_visible, DecodeLastRune, decode_last_at.
  rewrite tail_bytes_app by (cbn; lia). change (tail_bytes 1 [b]) with [b]. cbv iota.
  by rewrite Hr, Hd.
Qed.

Lemma FormatInt_nonempty z : FormatInt z ≠ [].
Proof.
  assert (∀ u, u ≠ Decimal.Nil → uint_bytes u ≠ []) as Hu by by (intros []).
  unfold FormatInt. destruct z as [|p|p]; cbn; [done| |done].
  apply Hu, DecimalPos.Unsigned.to_uint_nonnil.
Qed.

(** Digits, after a sign. *)
Lemma FormatInt_bytes z :
  Forall (λ b, 0x30 <= byteZ b <= 0x39 \/ b = x2d) (FormatInt z).
Proof.
  assert (∀ u, Forall (λ b, 0x30 <= byteZ b <= 0x39 \/ b = x2d) (uint_bytes u)) as Hu.
  { intros u. induction u; cbn; constructor; try done; left; cbv; by split. }
  unfold FormatInt. destruct (Z.to_int z); [apply Hu|]. constructor; [by right|apply Hu].
Qed.

(** Nothing to trim: the first and the last byte are visible ASCII. *)
Lemma TrimSpace_visible (s : gostring) :
  Forall (λ b, byteZ b < RuneSelf ∧ IsSpace (byteZ b) = false) s → TrimSpace s = s.
Proof.
  intros H. destruct (decide (s = [])) as [->|Hne]; [reflexivity|]. apply TrimSpace_fixed.
  - destruct s as [|b s]; [done|]. apply Forall_cons in H as [[H1 H2] _]. by apply starts_visible_ascii.
  - destruct (exists_last Hne) as (s' & b & ->). apply Forall_app in H as [_ H].
    apply Forall_cons in H as [[H1 H2] _]. by apply ends_visible_ascii.
Qed.

Lemma TrimSpace_FormatInt z : TrimSpace (FormatInt z) = FormatInt z.
Proof.
  apply TrimSpace_visible. eapply Forall_impl; [apply FormatInt_bytes|]. cbn.
  intros b [Hb| ->]; [|by split]. unfold RuneSelf. split; [lia|].
  destruct (IsSpace (byteZ b)) eqn:E; [|done]. exfalso.
  by destruct b; vm_compute in Hb; try (destruct Hb; congruence); vm_compute in E.
Qed.

Lemma FormatInt_no_separator z : x1f ∉ FormatInt z.
Proof.
  intros H. pose proof (FormatInt_bytes z) as Hf. rewrite Forall_forall in Hf.
  apply Hf in H as [H|H]; [cbv in H; by destruct H|done].
Qed.

(** ** Lemmas on searching *)

(** [sub] occurs in [s] at position [i]. *)
Definition occurs_at (sub s : gostring) (i : nat) : Prop :=
  sub `prefix_of` drop i s ∧ (i ≤ length s)%nat.

Lemma occurs_at_app (a sub b : gostring) : occurs_at sub (a ++ sub ++ b) (length a).
Proof.
  split; [|rewrite length_app; lia]. rewrite drop_app_length. by eexists.
Qed.

Lemma occurs_at_cons sub b s i : occurs_at sub (b :: s) (S i) ↔ occurs_at sub s i.
Proof. unfold occurs_at. cbn. split; intros [? ?]; split; done || lia. Qed.

Lemma occurs_at_0 sub s : occurs_at sub s 0 ↔ sub `prefix_of` s.
Proof. unfold occurs_at. split; [by intros []|]. intros. split; [done|lia]. Qed.

(** [Index] finds the first occurrence. *)
Lemma Index_Some s sub i :
  Index s sub = Some i ↔ occurs_at sub s i ∧ ∀ j, (j < i)%nat → ¬ occurs_at sub s j.
Proof.
  revert i. induction s as [|b s IH]; intros i; cbn; unfold HasPrefix;
    case_bool_decide as Hp.
  - split; [intros [= <-]; split; [by apply occurs_at_0|lia]|].
    intros [[_ Hi] _]. cbn in Hi. f_equal; lia.
  - split; [done|]. intros [[Ho Hi] _]. cbn in Hi.
    replace i with 0%nat in Ho by lia. done.
  - split; [intros [= <-]; split; [by apply occurs_at_0|lia]|].
    intros [_ Hm]. destruct i; [done|]. exfalso.
    apply (Hm 0%nat); [lia|by apply occurs_at_0].
  - rewrite fmap_Some. split.
    + intros (j & Hj & ->). apply IH in Hj as [Ho Hm]. split; [by apply occurs_at_cons|].
      intros [|k] Hk; [by rewrite occurs_at_0|].
      rewrite occurs_at_cons. apply Hm. lia.
    + intros [Ho Hm]. destruct i as [|i]; [by apply occurs_at_0 in Ho|].
      exists i. split; [|done]. apply IH. rewrite occurs_at_cons in Ho.
      split; [done|]. intros j Hj. rewrite <- (occurs_at_cons sub b). apply Hm. lia.
Qed.

Lemma Index_None s sub : Index s sub = None ↔ ∀ i, ¬ occurs_at sub s i.
Proof.
  split.
  - intros H i. induction (lt_wf i) as [i _ IH]. intros Ho.
    assert (Index s sub = Some i) by (by apply Index_Some). congruence.
  - intros H. destruct (Index s sub) as [i|] eqn:E; [|done].
    apply Index_Some in E as [Ho _]. by apply H in Ho.
Qed.

Lemma Index_split s sub i :
  Index s sub = Some i → s = take i s ++ sub ++ drop (i + length sub) s.
Proof.
  intros [[[t Ht] _] _]%Index_Some. rewrite <- (take_drop i s) at 1. f_equal.
  rewrite Ht. f_equal. rewrite <- drop_drop, Ht. by rewrite drop_app_length.
Qed.

Lemma Index_lt s sub i :
  Index s sub = Some i → (i + length sub ≤ length s)%nat.
Proof.
  intros [[[t Ht] Hi] _]%Index_Some. apply (f_equal length) in Ht.
  rewrite length_drop, length_app in Ht. lia.
Qed.

(** ** Ordering

    Go compares strings byte by byte.  [sort.Slice] and [slices.SortFunc] are not
    stable: a client only knows that the result is an ordered permutation, which
    is all the class of sorting routines says. *)

Fixpoint str_leb (s t : gostring) : bool :=
  match s, t with
  | [], _ => true
  | _ :: _, [] => false
  | a :: s, b :: t =>
      if byteZ a <? byteZ b then true
      else if byteZ b <? byteZ a then false else str_leb s t
  end.

Definition str_le (s t : gostring) : Prop := str_leb s t = true.
#[global] Instance str_le_dec : RelDecision str_le.
Proof. intros s t. unfold str_le. apply _. Defined.

#[global] Instance str_le_total : Total str_le.
Proof.
  intros s. unfold str_le. induction s as [|a s IH]; intros [|b t]; cbn; auto.
  destruct (Z.ltb_spec (byteZ a) (byteZ b)), (Z.ltb_spec (byteZ b) (byteZ a)); auto; lia.
Qed.

#[global] Instance str_le_trans : Transitive str_le.
Proof.
  unfold str_le. intros s. induction s as [|a s IH]; intros [|b t] [|c u]; cbn; try done.
  destruct (Z.ltb_spec (byteZ a) (byteZ b)), (Z.ltb_spec (byteZ b) (byteZ a)),
    (Z.ltb_spec (byteZ b) (byteZ c)), (Z.ltb_spec (byteZ c) (byteZ b)),
    (Z.ltb_spec (byteZ a) (byteZ c)), (Z.ltb_spec (byteZ c) (byteZ a));
    try done; try lia. apply IH.
Qed.

#[global] Instance str_le_antisymm : AntiSymm (=) str_le.
Proof.
  unfold str_le. intros s. induction s as [|a s IH]; intros [|b t]; cbn; try done.
  destruct (Z.ltb_spec (byteZ a) (byteZ b)), (Z.ltb_spec (byteZ b) (byteZ a));
    try done; try lia.
  intros. assert (byteZ a = byteZ b) as <-%(inj _) by lia. f_equal. by apply IH.
Qed.

(** [sort.Slice(l, less)] with [less] comparing an integer key. *)
Class SortSlice := {
  sort_key : ∀ {A : Type}, (A → Z) → list A → list A;
  sort_key_Permutation : ∀ {A} (key : A → Z) (l : list A), sort_key key l ≡ₚ l;
  sort_key_Sorted : ∀ {A} (key : A → Z) (l : list A),
    StronglySorted (λ x y, key x ≤ key y) (sort_key key l);
}.

(** Merge sort is such a routine. *)
Section merge_sort_slice.
Context {A : Type} (key : A → Z).
Definition key_le (x y : A) : Prop := key x ≤ key y.
#[local] Instance key_le_dec : RelDecision key_le.
Proof. intros x y. unfold key_le. apply _. Defined.
#[local] Instance key_le_total : Total key_le.
Proof. intros x y. unfold key_le. lia. Qed.
#[local] Instance key_le_trans : Transitive key_le.
Proof. intros x y z. unfold key_le. lia. Qed.

Definition merge_sort_key (l : list A) : list A := merge_sort key_le l.

Lemma merge_sort_key_Permutation l : merge_sort_key l ≡ₚ l.
Proof. apply merge_sort_Permutation. Qed.
Lemma merge_sort_key_Sorted l :
  StronglySorted (λ x y, key x ≤ key y) (merge_sort_key l).
Proof. apply (StronglySorted_merge_sort key_le). Qed.
End merge_sort_slice.

Definition merge_SortSlice : SortSlice := {|
  sort_key := @merge_sort_key;
  sort_key_Permutation := @merge_sort_key_Permutation;
  sort_key_Sorted := @merge_sort_key_Sorted;
|}.

(** [slices.SortFunc] by name: with distinct names every sorting routine gives
    the same list, so one of them stands for all. *)
Section sort_name.
Context {A : Type} (name : A → gostring).
Definition name_le (x y : A) : Prop := str_le (name x) (name y).
#[local] Instance name_le_dec : RelDecision name_le.
Proof. intros x y. unfold name_le. apply _. Defined.
#[local] Instance name_le_total : Total name_le.
Proof. intros x y. apply str_le_total. Qed.
#[local] Instance name_le_trans : Transitive name_le.
Proof. intros x y z. apply str_le_trans. Qed.

Definition SortByName (l : list A) : list A := merge_sort name_le l.

Lemma SortByName_Permutation l : SortByName l ≡ₚ l.
Proof. apply merge_sort_Permutation. Qed.

Lemma SortByName_Sorted l : StronglySorted name_le (SortByName l).
Proof. apply (StronglySorted_merge_sort name_le). Qed.
End sort_name.
