(* ===== verification/Identity.v ===== *)
(** * Package [identity]: the tenant scope

    [src/pkg/agent_core/identity/scope.go].  Every prompt, tool call and memory
    row carries a [TenantScope]; [Validate] is the gate in front of all of them. *)

From S2P Require Import Prelude GoString.
Open Scope Z_scope.

(** Caps UserID / AgentID length, in bytes. *)
Definition MaxTenantFieldLen : Z := 128.

Record TenantScope := {
  UserID : gostring;
  AgentID : gostring;
}.

#[global] Instance TenantScope_eq_decision : EqDecision TenantScope.
Proof. solve_decision. Defined.

(** [ValidationError.ClientMessage]. *)
Definition ClientMessage (msg : gostring) : gostring :=
  if decide (msg = []) then "Invalid input." else msg.

(** [TenantScope.Validate]: [None] is a nil error. *)
Definition Validate (s : TenantScope) : option goerror :=
  if decide (UserID s = []) then
    Some (ValidationError "User identity (user_id) is required.")
  else if MaxTenantFieldLen <? len (UserID s) then
    Some (ValidationError "User identity (user_id) is too long.")
  else if decide (AgentID s = []) then
    Some (ValidationError "Agent identity (agent_id) is required.")
  else if MaxTenantFieldLen <? len (AgentID s) then
    Some (ValidationError "Agent identity (agent_id) is too long.")
  else None.

(** What a validated scope is. *)
Definition scope_wf (s : TenantScope) : Prop :=
  0 < len (UserID s) ≤ MaxTenantFieldLen ∧ 0 < len (AgentID s) ≤ MaxTenantFieldLen.

Lemma len_pos {A} (l : list A) : 0 < len l ↔ l ≠ [].
Proof. unfold len. destruct l; cbn; split; done || lia. Qed.

Lemma Validate_None s : Validate s = None ↔ scope_wf s.
Proof.
  unfold Validate, scope_wf. rewrite !len_pos.
  destruct (decide (UserID s = [])); [naive_solver|].
  destruct (Z.ltb_spec MaxTenantFieldLen (len (UserID s))); [split; [done|lia]|].
  destruct (decide (AgentID s = [])); [naive_solver|].
  destruct (Z.ltb_spec MaxTenantFieldLen (len (AgentID s))); [split; [done|lia]|].
  naive_solver.
Qed.

(** Every failure of [Validate] is a [ValidationError] with a non-empty message,
    safe to show to the client. *)
Lemma Validate_Some s e :
  Validate s = Some e → ∃ m, e = ValidationError m ∧ m ≠ [] ∧ ClientMessage m = m.
Proof.
  unfold Validate. intros H. repeat case_match; simplify_eq; eexists; split_and!; done.
Qed.
