(* ===== verification/Transcript.v ===== *)
(** * Package [transcript]: the message model shared by every component

    [src/pkg/agent_core/transcript/message.go], and the notion of a transcript
    whose tool results all answer a tool call ([no_orphans]), the invariant the
    compactor and the ReAct loop must keep: chat-completions backends reject a
    [tool] message that does not follow the assistant message that asked for it. *)

From S2P Require Import Prelude GoString.
Open Scope Z_scope.

(** [type Role string]. *)
Abbreviation Role := gostring.
Definition RoleSystem : Role := "system".
Definition RoleUser : Role := "user".
Definition RoleAssistant : Role := "assistant".
Definition RoleTool : Role := "tool".

Record ToolCall := {
  tc_ID : gostring;
  tc_Type : gostring;
  tc_Name : gostring;
  tc_Arguments : gostring;
}.

Record Message := {
  m_Role : Role;
  m_Content : gostring;
  m_ToolCalls : list ToolCall;
  m_ToolCallID : gostring;
}.

#[global] Instance ToolCall_eq_decision : EqDecision ToolCall.
Proof. solve_decision. Defined.
#[global] Instance Message_eq_decision : EqDecision Message.
Proof. solve_decision. Defined.

(** [Message.Clone]: the struct is copied, its slice of tool calls too when it is
    not empty; a value-level model has no sharing to break, so the copy is
    [append(nil, m.ToolCalls...)]. *)
Definition Clone (m : Message) : Message :=
  if decide (0 < len (m_ToolCalls m)) then
    {| m_Role := m_Role m; m_Content := m_Content m;
       m_ToolCalls := [] ++ m_ToolCalls m; m_ToolCallID := m_ToolCallID m |}
  else m.

Lemma Clone_id m : Clone m = m.
Proof. unfold Clone. case_decide; by destruct m. Qed.

(** A message with only a role and a content. *)
Definition text_message (r : Role) (c : gostring) : Message :=
  {| m_Role := r; m_Content := c; m_ToolCalls := []; m_ToolCallID := [] |}.

(** [m] with another content. *)
Definition with_content (m : Message) (c : gostring) : Message :=
  {| m_Role := m_Role m; m_Content := c; m_ToolCalls := m_ToolCalls m;
     m_ToolCallID := m_ToolCallID m |}.

(** ** Transcripts without orphan tool results *)

Definition is_role (r : Role) (m : Message) : bool := bool_decide (m_Role m = r).

Definition call_ids (m : Message) : list gostring := tc_ID <$> m_ToolCalls m.

(** The tool-call ids that a [tool] message right after [m] may answer: those of
    the assistant message that opened the current round. *)
Definition open_ids (ids : list gostring) (m : Message) : list gostring :=
  if is_role RoleTool m then ids
  else if is_role RoleAssistant m then call_ids m
  else [].

Definition answers (ids : list gostring) (m : Message) : bool :=
  implb (is_role RoleTool m) (bool_decide (m_ToolCallID m ∈ ids)).

Fixpoint no_orphans_from (ids : list gostring) (msgs : list Message) : bool :=
  match msgs with
  | [] => true
  | m :: ms => answers ids m && no_orphans_from (open_ids ids m) ms
  end.

(** Every [tool] message belongs to the round opened by the nearest message
    before it that is not a [tool] message. *)
Definition no_orphans (msgs : list Message) : bool := no_orphans_from [] msgs.

(** The open ids at the end of a transcript. *)
Fixpoint open_after (ids : list gostring) (msgs : list Message) : list gostring :=
  match msgs with
  | [] => ids
  | m :: ms => open_after (open_ids ids m) ms
  end.

Lemma no_orphans_from_app ids l k :
  no_orphans_from ids (l ++ k) =
  no_orphans_from ids l && no_orphans_from (open_after ids l) k.
Proof.
  revert ids. induction l as [|m l IH]; intros ids; [done|]. cbn.
  by rewrite IH, andb_assoc.
Qed.

Lemma open_after_app ids l k : open_after ids (l ++ k) = open_after (open_after ids l) k.
Proof. revert ids. induction l as [|m l IH]; intros ids; [done|]. apply IH. Qed.

Lemma is_role_true r m : is_role r m = true ↔ m_Role m = r.
Proof. unfold is_role. by rewrite bool_decide_eq_true. Qed.

Lemma is_role_false r m : is_role r m = false ↔ m_Role m ≠ r.
Proof. unfold is_role. by rewrite bool_decide_eq_false. Qed.

(** A transcript that does not start with a [tool] message does not depend on
    the open round. *)
Lemma no_orphans_from_head ids ids' m ms :
  m_Role m ≠ RoleTool →
  no_orphans_from ids (m :: ms) = no_orphans_from ids' (m :: ms).
Proof.
  intros H%is_role_false. cbn. unfold answers, open_ids. by rewrite H.
Qed.

(** More open ids keep a transcript orphan free. *)
Lemma no_orphans_from_mono ids ids' msgs :
  ids ⊆ ids' → no_orphans_from ids msgs = true → no_orphans_from ids' msgs = true.
Proof.
  revert ids ids'. induction msgs as [|m ms IH]; intros ids ids' Hs; [done|]. cbn.
  rewrite !andb_true_iff. intros [Ha Hr]. split.
  - unfold answers in *. destruct (is_role RoleTool m); [|done]. cbn in *.
    rewrite bool_decide_eq_true in *. by apply Hs.
  - eapply IH, Hr. unfold open_ids. by repeat case_match.
Qed.

(** A suffix that starts with a message of another role is itself orphan free. *)
Lemma no_orphans_suffix l m k :
  m_Role m ≠ RoleTool →
  no_orphans (l ++ m :: k) = true → no_orphans (m :: k) = true.
Proof.
  intros Hm. unfold no_orphans. rewrite no_orphans_from_app, andb_true_iff.
  intros [_ H]. by rewrite (no_orphans_from_head _ (open_after [] l)).
Qed.
