(* ===== verification/Thinking.v ===== *)
(** * Package [thinking]: demultiplexing [<thinking>] blocks of a stream

    [src/pkg/agent_core/thinking/split.go].  A stream arrives in chunks that cut
    the tags anywhere.  [ProcessChunk] keeps in [carry] the tail that may be the
    beginning of a tag and sends the rest to the handler.  The specification is
    [demux_spec], a scan of the whole text byte by byte; the main theorem says
    that feeding any sequence of chunks and flushing delivers exactly what the
    scan of their concatenation does. *)

From Equations Require Import Equations.
From S2P Require Import Prelude GoString.

Definition tagOpen : gostring := "<thinking>".
Definition tagClose : gostring := "</thinking>".

Record ParserState := {
  inThinking : bool;
  carry : gostring;
}.

(** The calls made on the [StreamHandler], in order. *)
Inductive Event :=
| OnThinking (s : gostring)
| OnText (s : gostring).

(** [HandlerFunc]: a nil function drops the call.  [H] is what the callbacks
    change. *)
Record HandlerFunc (H : Type) := {
  hf_T : option (gostring → H → H);
  hf_X : option (gostring → H → H);
}.
Arguments hf_T {_} _.
Arguments hf_X {_} _.

Definition HandlerFunc_call {H} (h : HandlerFunc H) (e : Event) (s : H) : H :=
  match e with
  | OnThinking d => match hf_T h with Some f => f d s | None => s end
  | OnText d => match hf_X h with Some f => f d s | None => s end
  end.

(** Deliver a sequence of calls. *)
Definition deliver {H} (h : HandlerFunc H) (evs : list Event) (s : H) : H :=
  foldl (λ s e, HandlerFunc_call h e s) s evs.

(** The tag that ends the current mode, and a call in the current mode. *)
Definition current_tag (thinking : bool) : gostring :=
  if thinking then tagClose else tagOpen.

Definition emit (thinking : bool) (s : gostring) : list Event :=
  if decide (s = []) then [] else [if thinking then OnThinking s else OnText s].

(** The [for k := max; k > 0; k--] loop of [partialSuffix]. *)
Fixpoint partial_suffix_from (k : nat) (s tag : gostring) : nat :=
  match k with
  | O => O
  | S k' =>
      if HasPrefix tag (drop (length s - k) s) then k else partial_suffix_from k' s tag
  end.

(** The length of the longest proper prefix of [tag] that ends [s]. *)
Definition partialSuffix (s tag : gostring) : nat :=
  partial_suffix_from (Nat.min (length s) (length tag - 1)) s tag.

Definition inspect {A} (a : A) : {b | a = b} := exist _ a eq_refl.

(** The [for] loop of [ProcessChunk] from mode [thinking] with [full] left to
    read: the final state and the calls made.  Both branches of the loop are the
    same up to the tag and the callback. *)
Equations? process_loop (thinking : bool) (full : gostring) : ParserState * list Event
    by wf (length full) lt :=
  process_loop thinking full with inspect (Index full (current_tag thinking)) => {
    | exist _ None _ :=
        let k := partialSuffix full (current_tag thinking) in
        ({| inThinking := thinking; carry := drop (length full - k) full |},
         emit thinking (take (length full - k) full));
    | exist _ (Some i) HI :=
        let r := process_loop (negb thinking)
                   (drop (i + length (current_tag thinking)) full) in
        (r.1, emit thinking (take i full) ++ r.2)
  }.
Proof.
  apply Index_lt in HI. rewrite length_drop.
  destruct thinking; cbn in *; lia.
Qed.

(** [ProcessChunk]; a nil state or a nil handler does nothing. *)
Definition ProcessChunk {H} (chunk : gostring) (st : option ParserState)
    (h : option (HandlerFunc H)) (s : H) : option ParserState * H :=
  match st, h with
  | Some st, Some h =>
      let '(st', evs) := process_loop (inThinking st) (carry st ++ chunk) in
      (Some st', deliver h evs s)
  | _, _ => (st, s)
  end.

(** [Flush]. *)
Definition Flush {H} (st : option ParserState) (h : option (HandlerFunc H)) (s : H) :
    option ParserState * H :=
  match st, h with
  | Some st, Some h =>
      (Some {| inThinking := inThinking st; carry := [] |},
       deliver h (emit (inThinking st) (carry st)) s)
  | _, _ => (st, s)
  end.

(** ** The byte-level specification *)

(** Scan the text: a tag that ends the current mode is dropped and switches the
    mode, any other byte is delivered in the current mode ([true] for thinking).
    [skip] counts the bytes of a tag still to be passed. *)
Fixpoint demux_from (thinking : bool) (skip : nat) (s : gostring) : list (bool * byte) :=
  match s with
  | [] => []
  | b :: s' =>
      match skip with
      | S k => demux_from thinking k s'
      | O =>
          if HasPrefix s (current_tag thinking)
          then demux_from (negb thinking) (length (current_tag thinking) - 1) s'
          else (thinking, b) :: demux_from thinking 0 s'
      end
  end.

Definition demux_spec (thinking : bool) (s : gostring) : list (bool * byte) :=
  demux_from thinking 0 s.

(** What a sequence of calls delivers, byte by byte. *)
Definition event_bytes (e : Event) : list (bool * byte) :=
  match e with
  | OnThinking s => pair true <$> s
  | OnText s => pair false <$> s
  end.

Definition delivered (evs : list Event) : list (bool * byte) := evs ≫= event_bytes.

(** Feed the chunks one by one, then flush: what every client of the package
    does with a stream. *)
Fixpoint run_stream {H} (h : option (HandlerFunc H)) (chunks : list gostring)
    (st : option ParserState) (s : H) : option ParserState * H :=
  match chunks with
  | [] => Flush st h s
  | c :: cs => let '(st', s') := ProcessChunk c st h s in run_stream h cs st' s'
  end.

(** A handler that records every byte it is given with the mode. *)
Definition recorder : HandlerFunc (list (bool * byte)) :=
  {| hf_T := Some (λ d s, s ++ (pair true <$> d));
     hf_X := Some (λ d s, s ++ (pair false <$> d)) |}.

(** A state between chunks: the carry is a proper prefix of the awaited tag. *)
Definition state_wf (st : ParserState) : Prop :=
  carry st `prefix_of` current_tag (inThinking st) ∧
  (length (carry st) < length (current_tag (inThinking st)))%nat.

Definition initial : ParserState := {| inThinking := false; carry := [] |}.

(** ** Lemmas *)

Lemma emit_delivered th s : delivered (emit th s) = pair th <$> s.
Proof.
  unfold delivered, emit. case_decide; [by subst|]. cbn. rewrite app_nil_r. by destruct th.
Qed.

Lemma delivered_app e1 e2 : delivered (e1 ++ e2) = delivered e1 ++ delivered e2.
Proof. apply bind_app. Qed.

Lemma demux_from_drop th k s : demux_from th k s = demux_spec th (drop k s).
Proof.
  revert k. induction s as [|b s IH]; intros [|k]; try done. cbn. apply IH.
Qed.

(** No tag starts inside [a]: its bytes are delivered as they are. *)
Lemma demux_skip th a y :
  (∀ j, (j < length a)%nat → ¬ occurs_at (current_tag th) (a ++ y) j) →
  demux_spec th (a ++ y) = (pair th <$> a) ++ demux_spec th y.
Proof.
  induction a as [|b a IH]; intros Hno; [done|].
  unfold demux_spec. cbn [app demux_from]. unfold HasPrefix.
  rewrite bool_decide_eq_false_2.
  - cbn [fmap list_fmap app]. f_equal. apply IH. intros j Hj Ho.
    apply (Hno (S j)); [cbn; lia|]. by apply occurs_at_cons.
  - intros Hp. apply (Hno 0%nat); [cbn; lia|]. by apply occurs_at_0.
Qed.

(** A tag switches the mode. *)
Lemma demux_tag th y :
  demux_spec th (current_tag th ++ y) = demux_spec (negb th) y.
Proof.
  unfold demux_spec at 1.
  assert (∃ b t, current_tag th = b :: t) as (b & t & Ht) by (destruct th; eauto).
  rewrite Ht. cbn [app demux_from]. unfold HasPrefix.
  rewrite bool_decide_eq_true_2 by (rewrite Ht; by eexists).
  rewrite demux_from_drop, Ht. cbn [length]. by rewrite Nat.sub_succ, Nat.sub_0_r, drop_app_length.
Qed.

Lemma partial_suffix_from_spec k s tag :
  (k ≤ length s)%nat →
  let n := partial_suffix_from k s tag in
  (n ≤ k)%nat ∧ drop (length s - n) s `prefix_of` tag ∧
  ∀ m, (n < m ≤ k)%nat → ¬ drop (length s - m) s `prefix_of` tag.
Proof.
  induction k as [|k IH]; intros Hk; cbn [partial_suffix_from].
  - split_and!; [lia| |lia]. rewrite drop_ge by lia. apply prefix_nil.
  - unfold HasPrefix. case_bool_decide as Hp.
    + split_and!; [lia|done|lia].
    + destruct IH as (H1 & H2 & H3); [lia|]. split_and!; [lia|done|].
      intros m Hm. destruct (decide (m = S k)) as [->|]; [done|]. apply H3. lia.
Qed.

(** When [full] has no tag, what is kept back is the only place where one can
    still start, whatever comes next. *)
Lemma partialSuffix_safe full tag rest :
  tag ≠ [] → Index full tag = None →
  let k := partialSuffix full tag in
  (k < length tag)%nat ∧ (k ≤ length full)%nat ∧
  drop (length full - k) full `prefix_of` tag ∧
  ∀ j, (j < length full - k)%nat → ¬ occurs_at tag (full ++ rest) j.
Proof.
  intros Hne Hnone. unfold partialSuffix.
  pose proof (partial_suffix_from_spec (Nat.min (length full) (length tag - 1)) full tag)
    as H. cbn zeta in *. destruct H as (H1 & H2 & H3); [lia|].
  set (k := partial_suffix_from _ _ _) in *.
  assert (0 < length tag)%nat by (destruct tag; [done|cbn; lia]).
  split_and!; [lia..|done|].
  intros j Hj [Hp _]. rewrite drop_app_le in Hp by lia.
  destruct (decide (length tag ≤ length full - j)%nat) as [Hin|Hout].
  - apply (proj1 (Index_None full tag) Hnone j). split; [|lia].
    destruct Hp as [t Ht]. exists (take (length full - j - length tag) t).
    apply (f_equal (take (length full - j))) in Ht.
    rewrite take_app_le in Ht by (rewrite length_drop; lia).
    rewrite take_ge in Ht by (rewrite length_drop; lia).
    by rewrite Ht, take_app_ge by lia.
  - apply (H3 (length full - j)%nat); [lia|].
    replace (length full - (length full - j))%nat with j by lia.
    destruct Hp as [t Ht].
    assert (drop j full = take (length full - j) tag) as ->; [|apply prefix_take].
    apply (f_equal (take (length full - j))) in Ht.
    rewrite !take_app_le in Ht by (rewrite ?length_drop; lia).
    rewrite take_ge in Ht by (rewrite length_drop; lia). done.
Qed.

(** One [ProcessChunk] is a prefix of the scan: whatever the stream continues
    with, the scan of everything delivers the calls of the chunk first, and then
    scans the carry followed by the rest in the new mode. *)
Lemma process_loop_spec th full :
  let '(st', evs) := process_loop th full in
  state_wf st' ∧
  ∀ rest, demux_spec th (full ++ rest) =
          delivered evs ++ demux_spec (inThinking st') (carry st' ++ rest).
Proof.
  remember (length full) as n eqn:Hn. revert th full Hn.
  induction (lt_wf n) as [n _ IH]. intros th full ->.
  rewrite process_loop_equation_1.
  destruct (inspect (Index full (current_tag th))) as [[i|] HI].
  - cbn. pose proof (Index_lt _ _ _ HI) as Hlt.
    pose proof (Index_split _ _ _ HI) as Hfull.
    apply Index_Some in HI as [Ho Hmin].
    set (rest' := drop (i + length (current_tag th)) full) in *.
    assert (length rest' < length full)%nat as Hl.
    { unfold rest'. rewrite length_drop. destruct th; cbn in *; lia. }
    specialize (IH _ Hl (negb th) rest' eq_refl).
    destruct (process_loop (negb th) rest') as [st' evs]. cbn in *.
    destruct IH as [Hwf IH]. split; [done|]. intros rest.
    rewrite delivered_app, emit_delivered, <- app_assoc, <- IH, <- demux_tag.
    rewrite Hfull at 1. rewrite <- !app_assoc. apply demux_skip.
    intros j Hj Hoc. rewrite length_take in Hj.
    apply (Hmin j); [lia|]. split; [|lia].
    destruct Hoc as [Hp _]. rewrite 2!app_assoc, <- app_assoc with (l := take i full) in Hp.
    fold rest' in Hfull. rewrite <- Hfull, drop_app_le in Hp by lia.
    destruct Hp as [t Ht]. exists (take (length full - j - length (current_tag th)) t).
    apply (f_equal (take (length full - j))) in Ht.
    rewrite take_app_le, take_ge in Ht by (rewrite length_drop; lia).
    by rewrite Ht, take_app_ge by lia.
  - cbn. assert (current_tag th ≠ []) as Hne by (by destruct th).
    split.
    + destruct (partialSuffix_safe full (current_tag th) [] Hne HI) as (Hk & Hkl & Hp & _).
      split; cbn; [done|]. rewrite length_drop. lia.
    + intros rest.
      destruct (partialSuffix_safe full (current_tag th) rest Hne HI) as (Hk & Hkl & Hp & Hno).
      set (k := partialSuffix full (current_tag th)) in *. cbn.
      rewrite emit_delivered.
      rewrite <- (take_drop (length full - k) full) at 1. rewrite <- app_assoc.
      rewrite demux_skip; [done|]. intros j Hj.
      rewrite length_take in Hj. rewrite app_assoc, take_drop. apply Hno. lia.
Qed.

(** A carry is never a whole tag: scanning it delivers all of it. *)
Lemma demux_carry st : state_wf st →
  demux_spec (inThinking st) (carry st) = pair (inThinking st) <$> carry st.
Proof.
  intros [_ Hl]. rewrite <- (app_nil_r (carry st)) at 1.
  rewrite demux_skip; [by rewrite app_nil_r|].
  intros j Hj [Hp%prefix_length _]. rewrite app_nil_r, length_drop in Hp. lia.
Qed.

Lemma initial_wf : state_wf initial.
Proof. split; cbn; [apply prefix_nil|lia]. Qed.

Lemma deliver_recorder evs s : deliver recorder evs s = s ++ delivered evs.
Proof.
  revert s. induction evs as [|e evs IH]; intros s; cbn; [by rewrite app_nil_r|].
  unfold deliver in IH. rewrite IH. unfold delivered. cbn. rewrite app_assoc.
  by destruct e.
Qed.

Lemma run_stream_spec chunks st s : state_wf st →
  (run_stream (Some recorder) chunks (Some st) s).2 =
  s ++ demux_spec (inThinking st) (carry st ++ mjoin chunks).
Proof.
  revert st s. induction chunks as [|c cs IH]; intros st s Hwf; cbn.
  - by rewrite app_nil_r, deliver_recorder, emit_delivered, demux_carry.
  - pose proof (process_loop_spec (inThinking st) (carry st ++ c)) as H.
    destruct (process_loop _ _) as [st' evs]. destruct H as [Hwf' H].
    by rewrite IH, deliver_recorder, <- app_assoc, <- H, <- app_assoc.
Qed.

(** ** Properties *)

(** C1: the incremental parser refines the byte-level scan: whatever the text
    and wherever the stream is cut into chunks, the thinking and text bytes
    delivered by [ProcessChunk] on each chunk and a final [Flush], in their
    order, are those of one scan of the whole text from the initial state. *)
Theorem stream_refines_demux (chunks : list gostring) :
  (run_stream (Some recorder) chunks (Some initial) []).2 =
  demux_spec false (mjoin chunks).
Proof. apply (run_stream_spec chunks initial [] initial_wf). Qed.

(** Whatever the chunk and the state, [ProcessChunk] returns, and the bytes
    it withholds from the handler are a proper prefix of the tag the parser then
    waits for: at most ten bytes are delayed and no complete tag is kept back. *)
Theorem ProcessChunk_carry_bounded {H} (chunk : gostring) (st : ParserState)
    (h : HandlerFunc H) (s : H) :
  ∃ st' s', ProcessChunk chunk (Some st) (Some h) s = (Some st', s') ∧
    state_wf st' ∧ (length (carry st') ≤ 10)%nat.
Proof.
  unfold ProcessChunk.
  pose proof (process_loop_spec (inThinking st) (carry st ++ chunk)) as Hs.
  destruct (process_loop _ _) as [st' evs]. destruct Hs as [Hwf' _].
  eexists _, _. split; [done|]. split; [done|].
  destruct Hwf' as [_ Hl]. destruct (inThinking st'); cbn in Hl; lia.
Qed.
