(* ===== verification/Compaction.v ===== *)
(** * Package [compaction]: keeping the transcript within a token budget

    [src/pkg/agent_core/compaction]: the [Compactor] and [ToolResultPruner]
    interfaces with their no-op implementations, the threshold compactor that
    drops the oldest rounds, and the pruner that truncates tool results. *)

From S2P Require Import Prelude GoString Identity Transcript.
Open Scope Z_scope.

(** ** Interfaces *)

Record Report := {
  Applied : bool;
  Reason : gostring;
}.
Definition no_report : Report := {| Applied := false; Reason := [] |}.

(** [TokenEstimator], [Compactor.MaybeCompact] and [ToolResultPruner.Prune]. *)
Definition TokenEstimator : Type := (list Message → Z).
Definition Compactor : Type :=
  (TenantScope → gostring → list Message → Z → result (list Message * Report)).
Definition ToolResultPruner : Type := (Message → Message).

(** What the engine and the loop rely on of a pruner: it rewrites contents only. *)
Class PrunerLaws (p : ToolResultPruner) : Prop := {
  prune_role m : m_Role (p m) = m_Role m;
  prune_id m : m_ToolCallID (p m) = m_ToolCallID m;
  prune_calls m : m_ToolCalls (p m) = m_ToolCalls m;
}.

Definition NoopCompactor : Compactor := λ _ _ msgs _, Ok (msgs, no_report).
Definition NoopToolPruner : ToolResultPruner := λ m, m.

#[global] Instance NoopToolPruner_laws : PrunerLaws NoopToolPruner.
Proof. by split. Qed.

(** ** Estimation *)

Definition estimateCallTokens (c : ToolCall) : Z :=
  8 + len (tc_Name c) `quot` 3 + len (tc_Arguments c) `quot` 3.

Definition estimateMsgTokens (m : Message) : Z :=
  foldl (λ t c, t + estimateCallTokens c) (4 + len (m_Content m) `quot` 3)
    (m_ToolCalls m).

Definition RoughTokenEstimator (msgs : list Message) : Z :=
  foldl (λ n m, n + estimateMsgTokens m) 0 msgs.

(** ** The threshold compactor *)

Record ThresholdCompactor := {
  MaxTokens : Z;
  MinTail : Z;
}.

Definition NewThresholdCompactor (maxTokens minTail : Z) : option ThresholdCompactor :=
  Some {| MaxTokens := maxTokens; MinTail := minTail |}.

(** The receiver may be nil. *)
Definition effectiveMax (c : option ThresholdCompactor) : Z :=
  match c with
  | None => 48000
  | Some c => if MaxTokens c <=? 0 then 48000 else MaxTokens c
  end.

Definition effectiveMinTail (c : option ThresholdCompactor) : Z :=
  match c with
  | None => 8
  | Some c => if MinTail c <=? 0 then 8 else MinTail c
  end.

Definition squash (prefix mid : list Message) (last : Message) : list Message :=
  prefix ++ mid ++ [last].

(** The loop of [consumeBlockFromFront] over the results of the round. *)
Fixpoint consume_results (ids : list gostring) (n : nat) (rest : list Message) :
    nat * list Message :=
  match rest with
  | m :: rest' =>
      if is_role RoleTool m && bool_decide (m_ToolCallID m ∈ ids)
      then consume_results ids (S n) rest' else (n, rest)
  | [] => (n, [])
  end.

Definition consumeBlockFromFront (mid : list Message) : nat * list Message :=
  match mid with
  | [] => (0%nat, mid)
  | first :: mid' =>
      if is_role RoleUser first then (1%nat, mid')
      else if is_role RoleAssistant first then
        if decide (m_ToolCalls first = []) then (1%nat, mid')
        else
          let ids := filter (λ i, i ≠ []) (call_ids first) in
          consume_results ids 1 mid'
      else if is_role RoleTool first then (1%nat, mid')
      else (1%nat, mid')
  end.

(** The loop of [MaybeCompact] that drops blocks; [length mid] rounds are enough,
    for every block has at least one message. *)
Fixpoint drop_blocks (fuel : nat) (max minTail : Z) (prefix : list Message)
    (last : Message) (mid : list Message) (dropped : nat) : list Message * nat :=
  match fuel with
  | O => (mid, dropped)
  | S fuel' =>
      if (max <? RoughTokenEstimator (squash prefix mid last)) && (minTail <? len mid)
      then
        let '(n, newMid) := consumeBlockFromFront mid in
        if decide (n = 0%nat) then (mid, dropped)
        else drop_blocks fuel' max minTail prefix last newMid (dropped + n)
      else (mid, dropped)
  end.

(** [i] after the loop that skips the system prefix: the prefix and the rest. *)
Fixpoint system_prefix (msgs : list Message) : list Message * list Message :=
  match msgs with
  | m :: ms =>
      if is_role RoleSystem m
      then let '(p, r) := system_prefix ms in (m :: p, r)
      else ([], msgs)
  | [] => ([], [])
  end.

Definition notice (dropped : nat) : Message :=
  text_message RoleSystem
    ("（上下文已压缩：已省略较早的 " ++ FormatInt (Z.of_nat dropped)
     ++ " 条消息；请依据下文与工具结果继续。）").

(** [ThresholdCompactor.MaybeCompact]; the error is always nil. *)
Definition MaybeCompact (c : option ThresholdCompactor) (msgs : list Message)
    (estTokens : Z) : list Message * Report :=
  match c with
  | None => (msgs, no_report)
  | Some _ =>
      let max := effectiveMax c in
      let tok := if estTokens <=? 0 then RoughTokenEstimator msgs else estTokens in
      if tok <=? max then (msgs, no_report)
      else
        let '(prefix, rest) := system_prefix msgs in
        match last rest with
        | None => (msgs, {| Applied := false; Reason := "no messages after system prefix" |})
        | Some lst =>
            let mid := take (length rest - 1) rest in
            let minTail := effectiveMinTail c in
            let '(mid', droppedBlocks) :=
              drop_blocks (length mid) max minTail prefix lst mid 0 in
            if decide (droppedBlocks = 0%nat) then
              (msgs, {| Applied := false; Reason := "over budget but min tail reached" |})
            else
              (prefix ++ [notice droppedBlocks] ++ mid' ++ [lst],
               {| Applied := true; Reason := "threshold_drop_oldest" |})
        end
  end.

(** The compactor as an implementation of the interface. *)
Definition ThresholdCompactor_iface (c : option ThresholdCompactor) : Compactor :=
  λ _ _ msgs est, Ok (MaybeCompact c msgs est).

(** ** The truncating pruner *)

Record TruncateToolPruner := {
  MaxRunes : Z;
  Ellipsis : gostring;
}.

Definition effectiveRunes (p : TruncateToolPruner) : Z :=
  if MaxRunes p <=? 0 then 20000 else MaxRunes p.

(** The default is a newline, an ellipsis and [(truncated)]. *)
Definition effectiveEllipsis (p : TruncateToolPruner) : gostring :=
  if decide (Ellipsis p = []) then [x0a] ++ "…(truncated)" else Ellipsis p.

(** [TruncateToolPruner.Prune]. *)
Definition Prune (p : TruncateToolPruner) (msg : Message) : Message :=
  if negb (is_role RoleTool msg) then msg
  else
    let max := effectiveRunes p in
    let m := Clone msg in
    if RuneCount (m_Content m) <=? max then m
    else
      let rs := runes (m_Content m) in
      let ellR := runes (effectiveEllipsis p) in
      if max <=? len ellR + 16 then with_content m (string_of_runes ellR)
      else
        let cut0 := max - len ellR in
        let cut := if cut0 <? 1 then 1 else cut0 in
        with_content m (string_of_runes (take (Z.to_nat cut) rs) ++ string_of_runes ellR).

(** ** Lemmas on estimation *)

Lemma foldl_add_shift {A} (f : A → Z) (l : list A) (a : Z) :
  foldl (λ n x, n + f x) a l = a + foldl (λ n x, n + f x) 0 l.
Proof.
  revert a. induction l as [|x l IH]; intros a; cbn; [lia|].
  rewrite IH, (IH (0 + f x)). lia.
Qed.

Lemma foldl_add_nonneg {A} (f : A → Z) (l : list A) (a : Z) :
  (∀ x, 0 ≤ f x) → a ≤ foldl (λ n x, n + f x) a l.
Proof.
  intros Hf. revert a. induction l as [|x l IH]; intros a; cbn; [lia|].
  specialize (IH (a + f x)). specialize (Hf x). lia.
Qed.

Lemma len_quot3 {A} (l : list A) : 0 ≤ len l `quot` 3.
Proof. apply Z.quot_pos; unfold len; lia. Qed.

Lemma estimateMsgTokens_ge m : 4 ≤ estimateMsgTokens m.
Proof.
  unfold estimateMsgTokens. etrans; [|apply foldl_add_nonneg].
  - pose proof (len_quot3 (m_Content m)). lia.
  - intros c. unfold estimateCallTokens.
    pose proof (len_quot3 (tc_Name c)). pose proof (len_quot3 (tc_Arguments c)). lia.
Qed.

Lemma Rough_cons m l :
  RoughTokenEstimator (m :: l) = estimateMsgTokens m + RoughTokenEstimator l.
Proof. unfold RoughTokenEstimator. cbn. rewrite foldl_add_shift. lia. Qed.

Lemma Rough_app l k :
  RoughTokenEstimator (l ++ k) = RoughTokenEstimator l + RoughTokenEstimator k.
Proof.
  induction l as [|m l IH]; [done|]. cbn [app]. rewrite !Rough_cons, IH. lia.
Qed.

(** ** Lemmas on the compactor *)

Lemma system_prefix_spec msgs p r :
  system_prefix msgs = (p, r) →
  msgs = p ++ r ∧ Forall (λ m, m_Role m = RoleSystem) p ∧
  (∀ m, head r = Some m → m_Role m ≠ RoleSystem).
Proof.
  revert p r. induction msgs as [|m ms IH]; cbn; intros p r H; [by simplify_eq|].
  destruct (is_role RoleSystem m) eqn:E.
  - destruct (system_prefix ms) as [p' r']. simplify_eq.
    destruct (IH _ _ eq_refl) as (-> & Hp & Hr). split_and!; [done| |done].
    constructor; [by apply is_role_true|done].
  - simplify_eq. split_and!; [done..|]. intros m' [= <-]. by apply is_role_false.
Qed.

Lemma consume_results_spec ids n rest n' rest' :
  consume_results ids n rest = (n', rest') →
  (n ≤ n')%nat ∧ (n' - n ≤ length rest)%nat ∧ rest' = drop (n' - n) rest ∧
  ∀ m, head rest' = Some m → is_role RoleTool m && bool_decide (m_ToolCallID m ∈ ids) = false.
Proof.
  revert n. induction rest as [|m rest IH]; cbn; intros n H.
  - simplify_eq. by rewrite Nat.sub_diag.
  - destruct (is_role RoleTool m && bool_decide (m_ToolCallID m ∈ ids)) eqn:E.
    + apply IH in H as (H1 & H2 & -> & H3).
      split_and!; [lia|lia| |done].
      by replace (n' - n)%nat with (S (n' - S n)) by lia.
    + simplify_eq. rewrite Nat.sub_diag. split_and!; [lia..|done|].
      intros m' [= <-]. done.
Qed.

(** A block is a non-empty prefix of what is left. *)
Lemma consume_spec mid n rest :
  consumeBlockFromFront mid = (n, rest) →
  rest = drop n mid ∧ (n ≤ length mid)%nat ∧ (n = 0%nat ↔ mid = []).
Proof.
  unfold consumeBlockFromFront. destruct mid as [|first mid']; intros H; [by simplify_eq|].
  assert (Hone : (1%nat, mid') = (n, rest) →
    rest = drop n (first :: mid') ∧ (n ≤ length (first :: mid'))%nat ∧
    (n = 0%nat ↔ first :: mid' = [])).
  { intros ?. simplify_eq. cbn. rewrite drop_0. split_and!; done || lia. }
  repeat case_match; try by apply Hone.
  apply consume_results_spec in H as (Hge & Hle & -> & _).
  destruct n as [|n]; [lia|]. cbn. rewrite Nat.sub_0_r in *.
  split_and!; done || lia.
Qed.

(** What the dropping loop leaves: [n] messages fewer, the budget met or the
    minimum tail reached, and no block dropped that did not have to be. *)
Lemma drop_blocks_spec fuel max minTail prefix lst mid d mid' d' :
  (length mid ≤ fuel)%nat → 0 ≤ minTail →
  drop_blocks fuel max minTail prefix lst mid d = (mid', d') →
  ∃ n, d' = (d + n)%nat ∧ mid' = drop n mid ∧ (n ≤ length mid)%nat ∧
    (RoughTokenEstimator (squash prefix mid' lst) ≤ max ∨ len mid' ≤ minTail) ∧
    (n ≠ 0%nat → ∃ k, (k < n)%nat ∧
       (consumeBlockFromFront (drop k mid)).1 = (n - k)%nat ∧
       max < RoughTokenEstimator (squash prefix (drop k mid) lst) ∧
       minTail < len (drop k mid)).
Proof.
  intros Hf Hm. revert mid d Hf. induction fuel as [|fuel IH]; cbn [drop_blocks]; intros mid d Hf H.
  - simplify_eq. exists 0%nat. destruct mid'; [|cbn in Hf; lia].
    split_and!; [lia|done|lia| |done]. right. unfold len. cbn. lia.
  - destruct (_ && _) eqn:E.
    + bool_simp. destruct (consumeBlockFromFront mid) as [n newMid] eqn:Hc.
      apply consume_spec in Hc as Hs. destruct Hs as (-> & Hn & Hn0).
      destruct (decide (n = 0%nat)) as [->|Hne].
      { assert (mid = []) as -> by tauto. unfold len in *. cbn in *. lia. }
      apply IH in H as (k & -> & -> & Hk & Hex & Hmin); [|rewrite length_drop; lia].
      rewrite length_drop in Hk. exists (n + k)%nat. rewrite drop_drop in *.
      split_and!; [lia|done|lia|done|]. intros _.
      destruct (decide (k = 0%nat)) as [->|Hk0].
      * exists 0%nat. rewrite drop_0, Hc. split_and!; cbn; done || lia.
      * destruct (Hmin Hk0) as (j & Hj & Hc' & Hb). exists (n + j)%nat.
        rewrite drop_drop in Hc', Hb. split_and!; [lia| |tauto..].
        rewrite Hc'. lia.
    + simplify_eq. exists 0%nat. rewrite drop_0. split_and!; [lia|done|lia| |done].
      bool_simp; [left|right]; lia.
Qed.

Lemma effectiveMax_pos c : 0 < effectiveMax c.
Proof. unfold effectiveMax. destruct c; [case_match|]; bool_simp; lia. Qed.

Lemma effectiveMinTail_pos c : 0 < effectiveMinTail c.
Proof. unfold effectiveMinTail. destruct c; [case_match|]; bool_simp; lia. Qed.

(** The parts [MaybeCompact] sees in a transcript: a maximal system prefix, the
    messages it may drop, and the last message. *)
Definition parts (msgs prefix mid : list Message) (lst : Message) : Prop :=
  msgs = prefix ++ mid ++ [lst] ∧ Forall (λ m, m_Role m = RoleSystem) prefix ∧
  ∀ m, head (mid ++ [lst]) = Some m → m_Role m ≠ RoleSystem.

Lemma parts_of msgs prefix rest lst :
  system_prefix msgs = (prefix, rest) → last rest = Some lst →
  parts msgs prefix (take (length rest - 1) rest) lst.
Proof.
  intros Hs Hl. apply system_prefix_spec in Hs as (-> & Hp & Hr).
  apply last_Some in Hl as [mid ->].
  rewrite length_app, Nat.add_sub, take_app_length. done.
Qed.

Lemma parts_inj msgs p1 m1 l1 p2 m2 l2 :
  parts msgs p1 m1 l1 → parts msgs p2 m2 l2 → p1 = p2 ∧ m1 = m2 ∧ l1 = l2.
Proof.
  intros (-> & Hp1 & Hr1) (H & Hp2 & Hr2).
  assert (p1 = p2) as <-.
  { revert p2 H Hp2 Hr2. induction p1 as [|a p1 IH]; intros [|b p2] H Hp2 Hr2; cbn in H; [done|..].
    - exfalso. apply (Hr1 b); [|by inversion Hp2]. rewrite H. done.
    - exfalso. apply (Hr2 a); [|by inversion Hp1]. rewrite <- H. done.
    - simplify_eq. inversion Hp1; inversion Hp2; subst. f_equal. by apply IH. }
  simplify_eq. by apply app_inj_tail in H as [-> ->].
Qed.

(** The full description of a call on a non-nil compactor. *)
Lemma MaybeCompact_cases c msgs est out rep :
  MaybeCompact (Some c) msgs est = (out, rep) →
  (out = msgs ∧ Applied rep = false ∧
     ((if est <=? 0 then RoughTokenEstimator msgs else est) ≤ effectiveMax (Some c) ∨
      (∀ prefix mid lst, parts msgs prefix mid lst →
         RoughTokenEstimator msgs ≤ effectiveMax (Some c) ∨
         len mid ≤ effectiveMinTail (Some c)))) ∨
  (∃ prefix mid lst n, parts msgs prefix mid lst ∧
     (0 < n ≤ length mid)%nat ∧ Applied rep = true ∧
     out = prefix ++ [notice n] ++ drop n mid ++ [lst] ∧
     effectiveMax (Some c) < (if est <=? 0 then RoughTokenEstimator msgs else est) ∧
     (RoughTokenEstimator (squash prefix (drop n mid) lst) ≤ effectiveMax (Some c) ∨
      len (drop n mid) ≤ effectiveMinTail (Some c)) ∧
     ∃ k, (k < n)%nat ∧ (consumeBlockFromFront (drop k mid)).1 = (n - k)%nat ∧
       effectiveMax (Some c) < RoughTokenEstimator (squash prefix (drop k mid) lst) ∧
       effectiveMinTail (Some c) < len (drop k mid)).
Proof.
  unfold MaybeCompact. set (max := effectiveMax _). set (minTail := effectiveMinTail _).
  set (tok := if est <=? 0 then _ else _).
  pose proof (effectiveMinTail_pos (Some c)) as Hmt. fold minTail in Hmt.
  destruct (Z.leb_spec tok max) as [Htok|Htok].
  { intros [= <- <-]. left. auto. }
  destruct (system_prefix msgs) as [prefix rest] eqn:Hsp.
  destruct (last rest) as [lst|] eqn:Hl.
  2:{ intros [= <- <-]. left. split_and!; [done..|]. right.
      intros p m l (-> & Hp & Hr). apply last_None in Hl as ->.
      apply system_prefix_spec in Hsp as (H & Hall & _). rewrite app_nil_r in H. subst prefix.
      exfalso. destruct m as [|m0 m].
      - apply (Hr l); [done|]. apply Forall_app in Hall as [_ Hall]. by inversion Hall.
      - apply (Hr m0); [done|]. apply Forall_app in Hall as [_ Hall]. by inversion Hall. }
  pose proof (parts_of _ _ _ _ Hsp Hl) as Hparts.
  set (mid := take (length rest - 1) rest) in *.
  destruct (drop_blocks (length mid) max minTail prefix lst mid 0) as [mid' d] eqn:Hd.
  apply drop_blocks_spec in Hd as (n & -> & -> & Hn & Hex & Hmin); [|lia..].
  cbn [Nat.add]. destruct (decide (n = 0%nat)) as [->|Hn0]; intros [= <- <-].
  - left. split_and!; [done..|]. right. intros p m l Hp'.
    destruct (parts_inj _ _ _ _ _ _ _ Hparts Hp') as (<- & <- & <-).
    rewrite drop_0 in Hex. destruct Hparts as [-> _]. done.
  - right. exists prefix, mid, lst, n. split_and!; try done; try lia. by apply Hmin.
Qed.

(** ** Tool rounds *)

(** Tool calls carry ids: the compactor ignores calls with an empty one. *)
Definition ids_nonempty (m : Message) : Prop := Forall (λ i, i ≠ []) (call_ids m).

Lemma filter_all {A} (P : A → Prop) `{∀ x, Decision (P x)} (l : list A) :
  Forall P l → filter P l = l.
Proof.
  induction 1 as [|x l Hx _ IH]; [done|]. by rewrite filter_cons_True, IH.
Qed.

(** The rest of a round: when the tool results answered one of [ids], what
    follows them starts another round. *)
Lemma consume_results_rounds ids n rest k n' rest' lst :
  consume_results ids n rest = (n', rest') →
  m_Role lst ≠ RoleTool →
  no_orphans_from ids (rest ++ lst :: k) = true →
  no_orphans (rest' ++ lst :: k) = true.
Proof.
  intros Hc Hl. revert n Hc. induction rest as [|m rest IH]; cbn; intros n Hc Hok.
  - simplify_eq. unfold no_orphans. cbn [app]. by rewrite (no_orphans_from_head [] ids).
  - apply andb_true_iff in Hok as [Ha Hok].
    destruct (is_role RoleTool m && bool_decide (m_ToolCallID m ∈ ids)) eqn:E.
    + eapply IH; [done|]. apply andb_true_iff in E as [E _].
      unfold open_ids in Hok. by rewrite E in Hok.
    + simplify_eq. unfold answers in Ha. destruct (is_role RoleTool m) eqn:Er.
      * cbn in Ha, E. congruence.
      * cbn. apply andb_true_iff. unfold answers, open_ids in *. rewrite Er in *. done.
Qed.

Lemma consume_no_orphans mid lst n rest :
  consumeBlockFromFront mid = (n, rest) →
  m_Role lst ≠ RoleTool → Forall ids_nonempty mid →
  no_orphans (mid ++ [lst]) = true → no_orphans (rest ++ [lst]) = true.
Proof.
  unfold consumeBlockFromFront. destruct mid as [|first mid]; intros H Hl Hids Hok.
  { by simplify_eq. }
  inversion Hids as [|? ? Hfirst _]; subst.
  unfold no_orphans in Hok. cbn [app no_orphans_from] in Hok.
  apply andb_true_iff in Hok as [Ha Hok]. unfold answers in Ha. unfold open_ids in Hok.
  destruct (is_role RoleUser first) eqn:Eu.
  { apply is_role_true in Eu. simplify_eq.
    rewrite (proj2 (is_role_false _ _)), (proj2 (is_role_false _ _)) in Hok
      by (rewrite Eu; done). done. }
  destruct (is_role RoleAssistant first) eqn:Ea.
  - rewrite (proj2 (is_role_false RoleTool first)) in Hok
      by (apply is_role_true in Ea; rewrite Ea; done).
    case_decide as Hc.
    + simplify_eq. unfold call_ids in Hok. by rewrite Hc in Hok.
    + rewrite filter_all in H by done. by eapply consume_results_rounds.
  - destruct (is_role RoleTool first); simplify_eq; done.
Qed.

Lemma drop_blocks_no_orphans fuel max minTail prefix lst mid d mid' d' :
  drop_blocks fuel max minTail prefix lst mid d = (mid', d') →
  m_Role lst ≠ RoleTool → Forall ids_nonempty mid →
  no_orphans (mid ++ [lst]) = true → no_orphans (mid' ++ [lst]) = true.
Proof.
  intros H Hl. revert mid d H.
  induction fuel as [|fuel IH]; cbn [drop_blocks]; intros mid d H Hids Hok; [by simplify_eq|].
  destruct (_ && _); [|by simplify_eq].
  destruct (consumeBlockFromFront mid) as [n newMid] eqn:Hc.
  case_decide; [by simplify_eq|].
  apply consume_spec in Hc as Hs. destruct Hs as (-> & _ & _).
  eapply IH; [done| |].
  - by apply Forall_drop.
  - by eapply consume_no_orphans.
Qed.

Lemma no_orphans_system l k :
  Forall (λ m, m_Role m = RoleSystem) l → no_orphans (l ++ k) = no_orphans k.
Proof.
  intros Hl. induction Hl as [|m l Hm _ IH]; [done|].
  unfold no_orphans in *. cbn. unfold answers, open_ids.
  rewrite !(proj2 (is_role_false _ m)) by (rewrite Hm; done). done.
Qed.

(** The two ways [MaybeCompact] ends, with the rounds followed. *)
Lemma MaybeCompact_rounds c msgs est out rep :
  MaybeCompact c msgs est = (out, rep) →
  Forall ids_nonempty msgs →
  (∀ m, last msgs = Some m → m_Role m ≠ RoleTool) →
  no_orphans msgs = true → no_orphans out = true.
Proof.
  intros H Hids Hlast Hok. unfold MaybeCompact in H.
  destruct c as [c|]; [|by simplify_eq]. case_match; [by simplify_eq|].
  destruct (system_prefix msgs) as [prefix rest] eqn:Hsp.
  destruct (last rest) as [lst|] eqn:Hl; [|by simplify_eq].
  destruct (parts_of _ _ _ _ Hsp Hl) as (Hm & Hp & _).
  set (mid := take (length rest - 1) rest) in *.
  destruct (drop_blocks _ _ _ _ _ _ _) as [mid' d] eqn:Hd.
  case_decide; [by simplify_eq|]. simplify_eq.
  rewrite app_assoc, no_orphans_system by (by apply Forall_app; repeat constructor).
  rewrite no_orphans_system in Hok by done.
  apply Forall_app in Hids as [_ Hids]. apply Forall_app in Hids as [Hids _].
  eapply drop_blocks_no_orphans; [done| |done..].
  apply Hlast. by rewrite app_assoc, last_snoc.
Qed.

(** ** Lemmas on the pruner *)

Lemma with_content_role m c : m_Role (with_content m c) = m_Role m.
Proof. done. Qed.

#[global] Instance Prune_laws p : PrunerLaws (Prune p).
Proof.
  split; intros m; unfold Prune; rewrite Clone_id; repeat case_match; done.
Qed.

Lemma Prune_other p m : m_Role m ≠ RoleTool → Prune p m = m.
Proof. intros H%is_role_false. unfold Prune. by rewrite H. Qed.

Lemma Prune_small p m :
  RuneCount (m_Content m) ≤ effectiveRunes p → Prune p m = m.
Proof.
  intros H. unfold Prune. rewrite Clone_id. case_match; [done|].
  by rewrite (proj2 (Z.leb_le _ _) H).
Qed.

(** The content of a truncated result, as runes. *)
Lemma Prune_large p m :
  m_Role m = RoleTool → effectiveRunes p < RuneCount (m_Content m) →
  let ellR := runes (effectiveEllipsis p) in
  let kept := if effectiveRunes p <=? len ellR + 16 then 0 else effectiveRunes p - len ellR in
  runes (m_Content (Prune p m)) = take (Z.to_nat kept) (runes (m_Content m)) ++ ellR.
Proof.
  intros Hr%is_role_true Hc. cbn zeta. unfold Prune. rewrite Hr, Clone_id. cbn [negb].
  rewrite (proj2 (Z.leb_gt _ _) Hc).
  pose proof (runes_valid (effectiveEllipsis p)) as He.
  destruct (Z.leb_spec (effectiveRunes p) (len (runes (effectiveEllipsis p)) + 16)); cbn [m_Content with_content].
  - by rewrite runes_string_of_runes.
  - rewrite (proj2 (Z.ltb_ge _ _)) by lia.
    rewrite runes_string_of_runes_app by apply Forall_take, runes_valid.
    by rewrite runes_string_of_runes.
Qed.

Lemma effectiveRunes_pos p : 0 < effectiveRunes p.
Proof. unfold effectiveRunes. case_match; bool_simp; lia. Qed.

Lemma Prune_count_large p m :
  m_Role m = RoleTool → effectiveRunes p < RuneCount (m_Content m) →
  RuneCount (m_Content (Prune p m)) =
    if effectiveRunes p <=? RuneCount (effectiveEllipsis p) + 16
    then RuneCount (effectiveEllipsis p) else effectiveRunes p.
Proof.
  intros Hr Hc. pose proof (Prune_large p m Hr Hc) as H. cbn zeta in H.
  unfold RuneCount at 1. rewrite H, length_app, length_take. unfold RuneCount, len in *.
  case_match; bool_simp; lia.
Qed.

(** ** Properties *)

(** C12: when the threshold compactor applies, it keeps the whole system prefix
    and the last message, drops a non-empty run of the oldest other messages,
    puts one notice naming how many in their place and keeps the rest in order;
    it stops as soon as the estimate of what is kept is within the budget or the
    minimum tail is reached, and its last dropped block was needed (the budget
    was still exceeded and more than the minimum tail was left before it). When
    it does not apply, the transcript is returned unchanged, which happens only
    within the budget or at the minimum tail. *)
Theorem MaybeCompact_drops_oldest (c : ThresholdCompactor) (msgs : list Message) (est : Z) :
  let '(out, rep) := MaybeCompact (Some c) msgs est in
  let max := effectiveMax (Some c) in
  let minTail := effectiveMinTail (Some c) in
  if Applied rep then
    ∃ prefix mid lst n, parts msgs prefix mid lst ∧ (0 < n ≤ length mid)%nat ∧
      out = prefix ++ [notice n] ++ drop n mid ++ [lst] ∧
      (RoughTokenEstimator (squash prefix (drop n mid) lst) ≤ max ∨
       len (drop n mid) ≤ minTail) ∧
      ∃ k, (k < n)%nat ∧ (consumeBlockFromFront (drop k mid)).1 = (n - k)%nat ∧
        max < RoughTokenEstimator (squash prefix (drop k mid) lst) ∧
        minTail < len (drop k mid)
  else
    out = msgs ∧
    ((if est <=? 0 then RoughTokenEstimator msgs else est) ≤ max ∨
     ∀ prefix mid lst, parts msgs prefix mid lst →
       RoughTokenEstimator msgs ≤ max ∨ len mid ≤ minTail).
Proof.
  destruct (MaybeCompact (Some c) msgs est) as [out rep] eqn:Hrun.
  apply MaybeCompact_cases in Hrun as [(? & -> & ?)|(p & m & l & n & ? & ? & -> & ? & ? & ? & ?)].
  - done.
  - by exists p, m, l, n.
Qed.

(** C13: compaction never cuts a tool round: if every tool result of the
    transcript answers a call of its round, the calls carry ids and the last
    message is not a tool result (it is the user's turn), the same holds of the
    compacted transcript. *)
Theorem MaybeCompact_no_orphans (c : option ThresholdCompactor) (msgs : list Message)
    (est : Z) :
  Forall ids_nonempty msgs →
  (∀ m, last msgs = Some m → m_Role m ≠ RoleTool) →
  no_orphans msgs = true →
  no_orphans (MaybeCompact c msgs est).1 = true.
Proof.
  intros. destruct (MaybeCompact c msgs est) as [out rep] eqn:Hrun.
  by eapply MaybeCompact_rounds.
Qed.

Lemma parts_length msgs prefix mid lst :
  parts msgs prefix mid lst → length msgs = (length prefix + length mid + 1)%nat.
Proof. intros [-> _]. rewrite !length_app. cbn. lia. Qed.

(** A compacted transcript is never longer than the original, and its
    estimate is at most the budget plus the cost of the notice unless the
    minimum tail was reached. *)
Theorem MaybeCompact_budget (c : ThresholdCompactor) (msgs : list Message) (est : Z) :
  let '(out, rep) := MaybeCompact (Some c) msgs est in
  (length out ≤ length msgs)%nat ∧
  (Applied rep = true →
   ∃ n, (0 < n)%nat ∧ length out = (length msgs - n + 1)%nat ∧
     (RoughTokenEstimator out ≤
        effectiveMax (Some c) + estimateMsgTokens (notice n) ∨
      ∃ prefix mid lst, parts msgs prefix mid lst ∧
        len (drop n mid) ≤ effectiveMinTail (Some c))).
Proof.
  destruct (MaybeCompact (Some c) msgs est) as [out rep] eqn:Hrun.
  apply MaybeCompact_cases in Hrun
    as [(-> & -> & ?)|(p & m & l & n & Hp & ? & -> & -> & ? & Hex & _)]; [done|].
  pose proof (parts_length _ _ _ _ Hp) as Hl.
  assert (length (p ++ [notice n] ++ drop n m ++ [l]) = (length msgs - n + 1)%nat) as ->.
  { rewrite !length_app, length_drop. cbn. lia. }
  split; [lia|]. intros _. exists n. split_and!; [lia..|].
  destruct Hex as [Hex|Hex]; [left|right; eauto].
  unfold squash in Hex. cbn [app]. rewrite !Rough_app in Hex.
  rewrite Rough_app, Rough_cons, Rough_app. lia.
Qed.

(** Pruning a tool result bounds its length in runes by the limit (or by the
    ellipsis when that is longer), leaves a result within the limit and every
    other kind of message unchanged, and never touches the role, the id or the
    calls of a message. *)
Theorem Prune_bounded (p : TruncateToolPruner) (m : Message) :
  m_Role (Prune p m) = m_Role m ∧ m_ToolCallID (Prune p m) = m_ToolCallID m ∧
  m_ToolCalls (Prune p m) = m_ToolCalls m ∧
  (m_Role m ≠ RoleTool ∨ RuneCount (m_Content m) ≤ effectiveRunes p → Prune p m = m) ∧
  (m_Role m = RoleTool →
   RuneCount (m_Content (Prune p m)) ≤
     Z.max (effectiveRunes p) (RuneCount (effectiveEllipsis p))).
Proof.
  pose proof (Prune_laws p) as [Hr Hi Hc]. split_and!; [done..| |].
  - intros [?|?]; [by apply Prune_other|by apply Prune_small].
  - intros Ht. destruct (Z.le_gt_cases (RuneCount (m_Content m)) (effectiveRunes p)).
    + rewrite Prune_small by done. lia.
    + rewrite Prune_count_large by done. case_match; lia.
Qed.

(** A truncated result keeps exactly the first runes that leave room for the
    ellipsis, then the ellipsis, and has exactly the limit's length; pruning it
    again changes nothing. *)
Theorem Prune_truncates (p : TruncateToolPruner) (m : Message) :
  m_Role m = RoleTool →
  RuneCount (effectiveEllipsis p) + 16 < effectiveRunes p < RuneCount (m_Content m) →
  runes (m_Content (Prune p m)) =
    take (Z.to_nat (effectiveRunes p - RuneCount (effectiveEllipsis p)))
      (runes (m_Content m)) ++ runes (effectiveEllipsis p) ∧
  RuneCount (m_Content (Prune p m)) = effectiveRunes p ∧
  Prune p (Prune p m) = Prune p m.
Proof.
  intros Hr [He Hc]. pose proof (Prune_large p m Hr Hc) as H. cbn zeta in H.
  pose proof (Prune_count_large p m Hr Hc) as Hn.
  unfold RuneCount, len in *.
  rewrite (proj2 (Z.leb_gt _ _)) in H by lia. rewrite (proj2 (Z.leb_gt _ _)) in Hn by lia.
  split_and!; [done..|]. apply Prune_small. unfold RuneCount. lia.
Qed.

(** ** Witnesses and concrete runs *)

(** A conversation over the budget whose second round calls a tool. *)
Definition sample_call : ToolCall :=
  {| tc_ID := "c1"; tc_Type := "function"; tc_Name := "x"; tc_Arguments := "{}" |}.
Definition sample_round : Message :=
  {| m_Role := RoleAssistant; m_Content := []; m_ToolCalls := [sample_call];
     m_ToolCallID := [] |}.
Definition sample_answer (c : gostring) : Message :=
  {| m_Role := RoleTool; m_Content := c; m_ToolCalls := []; m_ToolCallID := "c1" |}.
Definition sample_transcript : list Message :=
  [text_message RoleSystem "sys"; text_message RoleUser (replicate 60 x41);
   sample_round; sample_answer (replicate 60 x42); text_message RoleAssistant "ok";
   text_message RoleUser "next"].

Definition sample_compactor : ThresholdCompactor := {| MaxTokens := 30; MinTail := 1 |}.

Example sample_compacted :
  MaybeCompact (Some sample_compactor) sample_transcript 0 =
  ([text_message RoleSystem "sys"; notice 3; text_message RoleAssistant "ok";
    text_message RoleUser "next"],
   {| Applied := true; Reason := "threshold_drop_oldest" |}).
Proof. vm_compute. reflexivity. Qed.

Lemma MaybeCompact_no_orphans_witness :
  no_orphans (MaybeCompact (Some sample_compactor) sample_transcript 0).1 = true.
Proof.
  apply MaybeCompact_no_orphans.
  - repeat constructor; discriminate.
  - intros m [= <-]. discriminate.
  - vm_compute. reflexivity.
Defined.

(** The round above is dropped whole although only its assistant message had to
    go for the tail to reach [MinTail]: the comment on [MinTail] promises a
    minimum number of messages kept, the code checks it before a block only. *)
Example MinTail_not_kept :
  let c := {| MaxTokens := 30; MinTail := 2 |} in
  (MaybeCompact (Some c) sample_transcript 0).1 =
    [text_message RoleSystem "sys"; notice 3; text_message RoleAssistant "ok";
     text_message RoleUser "next"].
Proof. vm_compute. reflexivity. Qed.

(** A compacted transcript can still be over the budget: the notice is not
    counted. *)
Example notice_over_budget :
  let out := (MaybeCompact (Some sample_compactor) sample_transcript 0).1 in
  effectiveMax (Some sample_compactor) < RoughTokenEstimator out.
Proof. vm_compute. reflexivity. Qed.

(** Calls without ids: the results of a dropped round stay behind. *)
Example empty_ids_orphan :
  let call := {| tc_ID := []; tc_Type := "function"; tc_Name := "x"; tc_Arguments := "{}" |} in
  let round := {| m_Role := RoleAssistant; m_Content := replicate 60 x41;
                  m_ToolCalls := [call]; m_ToolCallID := [] |} in
  let msgs := [round; text_message RoleTool "r"; text_message RoleUser "next"] in
  no_orphans msgs = true ∧
  no_orphans (MaybeCompact (Some sample_compactor) msgs 0).1 = false.
Proof. vm_compute. done. Qed.

Lemma Prune_truncates_witness :
  let p := {| MaxRunes := 30; Ellipsis := [] |} in
  let m := sample_answer (replicate 60 x42) in
  RuneCount (m_Content (Prune p m)) = 30.
Proof.
  apply (Prune_truncates {| MaxRunes := 30; Ellipsis := [] |}
           (sample_answer (replicate 60 x42))); [reflexivity|].
  vm_compute. done.
Defined.
