(* ===== verification/Tools.v ===== *)
(** * Package [tools]: the per-request tool registry

    [src/pkg/agent_core/tools]: tool definitions, the execution context with its
    allow-list, the registry that is the sandbox of one request, and the mock
    catalog.  [W] is the world the tools act on. *)

From S2P Require Import Prelude GoString Identity.
Open Scope Z_scope.

#[local] Set Warnings "-register-all".

(** ** Data *)

(** A [map[string]any] literal, as the tools' JSON schemas use it. *)
Inductive any :=
| AnyString (s : gostring)
| AnyStrings (l : list gostring)
| AnyMap (m : list (gostring * any)).

(** [tools.Definition]. *)
Record ToolDef := {
  d_Type : gostring;
  d_Name : gostring;
  d_Description : gostring;
  d_Parameters : list (gostring * any);
}.

(** [tools.Context]; a nil [Allowed] is [None]. *)
Record Context := {
  cx_Scope : TenantScope;
  cx_SessionID : gostring;
  cx_RequestID : gostring;
  cx_Allowed : option (gset gostring);
}.

(** The [Tool] interface: [Execute] may change the world, fail or panic. *)
Record Tool (W : Type) := {
  t_Name : gostring;
  t_Definition : ToolDef;
  t_Execute : Context → gostring → Go W (result gostring);
}.
Arguments t_Name {_} _.
Arguments t_Definition {_} _.
Arguments t_Execute {_} _ _ _ _.

(** The [SkillCatalog] interface; the answer may depend on the world (the process
    environment). *)
Definition SkillCatalog (W : Type) : Type := (list gostring → W → result (list (Tool W))).

(** Go iterates a map in an order chosen by the runtime: whatever the runtime's
    choice depends on is part of the world. *)
Class MapOrder (W : Type) := {
  map_order : ∀ {A : Type}, W → list A → list A;
  map_order_Permutation : ∀ {A} w (l : list A), map_order w l ≡ₚ l;
}.

Section tools.
Context `{UT : UnicodeTables} {W : Type} `{MO : MapOrder W}.

Definition ensureAllowed (tcx : Context) (name : gostring) : option goerror :=
  match cx_Allowed tcx with
  | None => None
  | Some allowed =>
      if decide (name ∈ allowed) then None
      else Some (ErrorString
             ("tools: " ++ Quote name ++ " not in allowed set for this request"))
  end.

(** [Registry]. *)
Record Registry := { byName : gmap gostring (Tool W) }.

(** The loop of [NewRegistry]. *)
Fixpoint register_all (m : gmap gostring (Tool W)) (ts : list (Tool W)) :
    result (gmap gostring (Tool W)) :=
  match ts with
  | [] => Ok m
  | t :: ts' =>
      let n := t_Name t in
      if decide (n = []) then Err (ErrorString "tools: empty tool name")
      else match m !! n with
           | Some _ => Err (ErrorString ("tools: duplicate tool " ++ Quote n))
           | None => register_all (<[n := t]> m) ts'
           end
  end.

Definition NewRegistry (ts : list (Tool W)) : result Registry :=
  Build_Registry <$> register_all ∅ ts.

(** [Registry.Definitions], in the order the map is iterated. *)
Definition Definitions (r : Registry) (w : W) : list ToolDef :=
  t_Definition <$> map_order w (map_to_list (byName r)).*2.

(** [Registry.Execute]. *)
Definition Execute (r : Registry) (tcx : Context) (name input : gostring) :
    Go W (result gostring) :=
  match ensureAllowed tcx name with
  | Some e => mret (Err e)
  | None =>
      match byName r !! name with
      | None => mret (Err (ErrorString ("tools: unknown tool " ++ Quote name)))
      | Some t => t_Execute t tcx input
      end
  end.

Definition Has (r : Registry) (name : gostring) : bool :=
  bool_decide (is_Some (byName r !! name)).

(** [FuncTool]: a closure as a tool; its definition is completed. *)
Record FuncTool := {
  ft_N : gostring;
  ft_D : ToolDef;
  ft_F : Context → gostring → Go W (result gostring);
}.

Definition FuncTool_Definition (f : FuncTool) : ToolDef :=
  {| d_Type := if decide (d_Type (ft_D f) = []) then "function" else d_Type (ft_D f);
     d_Name := if decide (d_Name (ft_D f) = []) then ft_N f else d_Name (ft_D f);
     d_Description := d_Description (ft_D f);
     d_Parameters := d_Parameters (ft_D f) |}.

Definition FuncTool_iface (f : FuncTool) : Tool W :=
  {| t_Name := ft_N f; t_Definition := FuncTool_Definition f; t_Execute := ft_F f |}.

(** The inner loop of [MockCatalog.ToolsForSkills]: keep the first tool of each
    name. *)
Fixpoint add_unseen (seen : gset gostring) (out ts : list (Tool W)) :
    gset gostring * list (Tool W) :=
  match ts with
  | [] => (seen, out)
  | t :: ts' =>
      if decide (t_Name t ∈ seen) then add_unseen seen out ts'
      else add_unseen ({[ t_Name t ]} ∪ seen) (out ++ [t]) ts'
  end.

Fixpoint collect_skills (bySkill : gmap gostring (list (Tool W)))
    (seen : gset gostring) (out : list (Tool W)) (ids : list gostring) :
    result (list (Tool W)) :=
  match ids with
  | [] => Ok out
  | sid :: ids' =>
      match bySkill !! sid with
      | None => Err (ErrorString ("tools.MockCatalog: unknown skill " ++ Quote sid))
      | Some ts =>
          let '(seen', out') := add_unseen seen out ts in
          collect_skills bySkill seen' out' ids'
      end
  end.

(** [MockCatalog.ToolsForSkills]; a nil map gives no tools. *)
Definition MockCatalog_ToolsForSkills (bySkill : option (gmap gostring (list (Tool W)))) :
    SkillCatalog W := λ skillIDs _,
  match bySkill with
  | None => Ok []
  | Some m => SortByName t_Name <$> collect_skills m ∅ [] skillIDs
  end.

(** ** Lemmas *)

Lemma ensureAllowed_None tcx name :
  ensureAllowed tcx name = None ↔
  ∀ allowed, cx_Allowed tcx = Some allowed → name ∈ allowed.
Proof.
  unfold ensureAllowed. destruct (cx_Allowed tcx) as [a|]; [|naive_solver].
  case_decide; naive_solver.
Qed.

Lemma register_all_Ok (m : gmap gostring (Tool W)) ts m' :
  register_all m ts = Ok m' ↔
  Forall (λ t, t_Name t ≠ []) ts ∧ NoDup (t_Name <$> ts) ∧
  (∀ t, t ∈ ts → m !! t_Name t = None) ∧
  m' = foldl (λ m t, <[t_Name t := t]> m) m ts.
Proof.
  revert m. induction ts as [|t ts IH]; intros m; cbn.
  - split; [intros [= ->]|intros (_ & _ & _ & ->); done].
    split_and!; [constructor..| |done]. intros t Ht. inversion Ht.
  - rewrite Forall_cons, NoDup_cons, list_elem_of_fmap. case_decide as Hn; [naive_solver|].
    destruct (m !! t_Name t) as [t'|] eqn:Hl.
    + split; [done|]. intros (_ & _ & Hfresh & _).
      rewrite Hfresh in Hl; [done|left].
    + rewrite IH. split.
      * intros (Hf & Hnd & Hfresh & ->). split_and!; try done.
        -- intros (t' & Heq & Hin). specialize (Hfresh t' Hin).
           rewrite <- Heq, lookup_insert_eq in Hfresh. done.
        -- intros t' [->|Hin]%elem_of_cons; [done|]. specialize (Hfresh t' Hin).
           by apply lookup_insert_None in Hfresh as [? _].
      * intros ((_ & Hf) & (Hnin & Hnd) & Hfresh & ->). split_and!; try done.
        intros t' Hin. rewrite lookup_insert_None. split; [apply Hfresh; by right|].
        intros Heq. apply Hnin. by exists t'.
Qed.

Lemma foldl_insert_lookup (ts : list (Tool W)) (m : gmap gostring (Tool W)) n :
  NoDup (t_Name <$> ts) →
  foldl (λ m t, <[t_Name t := t]> m) m ts !! n =
  match find (λ t, bool_decide (t_Name t = n)) ts with
  | Some t => Some t
  | None => m !! n
  end.
Proof.
  revert m. induction ts as [|t ts IH]; intros m; cbn; [done|].
  intros [Hnin Hnd]%NoDup_cons. rewrite IH by done.
  case_bool_decide as Heq; [subst|].
  - destruct (find _ ts) as [t'|] eqn:Hf; [|by rewrite lookup_insert_eq].
    exfalso. apply find_some in Hf as [Hin Ht'%bool_decide_eq_true].
    apply Hnin, list_elem_of_fmap. exists t'. split; [done|]. by apply list_elem_of_In.
  - destruct (find _ ts); [done|]. by rewrite lookup_insert_ne.
Qed.

(** A registry holds exactly the tools it was built from. *)
Lemma NewRegistry_lookup ts r n t :
  NewRegistry ts = Ok r → byName r !! n = Some t ↔ t ∈ ts ∧ t_Name t = n.
Proof.
  unfold NewRegistry, fmap, result_fmap. intros H.
  destruct (register_all ∅ ts) as [m|] eqn:Hm; simplify_eq. cbn.
  apply register_all_Ok in Hm as (_ & Hnd & _ & ->).
  rewrite foldl_insert_lookup by done. rewrite lookup_empty. split.
  - intros Hl. destruct (find _ ts) eqn:Hf; simplify_eq.
    apply find_some in Hf as [Hin%list_elem_of_In Hn%bool_decide_eq_true]. done.
  - intros [Hin <-]. destruct (find _ ts) as [t'|] eqn:Hf.
    + apply find_some in Hf as [Hin'%list_elem_of_In Hn%bool_decide_eq_true]. f_equal.
      apply list_elem_of_lookup in Hin as [i Hi], Hin' as [j Hj].
      assert (i = j) as <-; [|by simplify_eq].
      eapply NoDup_lookup; [done|rewrite list_lookup_fmap, Hi; done|].
      rewrite list_lookup_fmap, Hj. cbn. by rewrite Hn.
    + apply list_elem_of_In in Hin. eapply find_none in Hf; [|done].
      cbn in Hf. by rewrite bool_decide_eq_true_2 in Hf.
Qed.
Lemma foldl_insert_list (ts : list (Tool W)) (m : gmap gostring (Tool W)) :
  NoDup (t_Name <$> ts) → (∀ t, t ∈ ts → m !! t_Name t = None) →
  map_to_list (foldl (λ m t, <[t_Name t := t]> m) m ts) ≡ₚ
  ((λ t, (t_Name t, t)) <$> ts) ++ map_to_list m.
Proof.
  revert m. induction ts as [|t ts IH]; intros m; cbn; [done|].
  intros [Hnin Hnd]%NoDup_cons Hfresh. rewrite IH; [|done|].
  - rewrite map_to_list_insert by (apply Hfresh; left).
    by rewrite Permutation_middle.
  - intros t' Hin. rewrite lookup_insert_None. split; [apply Hfresh; by right|].
    intros Heq. apply Hnin, list_elem_of_fmap. by exists t'.
Qed.

(** ** Properties *)

(** [NewRegistry] succeeds exactly on tools with non-empty, pairwise distinct
    names; the registry then maps each name to its tool and nothing else, and
    the definitions offered to the model are those of the tools, each once, in
    some order. *)
Theorem NewRegistry_correct (ts : list (Tool W)) :
  match NewRegistry ts with
  | Ok r =>
      Forall (λ t, t_Name t ≠ []) ts ∧ NoDup (t_Name <$> ts) ∧
      (∀ n t, byName r !! n = Some t ↔ t ∈ ts ∧ t_Name t = n) ∧
      (∀ w, Definitions r w ≡ₚ t_Definition <$> ts)
  | Err e => ¬ (Forall (λ t, t_Name t ≠ []) ts ∧ NoDup (t_Name <$> ts))
  end.
Proof.
  destruct (NewRegistry ts) as [r|e] eqn:Hr.
  - split_and!; [| |by intros; apply NewRegistry_lookup|];
      unfold NewRegistry, fmap, result_fmap in Hr;
      destruct (register_all ∅ ts) as [m|] eqn:Hm; simplify_eq;
      apply register_all_Ok in Hm as (? & ? & ? & ->); [done..|].
    intros w. unfold Definitions. rewrite map_order_Permutation. cbn.
    rewrite foldl_insert_list, map_to_list_empty, app_nil_r by done.
    rewrite <- (list_fmap_compose (λ t, (t_Name t, t)) snd). by rewrite list_fmap_id.
  - intros [Hne Hnd]. unfold NewRegistry, fmap, result_fmap in Hr.
    destruct (register_all ∅ ts) as [m|] eqn:Hm; simplify_eq.
    assert (register_all ∅ ts = Ok (foldl (λ m t, <[t_Name t := t]> m) ∅ ts)); [|congruence].
    apply register_all_Ok. split_and!; [done..|by intros; apply lookup_empty|done].
Qed.

(** C14: the registry is a sandbox: executing a name either runs the one tool
    registered under it, which the request's allow-list contains, or returns an
    error without any effect. *)
Theorem Execute_sandbox (ts : list (Tool W)) (r : Registry) (tcx : Context)
    (name input : gostring) (w : W) :
  NewRegistry ts = Ok r →
  let allowed := ∀ a, cx_Allowed tcx = Some a → name ∈ a in
  (∃ t, t ∈ ts ∧ t_Name t = name ∧ allowed ∧
     Execute r tcx name input w = t_Execute t tcx input w) ∨
  (∃ e, Execute r tcx name input w = (w, Done (Err e)) ∧
     (¬ allowed ∨ ∀ t, t ∈ ts → t_Name t ≠ name)).
Proof.
  intros Hr allowed. unfold Execute.
  destruct (ensureAllowed tcx name) as [e|] eqn:Ha.
  - right. exists e. split; [done|]. left. intros H%ensureAllowed_None. congruence.
  - pose proof (proj1 (ensureAllowed_None _ _) Ha) as Hin_allowed.
    destruct (byName r !! name) as [t|] eqn:Hl.
    + apply (NewRegistry_lookup _ _ _ _ Hr) in Hl as [Hin Hn]. left. by exists t.
    + right. eexists. split; [done|]. right. intros t Hin Hn.
      assert (byName r !! name = Some t) by (by eapply NewRegistry_lookup). congruence.
Qed.
End tools.
Arguments Registry : clear implicits.

(** ** Witnesses and concrete runs *)

#[global] Instance trivial_MapOrder W : MapOrder W :=
  {| map_order := λ A _ l, l; map_order_Permutation := λ A _ l, Permutation_refl l |}.

Definition sample_def (n : gostring) : ToolDef :=
  {| d_Type := "function"; d_Name := n; d_Description := []; d_Parameters := [] |}.

(** A tool that counts its runs. *)
Definition counting_tool (n : gostring) : Tool Z :=
  {| t_Name := n; t_Definition := sample_def n;
     t_Execute := λ _ _ w, (w + 1, Done (Ok "ok")) |}.

Definition sample_scope : TenantScope := {| UserID := "u"; AgentID := "a" |}.
Definition sample_cx (allowed : list gostring) : Context :=
  {| cx_Scope := sample_scope; cx_SessionID := "s"; cx_RequestID := "r";
     cx_Allowed := Some (list_to_set allowed) |}.

Lemma Execute_sandbox_witness :
  let r := {| byName := {[ "x" := counting_tool "x" ]} |} in
  (∃ t, t ∈ [counting_tool "x"] ∧ t_Name t = "x" ∧
     (∀ a, cx_Allowed (sample_cx ["x"]) = Some a → "x" ∈ a) ∧
     Execute (UT := ascii_tables) r (sample_cx ["x"]) "x" "{}" 0 =
     t_Execute t (sample_cx ["x"]) "{}" 0) ∨
  (∃ e, Execute (UT := ascii_tables) r (sample_cx ["x"]) "x" "{}" 0 = (0, Done (Err e)) ∧
     (¬ (∀ a, cx_Allowed (sample_cx ["x"]) = Some a → "x" ∈ a) ∨
      ∀ t, t ∈ [counting_tool "x"] → t_Name t ≠ "x")).
Proof.
  apply (Execute_sandbox (UT := ascii_tables) [counting_tool "x"]). reflexivity.
Defined.

(** [TestRegistryAllowlist]. *)
Example allowlist_denies :
  Execute (UT := ascii_tables) {| byName := {[ "x" := counting_tool "x" ]} |}
    (sample_cx ["y"]) "x" "{}" 0 =
  (0, Done (Err (ErrorString
     ("tools: " ++ [x22] ++ "x" ++ [x22] ++ " not in allowed set for this request")))).
Proof. vm_compute. reflexivity. Qed.
