(* ===== verification/Planner.v ===== *)
(** * Package [planner]: the session's todo list and its tools

    [src/pkg/agent_core/planner]: tasks, the [Store] interface with its laws, the
    in-memory store that implements them, the focus fragment of the system
    prompt and the two tools bound to a store. *)

From S2P Require Import Prelude GoString Identity Tools.
Open Scope Z_scope.

(** ** Data *)

(** [type TaskStatus string]. *)
Abbreviation TaskStatus := gostring.
Definition StatusPending : TaskStatus := "pending".
Definition StatusInProgress : TaskStatus := "in_progress".
Definition StatusDone : TaskStatus := "done".
Definition StatusCancelled : TaskStatus := "cancelled".

Record Task := {
  tk_ID : gostring;
  tk_ParentID : gostring;
  tk_Title : gostring;
  tk_Status : TaskStatus;
  tk_Order : Z;
}.

#[global] Instance Task_eq_decision : EqDecision Task.
Proof. solve_decision. Defined.

Definition with_status (t : Task) (s : TaskStatus) : Task :=
  {| tk_ID := tk_ID t; tk_ParentID := tk_ParentID t; tk_Title := tk_Title t;
     tk_Status := s; tk_Order := tk_Order t |}.

(** ** The [Store] interface *)

(** The three methods, on a world [W]. *)
Record Store (W : Type) := {
  st_ReplaceTasks : gostring → list Task → W → W;
  st_List : gostring → W → list Task;
  st_MarkDone : gostring → gostring → W → W * option goerror;
}.
Arguments st_ReplaceTasks {_} _ _ _ _.
Arguments st_List {_} _ _ _.
Arguments st_MarkDone {_} _ _ _ _.

(** [tasks] with the first task named [id] done. *)
Fixpoint mark_first (id : gostring) (tasks : list Task) : option (list Task) :=
  match tasks with
  | [] => None
  | t :: ts =>
      if decide (tk_ID t = id) then Some (with_status t StatusDone :: ts)
      else cons t <$> mark_first id ts
  end.

(** What the prompt and the tools rely on. *)
Class StoreLaws {W} (st : Store W) : Prop := {
  replace_list sid ts w : st_List st sid (st_ReplaceTasks st sid ts w) = ts;
  replace_other sid sid' ts w :
    sid ≠ sid' → st_List st sid' (st_ReplaceTasks st sid ts w) = st_List st sid' w;
  mark_list sid id w :
    match mark_first id (st_List st sid w) with
    | Some ts => (st_MarkDone st sid id w).2 = None ∧
                 st_List st sid (st_MarkDone st sid id w).1 = ts
    | None => is_Some (st_MarkDone st sid id w).2 ∧ (st_MarkDone st sid id w).1 = w
    end;
  mark_other sid sid' id w :
    sid ≠ sid' → st_List st sid' (st_MarkDone st sid id w).1 = st_List st sid' w;
}.

(** ** [MemoryStore] *)

(** The [sessions] map; the mutex makes every method atomic. *)
Abbreviation MemoryStore := (gmap gostring (list Task)).
Definition NewMemoryStore : MemoryStore := ∅.

(** The slice is copied, so later changes of the caller's slice do not reach the
    store. *)
Definition ReplaceTasks (sid : gostring) (tasks : list Task) (m : MemoryStore) : MemoryStore :=
  <[sid := tasks]> m.

(** A missing session is a nil slice. *)
Definition List (sid : gostring) (m : MemoryStore) : list Task := default [] (m !! sid).

Section planner.
Context `{UT : UnicodeTables}.

Definition MarkDone (sid id : gostring) (m : MemoryStore) : MemoryStore * option goerror :=
  match m !! sid with
  | None => (m, Some (ErrorString "planner: no tasks for session"))
  | Some tasks =>
      match mark_first id tasks with
      | Some tasks' => (<[sid := tasks']> m, None)
      | None => (m, Some (ErrorString ("planner: task " ++ Quote id ++ " not found")))
      end
  end.

Definition MemoryStore_iface : Store MemoryStore :=
  {| st_ReplaceTasks := ReplaceTasks; st_List := List; st_MarkDone := MarkDone |}.

#[export] Instance MemoryStore_laws : StoreLaws MemoryStore_iface.
Proof.
  split; unfold MemoryStore_iface, ReplaceTasks, List, MarkDone; cbn.
  - intros. by rewrite lookup_insert_eq.
  - intros. by rewrite lookup_insert_ne.
  - intros sid id w. destruct (w !! sid) as [ts|] eqn:E; cbn; [|eauto].
    destruct (mark_first id ts); cbn; [by rewrite lookup_insert_eq|eauto].
  - intros sid sid' id w Hne. destruct (w !! sid) as [ts|] eqn:E; cbn; [|done].
    destruct (mark_first id ts); cbn; [by rewrite lookup_insert_ne|done].
Qed.
End planner.

(** ** [FocusPrompt] *)

Definition with_status_only (s : TaskStatus) (tasks : list Task) : list Task :=
  filter (λ t, tk_Status t = s) tasks.

Definition focus_empty : gostring :=
  "## Current focus (todo)" ++ [x0a] ++
  "No tasks yet. Call update_todo to create a plan and set exactly one item to in_progress before using other tools.".
Definition focus_none : gostring :=
  "## Current focus (todo)" ++ [x0a] ++
  "Nothing is in_progress. Call update_todo to set one task to status in_progress before calling other tools.".

Definition focus_task (t : Task) : gostring :=
  "## Current focus (todo)" ++ [x0a] ++
  "You MUST prioritize this item until it is done or explicitly re-planned:" ++ [x0a] ++
  "- **" ++ tk_Title t ++ "** (id `" ++ tk_ID t ++ "`)" ++ [x0a] ++
  (if decide (tk_ParentID t = []) then []
   else "- Parent: `" ++ tk_ParentID t ++ "`" ++ [x0a]).

Section focus.
Context `{SS : SortSlice} {W : Type}.

(** [FocusPrompt]; the store may be nil. The pending tasks are collected and
    sorted by the code as well, and not used. *)
Definition FocusPrompt (sid : gostring) (store : option (Store W)) (w : W) : gostring :=
  match store with
  | None => []
  | Some st =>
      let tasks := st_List st sid w in
      if decide (tasks = []) then focus_empty
      else
        let inProgress := sort_key tk_Order (with_status_only StatusInProgress tasks) in
        let pending := sort_key tk_Order (with_status_only StatusPending tasks) in
        match inProgress with
        | t :: _ => focus_task t
        | [] => focus_none
        end
  end.
End focus.

(** ** The tools *)

Definition ToolUpdateTodo : gostring := "update_todo".
Definition ToolMarkTaskDone : gostring := "mark_task_done".
Definition BuiltinToolNames : list gostring := [ToolUpdateTodo; ToolMarkTaskDone].

Definition schema_string : any := AnyMap [("type", AnyString "string")].

Definition updateTodo_Definition : ToolDef :=
  {| d_Type := "function"; d_Name := ToolUpdateTodo;
     d_Description := "Replace the entire todo list for this session. Set exactly one task to in_progress when starting work.";
     d_Parameters := [
       ("type", AnyString "object");
       ("properties", AnyMap [
         ("tasks", AnyMap [
           ("type", AnyString "array");
           ("items", AnyMap [
             ("type", AnyString "object");
             ("properties", AnyMap [
               ("id", schema_string); ("parent_id", schema_string);
               ("title", schema_string);
               ("status", AnyMap [
                 ("type", AnyString "string");
                 ("enum", AnyStrings [StatusPending; StatusInProgress; StatusDone;
                                      StatusCancelled])]);
               ("order", AnyMap [("type", AnyString "integer")])]);
             ("required", AnyStrings ["id"; "title"; "status"])])])]);
       ("required", AnyStrings ["tasks"])] |}.

Definition markDone_Definition : ToolDef :=
  {| d_Type := "function"; d_Name := ToolMarkTaskDone;
     d_Description := "Mark a todo item as done by id.";
     d_Parameters := [
       ("type", AnyString "object");
       ("properties", AnyMap [("id", schema_string)]);
       ("required", AnyStrings ["id"])] |}.

(** [json.Unmarshal] into the two argument structs: the JSON decoder is a
    parameter, the tools only use its result. *)
Class TodoDecoder := {
  unmarshal_tasks : gostring → result (list Task);
  unmarshal_id : gostring → result gostring;
}.

Section builtin_tools.
Context `{TD : TodoDecoder} {W : Type}.

Definition updateTodo_Execute (st : Store W) (tcx : Context) (input : gostring) :
    Go W (result gostring) := λ w,
  match unmarshal_tasks input with
  | Err e => (w, Done (Err (WrapError ("update_todo: " ++ error_text e) e)))
  | Ok tasks =>
      (st_ReplaceTasks st (cx_SessionID tcx) tasks w,
       Done (Ok ("ok: " ++ FormatInt (len tasks) ++ " tasks stored")))
  end.

Definition markDone_Execute (st : Store W) (tcx : Context) (input : gostring) :
    Go W (result gostring) := λ w,
  match unmarshal_id input with
  | Err e => (w, Done (Err (WrapError ("mark_task_done: " ++ error_text e) e)))
  | Ok id =>
      match st_MarkDone st (cx_SessionID tcx) id w with
      | (w', Some e) => (w', Done (Err e))
      | (w', None) => (w', Done (Ok "ok"))
      end
  end.

Definition updateTodoTool (st : Store W) : Tool W :=
  {| t_Name := ToolUpdateTodo; t_Definition := updateTodo_Definition;
     t_Execute := updateTodo_Execute st |}.

Definition markDoneTool (st : Store W) : Tool W :=
  {| t_Name := ToolMarkTaskDone; t_Definition := markDone_Definition;
     t_Execute := markDone_Execute st |}.

(** [BuiltinTools]; a nil store gives no tools. *)
Definition BuiltinTools (store : option (Store W)) : list (Tool W) :=
  match store with
  | None => []
  | Some st => [updateTodoTool st; markDoneTool st]
  end.
End builtin_tools.

(** ** Lemmas *)

Lemma mark_first_Some id ts ts' :
  mark_first id ts = Some ts' ↔
  ∃ i t, ts !! i = Some t ∧ tk_ID t = id ∧ ts' = <[i := with_status t StatusDone]> ts ∧
    ∀ j t', (j < i)%nat → ts !! j = Some t' → tk_ID t' ≠ id.
Proof.
  revert ts'. induction ts as [|t ts IH]; intros ts'; cbn.
  - split; [done|]. by intros (i & t & ? & _).
  - case_decide as Hid.
    + split.
      * intros [= <-]. exists 0%nat, t. split_and!; [done..|]. intros j ? ?; lia.
      * intros (i & t0 & Hi & Hid0 & -> & Hmin). destruct i as [|i]; cbn in *; [by simplify_eq|].
        exfalso. by apply (Hmin 0%nat t); [lia|..].
    + rewrite fmap_Some. split.
      * intros (ts0 & (i & t0 & Hi & Hid0 & -> & Hmin)%IH & ->).
        exists (S i), t0. split_and!; [done..|].
        intros [|j] t' Hj Hl; cbn in Hl; [by simplify_eq|]. apply (Hmin j); [lia|done].
      * intros (i & t0 & Hi & Hid0 & -> & Hmin). destruct i as [|i]; cbn in *; [by simplify_eq|].
        eexists. split; [|done]. apply IH. exists i, t0. split_and!; [done..|].
        intros j t' Hj Hl. apply (Hmin (S j)); [lia|done].
Qed.

Lemma mark_first_None id ts : mark_first id ts = None ↔ ∀ t, t ∈ ts → tk_ID t ≠ id.
Proof.
  induction ts as [|t ts IH]; cbn; [split; [intros _ t' []%elem_of_nil|done]|].
  setoid_rewrite elem_of_cons. case_decide; [naive_solver|].
  rewrite fmap_None, IH. naive_solver.
Qed.

Section focus_lemmas.
Context `{SS : SortSlice}.

(** The head of a sorted list is a minimum of the list. *)
Lemma sort_key_head {A} (key : A → Z) (l : list A) x k :
  sort_key key l = x :: k → x ∈ l ∧ ∀ y, y ∈ l → key x ≤ key y.
Proof.
  intros H. pose proof (sort_key_Permutation key l) as Hp.
  pose proof (sort_key_Sorted key l) as Hs. rewrite H in Hp, Hs.
  split; [rewrite <- Hp; left|]. intros y Hy. rewrite <- Hp in Hy.
  apply elem_of_cons in Hy as [->|Hy]; [lia|].
  apply StronglySorted_inv in Hs as [_ Hs]. rewrite Forall_forall in Hs. by apply Hs.
Qed.

Lemma sort_key_nil {A} (key : A → Z) (l : list A) : sort_key key l = [] → l = [].
Proof. intros H. apply Permutation_nil. by rewrite <- H, sort_key_Permutation. Qed.
End focus_lemmas.

(** ** Properties *)

(** The focus fragment. Without a store there is none; without tasks it asks
    for a plan; otherwise it names a task that is in progress and has the least
    order among those, whatever the (unstable) sort does with ties, and says
    that nothing is in progress exactly when no task is. *)
Theorem FocusPrompt_focus `{SS : SortSlice} {W} (sid : gostring)
    (store : option (Store W)) (w : W) :
  match store with
  | None => FocusPrompt sid store w = []
  | Some st =>
      let tasks := st_List st sid w in
      (tasks = [] ∧ FocusPrompt sid store w = focus_empty) ∨
      (tasks ≠ [] ∧ (∀ t, t ∈ tasks → tk_Status t ≠ StatusInProgress) ∧
         FocusPrompt sid store w = focus_none) ∨
      (∃ t, t ∈ tasks ∧ tk_Status t = StatusInProgress ∧
         (∀ t', t' ∈ tasks → tk_Status t' = StatusInProgress → tk_Order t ≤ tk_Order t') ∧
         FocusPrompt sid store w = focus_task t)
  end.
Proof.
  destruct store as [st|]; [|done]. cbn. case_decide as Hnil; [by left|right].
  destruct (sort_key tk_Order (with_status_only StatusInProgress _)) as [|t ts] eqn:E.
  - left. apply sort_key_nil in E. split_and!; [done| |done].
    intros t Ht Hs. assert (t ∈ with_status_only StatusInProgress (st_List st sid w)) as Hin
      by (by apply list_elem_of_filter). rewrite E in Hin. by apply elem_of_nil in Hin.
  - right. apply sort_key_head in E as [Hin Hmin].
    apply list_elem_of_filter in Hin as [Hs Hin]. exists t. split_and!; [done..| |done].
    intros t' Hin' Hs'. apply Hmin. by apply list_elem_of_filter.
Qed.

(** The todo tools act on the session they are called for only. On success
    [update_todo] makes the session's list the decoded one and [mark_task_done]
    sets the status of the first task with the id and nothing else; on any error
    nothing changes; the lists of the other sessions never do. *)
Theorem todo_tools_correct `{TD : TodoDecoder} {W} (st : Store W) (L : StoreLaws st)
    (tcx : Context) (input : gostring) (w : W) :
  let sid := cx_SessionID tcx in
  (∃ w' res, updateTodo_Execute st tcx input w = (w', Done res) ∧
     (∀ sid', sid ≠ sid' → st_List st sid' w' = st_List st sid' w) ∧
     match res, unmarshal_tasks input with
     | Ok _, Ok tasks => st_List st sid w' = tasks
     | Err _, Err _ => w' = w
     | _, _ => False
     end) ∧
  (∃ w' res, markDone_Execute st tcx input w = (w', Done res) ∧
     (∀ sid', sid ≠ sid' → st_List st sid' w' = st_List st sid' w) ∧
     match res with
     | Ok _ => ∃ id i t, unmarshal_id input = Ok id ∧ tk_ID t = id ∧
                 st_List st sid w !! i = Some t ∧
                 (∀ j t', (j < i)%nat → st_List st sid w !! j = Some t' → tk_ID t' ≠ id) ∧
                 st_List st sid w' = <[i := with_status t StatusDone]> (st_List st sid w)
     | Err _ => w' = w ∧
                 ∀ id, unmarshal_id input = Ok id →
                 ∀ t, t ∈ st_List st sid w → tk_ID t ≠ id
     end).
Proof.
  cbn. split; [unfold updateTodo_Execute|unfold markDone_Execute].
  - destruct (unmarshal_tasks input) as [tasks|e]; eexists _, _; split_and!; try done.
    + intros. by apply replace_other.
    + apply replace_list.
  - destruct (unmarshal_id input) as [id|e]; [|by eexists _, _; split_and!].
    pose proof (mark_list (cx_SessionID tcx) id w) as Hm.
    pose proof (λ sid', mark_other (cx_SessionID tcx) sid' id w) as Ho.
    destruct (st_MarkDone st (cx_SessionID tcx) id w) as [w' r]. cbn in *.
    destruct (mark_first _ _) as [ts|] eqn:E.
    + destruct Hm as [-> <-]. apply mark_first_Some in E as (i & t & ? & ? & ? & ?).
      eexists _, _. split_and!; [done..|]. by exists id, i, t.
    + destruct Hm as [[e ->] ->]. rewrite mark_first_None in E.
      eexists _, _. split_and!; [done..|]. cbn. split; [done|]. by intros ? [= <-].
Qed.

(** ** Witnesses and concrete runs *)

#[local] Instance sample_decoder : TodoDecoder :=
  {| unmarshal_tasks := λ _, Ok [{| tk_ID := "1"; tk_ParentID := []; tk_Title := "Do thing";
                                    tk_Status := StatusInProgress; tk_Order := 0 |}];
     unmarshal_id := λ s, Ok s |}.

Lemma todo_tools_correct_witness :
  let st := MemoryStore_iface (UT := ascii_tables) in
  ∃ w' res, updateTodo_Execute st (sample_cx []) "{}" ∅ = (w', Done res) ∧
     (∀ sid', "s" ≠ sid' → st_List st sid' w' = st_List st sid' ∅) ∧
     match res, unmarshal_tasks "{}" with
     | Ok _, Ok tasks => st_List st "s" w' = tasks
     | Err _, Err _ => w' = ∅
     | _, _ => False
     end.
Proof.
  apply (todo_tools_correct (MemoryStore_iface (UT := ascii_tables))
           (MemoryStore_laws (UT := ascii_tables)) (sample_cx []) "{}" ∅).
Defined.

(** [TestFocusPrompt]: a task in progress is the focus. *)
Example focus_run :
  let st := MemoryStore_iface (UT := ascii_tables) in
  let w := (updateTodo_Execute st (sample_cx []) "{}" ∅).1 in
  FocusPrompt (SS := merge_SortSlice) "s" (Some st) w =
  "## Current focus (todo)" ++ [x0a] ++
  "You MUST prioritize this item until it is done or explicitly re-planned:" ++ [x0a] ++
  "- **Do thing** (id `1`)" ++ [x0a].
Proof. vm_compute. reflexivity. Qed.
