(* ===== verification/Llm.v ===== *)
(** * Package [llm]: the model client interfaces and the scripted client

    [src/pkg/agent_core/llm].  The engine only knows a model through two
    interfaces.  A streaming turn is a program that may call the delta callback
    in the middle of its work; [StreamTurn] is that program as data, so that the
    caller's closure (with the local variables it captures) runs at each
    delivery point.  [MockClient] implements both interfaces. *)

From S2P Require Import Prelude GoString Identity Transcript Thinking Tools.
Open Scope Z_scope.

(** ** Data *)

Definition ErrStreamingNotSupported : goerror :=
  PkgError "llm.ErrStreamingNotSupported" "llm: streaming not supported".

Record CompleteRequest := {
  cr_Messages : list Message;
  cr_ToolDefs : list ToolDef;
}.

(** A struct with a single field. *)
Record CompleteResponse := { Assistant : Message }.

(** [StreamSink]. *)
Record StreamSink (W : Type) := {
  sk_OnThinking : gostring → Go W unit;
  sk_OnText : gostring → Go W unit;
  sk_OnError : goerror → Go W unit;
}.
Arguments sk_OnThinking {_} _ _.
Arguments sk_OnText {_} _ _.
Arguments sk_OnError {_} _ _.

Record StreamRequest (W : Type) := {
  sr_Messages : list Message;
  sr_ToolDefs : list ToolDef;
  sr_Sink : option (StreamSink W);
}.
Arguments sr_Messages {_} _.
Arguments sr_ToolDefs {_} _.
Arguments sr_Sink {_} _.

(** [ModelClient]. *)
Record ModelClient (W : Type) := {
  mc_Complete : CompleteRequest → Go W (result CompleteResponse);
  mc_Stream : StreamRequest W → Go W (option goerror);
}.
Arguments mc_Complete {_} _ _.
Arguments mc_Stream {_} _ _.

(** ** Streaming turns *)

(** A call of [CompleteStreamTurn] seen from the caller: work on the world,
    deliveries of text, and a result. *)
Inductive StreamTurn (W A : Type) :=
| TurnReturn (r : result A)
| TurnPanic (why : gostring)
| TurnWork (upd : W → W) (next : W → StreamTurn W A)
| TurnDelta (d : gostring) (next : StreamTurn W A).
Arguments TurnReturn {_ _} _.
Arguments TurnPanic {_ _} _.
Arguments TurnWork {_ _} _ _.
Arguments TurnDelta {_ _} _ _.

(** The turn with its result mapped. *)
Fixpoint turn_map {W A B} (f : result A → result B) (t : StreamTurn W A) : StreamTurn W B :=
  match t with
  | TurnReturn r => TurnReturn (f r)
  | TurnPanic p => TurnPanic p
  | TurnWork upd next => TurnWork upd (λ w, turn_map f (next w))
  | TurnDelta d next => TurnDelta d (turn_map f next)
  end.

(** [StreamTurnCompleter]: the boolean tells whether the callback is not nil. *)
Definition StreamTurnCompleter (W : Type) : Type := 
  (CompleteRequest → bool → StreamTurn W CompleteResponse).

(** Run a turn with the callback [cb], a closure over a variable of type [S].
    Calling a nil function panics. *)
Fixpoint run_turn {W A S} (cb : option (gostring → S → Go W S)) (t : StreamTurn W A)
    (s : S) : Go W (S * result A) :=
  match t with
  | TurnReturn r => mret (s, r)
  | TurnPanic p => go_panic p
  | TurnWork upd next => λ w, run_turn cb (next w) s (upd w)
  | TurnDelta d next =>
      match cb with
      | None => go_panic "invalid memory address or nil pointer dereference"
      | Some f => s' ← f d s; run_turn cb next s'
      end
  end.

(** Work that may end with a result or a panic, inside a turn. *)
Definition TurnGo {W A B} (m : Go W B) (k : B → StreamTurn W A) : StreamTurn W A :=
  TurnWork (λ w, (m w).1)
    (λ w, match (m w).2 with Done b => k b | Panicked p => TurnPanic p end).

Lemma run_turn_go {W A B S} (cb : option (gostring → S → Go W S)) (m : Go W B)
    (k : B → StreamTurn W A) s w :
  run_turn cb (TurnGo m k) s w = (m ≫= λ b, run_turn cb (k b) s) w.
Proof. cbn. unfold mbind, Go_bind. by destruct (m w) as [w' [b|p]]. Qed.

(** ** The scripted client *)

Record MockClient := {
  Queue : list CompleteResponse;
  MockErr : option goerror;
  StreamChunks : list gostring;
  StreamErr : option goerror;
}.

(** The client is an object of the world [W]. *)
Class HasMock (W : Type) := {
  mock : W → MockClient;
  set_mock : MockClient → W → W;
  mock_set m w : mock (set_mock m w) = m;
}.

Section mock_client.
Context `{HM : HasMock W}.

Definition pop_queue (m : MockClient) : MockClient :=
  {| Queue := tail (Queue m); MockErr := MockErr m;
     StreamChunks := StreamChunks m; StreamErr := StreamErr m |}.

(** [MockClient.Complete], on the state of the client. *)
Definition mock_complete (m : MockClient) : MockClient * result CompleteResponse :=
  match MockErr m with
  | Some e => (m, Err e)
  | None =>
      match Queue m with
      | [] => (m, Err (ErrorString "llm.MockClient: empty Complete queue"))
      | r :: _ => (pop_queue m, Ok r)
      end
  end.

Definition MockClient_Complete (req : CompleteRequest) : Go W (result CompleteResponse) :=
  go_state (λ w, let '(m', r) := mock_complete (mock w) in (set_mock m' w, r)).

(** [MockClient.CompleteStreamTurn]: the text of the answer as one delta. *)
Definition MockClient_CompleteStreamTurn : StreamTurnCompleter W := λ req has_cb,
  TurnWork (λ w, set_mock (mock_complete (mock w)).1 w) (λ w,
    match (mock_complete (mock w)).2 with
    | Err e => TurnReturn (Err e)
    | Ok r =>
        if has_cb && negb (bool_decide (m_Content (Assistant r) = []))
        then TurnDelta (m_Content (Assistant r)) (TurnReturn (Ok r))
        else TurnReturn (Ok r)
    end).

(** The callbacks of a sink as a [thinking.HandlerFunc] on computations: the
    calls are run in their order. *)
Definition sink_handler (s : StreamSink W) : HandlerFunc (Go W unit) :=
  {| hf_T := Some (λ d m, m ;; sk_OnThinking s d);
     hf_X := Some (λ d m, m ;; sk_OnText s d) |}.

(** [MockClient.Stream]: the scripted chunks through the demultiplexer. *)
Definition MockClient_Stream (req : StreamRequest W) : Go W (option goerror) :=
  m ← go_gets mock;
  match StreamErr m with
  | Some e =>
      match sr_Sink req with
      | Some s => sk_OnError s e ;; mret (Some e)
      | None => mret (Some e)
      end
  | None =>
      if decide (StreamChunks m = []) then mret (Some ErrStreamingNotSupported)
      else match sr_Sink req with
           | None => mret None
           | Some s =>
               (run_stream (Some (sink_handler s)) (StreamChunks m) (Some initial) (mret tt)).2 ;;
               mret None
           end
  end.

Definition MockClient_iface : ModelClient W :=
  {| mc_Complete := MockClient_Complete; mc_Stream := MockClient_Stream |}.
End mock_client.

(** ** Turns that ignore their callback *)

(** The callback that does nothing but exist. *)
Definition ignore_delta {W} : option (gostring → unit → Go W unit) := Some (λ _ _, mret tt).

(** A turn streams a call of [Complete] when, run with a callback that does
    nothing (or with none), it changes the world and answers as that call does. *)
Definition streams_call {W A} (has_cb : bool) (t : StreamTurn W A)
    (m : Go W (result A)) : Prop :=
  ∀ w, run_turn (if has_cb then ignore_delta else None) t tt w = (pair tt <$> m) w.

Lemma MockClient_streams `{HM : HasMock W} has_cb req :
  streams_call has_cb (MockClient_CompleteStreamTurn req has_cb) (MockClient_Complete req).
Proof.
  intros w. cbn. unfold MockClient_Complete, go_state, fmap, Go_fmap, mbind, Go_bind.
  destruct (mock_complete (mock w)) as [m' [r|e]]; cbn; [|done].
  by destruct has_cb, (bool_decide _).
Qed.

(** ** Simulation of turns *)

Section turn_sim.
Context {W A : Type} (RW : relation W).

(** Two turns that deliver the same deltas and keep related worlds related. *)
Inductive turn_sim : relation (StreamTurn W A) :=
| turn_sim_return r : turn_sim (TurnReturn r) (TurnReturn r)
| turn_sim_panic p : turn_sim (TurnPanic p) (TurnPanic p)
| turn_sim_work upd upd' next next' :
    (∀ w w', RW w w' → RW (upd w) (upd' w')) →
    (∀ w w', RW w w' → turn_sim (next w) (next' w')) →
    turn_sim (TurnWork upd next) (TurnWork upd' next')
| turn_sim_delta d t t' : turn_sim t t' → turn_sim (TurnDelta d t) (TurnDelta d t').

(** Related callbacks: both nil, or both related closures. *)
Definition cb_sim {S S'} (R : S → S' → Prop) (cb : option (gostring → S → Go W S))
    (cb' : option (gostring → S' → Go W S')) : Prop :=
  match cb, cb' with
  | Some f, Some f' => ∀ d s s', R s s' → go_sim RW R (f d s) (f' d s')
  | None, None => True
  | _, _ => False
  end.

Lemma run_turn_sim {S S'} (R : S → S' → Prop) cb cb' t t' s s' :
  turn_sim t t' → cb_sim R cb cb' → R s s' →
  go_sim RW (λ p p', R p.1 p'.1 ∧ p.2 = p'.2) (run_turn cb t s) (run_turn cb' t' s').
Proof.
  intros Ht Hcb. revert s s'. induction Ht as [r|p|upd upd' next next' Hu Hn IH|d t t' Ht IH];
    intros s s' Hs; cbn [run_turn].
  - by apply go_sim_ret.
  - apply go_sim_panic.
  - intros w w' Hw. apply (IH w w' Hw s s' Hs). by apply Hu.
  - destruct cb as [f|], cb' as [f'|]; cbn in Hcb; try done.
    by eapply go_sim_bind; [by apply Hcb|].
Qed.
End turn_sim.

Lemma turn_sim_refl {W A} (t : StreamTurn W A) : turn_sim eq t t.
Proof.
  induction t as [r|p|upd next IH|d t IH]; constructor; try done; by intros ? ? ->.
Qed.

(** ** The demultiplexed stream of the scripted client *)

Section sink.
Context `{HM : HasMock W} (log : W → list (bool * byte)) (snk : StreamSink W).
Hypothesis sink_thinking : ∀ d w1, ∃ w2,
  sk_OnThinking snk d w1 = (w2, Done tt) ∧ log w2 = log w1 ++ (pair true <$> d).
Hypothesis sink_text : ∀ d w1, ∃ w2,
  sk_OnText snk d w1 = (w2, Done tt) ∧ log w2 = log w1 ++ (pair false <$> d).

(** The computation [m] appends [l] to the log. *)
Definition appends (m : Go W unit) (l : list (bool * byte)) : Prop :=
  ∀ w, ∃ w', m w = (w', Done tt) ∧ log w' = log w ++ l.

Lemma appends_bind m l n k : appends m l → appends n k → appends (m ;; n) (l ++ k).
Proof.
  intros Hm Hn w. destruct (Hm w) as (w1 & E1 & L1), (Hn w1) as (w2 & E2 & L2).
  exists w2. rewrite (go_bind_eq _ _ _ _ _ E1), L2, L1, app_assoc. done.
Qed.

(** The sink simulates the recorder, call by call. *)
Lemma deliver_sink evs m l :
  appends m l → appends (deliver (sink_handler snk) evs m) (deliver recorder evs l).
Proof.
  revert m l. induction evs as [|e evs IH]; intros m l H; [done|]. cbn.
  apply IH. destruct e.
  - apply (appends_bind m l _ _ H (sink_thinking s)).
  - apply (appends_bind m l _ _ H (sink_text s)).
Qed.

Lemma run_stream_sink chunks st m l :
  appends m l →
  appends (run_stream (Some (sink_handler snk)) chunks (Some st) m).2
          (run_stream (Some recorder) chunks (Some st) l).2.
Proof.
  revert st m l. induction chunks as [|c cs IH]; intros st m l H; cbn;
    [by apply deliver_sink|].
  destruct (process_loop _ _) as [st' evs]. by apply IH, deliver_sink.
Qed.
End sink.

(** The scripted client's stream is the byte-level demultiplexing of the
    concatenation of its chunks: a sink that appends what it is given to a log
    ends with the scan of the whole text, and the call succeeds. *)
Theorem MockClient_Stream_demux `{HM : HasMock W} (log : W → list (bool * byte))
    (snk : StreamSink W) (req : StreamRequest W) (w : W) :
  sr_Sink req = Some snk →
  StreamErr (mock w) = None → StreamChunks (mock w) ≠ [] →
  (∀ d w1, ∃ w2, sk_OnThinking snk d w1 = (w2, Done tt) ∧
     log w2 = log w1 ++ (pair true <$> d)) →
  (∀ d w1, ∃ w2, sk_OnText snk d w1 = (w2, Done tt) ∧
     log w2 = log w1 ++ (pair false <$> d)) →
  ∃ w', MockClient_Stream req w = (w', Done None) ∧
    log w' = log w ++ demux_spec false (mjoin (StreamChunks (mock w))).
Proof.
  intros Hs He Hc Ht Hx. unfold MockClient_Stream, go_gets.
  rewrite (go_bind_eq _ _ _ w (mock w)) by done. rewrite He, Hs, decide_False by done.
  destruct (run_stream_sink log snk Ht Hx (StreamChunks (mock w)) initial (mret tt) [])
    with (w := w) as (w' & E & L); [by intros w0; exists w0; rewrite app_nil_r|].
  exists w'. rewrite (go_bind_eq _ _ _ _ _ E), L, run_stream_spec by apply initial_wf. done.
Qed.

(** ** Witnesses *)

#[local] Instance mock_log : HasMock (MockClient * list (bool * byte)).
Proof. by refine {| mock := fst; set_mock := λ m w, (m, w.2) |}. Defined.

Definition log_sink : StreamSink (MockClient * list (bool * byte)) :=
  {| sk_OnThinking := λ d w, ((w.1, w.2 ++ (pair true <$> d)), Done tt);
     sk_OnText := λ d w, ((w.1, w.2 ++ (pair false <$> d)), Done tt);
     sk_OnError := λ _, mret tt |}.

Definition scripted (chunks : list gostring) : MockClient :=
  {| Queue := []; MockErr := None; StreamChunks := chunks; StreamErr := None |}.

Lemma MockClient_Stream_demux_witness :
  let chunks := ["a<thin"; "king>b</thinking>c"]%go in
  ∃ w', MockClient_Stream {| sr_Messages := []; sr_ToolDefs := []; sr_Sink := Some log_sink |}
          (scripted chunks, []) = (w', Done None) ∧
    w'.2 = [] ++ demux_spec false (mjoin chunks).
Proof.
  intros chunks.
  refine (MockClient_Stream_demux snd log_sink
    {| sr_Messages := []; sr_ToolDefs := []; sr_Sink := Some log_sink |}
    (scripted chunks, []) _ _ _ _ _); [done..| |]; intros d w1; by eexists.
Defined.
