(* ===== verification/Loop.v ===== *)
(** * Package [loop]: the ReAct tool loop

    [src/pkg/agent_core/loop].  [Run] asks the model for an assistant message,
    runs the tools it calls and starts again, until an answer without calls, a
    model error, too many consecutive failing batches ([ErrCircuitOpen]) or too
    many turns ([ErrMaxTurns]).  [RunStreamed] is the same loop with streaming
    deltas and UI hooks.

    The specification is a step relation on completed rounds ([runs]) and the
    four ways a loop ends ([ended]); both loops are shown to implement it. *)

From S2P Require Import Prelude GoString Identity Transcript Compaction Tools Llm.
Open Scope Z_scope.

(** ** Data *)

Definition ErrCircuitOpen : goerror :=
  PkgError "loop.ErrCircuitOpen" "agent_core: tool circuit breaker tripped".
Definition ErrMaxTurns : goerror :=
  PkgError "loop.ErrMaxTurns" "agent_core: max tool turns exceeded".

Record Options := {
  MaxTurns : Z;
  MaxConsecutiveToolFailures : Z;
  ToolPruner : option ToolResultPruner;
}.

(** The defaults both loops start with. *)
Definition with_defaults (opt : Options) : Options :=
  {| MaxTurns := if MaxTurns opt <=? 0 then 32 else MaxTurns opt;
     MaxConsecutiveToolFailures :=
       if MaxConsecutiveToolFailures opt <=? 0 then 3 else MaxConsecutiveToolFailures opt;
     ToolPruner := ToolPruner opt |}.

(** The three results of a loop. *)
Record LoopOut := {
  lo_msgs : list Message;
  lo_text : gostring;
  lo_err : option goerror;
}.

(** [StreamHooks]; every function may be nil. *)
Record StreamHooks (W : Type) := {
  OnTextDelta : option (gostring → Go W unit);
  AfterAssistantComplete : option (Go W unit);
  BeforeToolBatch : option (list gostring → Go W unit);
  AfterToolBatch : option (list gostring → Go W unit);
}.
Arguments OnTextDelta {_} _.
Arguments AfterAssistantComplete {_} _.
Arguments BeforeToolBatch {_} _.
Arguments AfterToolBatch {_} _.

(** An empty role becomes [assistant]. *)
Definition fix_role (am : Message) : Message :=
  if decide (m_Role am = []) then
    {| m_Role := RoleAssistant; m_Content := m_Content am;
       m_ToolCalls := m_ToolCalls am; m_ToolCallID := m_ToolCallID am |}
  else am.

(** The content of a [tool] message. *)
Definition result_content (r : result gostring) : gostring :=
  match r with
  | Ok s => s
  | Err e => "<tool_use_error>" ++ error_text e ++ "</tool_use_error>"
  end.

Definition is_Err {A} (r : result A) : bool := match r with Ok _ => false | Err _ => true end.

Definition prune_with (p : option ToolResultPruner) (m : Message) : Message :=
  match p with Some p => p m | None => m end.

(** The message appended for a tool call and its result. *)
Definition tool_message (opt : Options) (tc : ToolCall) (r : result gostring) : Message :=
  prune_with (ToolPruner opt)
    {| m_Role := RoleTool; m_Content := result_content r; m_ToolCalls := [];
       m_ToolCallID := tc_ID tc |}.

(** The zero-width runes a client does not show. *)
Definition zero_width (r : Z) : bool :=
  bool_decide (r = 0x200B ∨ r = 0x200C ∨ r = 0x200D ∨ r = 0xFEFF).

(** [deltaHasVisibleText]: some rune is neither zero-width nor white space. *)
Definition deltaHasVisibleText (s : gostring) : bool :=
  if decide (s = []) then false
  else existsb (λ r, negb (zero_width r) && negb (IsSpace r)) (runes s).

(** The names announced to the hooks: the non-empty ones. *)
Definition tool_names (calls : list ToolCall) : list gostring :=
  filter (λ n, n ≠ []) (tc_Name <$> calls).

(** Call a hook that may be nil. *)
Definition call_hook {W} (h : option (Go W unit)) : Go W unit :=
  match h with Some m => m | None => mret tt end.

Definition batch_hook {W} (h : option (list gostring → Go W unit)) (names : list gostring) :
    Go W unit :=
  match h with
  | Some f => if decide (names = []) then mret tt else f names
  | None => mret tt
  end.

Section loop.
Context `{UT : UnicodeTables} {W : Type} `{MO : MapOrder W}.
Variables (reg : Registry W) (tcx : Context) (opt : Options).

(** The loop over the tool calls of one assistant message. *)
Fixpoint run_batch (calls : list ToolCall) (batchFailed : bool) (out : list Message) :
    Go W (bool * list Message) :=
  match calls with
  | [] => mret (batchFailed, out)
  | tc :: calls' =>
      r ← Execute reg tcx (tc_Name tc) (tc_Arguments tc);
      run_batch calls' (batchFailed || is_Err r) (out ++ [tool_message opt tc r])
  end.

(** The turns left of [Run]. *)
Fixpoint run_loop (client : ModelClient W) (n : nat) (out : list Message) (failures : Z) :
    Go W LoopOut :=
  match n with
  | O => mret {| lo_msgs := out; lo_text := []; lo_err := Some ErrMaxTurns |}
  | S n' =>
      defs ← go_gets (Definitions reg);
      resp ← mc_Complete client {| cr_Messages := out; cr_ToolDefs := defs |};
      match resp with
      | Err e => mret {| lo_msgs := out; lo_text := []; lo_err := Some e |}
      | Ok resp =>
          let am := fix_role (Assistant resp) in
          let out := out ++ [am] in
          if decide (m_ToolCalls am = [])
          then mret {| lo_msgs := out; lo_text := TrimSpace (m_Content am); lo_err := None |}
          else
            '(batchFailed, out) ← run_batch (m_ToolCalls am) false out;
            if (batchFailed : bool) then
              if MaxConsecutiveToolFailures opt <=? failures + 1
              then mret {| lo_msgs := out; lo_text := []; lo_err := Some ErrCircuitOpen |}
              else run_loop client n' out (failures + 1)
            else run_loop client n' out 0
      end
  end.

(** The closure [wrapDelta] over [gotVisibleDelta]. *)
Definition wrapDelta (hooks : StreamHooks W) : option (gostring → bool → Go W bool) :=
  match OnTextDelta hooks with
  | None => None
  | Some f => Some (λ d got, f d ;; mret (got || deltaHasVisibleText d))
  end.

(** One model call of [RunStreamed]: the streamed turn, the content sent whole
    when no delta was visible, the end of the segment. *)
Definition stream_call (streamer : StreamTurnCompleter W) (hooks : StreamHooks W)
    (req : CompleteRequest) : Go W (result Message) :=
  '(got, resp) ← run_turn (wrapDelta hooks)
                   (streamer req (bool_decide (is_Some (OnTextDelta hooks)))) false;
  match resp with
  | Err e => mret (Err e)
  | Ok resp =>
      let am := fix_role (Assistant resp) in
      (if negb got && negb (bool_decide (TrimSpace (m_Content am) = []))
       then match OnTextDelta hooks with Some f => f (m_Content am) | None => mret tt end
       else mret tt) ;;
      call_hook (AfterAssistantComplete hooks) ;;
      mret (Ok am)
  end.

(** The turns left of [RunStreamed]. *)
Fixpoint streamed_loop (streamer : StreamTurnCompleter W) (hooks : StreamHooks W)
    (n : nat) (out : list Message) (failures : Z) : Go W LoopOut :=
  match n with
  | O => mret {| lo_msgs := out; lo_text := []; lo_err := Some ErrMaxTurns |}
  | S n' =>
      defs ← go_gets (Definitions reg);
      r ← stream_call streamer hooks {| cr_Messages := out; cr_ToolDefs := defs |};
      match r with
      | Err e => mret {| lo_msgs := out; lo_text := []; lo_err := Some e |}
      | Ok am =>
          let out := out ++ [am] in
          if decide (m_ToolCalls am = [])
          then mret {| lo_msgs := out; lo_text := TrimSpace (m_Content am); lo_err := None |}
          else
            let toolNames := tool_names (m_ToolCalls am) in
            batch_hook (BeforeToolBatch hooks) toolNames ;;
            '(batchFailed, out) ← run_batch (m_ToolCalls am) false out;
            batch_hook (AfterToolBatch hooks) toolNames ;;
            if (batchFailed : bool) then
              if MaxConsecutiveToolFailures opt <=? failures + 1
              then mret {| lo_msgs := out; lo_text := []; lo_err := Some ErrCircuitOpen |}
              else streamed_loop streamer hooks n' out (failures + 1)
            else streamed_loop streamer hooks n' out 0
      end
  end.
End loop.

(** [Run]. *)
Definition Run `{UT : UnicodeTables} `{MO : MapOrder W} (tcx : Context) (msgs : list Message)
    (reg : Registry W) (client : ModelClient W) (opt : Options) : Go W LoopOut :=
  let opt := with_defaults opt in
  run_loop reg tcx opt client (Z.to_nat (MaxTurns opt)) msgs 0.

(** [RunStreamed]. *)
Definition RunStreamed `{UT : UnicodeTables} `{MO : MapOrder W} (tcx : Context)
    (msgs : list Message) (reg : Registry W) (streamer : StreamTurnCompleter W)
    (opt : Options) (hooks : StreamHooks W) : Go W LoopOut :=
  let opt := with_defaults opt in
  streamed_loop reg tcx opt streamer hooks (Z.to_nat (MaxTurns opt)) msgs 0.

(** ** Specification: rounds *)

(** What differs between the two loops: the model call and the batch hooks. *)
Record LoopOps (W : Type) := {
  op_call : CompleteRequest → Go W (result Message);
  op_before : list gostring → Go W unit;
  op_after : list gostring → Go W unit;
}.
Arguments op_call {_} _ _.
Arguments op_before {_} _ _.
Arguments op_after {_} _ _.

Definition complete_ops {W} (client : ModelClient W) : LoopOps W :=
  {| op_call := λ req,
       resp ← mc_Complete client req; mret ((λ r, fix_role (Assistant r)) <$> resp);
     op_before := λ _, mret tt; op_after := λ _, mret tt |}.

Definition streamed_ops {W} (streamer : StreamTurnCompleter W) (hooks : StreamHooks W) :
    LoopOps W :=
  {| op_call := stream_call streamer hooks;
     op_before := batch_hook (BeforeToolBatch hooks);
     op_after := batch_hook (AfterToolBatch hooks) |}.

(** A completed round: the assistant message and the result of each call. *)
Record Round := {
  rd_am : Message;
  rd_results : list (result gostring);
}.

Definition round_failed (r : Round) : bool := existsb is_Err (rd_results r).

Definition round_msgs (opt : Options) (r : Round) : list Message :=
  rd_am r :: zip_with (tool_message opt) (m_ToolCalls (rd_am r)) (rd_results r).

Definition rounds_msgs (opt : Options) (rs : list Round) : list Message :=
  rs ≫= round_msgs opt.

Fixpoint leading_failed (rs : list Round) : Z :=
  match rs with
  | r :: rs' => if round_failed r then leading_failed rs' + 1 else 0
  | [] => 0
  end.

(** The number of consecutive failed rounds at the end. *)
Definition failures (rs : list Round) : Z := leading_failed (reverse rs).

Section spec.
Context `{UT : UnicodeTables} {W : Type} `{MO : MapOrder W}.
Variables (reg : Registry W) (tcx : Context) (opt : Options) (ops : LoopOps W)
  (msgs : list Message).

(** Execute the calls in order; a failing call does not stop the batch. *)
Fixpoint exec_calls (calls : list ToolCall) : Go W (list (result gostring)) :=
  match calls with
  | [] => mret []
  | tc :: calls' =>
      r ← Execute reg tcx (tc_Name tc) (tc_Arguments tc);
      rs ← exec_calls calls';
      mret (r :: rs)
  end.

(** The model is asked with the whole transcript and the registry's tools. *)
Definition ask (rs : list Round) : Go W (result Message) := λ w,
  op_call ops {| cr_Messages := msgs ++ rounds_msgs opt rs;
                 cr_ToolDefs := Definitions reg w |} w.

(** [runs w rs w']: the rounds [rs] take the world from [w] to [w']. *)
Inductive runs (w : W) : list Round → W → Prop :=
| runs_none : runs w [] w
| runs_round rs w1 am w2 w3 results w4 w5 :
    runs w rs w1 →
    ask rs w1 = (w2, Done (Ok am)) →
    m_ToolCalls am ≠ [] →
    op_before ops (tool_names (m_ToolCalls am)) w2 = (w3, Done tt) →
    exec_calls (m_ToolCalls am) w3 = (w4, Done results) →
    op_after ops (tool_names (m_ToolCalls am)) w4 = (w5, Done tt) →
    runs w (rs ++ [{| rd_am := am; rd_results := results |}]) w5.

(** The loop goes on after [rs]. *)
Definition within_limits (rs : list Round) : Prop :=
  len rs < MaxTurns opt ∧ failures rs < MaxConsecutiveToolFailures opt.

(** It went on before the last round of [rs]. *)
Definition got_to (rs : list Round) : Prop :=
  ∀ p r q, rs = p ++ r :: q → within_limits p.

(** The four ways a loop from [w] ends. *)
Inductive ended (w : W) : W → LoopOut → Prop :=
| ended_text rs w1 am w2 :
    runs w rs w1 → got_to rs → within_limits rs →
    ask rs w1 = (w2, Done (Ok am)) → m_ToolCalls am = [] →
    ended w w2 {| lo_msgs := msgs ++ rounds_msgs opt rs ++ [am];
                  lo_text := TrimSpace (m_Content am); lo_err := None |}
| ended_model_error rs w1 e w2 :
    runs w rs w1 → got_to rs → within_limits rs →
    ask rs w1 = (w2, Done (Err e)) →
    ended w w2 {| lo_msgs := msgs ++ rounds_msgs opt rs; lo_text := []; lo_err := Some e |}
| ended_circuit rs w1 :
    runs w rs w1 → got_to rs → MaxConsecutiveToolFailures opt ≤ failures rs →
    ended w w1 {| lo_msgs := msgs ++ rounds_msgs opt rs; lo_text := [];
                  lo_err := Some ErrCircuitOpen |}
| ended_turns rs w1 :
    runs w rs w1 → got_to rs → len rs = MaxTurns opt →
    failures rs < MaxConsecutiveToolFailures opt →
    ended w w1 {| lo_msgs := msgs ++ rounds_msgs opt rs; lo_text := [];
                  lo_err := Some ErrMaxTurns |}.
End spec.

(** ** Lemmas *)

(** The common shape of the two loops. *)
Section generic.
Context `{UT : UnicodeTables} {W : Type} `{MO : MapOrder W}.
Variables (reg : Registry W) (tcx : Context) (opt : Options).

Fixpoint generic_loop (ops : LoopOps W) (n : nat) (out : list Message) (f : Z) : Go W LoopOut :=
  match n with
  | O => mret {| lo_msgs := out; lo_text := []; lo_err := Some ErrMaxTurns |}
  | S n' => λ w,
      (r ← op_call ops {| cr_Messages := out; cr_ToolDefs := Definitions reg w |};
       match r with
       | Err e => mret {| lo_msgs := out; lo_text := []; lo_err := Some e |}
       | Ok am =>
           if decide (m_ToolCalls am = [])
           then mret {| lo_msgs := out ++ [am]; lo_text := TrimSpace (m_Content am);
                        lo_err := None |}
           else
             op_before ops (tool_names (m_ToolCalls am)) ;;
             rs ← exec_calls reg tcx (m_ToolCalls am);
             op_after ops (tool_names (m_ToolCalls am)) ;;
             let out' := out ++ round_msgs opt {| rd_am := am; rd_results := rs |} in
             if existsb is_Err rs then
               if MaxConsecutiveToolFailures opt <=? f + 1
               then mret {| lo_msgs := out'; lo_text := []; lo_err := Some ErrCircuitOpen |}
               else generic_loop ops n' out' (f + 1)
             else generic_loop ops n' out' 0
       end) w
  end.

Lemma go_bind_ext {A B} (m : Go W A) (f g : A → Go W B) w :
  (∀ a w', f a w' = g a w') → (m ≫= f) w = (m ≫= g) w.
Proof. intros H. unfold mbind, Go_bind. destruct (m w) as [w' [a|p]]; [apply H|done]. Qed.

Lemma go_bind_assoc {A B C} (m : Go W A) (f : A → Go W B) (g : B → Go W C) w :
  ((m ≫= f) ≫= g) w = (m ≫= λ a, f a ≫= g) w.
Proof. unfold mbind, Go_bind. destruct (m w) as [w' [a|p]]; done. Qed.

Lemma go_bind_ret {A B} (a : A) (f : A → Go W B) w : (mret a ≫= f) w = f a w.
Proof. done. Qed.

(** The batch loop executes the calls and appends their messages. *)
Lemma run_batch_bind {B} calls bf out (k : bool * list Message → Go W B) w :
  (run_batch reg tcx opt calls bf out ≫= k) w =
  (rs ← exec_calls reg tcx calls;
   k (bf || existsb is_Err rs, out ++ zip_with (tool_message opt) calls rs)) w.
Proof.
  revert bf out w. induction calls as [|tc calls IH]; intros bf out w; cbn [run_batch exec_calls].
  - rewrite !go_bind_ret. cbn. by rewrite orb_false_r, app_nil_r.
  - rewrite !go_bind_assoc. apply go_bind_ext. intros r w'. rewrite IH, go_bind_assoc.
    apply go_bind_ext. intros rs w''. rewrite go_bind_ret. cbn.
    by rewrite orb_assoc, <- app_assoc.
Qed.

Lemma run_loop_generic client n out f w :
  run_loop reg tcx opt client n out f w =
  generic_loop (complete_ops client) n out f w.
Proof.
  revert out f w. induction n as [|n IH]; intros out f w; [done|].
  cbn [run_loop generic_loop complete_ops op_call op_before op_after].
  unfold go_gets. rewrite (go_bind_eq _ _ _ w (Definitions reg w)) by done.
  rewrite go_bind_assoc. apply go_bind_ext. intros [resp|e] w'; cbn [fmap result_fmap];
    rewrite go_bind_ret; [|done].
  case_decide; [done|]. rewrite run_batch_bind, go_bind_ret.
  apply go_bind_ext. intros rs w''. rewrite go_bind_ret. cbn [orb].
  unfold round_msgs. cbn. rewrite <- app_assoc. cbn.
  destruct (existsb is_Err rs); [|apply IH]. destruct (_ <=? _); [done|apply IH].
Qed.

Lemma streamed_loop_generic streamer hooks n out f w :
  streamed_loop reg tcx opt streamer hooks n out f w =
  generic_loop (streamed_ops streamer hooks) n out f w.
Proof.
  revert out f w. induction n as [|n IH]; intros out f w; [done|].
  cbn [streamed_loop generic_loop streamed_ops op_call op_before op_after].
  unfold go_gets. rewrite (go_bind_eq _ _ _ w (Definitions reg w)) by done.
  apply go_bind_ext. intros [am|e] w'; [|done].
  case_decide; [done|]. apply go_bind_ext. intros [] w1. rewrite run_batch_bind.
  apply go_bind_ext. intros rs w2. apply go_bind_ext. intros [] w3. cbn [orb].
  unfold round_msgs. cbn. rewrite <- app_assoc. cbn.
  destruct (existsb is_Err rs); [|apply IH]. destruct (_ <=? _); [done|apply IH].
Qed.
End generic.

Lemma failures_snoc rs r :
  failures (rs ++ [r]) = if round_failed r then failures rs + 1 else 0.
Proof. unfold failures. by rewrite reverse_snoc. Qed.

Lemma rounds_msgs_snoc opt rs r :
  rounds_msgs opt (rs ++ [r]) = rounds_msgs opt rs ++ round_msgs opt r.
Proof. unfold rounds_msgs. rewrite bind_app. cbn. by rewrite app_nil_r. Qed.

Lemma got_to_nil opt : got_to opt [].
Proof. intros p r q H. by destruct p. Qed.

Lemma got_to_snoc opt rs r : got_to opt (rs ++ [r]) ↔ got_to opt rs ∧ within_limits opt rs.
Proof.
  split.
  - intros H. split; [|by apply (H rs r [])].
    intros p r' q ->. apply (H p r' (q ++ [r])). by rewrite <- app_assoc.
  - intros [H Hw] p r' q E. destruct q as [|x q _] using rev_ind.
    + apply app_inj_tail in E as [<- _]. done.
    + rewrite app_comm_cons, app_assoc in E. apply app_inj_tail in E as [-> _].
      by apply (H p r' q).
Qed.

Lemma with_defaults_pos opt :
  0 < MaxTurns (with_defaults opt) ∧ 0 < MaxConsecutiveToolFailures (with_defaults opt).
Proof. cbn. split; case_match; bool_simp; lia. Qed.

Section refinement.
Context `{UT : UnicodeTables} {W : Type} `{MO : MapOrder W}.
Variables (reg : Registry W) (tcx : Context) (opt : Options) (ops : LoopOps W)
  (msgs : list Message).
Hypothesis opt_turns : 0 < MaxTurns opt.
Hypothesis opt_failures : 0 < MaxConsecutiveToolFailures opt.

(** The loop after the rounds [rs]. *)
Definition loop_after (rs : list Round) : Go W LoopOut :=
  generic_loop reg tcx opt ops (Z.to_nat (MaxTurns opt - len rs))
    (msgs ++ rounds_msgs opt rs) (failures rs).

(** What the loop does with an answer of the model. *)
Definition after_ask (rs : list Round) (r : result Message) : Go W LoopOut :=
  match r with
  | Err e => mret {| lo_msgs := msgs ++ rounds_msgs opt rs; lo_text := []; lo_err := Some e |}
  | Ok am =>
      if decide (m_ToolCalls am = [])
      then mret {| lo_msgs := msgs ++ rounds_msgs opt rs ++ [am];
                   lo_text := TrimSpace (m_Content am); lo_err := None |}
      else
        op_before ops (tool_names (m_ToolCalls am)) ;;
        results ← exec_calls reg tcx (m_ToolCalls am);
        op_after ops (tool_names (m_ToolCalls am)) ;;
        let rs' := rs ++ [{| rd_am := am; rd_results := results |}] in
        if bool_decide (MaxConsecutiveToolFailures opt ≤ failures rs')
        then mret {| lo_msgs := msgs ++ rounds_msgs opt rs'; lo_text := [];
                     lo_err := Some ErrCircuitOpen |}
        else loop_after rs'
  end.

Lemma loop_after_step rs w :
  len rs < MaxTurns opt →
  loop_after rs w = (ask reg opt ops msgs rs ≫= after_ask rs) w.
Proof.
  intros Hlt. unfold loop_after at 1.
  replace (Z.to_nat (MaxTurns opt - len rs))
    with (S (Z.to_nat (MaxTurns opt - (len rs + 1)))) by (pose proof (len_nonneg rs); lia).
  cbn [generic_loop].
  change (op_call ops _) with (op_call ops {| cr_Messages := msgs ++ rounds_msgs opt rs;
    cr_ToolDefs := Definitions reg w |}).
  unfold ask, mbind, Go_bind. destruct (op_call ops _ w) as [w' [[am|e]|p]]; [|done..].
  unfold after_ask. case_decide; [by rewrite app_assoc|].
  apply go_bind_ext. intros [] w1. apply go_bind_ext. intros results w2.
  apply go_bind_ext. intros [] w3. cbn zeta. rewrite failures_snoc, rounds_msgs_snoc.
  rewrite <- app_assoc.
  assert (∀ b, len (rs ++ [b]) = len rs + 1) as Hl by (intros; by rewrite len_app).
  unfold round_failed. cbn [rd_results]. destruct (existsb is_Err results) eqn:E.
  - destruct (Z.leb_spec (MaxConsecutiveToolFailures opt) (failures rs + 1)).
    + by rewrite bool_decide_eq_true_2.
    + rewrite bool_decide_eq_false_2 by lia. unfold loop_after.
      rewrite Hl, failures_snoc, rounds_msgs_snoc. unfold round_failed. cbn [rd_results].
      by rewrite E.
  - rewrite bool_decide_eq_false_2 by lia. unfold loop_after.
    rewrite Hl, failures_snoc, rounds_msgs_snoc. unfold round_failed. cbn [rd_results].
    by rewrite E.
Qed.

Lemma loop_after_full rs w :
  len rs = MaxTurns opt →
  loop_after rs w = (w, Done {| lo_msgs := msgs ++ rounds_msgs opt rs; lo_text := [];
                                lo_err := Some ErrMaxTurns |}).
Proof. intros H. unfold loop_after. by rewrite H, Z.sub_diag. Qed.

(** Every completed round brings the loop to the state after it. *)
Lemma runs_loop_after w rs w1 :
  runs reg tcx opt ops msgs w rs w1 → got_to opt rs →
  loop_after [] w =
    if bool_decide (MaxConsecutiveToolFailures opt ≤ failures rs)
    then (w1, Done {| lo_msgs := msgs ++ rounds_msgs opt rs; lo_text := [];
                      lo_err := Some ErrCircuitOpen |})
    else loop_after rs w1.
Proof.
  induction 1 as [|rs w1 am w2 w3 results w4 w5 Hr IH Ha Hc Hb He Hf].
  - intros _. rewrite bool_decide_eq_false_2; [done|]. unfold failures. cbn. lia.
  - intros [Hg Hw]%got_to_snoc. destruct Hw as [Ht Hx]. rewrite IH by done.
    rewrite bool_decide_eq_false_2 by lia. rewrite loop_after_step by done.
    rewrite (go_bind_eq _ _ _ _ _ Ha). unfold after_ask. rewrite decide_False by done.
    rewrite (go_bind_eq _ _ _ _ _ Hb), (go_bind_eq _ _ _ _ _ He), (go_bind_eq _ _ _ _ _ Hf).
    cbn zeta. by match goal with |- context [if ?b then _ else _] => destruct b end.
Qed.

Lemma ended_loop w w' r :
  ended reg tcx opt ops msgs w w' r → loop_after [] w = (w', Done r).
Proof.
  intros H. destruct H as [rs w1 am w2 Hr Hg [Ht Hx] Ha Hc|rs w1 e w2 Hr Hg [Ht Hx] Ha
    |rs w1 Hr Hg Hx|rs w1 Hr Hg Ht Hx];
    rewrite (runs_loop_after _ _ _ Hr Hg);
    [rewrite bool_decide_eq_false_2 by lia..|by rewrite bool_decide_eq_true_2|
     rewrite bool_decide_eq_false_2 by lia; by apply loop_after_full];
    rewrite loop_after_step by done; rewrite (go_bind_eq _ _ _ _ _ Ha); unfold after_ask;
    [by rewrite decide_True by done|done].
Qed.

Lemma loop_ended_from n w rs w1 w' r :
  (Z.to_nat (MaxTurns opt - len rs) ≤ n)%nat →
  runs reg tcx opt ops msgs w rs w1 → got_to opt rs →
  len rs ≤ MaxTurns opt → failures rs < MaxConsecutiveToolFailures opt →
  loop_after rs w1 = (w', Done r) → ended reg tcx opt ops msgs w w' r.
Proof.
  revert rs w1. induction n as [|n IH]; intros rs w1 Hn Hr Hg Hl Hx E.
  { rewrite loop_after_full in E by lia. simplify_eq. by eapply ended_turns; [..|lia|]. }
  destruct (decide (len rs = MaxTurns opt)) as [Ht|Ht].
  { rewrite loop_after_full in E by done. simplify_eq. by eapply ended_turns. }
  rewrite loop_after_step in E by lia. assert (within_limits opt rs) as Hw by (split; lia).
  apply go_bind_Done in E as (w2 & [am|e] & Ha & E); unfold after_ask in E.
  2: { apply go_ret_Done in E as [-> ->]. by eapply ended_model_error. }
  case_decide as Hc.
  { apply go_ret_Done in E as [-> ->]. by eapply ended_text. }
  apply go_bind_Done in E as (w3 & [] & Hb & E).
  apply go_bind_Done in E as (w4 & results & He & E).
  apply go_bind_Done in E as (w5 & [] & Hf & E).
  pose proof (runs_round _ _ _ _ _ _ _ _ _ _ _ _ _ _ Hr Ha Hc Hb He Hf) as Hr'.
  cbn zeta in E. set (rs' := rs ++ _) in *.
  assert (got_to opt rs') as Hg' by by apply got_to_snoc.
  assert (len rs' = len rs + 1) as Hl' by by (unfold rs'; rewrite len_app).
  case_bool_decide.
  - apply go_ret_Done in E as [-> ->]. by eapply ended_circuit.
  - eapply (IH rs' w5); [|done|done| | |done]; lia.
Qed.

(** The loop implements its specification. *)
Lemma loop_ended w w' r :
  loop_after [] w = (w', Done r) ↔ ended reg tcx opt ops msgs w w' r.
Proof.
  split; [|apply ended_loop]. intros E.
  eapply (loop_ended_from _ w [] w); [done|constructor|apply got_to_nil| | |done];
    unfold failures, len; cbn; lia.
Qed.
End refinement.

Lemma Run_loop_after `{UT : UnicodeTables} `{MO : MapOrder W} tcx msgs (reg : Registry W)
    client opt w :
  Run tcx msgs reg client opt w =
  loop_after reg tcx (with_defaults opt) (complete_ops client) msgs [] w.
Proof.
  unfold Run, loop_after. cbn zeta. rewrite run_loop_generic. unfold len, rounds_msgs, failures.
  cbn [length Z.of_nat reverse mbind list_bind]. by rewrite Z.sub_0_r, app_nil_r.
Qed.

Lemma RunStreamed_loop_after `{UT : UnicodeTables} `{MO : MapOrder W} tcx msgs
    (reg : Registry W) streamer opt hooks w :
  RunStreamed tcx msgs reg streamer opt hooks w =
  loop_after reg tcx (with_defaults opt) (streamed_ops streamer hooks) msgs [] w.
Proof.
  unfold RunStreamed, loop_after. cbn zeta. rewrite streamed_loop_generic.
  unfold len, rounds_msgs, failures.
  cbn [length Z.of_nat reverse mbind list_bind]. by rewrite Z.sub_0_r, app_nil_r.
Qed.

Lemma got_to_len opt rs : 0 < MaxTurns opt → got_to opt rs → len rs ≤ MaxTurns opt.
Proof.
  intros Hp Hg. destruct rs as [|rd rs _] using rev_ind; [unfold len; cbn; lia|].
  apply got_to_snoc in Hg as [_ [Hl _]]. rewrite len_app. unfold len in *. cbn. lia.
Qed.

(** The output is the input, at most [MaxTurns] rounds, and the final answer when
    there is no error. *)
Lemma ended_extends `{UT : UnicodeTables} `{MO : MapOrder W} reg tcx opt ops msgs (w w' : W) r :
  0 < MaxTurns opt →
  ended reg tcx opt ops msgs w w' r →
  ∃ rs tl, lo_msgs r = msgs ++ rounds_msgs opt rs ++ tl ∧ len rs ≤ MaxTurns opt ∧
    (if lo_err r is None then ∃ am, tl = [am] ∧ m_ToolCalls am = [] ∧
                                lo_text r = TrimSpace (m_Content am)
     else tl = []).
Proof.
  intros Hp [rs w1 am w2 Hr Hg [Ht Hx] Ha Hc|rs w1 e w2 Hr Hg [Ht Hx] Ha|rs w1 Hr Hg Hx
    |rs w1 Hr Hg Ht Hx]; cbn.
  - exists rs, [am]. split_and!; [done|lia|by exists am].
  - exists rs, []. rewrite app_nil_r. split_and!; [done|lia|done].
  - exists rs, []. rewrite app_nil_r. split_and!; [done|by apply got_to_len|done].
  - exists rs, []. rewrite app_nil_r. split_and!; [done|lia|done].
Qed.

(** ** Totality *)

Section totality.
Context `{UT : UnicodeTables} {W : Type} `{MO : MapOrder W}.
Variables (reg : Registry W) (tcx : Context) (opt : Options) (ops : LoopOps W)
  (msgs : list Message).

(** A computation that ends normally from every world. *)
Definition returns {A} (m : Go W A) : Prop := ∀ w, ∃ w' a, m w = (w', Done a).

Lemma returns_bind {A B} (m : Go W A) (f : A → Go W B) :
  returns m → (∀ a, returns (f a)) → returns (m ≫= f).
Proof.
  intros Hm Hf w. destruct (Hm w) as (w1 & a & E). destruct (Hf a w1) as (w2 & b & E').
  exists w2, b. by rewrite (go_bind_eq _ _ _ _ _ E).
Qed.

Lemma returns_ret {A} (a : A) : returns (mret a).
Proof. intros w. by exists w, a. Qed.

Hypothesis tools_return : ∀ n t cx input,
  byName reg !! n = Some t → returns (t_Execute t cx input).
Hypothesis call_returns : ∀ req, returns (op_call ops req).
Hypothesis before_returns : ∀ ns, returns (op_before ops ns).
Hypothesis after_returns : ∀ ns, returns (op_after ops ns).

Lemma Execute_returns n input : returns (Execute reg tcx n input).
Proof.
  unfold Execute. destruct (ensureAllowed tcx n); [apply returns_ret|].
  destruct (byName reg !! n) eqn:E; [by eapply tools_return|apply returns_ret].
Qed.

Lemma exec_calls_returns calls : returns (exec_calls reg tcx calls).
Proof.
  induction calls as [|tc calls IH]; cbn; [apply returns_ret|].
  apply returns_bind; [apply Execute_returns|intros r].
  apply returns_bind; [done|intros rs; apply returns_ret].
Qed.

Lemma generic_loop_returns n out f : returns (generic_loop reg tcx opt ops n out f).
Proof.
  revert out f. induction n as [|n IH]; intros out f; [apply returns_ret|].
  intros w. cbn [generic_loop]. apply returns_bind; [done|].
  intros [am|e]; [|apply returns_ret]. case_decide; [apply returns_ret|].
  apply returns_bind; [done|intros []]. apply returns_bind; [apply exec_calls_returns|intros rs].
  apply returns_bind; [done|intros []]. cbn zeta.
  destruct (existsb is_Err rs); [|apply IH]. destruct (_ <=? _); [apply returns_ret|apply IH].
Qed.
End totality.

(** ** Transcripts without orphans *)

Lemma tool_messages_orphans opt calls results ids k :
  (∀ p, ToolPruner opt = Some p → PrunerLaws p) →
  (∀ tc, tc ∈ calls → tc_ID tc ∈ ids) →
  no_orphans_from ids (zip_with (tool_message opt) calls results ++ k) =
  no_orphans_from ids k.
Proof.
  intros Hp. revert results. induction calls as [|tc calls IH]; intros results Hin; [done|].
  destruct results as [|r results]; [done|]. cbn [zip_with app no_orphans_from].
  assert (m_Role (tool_message opt tc r) = RoleTool ∧
          m_ToolCallID (tool_message opt tc r) = tc_ID tc) as [Hr Hi].
  { unfold tool_message, prune_with. destruct (ToolPruner opt) as [p|]; [|done].
    specialize (Hp p eq_refl). by rewrite prune_role, prune_id. }
  unfold answers, open_ids. rewrite (proj2 (is_role_true _ _) Hr), Hi. cbn [implb].
  rewrite bool_decide_eq_true_2 by (apply Hin; left). cbn [andb].
  apply IH. intros tc' H. apply Hin. by right.
Qed.

Lemma no_orphans_round opt l rd :
  (∀ p, ToolPruner opt = Some p → PrunerLaws p) →
  m_Role (rd_am rd) = RoleAssistant →
  no_orphans l = true → no_orphans (l ++ round_msgs opt rd) = true.
Proof.
  intros Hp Ha Hl. unfold no_orphans in *. rewrite no_orphans_from_app, Hl. cbn [andb].
  unfold round_msgs. cbn [no_orphans_from].
  assert (is_role RoleTool (rd_am rd) = false) as Ht by (apply is_role_false; by rewrite Ha).
  assert (is_role RoleAssistant (rd_am rd) = true) as Ha' by by apply is_role_true.
  unfold answers, open_ids. rewrite Ht, Ha'. cbn [implb andb].
  rewrite <- (app_nil_r (zip_with _ _ _)), tool_messages_orphans; [done|done|].
  intros tc Hin. by apply list_elem_of_fmap_2.
Qed.

Lemma no_orphans_text l am :
  m_Role am = RoleAssistant → no_orphans l = true → no_orphans (l ++ [am]) = true.
Proof.
  intros Ha Hl. unfold no_orphans in *. rewrite no_orphans_from_app, Hl. cbn.
  unfold answers. by rewrite (proj2 (is_role_false _ am)) by by rewrite Ha.
Qed.

Section orphans.
Context `{UT : UnicodeTables} {W : Type} `{MO : MapOrder W}.
Variables (reg : Registry W) (tcx : Context) (opt : Options) (ops : LoopOps W)
  (msgs : list Message).
Hypothesis pruner_laws : ∀ p, ToolPruner opt = Some p → PrunerLaws p.
Hypothesis call_role : ∀ req w w' am,
  op_call ops req w = (w', Done (Ok am)) → m_Role am = RoleAssistant.

Lemma runs_no_orphans w rs w' :
  runs reg tcx opt ops msgs w rs w' → no_orphans msgs = true →
  no_orphans (msgs ++ rounds_msgs opt rs) = true.
Proof.
  intros H Hok. induction H as [|rs w1 am w2 w3 results w4 w5 Hr IH Ha Hc Hb He Hf].
  - unfold rounds_msgs. cbn. by rewrite app_nil_r.
  - rewrite rounds_msgs_snoc, app_assoc. apply no_orphans_round; [done| |by apply IH].
    by eapply call_role.
Qed.

Lemma ended_no_orphans w w' r :
  ended reg tcx opt ops msgs w w' r → no_orphans msgs = true → no_orphans (lo_msgs r) = true.
Proof.
  intros H Hok. destruct H as [rs w1 am w2 Hr Hg Hw Ha Hc|rs w1 e w2 Hr ? ? ?
    |rs w1 Hr ? ?|rs w1 Hr ? ? ?]; cbn; pose proof (runs_no_orphans _ _ _ Hr Hok); try done.
  rewrite app_assoc. apply no_orphans_text; [|done]. by eapply call_role.
Qed.
End orphans.

Lemma fix_role_role m :
  m_Role m = [] ∨ m_Role m = RoleAssistant → m_Role (fix_role m) = RoleAssistant.
Proof. unfold fix_role. case_decide; naive_solver. Qed.

(** ** Streaming does not change the loop *)

Section silent.
Context `{UT : UnicodeTables} {W : Type} `{MO : MapOrder W}.
Context (RW : relation W) `{!Equivalence RW}.

(** A hook that only touches what [RW] ignores. *)
Definition silent (m : Go W unit) : Prop := go_sim RW eq m (mret tt).

Definition silent_hooks (hooks : StreamHooks W) : Prop :=
  (∀ f d, OnTextDelta hooks = Some f → silent (f d)) ∧
  silent (call_hook (AfterAssistantComplete hooks)) ∧
  (∀ ns, silent (batch_hook (BeforeToolBatch hooks) ns)) ∧
  (∀ ns, silent (batch_hook (AfterToolBatch hooks) ns)).

(** A silent step on the left of a simulation. *)
Lemma silent_bind {A B} (R : A → B → Prop) m (f : unit → Go W A) (n : Go W B) :
  silent m → go_sim RW R (f tt) n → go_sim RW R (m ≫= f) n.
Proof.
  intros Hm Hf w w' Hw.
  refine (go_sim_bind RW eq R m (mret tt) f (λ _, n) Hm _ w w' Hw). by intros [] ? <-.
Qed.

Variables (reg : Registry W) (tcx : Context) (opt : Options).
Hypothesis tools_sim : ∀ n t cx input,
  byName reg !! n = Some t → go_sim RW eq (t_Execute t cx input) (t_Execute t cx input).
Hypothesis defs_sim : ∀ w w', RW w w' → Definitions reg w = Definitions reg w'.

Lemma Execute_sim n input : go_sim RW eq (Execute reg tcx n input) (Execute reg tcx n input).
Proof.
  unfold Execute. destruct (ensureAllowed tcx n); [by apply go_sim_ret|].
  destruct (byName reg !! n) eqn:E; [by eapply tools_sim|by apply go_sim_ret].
Qed.

Lemma exec_calls_sim calls :
  go_sim RW eq (exec_calls reg tcx calls) (exec_calls reg tcx calls).
Proof.
  induction calls as [|tc calls IH]; cbn [exec_calls]; [by apply go_sim_ret|].
  eapply go_sim_bind; [apply Execute_sim|intros r ? <-].
  eapply go_sim_bind; [apply IH|intros rs ? <-]. by apply go_sim_ret.
Qed.

Lemma generic_loop_sim ops ops' n out f :
  (∀ req, go_sim RW eq (op_call ops req) (op_call ops' req)) →
  (∀ ns, go_sim RW eq (op_before ops ns) (op_before ops' ns)) →
  (∀ ns, go_sim RW eq (op_after ops ns) (op_after ops' ns)) →
  go_sim RW eq (generic_loop reg tcx opt ops n out f) (generic_loop reg tcx opt ops' n out f).
Proof.
  intros Hc Hb Ha. revert out f. induction n as [|n IH]; intros out f; [by apply go_sim_ret|].
  intros w w' Hw. cbn [generic_loop]. rewrite (defs_sim _ _ Hw). eapply (go_sim_bind RW); [apply Hc| |done].
  intros [am|e] ? <-; [|by apply go_sim_ret]. case_decide; [by apply go_sim_ret|].
  eapply go_sim_bind; [apply Hb|intros [] ? <-].
  eapply go_sim_bind; [apply exec_calls_sim|intros rs ? <-].
  eapply go_sim_bind; [apply Ha|intros [] ? <-]. cbn zeta.
  destruct (existsb is_Err rs); [|apply IH]. destruct (_ <=? _); [by apply go_sim_ret|apply IH].
Qed.

(** A streamed call with silent hooks answers as [Complete] does. *)
Lemma stream_call_sim client streamer hooks req :
  let has := bool_decide (is_Some (OnTextDelta hooks)) in
  silent_hooks hooks →
  streams_call has (streamer req has) (mc_Complete client req) →
  turn_sim RW (streamer req has) (streamer req has) →
  go_sim RW eq (stream_call streamer hooks req) (op_call (complete_ops client) req).
Proof.
  intros has (Hd & Hc & _ & _) Hs Ht.
  set (cb := if has then ignore_delta else None : option (gostring → unit → Go W unit)).
  assert (go_sim RW (λ p p', p.2 = p'.2) (run_turn (wrapDelta hooks) (streamer req has) false)
            (pair tt <$> mc_Complete client req)) as Hrun.
  { intros w w' Hw. rewrite <- (Hs w'). fold cb.
    eapply go_sim_mono; [|eapply (run_turn_sim RW (λ _ _, True) _ cb _ _ false tt Ht)|done];
      [by intros [] [] [_ ?]| |done].
    unfold wrapDelta, cb, has. destruct (OnTextDelta hooks) as [f|] eqn:E; cbn.
    - intros d s [] _. apply silent_bind; [by apply (Hd f d)|by apply go_sim_ret].
    - done. }
  assert (go_sim RW (λ p r, p.2 = r) (run_turn (wrapDelta hooks) (streamer req has) false)
            (mc_Complete client req)) as Hrun'.
  { intros w w' Hw. specialize (Hrun w w' Hw).
    unfold fmap, Go_fmap, mbind, Go_bind in Hrun. by destruct (mc_Complete client req w') as [? []]. }
  unfold stream_call. fold has. cbn [complete_ops op_call].
  eapply go_sim_bind; [apply Hrun'|]. intros [got r] resp Hr. cbn in Hr. subst resp.
  destruct r as [resp|e]; [|by apply go_sim_ret]. cbn [fmap result_fmap].
  apply silent_bind; [|apply silent_bind; [done|by apply go_sim_ret]].
  destruct (negb got && _); [|by apply go_sim_ret].
  destruct (OnTextDelta hooks) as [f|] eqn:E; [by apply Hd|by apply go_sim_ret].
Qed.
End silent.

(** ** What the client of a streamed call sees *)

(** The callback that runs the hook and records the deltas. *)
Definition recording {W} (f : gostring → Go W unit) :
    option (gostring → list gostring → Go W (list gostring)) :=
  Some (λ d ds, f d ;; mret (ds ++ [d])).

Lemma wrapDelta_recording {W A} (f : gostring → Go W unit) (t : StreamTurn W A) hooks :
  OnTextDelta hooks = Some f →
  go_sim eq (λ p p', p.1 = existsb deltaHasVisibleText p'.1 ∧ p.2 = p'.2)
    (run_turn (wrapDelta hooks) t false) (run_turn (recording f) t []).
Proof.
  intros E. apply (run_turn_sim eq (λ got ds, got = existsb deltaHasVisibleText ds));
    [apply turn_sim_refl| |done].
  unfold wrapDelta, recording. rewrite E. intros d got ds ->.
  eapply (go_sim_bind eq eq); [|intros [] ? <-].
  - intros w ? <-. destruct (f d w) as [? []]; done.
  - apply go_sim_ret. rewrite existsb_app. cbn. by rewrite orb_false_r.
Qed.

(** ** Properties *)

Section properties.
Context `{UT : UnicodeTables} {W : Type} `{MO : MapOrder W}.

(** C2: [Run] implements its specification: from any world it ends in [w'] with
    output [r] exactly when the rounds of the abstract loop lead there: each round
    asks the model with the whole transcript and the registry's definitions and
    runs every call of the answer in order; the loop continues while it has turns
    left and the last consecutive failed rounds are fewer than the limit; and it
    ends with the trimmed text of an answer without calls, the model's error,
    [ErrCircuitOpen] or [ErrMaxTurns]. *)
Theorem Run_implements (tcx : Context) (msgs : list Message) (reg : Registry W)
    (client : ModelClient W) (opt : Options) (w w' : W) (r : LoopOut) :
  Run tcx msgs reg client opt w = (w', Done r) ↔
  ended reg tcx (with_defaults opt) (complete_ops client) msgs w w' r.
Proof.
  destruct (with_defaults_pos opt). rewrite Run_loop_after. by apply loop_ended.
Qed.

(** [RunStreamed] implements the same specification, where asking the model
    is a streamed call with its UI callbacks and a round runs the batch hooks
    around the tools, with the non-empty tool names. *)
Theorem RunStreamed_implements (tcx : Context) (msgs : list Message) (reg : Registry W)
    (streamer : StreamTurnCompleter W) (opt : Options) (hooks : StreamHooks W)
    (w w' : W) (r : LoopOut) :
  RunStreamed tcx msgs reg streamer opt hooks w = (w', Done r) ↔
  ended reg tcx (with_defaults opt) (streamed_ops streamer hooks) msgs w w' r.
Proof.
  destruct (with_defaults_pos opt). rewrite RunStreamed_loop_after. by apply loop_ended.
Qed.

(** C38: the loop terminates: when the model and the registered tools never
    panic, [Run] returns, and what it returns is the input followed by at most
    [MaxTurns] (32 by default) rounds, plus one answer without tool calls, whose
    trimmed content is the returned text, exactly when there is no error. *)
Theorem Run_returns (tcx : Context) (msgs : list Message) (reg : Registry W)
    (client : ModelClient W) (opt : Options) (w : W) :
  (∀ req, returns (mc_Complete client req)) →
  (∀ n t cx input, byName reg !! n = Some t → returns (t_Execute t cx input)) →
  ∃ w' r rs tl, Run tcx msgs reg client opt w = (w', Done r) ∧
    lo_msgs r = msgs ++ rounds_msgs opt rs ++ tl ∧
    len rs ≤ (if MaxTurns opt <=? 0 then 32 else MaxTurns opt) ∧
    (if lo_err r is None then ∃ am, tl = [am] ∧ m_ToolCalls am = [] ∧
                                lo_text r = TrimSpace (m_Content am)
     else tl = []).
Proof.
  intros Hc Ht. destruct (with_defaults_pos opt) as [Hp Hf].
  destruct (generic_loop_returns reg tcx (with_defaults opt) (complete_ops client))
    with (n := Z.to_nat (MaxTurns (with_defaults opt) - 0)) (out := msgs ++ []) (f := 0) (w := w)
    as (w' & r & E); [done| |intros; apply returns_ret..|].
  { intros req. apply returns_bind; [done|]. intros a. apply returns_ret. }
  exists w', r.
  change (loop_after reg tcx (with_defaults opt) (complete_ops client) msgs [] w = (w', Done r)) in E.
  rewrite Run_loop_after, E. apply loop_ended in E; [|done..].
  apply ended_extends in E as (rs & tl & Hm & Hl & He); [|done].
  by exists rs, tl.
Qed.

(** Tool results stay attached to their calls: when the model answers as
    assistant and the pruner rewrites contents only, a transcript in which every
    tool message follows the assistant message that asked for it is extended to
    one of the same kind, however the loop ends. *)
Theorem Run_no_orphans (tcx : Context) (msgs : list Message) (reg : Registry W)
    (client : ModelClient W) (opt : Options) (w w' : W) (r : LoopOut) :
  (∀ p, ToolPruner opt = Some p → PrunerLaws p) →
  (∀ req w w' resp, mc_Complete client req w = (w', Done (Ok resp)) →
     m_Role (Assistant resp) = [] ∨ m_Role (Assistant resp) = RoleAssistant) →
  Run tcx msgs reg client opt w = (w', Done r) →
  no_orphans msgs = true → no_orphans (lo_msgs r) = true.
Proof.
  intros Hp Hc E. destruct (with_defaults_pos opt). rewrite Run_loop_after in E.
  apply loop_ended in E; [|done..]. revert E. apply ended_no_orphans; [done|].
  intros req w1 w2 am E. apply go_bind_Done in E as (w3 & [resp|e] & E1 & E2);
    apply go_ret_Done in E2 as [_ E2]; simplify_eq/=.
  by eapply fix_role_role, Hc.
Qed.

(** C3: streaming does not change what the loop does: when the hooks only touch
    what [RW] ignores (the client's screen, a log), a streamer that streams the
    calls of [client] makes [RunStreamed] return the messages, text and error of
    [Run], in a related world. *)
Theorem RunStreamed_refines_Run (RW : relation W) `{!Equivalence RW} (tcx : Context)
    (msgs : list Message) (reg : Registry W) (client : ModelClient W)
    (streamer : StreamTurnCompleter W) (opt : Options) (hooks : StreamHooks W) :
  let has := bool_decide (is_Some (OnTextDelta hooks)) in
  silent_hooks RW hooks →
  (∀ req, streams_call has (streamer req has) (mc_Complete client req)) →
  (∀ req, turn_sim RW (streamer req has) (streamer req has)) →
  (∀ n t cx input, byName reg !! n = Some t →
     go_sim RW eq (t_Execute t cx input) (t_Execute t cx input)) →
  (∀ w w', RW w w' → Definitions reg w = Definitions reg w') →
  go_sim RW eq (RunStreamed tcx msgs reg streamer opt hooks) (Run tcx msgs reg client opt).
Proof.
  intros has Hh Hs Ht Htools Hdefs w w' Hw. rewrite RunStreamed_loop_after, Run_loop_after.
  revert w w' Hw. unfold loop_after. change (go_sim RW eq
    (generic_loop reg tcx (with_defaults opt) (streamed_ops streamer hooks)
       (Z.to_nat (MaxTurns (with_defaults opt) - 0)) (msgs ++ []) 0)
    (generic_loop reg tcx (with_defaults opt) (complete_ops client)
       (Z.to_nat (MaxTurns (with_defaults opt) - 0)) (msgs ++ []) 0)).
  pose proof Hh as (_ & _ & Hb & Ha).
  apply generic_loop_sim; [done|done| |intros ns; apply Hb|intros ns; apply Ha].
  intros req. by apply stream_call_sim.
Qed.

(** The client of a streamed call is not left with a blank segment: if none
    of the deltas delivered was visible and the answer has text, the whole text
    is sent once, after the deltas and before the end of the segment; otherwise
    nothing is sent twice. *)
Theorem stream_call_visible (streamer : StreamTurnCompleter W) (hooks : StreamHooks W)
    (f : gostring → Go W unit) (req : CompleteRequest) (w w' : W) (am : Message) :
  OnTextDelta hooks = Some f →
  stream_call streamer hooks req w = (w', Done (Ok am)) →
  ∃ w1 deltas resp,
    run_turn (recording f) (streamer req true) [] w = (w1, Done (deltas, Ok resp)) ∧
    am = fix_role (Assistant resp) ∧
    let visible := existsb deltaHasVisibleText deltas in
    let blank := bool_decide (TrimSpace (m_Content am) = []) in
    (if visible || blank then call_hook (AfterAssistantComplete hooks) w1
     else (f (m_Content am) ;; call_hook (AfterAssistantComplete hooks)) w1) = (w', Done tt).
Proof.
  intros Hf E. unfold stream_call in E. rewrite bool_decide_eq_true_2 in E by (rewrite Hf; eauto).
  apply go_bind_Done in E as (w1 & [got r] & E1 & E2).
  pose proof (go_sim_Done eq _ _ _ _ _ w _ (wrapDelta_recording f (streamer req true) hooks Hf)
    eq_refl E1) as (w1' & [ds r'] & E1' & <- & Hg & Hr). cbn in Hg, Hr. subst got r'.
  destruct r as [resp|e]; [|by apply go_ret_Done in E2 as [_ ?]].
  exists w1, ds, resp. apply go_bind_Done in E2 as (w2 & [] & E2 & E3).
  apply go_bind_Done in E3 as (w3 & [] & E3 & E4). apply go_ret_Done in E4 as [-> [= ->]].
  split_and!; [done..|]. cbn zeta. rewrite Hf, <- negb_orb in E2.
  destruct (_ || _); cbn [negb] in E2.
  - by apply go_ret_Done in E2 as [-> _].
  - by rewrite (go_bind_eq _ _ _ _ _ E2).
Qed.
End properties.

(** ** Witnesses and concrete runs *)

#[local] Existing Instance ascii_tables.

(** A world with a scripted client and the log of what the screen got. *)
Abbreviation screen_world := (MockClient * list gostring)%type.

#[local] Instance mock_screen : HasMock screen_world.
Proof. by refine {| mock := fst; set_mock := λ m w, (m, w.2) |}. Defined.

Definition echo_tool {W} : Tool W :=
  {| t_Name := "echo"; t_Definition := sample_def "echo";
     t_Execute := λ _ input w, (w, Done (Ok input)) |}.

Definition echo_registry {W} : Registry W := {| byName := {[ "echo" := echo_tool ]} |}.

Definition echo_call : ToolCall :=
  {| tc_ID := "1"; tc_Type := "function"; tc_Name := "echo"; tc_Arguments := "hi" |}.

Definition calling : Message :=
  {| m_Role := RoleAssistant; m_Content := []; m_ToolCalls := [echo_call]; m_ToolCallID := [] |}.

(** [TestRunToolThenText]: a call of [echo], then a text. *)
Definition tool_then_text : screen_world :=
  ({| Queue := [{| Assistant := calling |}; {| Assistant := text_message [] "done " |}];
      MockErr := None; StreamChunks := []; StreamErr := None |}, []).

Definition sample_options : Options :=
  {| MaxTurns := 8; MaxConsecutiveToolFailures := 3; ToolPruner := None |}.

Definition user_go : list Message := [text_message RoleUser "go"].

Definition screen_hooks : StreamHooks screen_world :=
  let say s := λ w : screen_world, ((w.1, w.2 ++ [s]), Done tt) in
  {| OnTextDelta := Some say; AfterAssistantComplete := Some (say "/end");
     BeforeToolBatch := Some (λ ns, say ("run " ++ Join ns ","));
     AfterToolBatch := None |}.

Example run_tool_then_text :
  (Run (sample_cx ["echo"]) user_go echo_registry MockClient_iface sample_options
     tool_then_text).2 =
  Done {| lo_msgs := user_go ++ [calling;
            {| m_Role := RoleTool; m_Content := "hi"; m_ToolCalls := []; m_ToolCallID := "1" |};
            text_message RoleAssistant "done "];
          lo_text := "done"; lo_err := None |}.
Proof. vm_compute. reflexivity. Qed.

Example streamed_screen :
  ((RunStreamed (sample_cx ["echo"]) user_go echo_registry MockClient_CompleteStreamTurn
     sample_options screen_hooks tool_then_text).1).2 = ["/end"; "run echo"; "done "; "/end"].
Proof. vm_compute. reflexivity. Qed.

(** [TestRunCircuitBreaker]: the second failing batch trips the breaker. *)
Example circuit_breaker :
  lo_err <$> (match (Run (sample_cx ["other"]) user_go echo_registry
    {| mc_Complete := λ _ w, (w, Done (Ok {| Assistant := calling |}));
       mc_Stream := λ _, mret None |}
    {| MaxTurns := 10; MaxConsecutiveToolFailures := 2; ToolPruner := None |} tt).2 with
    | Done r => Some r | Panicked _ => None end) = Some (Some ErrCircuitOpen).
Proof. vm_compute. reflexivity. Qed.

Lemma echo_only {W} n (t : Tool W) : byName echo_registry !! n = Some t → t = echo_tool.
Proof. cbn. by intros [_ ->]%lookup_singleton_Some. Qed.

Lemma Run_returns_witness :
  ∃ w' r rs tl, Run (sample_cx ["echo"]) user_go echo_registry MockClient_iface sample_options
                  tool_then_text = (w', Done r) ∧
    lo_msgs r = user_go ++ rounds_msgs (with_defaults sample_options) rs ++ tl ∧
    len rs ≤ 8 ∧
    (if lo_err r is None then ∃ am, tl = [am] ∧ m_ToolCalls am = [] ∧
                                lo_text r = TrimSpace (m_Content am)
     else tl = []).
Proof.
  apply (Run_returns (sample_cx ["echo"]) user_go echo_registry MockClient_iface sample_options).
  - intros req w. cbn. unfold MockClient_Complete, go_state.
    destruct (mock_complete (mock w)) as [m' r]. by eexists _, _.
  - intros n t cx input ->%echo_only w. by eexists _, _.
Defined.

(** A model that calls [echo] once. *)
Definition once_client : ModelClient Z :=
  {| mc_Complete := λ _ w, (w + 1, Done (Ok {| Assistant :=
       if w =? 0 then calling else text_message RoleAssistant "done" |}));
     mc_Stream := λ _, mret None |}.

Lemma Run_no_orphans_witness :
  ∃ w' r, Run (sample_cx ["echo"]) user_go echo_registry once_client sample_options 0 =
            (w', Done r) ∧ no_orphans (lo_msgs r) = true.
Proof.
  refine (ex_intro _ _ (ex_intro _ _ (conj eq_refl
    (Run_no_orphans (sample_cx ["echo"]) user_go echo_registry once_client sample_options 0 _ _
       _ _ eq_refl eq_refl)))).
  - done.
  - intros req w w' resp [= _ <-]. cbn. right. by destruct (w =? 0).
Defined.

(** Worlds that differ in the log only. *)
Definition same_client : relation screen_world := λ w w', w.1 = w'.1.

#[local] Instance same_client_equivalence : Equivalence same_client.
Proof. split; unfold same_client; [done|by intros ? ?|by intros ? ? ? -> ->]. Qed.

Lemma RunStreamed_refines_Run_witness :
  go_sim same_client eq
    (RunStreamed (sample_cx ["echo"]) user_go echo_registry MockClient_CompleteStreamTurn
       sample_options screen_hooks)
    (Run (sample_cx ["echo"]) user_go echo_registry MockClient_iface sample_options).
Proof.
  apply (RunStreamed_refines_Run same_client (sample_cx ["echo"])
    user_go echo_registry MockClient_iface MockClient_CompleteStreamTurn sample_options
    screen_hooks).
  - split_and!.
    + intros f d [= <-]. intros w w' H. done.
    + intros w w' H. done.
    + intros [|n ns] w w' H; done.
    + intros ns w w' H. done.
  - intros req. apply MockClient_streams.
  - intros req. apply turn_sim_work; [by intros [] [] [=->]|]. intros [m l] [m' l'] H. unfold same_client in H. cbn in H. subst m'.
    cbn. destruct (mock_complete m) as [? [r|e]]; cbn; [|constructor].
    case_bool_decide; cbn; repeat constructor.
  - intros n t cx input ->%echo_only w w' H. done.
  - done.
Defined.

(** A streamer that answers without deltas: the text is sent whole. *)
Lemma stream_call_visible_witness :
  ∃ w' am w1 deltas resp,
    stream_call (λ _ _, TurnReturn (Ok {| Assistant := text_message [] "hi" |})) screen_hooks
      {| cr_Messages := user_go; cr_ToolDefs := [] |} tool_then_text = (w', Done (Ok am)) ∧
    run_turn (recording (λ s (w : screen_world), ((w.1, w.2 ++ [s]), Done tt)))
      (TurnReturn (Ok {| Assistant := text_message [] "hi" |})) [] tool_then_text =
      (w1, Done (deltas, Ok resp)) ∧
    am = fix_role (Assistant resp) ∧
    let visible := existsb deltaHasVisibleText deltas in
    let blank := bool_decide (TrimSpace (m_Content am) = []) in
    (if visible || blank then call_hook (AfterAssistantComplete screen_hooks) w1
     else ((λ s (w : screen_world), ((w.1, w.2 ++ [s]), Done tt)) (m_Content am) ;;
           call_hook (AfterAssistantComplete screen_hooks)) w1) = (w', Done tt).
Proof.
  eexists _, _. refine ((λ E, let '(ex_intro _ w1 (ex_intro _ ds (ex_intro _ resp H))) :=
    stream_call_visible (λ _ _, TurnReturn (Ok {| Assistant := text_message [] "hi" |}))
      screen_hooks _ {| cr_Messages := user_go; cr_ToolDefs := [] |} tool_then_text _ _
      eq_refl E in
    ex_intro _ w1 (ex_intro _ ds (ex_intro _ resp (conj E H)))) _).
  vm_compute. reflexivity.
Defined.
