(* ===== verification/Memory.v ===== *)
(** * Package [memory]: tenant-scoped long-term memory

    [src/pkg/agent_core/memory]: records, the [Provider] and [SideQuerySelector]
    interfaces, the in-memory provider, and the age hints put in the prompt.  A
    [time.Time] is the number of nanoseconds since the zero time. *)

From S2P Require Import Prelude GoString Identity.
Open Scope Z_scope.

(** ** Data *)

(** [type Category string]. *)
Abbreviation Category := gostring.
Definition CategoryUser : Category := "user".
Definition CategoryFeedback : Category := "feedback".
Definition CategoryProject : Category := "project".
Definition CategoryRef : Category := "reference".

Abbreviation Time := Z.
Abbreviation Metadata := (option (gmap gostring gostring)).

(** [Record]; a nil metadata map is [None]. *)
Record MemRecord := {
  r_ID : gostring;
  r_Category : Category;
  r_Key : gostring;
  r_Content : gostring;
  r_Metadata : Metadata;
  r_CreatedAt : Time;
  r_UpdatedAt : Time;
}.

(** [Write]. *)
Record MemWrite := {
  w_Category : Category;
  w_Key : gostring;
  w_Content : gostring;
  w_Metadata : Metadata;
}.

(** [Query]. *)
Record MemQuery := {
  q_Text : gostring;
  q_Keys : list gostring;
  q_Categories : list Category;
  q_Limit : Z;
}.

(** The [Provider] interface. *)
Record Provider (W : Type) := {
  p_Write : TenantScope → MemWrite → Go W (option goerror);
  p_Query : TenantScope → MemQuery → Go W (result (list MemRecord));
}.
Arguments p_Write {_} _ _ _.
Arguments p_Query {_} _ _ _.

(** [SideQuerySelector.SelectForTurn]: scope, query, recent tool names, limit. *)
Definition SideQuerySelector (W : Type) : Type :=
  (TenantScope → gostring → list gostring → Z → Go W (result (list MemRecord))).

(** [time.Now]: a reading of the clock, which may move. *)
Class Clock (W : Type) := time_Now : W → W * Time.

(** ** Age *)

Definition Hour : Z := 3600 * 1000000000.
Definition IsZero (t : Time) : bool := t =? 0.

Definition minInt64 : Z := - 2 ^ 63.
Definition maxInt64 : Z := 2 ^ 63 - 1.

(** [time.Since]: a [Duration] saturates at 64 bits. *)
Definition time_Since (now t : Time) : Z :=
  Z.max minInt64 (Z.min maxInt64 (now - t)).

(** [AgeDays], for the reading [now] of the clock. *)
Definition AgeDays (now t : Time) : Z :=
  if IsZero t then 0
  else
    let d := time_Since now t in
    if d <? 0 then 0 else d `quot` (24 * Hour).

Definition AgeHint (now t : Time) : gostring :=
  if IsZero t then []
  else
    let d := AgeDays now t in
    if d =? 0 then "今天写入"
    else if d =? 1 then "昨天写入"
    else FormatInt d ++ " 天前写入".

Definition FreshnessNote (now t : Time) : gostring :=
  if IsZero t || (AgeDays now t <=? 1) then []
  else "（较旧，请以当前对话与工具结果为准；可能已过时）".

(** ** The in-memory provider *)

Record MockProvider := {
  records : list MemRecord;
  nextID : Z;
}.

Definition NewMockProvider : MockProvider := {| records := []; nextID := 0 |}.

Definition scopeKey (s : TenantScope) : gostring := UserID s ++ [x00] ++ AgentID s.

(** The metadata key that carries the scope of a record. *)
Definition scope_field : gostring := "_scope".

Definition cloneMeta (m : Metadata) : Metadata := delete scope_field <$> m.

(** [r.Metadata != nil && r.Metadata["_scope"] == sk]; a missing key reads as the
    empty string. *)
Definition in_scope (sk : gostring) (r : MemRecord) : bool :=
  match r_Metadata r with
  | None => false
  | Some m => bool_decide (default [] (m !! scope_field) = sk)
  end.

(** 64-bit wrap-around. *)
Definition int64 (z : Z) : Z := (z + 2 ^ 63) `mod` 2 ^ 64 - 2 ^ 63.

(** The update of an existing record, up to the write of the scope in the cloned
    metadata, which panics on a nil map. *)
Definition update_record (now : Time) (sk : gostring) (w : MemWrite) (r : MemRecord) :
    MemRecord * outcome unit :=
  match cloneMeta (w_Metadata w) with
  | None =>
      ({| r_ID := r_ID r; r_Category := w_Category w; r_Key := r_Key r;
          r_Content := w_Content w; r_Metadata := None;
          r_CreatedAt := r_CreatedAt r; r_UpdatedAt := r_UpdatedAt r |},
       Panicked "assignment to entry in nil map")
  | Some m =>
      ({| r_ID := r_ID r; r_Category := w_Category w; r_Key := r_Key r;
          r_Content := w_Content w; r_Metadata := Some (<[scope_field := sk]> m);
          r_CreatedAt := r_CreatedAt r; r_UpdatedAt := now |}, Done tt)
  end.

(** The loop of [Write] over the records: the first one of the scope with the key
    is updated. *)
Fixpoint update_first (now : Time) (sk : gostring) (w : MemWrite) (rs : list MemRecord) :
    option (list MemRecord * outcome unit) :=
  match rs with
  | [] => None
  | r :: rs' =>
      if in_scope sk r && bool_decide (r_Key r = w_Key w) then
        let '(r', o) := update_record now sk w r in Some (r' :: rs', o)
      else
        match update_first now sk w rs' with
        | Some (rs'', o) => Some (r :: rs'', o)
        | None => None
        end
  end.

Definition new_record (now : Time) (sk : gostring) (w : MemWrite) (id : Z) : MemRecord :=
  {| r_ID := "m" ++ FormatInt id; r_Category := w_Category w; r_Key := w_Key w;
     r_Content := w_Content w;
     r_Metadata := Some (<[scope_field := sk]> (default ∅ (cloneMeta (w_Metadata w))));
     r_CreatedAt := now; r_UpdatedAt := now |}.

(** [MockProvider.Write] at time [now]; the mutex makes it atomic and is released
    on a panic as well. *)
Definition MockProvider_Write (now : Time) (scope : TenantScope) (w : MemWrite) :
    Go MockProvider (option goerror) := λ m,
  match Validate scope with
  | Some e => (m, Done (Some e))
  | None =>
      let sk := scopeKey scope in
      match update_first now sk w (records m) with
      | Some (rs, Done _) => ({| records := rs; nextID := nextID m |}, Done None)
      | Some (rs, Panicked p) => ({| records := rs; nextID := nextID m |}, Panicked p)
      | None =>
          let id := int64 (nextID m + 1) in
          ({| records := records m ++ [new_record now sk w id]; nextID := id |}, Done None)
      end
  end.

Section query.
Context `{UT : UnicodeTables}.

(** The filters of [Query], in the order of the code. *)
Definition matches (sk : gostring) (q : MemQuery) (r : MemRecord) : bool :=
  in_scope sk r
  && (if decide (q_Categories q = []) then true
      else existsb (λ c, bool_decide (r_Category r = c)) (q_Categories q))
  && (if decide (q_Keys q = []) then true
      else existsb (λ k, bool_decide (r_Key r = k)) (q_Keys q))
  && (if decide (q_Text q = []) then true
      else Contains (ToLower (r_Key r ++ r_Content r)) (ToLower (q_Text q))).

(** The loop of [Query], with the results so far; it stops at the limit. *)
Fixpoint query_loop (sk : gostring) (q : MemQuery) (out rs : list MemRecord) : list MemRecord :=
  match rs with
  | [] => out
  | r :: rs' =>
      if matches sk q r then
        let out := out ++ [r] in
        if (0 <? q_Limit q) && (q_Limit q <=? len out) then out
        else query_loop sk q out rs'
      else query_loop sk q out rs'
  end.

Definition MockProvider_Query (scope : TenantScope) (q : MemQuery) :
    Go MockProvider (result (list MemRecord)) := λ m,
  match Validate scope with
  | Some e => (m, Done (Err e))
  | None => (m, Done (Ok (query_loop (scopeKey scope) q [] (records m))))
  end.

(** The provider as an object of a world with a clock. *)
Definition MockProvider_iface : Provider (MockProvider * Time) :=
  {| p_Write := λ scope w '(m, now),
       let '(m', o) := MockProvider_Write now scope w m in ((m', now), o);
     p_Query := λ scope q '(m, now),
       let '(m', o) := MockProvider_Query scope q m in ((m', now), o) |}.

(** [MockSideQuery.SelectForTurn]; the inner provider may be nil. *)
Definition MockSideQuery_SelectForTurn {W} (inner : option (Provider W)) :
    SideQuerySelector W := λ scope query recentToolNames limit,
  match inner with
  | None => mret (Ok [])
  | Some p =>
      let limit := if limit <=? 0 then 5 else limit in
      p_Query p scope {| q_Text := query; q_Keys := []; q_Categories := []; q_Limit := limit |}
  end.
End query.

(** ** Lemmas *)

Lemma in_scope_new now sk w id : in_scope sk (new_record now sk w id) = true.
Proof.
  unfold in_scope, new_record. cbn. rewrite lookup_insert_eq. cbn.
  by rewrite bool_decide_eq_true_2.
Qed.

Lemma in_scope_new_other now sk sk' w id :
  sk ≠ sk' → in_scope sk' (new_record now sk w id) = false.
Proof.
  intros H. unfold in_scope, new_record. cbn. rewrite lookup_insert_eq. cbn.
  by rewrite bool_decide_eq_false_2.
Qed.

Lemma in_scope_inj sk sk' r : in_scope sk r = true → in_scope sk' r = true → sk = sk'.
Proof.
  unfold in_scope. destruct (r_Metadata r) as [m|]; [|done].
  rewrite !bool_decide_eq_true. congruence.
Qed.

(** The record [w] leaves, when the update ends normally, and its scope. *)
Lemma update_record_spec now sk w r :
  let p := update_record now sk w r in
  r_Key p.1 = r_Key r ∧
  (∀ sk', sk ≠ sk' → in_scope sk' p.1 = false) ∧
  match p.2 with
  | Done _ => in_scope sk p.1 = true ∧ r_Category p.1 = w_Category w ∧
      r_Content p.1 = w_Content w ∧
      ∃ m, w_Metadata w = Some m ∧ r_Metadata p.1 = Some (<[scope_field := sk]> m)
  | Panicked _ => w_Metadata w = None ∧ r_Metadata p.1 = None
  end.
Proof.
  unfold update_record, cloneMeta, in_scope.
  destruct (w_Metadata w) as [m|]; cbn; split_and!; try done.
  - intros sk' H. rewrite lookup_insert_eq. cbn. by rewrite bool_decide_eq_false_2.
  - rewrite lookup_insert_eq. cbn. by rewrite bool_decide_eq_true_2.
  - exists m. by rewrite insert_delete_eq.
Qed.

Lemma update_first_None now sk w rs :
  update_first now sk w rs = None ↔
  Forall (λ r, in_scope sk r && bool_decide (r_Key r = w_Key w) = false) rs.
Proof.
  induction rs as [|r rs IH]; cbn; [done|]. rewrite Forall_cons, <- IH.
  destruct (_ && _); [by destruct (update_record _ _ _ _); split; [|intros []]|].
  destruct (update_first now sk w rs) as [[]|]; naive_solver.
Qed.

Lemma update_first_Some now sk w rs rs' o :
  update_first now sk w rs = Some (rs', o) ↔
  ∃ l r k, rs = l ++ r :: k ∧ in_scope sk r = true ∧ r_Key r = w_Key w ∧
    Forall (λ r, in_scope sk r && bool_decide (r_Key r = w_Key w) = false) l ∧
    o = (update_record now sk w r).2 ∧ rs' = l ++ (update_record now sk w r).1 :: k.
Proof.
  revert rs'. induction rs as [|r rs IH]; intros rs'; cbn.
  { split; [done|]. by intros ([] & ? & ? & ? & _). }
  destruct (in_scope sk r && bool_decide (r_Key r = w_Key w)) eqn:E.
  - destruct (update_record now sk w r) as [r' o'] eqn:Eu.
    apply andb_true_iff in E as E'. rewrite bool_decide_eq_true in E'. destruct E' as [Es Ek].
    split.
    + intros [= <- <-]. exists [], r, rs. rewrite Eu. split_and!; done.
    + intros ([|x l] & r0 & k & [= <- ->] & Hs & Hk & Hl & -> & ->); [by rewrite Eu|].
      apply Forall_cons in Hl as [Hl _]. congruence.
  - split.
    + destruct (update_first now sk w rs) as [[rs0 o0]|] eqn:Eu; [|done].
      intros [= <- <-]. apply IH in Eu || specialize (proj1 (IH rs0)) as Hx.
      all: destruct (proj1 (IH rs0) eq_refl) as (l & r0 & k & -> & Hs & Hk & Hl & -> & ->).
      all: exists (r :: l), r0, k; split_and!; try done; by constructor.
    + intros ([|x l] & r0 & k & [= -> ->] & Hs & Hk & Hl & -> & ->).
      { rewrite Hs, bool_decide_eq_true_2 in E; done. }
      apply Forall_cons in Hl as [_ Hl].
      rewrite (proj2 (IH (l ++ (update_record now sk w r0).1 :: k))); [done|].
      by exists l, r0, k.
Qed.

(** [Query] is a filter, cut at the limit. *)
Definition limited {A} (limit : Z) (l : list A) : list A :=
  if 0 <? limit then take (Z.to_nat limit) l else l.

Section query_lemmas.
Context `{UT : UnicodeTables}.

Lemma query_loop_spec sk q out rs :
  (0 < q_Limit q → len out < q_Limit q) →
  query_loop sk q out rs = limited (q_Limit q) (out ++ filter (λ r, matches sk q r = true) rs).
Proof.
  revert out. induction rs as [|r rs IH]; intros out Hlt; cbn [query_loop].
  { rewrite filter_nil, app_nil_r. unfold limited. destruct (Z.ltb_spec 0 (q_Limit q)); [|done].
    rewrite take_ge; [done|]. unfold len in Hlt. lia. }
  rewrite filter_cons. destruct (matches sk q r) eqn:E.
  - rewrite decide_True, (cons_middle r out (filter _ rs)), app_assoc by done.
    destruct (Z.ltb_spec 0 (q_Limit q)) as [Hp|Hp]; cbn [andb].
    + assert (len (out ++ [r]) = len out + 1) as Hl
        by by rewrite len_app.
      destruct (Z.leb_spec (q_Limit q) (len (out ++ [r]))).
      * unfold limited. rewrite (proj2 (Z.ltb_lt _ _) Hp), take_app_le by (unfold len in *; lia).
        rewrite take_ge; [done|]. unfold len in *. lia.
      * apply IH. intros _. lia.
    + apply IH. lia.
  - rewrite decide_False by done. by apply IH.
Qed.

Lemma Query_spec scope q m :
  MockProvider_Query scope q m =
  (m, Done match Validate scope with
           | Some e => Err e
           | None => Ok (limited (q_Limit q)
                           (filter (λ r, matches (scopeKey scope) q r = true) (records m)))
           end).
Proof.
  unfold MockProvider_Query. destruct (Validate scope); [done|].
  rewrite query_loop_spec; [done|]. unfold len. cbn. lia.
Qed.

Lemma matches_scope sk q r : in_scope sk r = false → matches sk q r = false.
Proof. intros H. unfold matches. by rewrite H. Qed.
End query_lemmas.

(** At most one record per scope and key. *)
Definition unique_keys (m : MockProvider) : Prop :=
  ∀ sk, NoDup (r_Key <$> filter (λ r, in_scope sk r = true) (records m)).

Lemma scopeKey_inj s s' :
  x00 ∉ UserID s → x00 ∉ UserID s' → scopeKey s = scopeKey s' → s = s'.
Proof.
  destruct s, s'. unfold scopeKey. intros Hu Hu' H.
  destruct (cut_inj _ _ _ _ _ Hu Hu' H) as [E1 E2]. cbn in *. congruence.
Qed.

(** What [Write] does to the records of a valid scope. *)
Lemma Write_cases now scope w m m' o :
  Validate scope = None → MockProvider_Write now scope w m = (m', o) →
  let sk := scopeKey scope in
  let other := λ r, in_scope sk r && bool_decide (r_Key r = w_Key w) = false in
  (∃ l r k, records m = l ++ r :: k ∧ in_scope sk r = true ∧ r_Key r = w_Key w ∧
     Forall other l ∧ records m' = l ++ (update_record now sk w r).1 :: k ∧
     o = match (update_record now sk w r).2 with
         | Done _ => Done None | Panicked p => Panicked p end) ∨
  (Forall other (records m) ∧ o = Done None ∧
   ∃ id, records m' = records m ++ [new_record now sk w id]).
Proof.
  intros Hv E. unfold MockProvider_Write in E. rewrite Hv in E. cbn zeta in E |- *.
  destruct (update_first _ _ _ _) as [[rs o']|] eqn:Eu.
  - left. apply update_first_Some in Eu as (l & r & k & Hr & Hs & Hk & Hl & -> & ->).
    exists l, r, k. destruct (update_record _ _ _ r).2; simplify_eq; done.
  - right. apply update_first_None in Eu. simplify_eq. split_and!; [done..|]. by eexists.
Qed.

(** Filters that skip the written scope see no change. *)
Lemma Write_filter now scope w m m' o (P : MemRecord → bool) :
  MockProvider_Write now scope w m = (m', o) →
  (∀ r, in_scope (scopeKey scope) r = true → P r = false) →
  (∀ r, (∀ sk', scopeKey scope ≠ sk' → in_scope sk' r = false) → P r = false) →
  filter (λ r, P r = true) (records m') = filter (λ r, P r = true) (records m).
Proof.
  intros E Hs Ho. destruct (Validate scope) eqn:Hv.
  { unfold MockProvider_Write in E. rewrite Hv in E. by simplify_eq. }
  apply Write_cases in E as [(l & r & k & -> & Hr & _ & _ & -> & _)|(_ & _ & id & ->)]; [..|done].
  - rewrite !filter_app, !filter_cons. rewrite (Hs _ Hr).
    rewrite (Ho (update_record now (scopeKey scope) w r).1) by apply update_record_spec.
    by rewrite !decide_False.
  - rewrite filter_app, filter_cons, (Hs _ (in_scope_new _ _ _ _)).
    by rewrite decide_False, filter_nil, app_nil_r.
Qed.

Lemma filter_scope_other sk (l : list MemRecord) r :
  in_scope sk r = false → filter (λ r, in_scope sk r = true) (r :: l) =
  filter (λ r, in_scope sk r = true) l.
Proof. intros H. by rewrite filter_cons_False by congruence. Qed.

Lemma filter_scope_in sk (l : list MemRecord) r :
  in_scope sk r = true → filter (λ r, in_scope sk r = true) (r :: l) =
  r :: filter (λ r, in_scope sk r = true) l.
Proof. intros H. by rewrite filter_cons_True. Qed.

(** [Write] keeps the keys of every scope unique, even when it panics. *)
Lemma Write_unique now scope w m m' o :
  MockProvider_Write now scope w m = (m', o) → unique_keys m → unique_keys m'.
Proof.
  intros E Hu sk'. specialize (Hu sk'). destruct (decide (scopeKey scope = sk')) as [<-|Hne].
  2: { rewrite (Write_filter now scope w m m' o (in_scope sk') E); [done|..].
       - intros r H. destruct (in_scope sk' r) eqn:E'; [|done].
         by destruct Hne; eapply in_scope_inj.
       - intros r H. by apply H. }
  destruct (Validate scope) eqn:Hv.
  { unfold MockProvider_Write in E. rewrite Hv in E. by simplify_eq. }
  apply Write_cases in E as [(l & r & k & Hrec & Hr & Hk & Hl & -> & Ho)|(Hf & _ & id & ->)];
    [| |done].
  - rewrite Hrec in Hu. rewrite filter_app, filter_scope_in, fmap_app in Hu by done.
    pose proof (update_record_spec now (scopeKey scope) w r) as (Hk' & _ & _).
    rewrite filter_app, fmap_app.
    destruct (in_scope (scopeKey scope) (update_record now (scopeKey scope) w r).1) eqn:Es.
    + rewrite filter_scope_in by done. cbn in *. by rewrite Hk'.
    + rewrite filter_scope_other by done. cbn in Hu.
      rewrite <- Permutation_middle in Hu. by apply NoDup_cons in Hu as [_ Hu].
  - rewrite filter_app, filter_scope_in by apply in_scope_new. rewrite filter_nil, fmap_app.
    apply NoDup_app. split_and!; [done| |apply NoDup_singleton]. cbn.
    intros x Hx ->%list_elem_of_singleton. apply list_elem_of_fmap in Hx as (r & Hk & Hin).
    apply list_elem_of_filter in Hin as [Hs Hin]. rewrite Forall_forall in Hf.
    specialize (Hf r Hin). cbn in Hf. by rewrite Hs, bool_decide_eq_true_2 in Hf.
Qed.

(** ** Properties *)

Section properties.
Context `{UT : UnicodeTables}.

(** C25: tenant isolation: whatever a write of tenant [a] does, even when it
    panics, a query of another tenant [b] answers as before, and every record a
    query returns carries the scope of the tenant that asked.  User ids must not
    contain the separator of [scopeKey]. *)
Theorem Write_isolated (a b : TenantScope) (w : MemWrite) (q : MemQuery) (now : Time)
    (m m' : MockProvider) (o : outcome (option goerror)) :
  x00 ∉ UserID a → x00 ∉ UserID b → a ≠ b →
  MockProvider_Write now a w m = (m', o) →
  (MockProvider_Query b q m').2 = (MockProvider_Query b q m).2 ∧
  ∀ rs r, (MockProvider_Query b q m).2 = Done (Ok rs) → r ∈ rs →
    in_scope (scopeKey b) r = true ∧ in_scope (scopeKey a) r = false.
Proof.
  intros Ha Hb Hne E. assert (scopeKey a ≠ scopeKey b) as Hk
    by (intros H; by apply Hne, scopeKey_inj).
  rewrite !Query_spec. cbn. split.
  - destruct (Validate b); [done|]. do 3 f_equal.
    apply (Write_filter now a w m m' o (matches (scopeKey b) q) E).
    + intros r H. apply matches_scope. destruct (in_scope (scopeKey b) r) eqn:E'; [|done].
      by destruct Hk; eapply in_scope_inj.
    + intros r H. by apply matches_scope, H.
  - intros rs r H Hin. destruct (Validate b); [done|]. injection H as <-.
    assert (matches (scopeKey b) q r = true) as Hm.
    { unfold limited in Hin. destruct (0 <? _).
      - apply elem_of_take in Hin as (i & Hi & _). apply list_elem_of_lookup_2 in Hi.
        by apply list_elem_of_filter in Hi as [? _].
      - by apply list_elem_of_filter in Hin as [? _]. }
    destruct (in_scope (scopeKey b) r) eqn:Eb; [|by rewrite matches_scope in Hm].
    split; [done|]. destruct (in_scope (scopeKey a) r) eqn:Ea; [|done].
    by destruct Hk; eapply in_scope_inj.
Qed.

(** A query by one key. *)
Definition by_key (k : gostring) : MemQuery :=
  {| q_Text := []; q_Keys := [k]; q_Categories := []; q_Limit := 0 |}.

Lemma matches_by_key sk k r :
  matches sk (by_key k) r = in_scope sk r && bool_decide (r_Key r = k).
Proof. unfold matches. cbn. by rewrite orb_false_r, !andb_true_r. Qed.

Lemma filter_none {A} (P : A → Prop) `{∀ x, Decision (P x)} (l : list A) :
  (∀ x, x ∈ l → ¬ P x) → filter P l = [].
Proof.
  induction l as [|x l IH]; intros Hn; [done|]. rewrite filter_cons_False by (apply Hn; left).
  apply IH. intros y Hy. apply Hn. by right.
Qed.

(** With unique keys, the record of a key is the only answer. *)
Lemma by_key_one sk k l r l' :
  NoDup (r_Key <$> filter (λ r, in_scope sk r = true) (l ++ r :: l')) →
  in_scope sk r = true → r_Key r = k →
  filter (λ r, matches sk (by_key k) r = true) (l ++ r :: l') = [r].
Proof.
  intros Hnd Hs Hk. rewrite filter_app, filter_cons_True
    by by rewrite matches_by_key, Hs, bool_decide_eq_true_2.
  rewrite filter_app, filter_scope_in, fmap_app in Hnd by done. cbn in Hnd.
  rewrite <- Permutation_middle in Hnd. apply NoDup_cons in Hnd as [Hnin _].
  rewrite <- fmap_app, <- filter_app in Hnin.
  assert (∀ x, x ∈ l ++ l' → matches sk (by_key k) x ≠ true) as Hno.
  { intros x Hin Hm. rewrite matches_by_key, andb_true_iff, bool_decide_eq_true in Hm.
    destruct Hm as [Hsx Hkx]. apply Hnin, list_elem_of_fmap. exists x. split; [congruence|].
    by apply list_elem_of_filter. }
  rewrite !filter_none; [done|..]; intros x Hx; apply Hno, elem_of_app; first [by left|by right].
Qed.

(** Read your writes: after a write that succeeds, a query by its key returns
    one record, with the content and category written and the metadata written
    plus the scope; keys stay unique within a scope.  (A caller cannot forge the
    scope: the [_scope] entry is always the writer's.) *)
Theorem Write_then_read (scope : TenantScope) (w : MemWrite) (now : Time)
    (m m' : MockProvider) :
  unique_keys m →
  MockProvider_Write now scope w m = (m', Done None) →
  unique_keys m' ∧
  ∃ r, (MockProvider_Query scope (by_key (w_Key w)) m').2 = Done (Ok [r]) ∧
    r_Key r = w_Key w ∧ r_Content r = w_Content w ∧ r_Category r = w_Category w ∧
    r_UpdatedAt r = now ∧
    r_Metadata r = Some (<[scope_field := scopeKey scope]> (default ∅ (w_Metadata w))).
Proof.
  intros Hu E. pose proof (Write_unique _ _ _ _ _ _ E Hu) as Hu'. split; [done|].
  rewrite Query_spec. cbn. destruct (Validate scope) as [e|] eqn:Hv.
  { unfold MockProvider_Write in E. by rewrite Hv in E. }
  unfold limited. cbn. specialize (Hu' (scopeKey scope)).
  apply Write_cases in E as [(l & r & k & _ & Hr & Hk & Hl & Hrec & Ho)|(Hf & _ & id & Hrec)];
    [| |done]; rewrite Hrec in Hu' |- *.
  - pose proof (update_record_spec now (scopeKey scope) w r) as (Hk' & _ & Hd).
    assert (r_UpdatedAt (update_record now (scopeKey scope) w r).1 = now ∨
            ∃ p, (update_record now (scopeKey scope) w r).2 = Panicked p) as Hup.
    { unfold update_record. destruct (cloneMeta _); [by left|right; by eexists]. }
    destruct (update_record now (scopeKey scope) w r) as [r' [[]|p]]; [|done]. cbn in *.
    destruct Hd as (Hs & Hc & Hx & mm & Hm & Hmeta). exists r'.
    rewrite (by_key_one _ _ l r' k) by (done || congruence).
    rewrite Hm, Hmeta. split_and!; try done; [congruence|]. by destruct Hup as [?|[? [=]]].
  - exists (new_record now (scopeKey scope) w id).
    rewrite (by_key_one _ _ (records m) _ []) by (done || apply in_scope_new).
    split_and!; try done. unfold new_record, cloneMeta. cbn.
    destruct (w_Metadata w) as [mm|]; cbn; [|done]. by rewrite insert_delete_eq.
Qed.

(** An update without metadata panics and hides the record: when the key is
    already in the scope and the write has nil metadata (as the repository's test
    writes), [Write] does not return, and the key is no longer found. *)
Theorem Write_update_nil_metadata (scope : TenantScope) (w : MemWrite) (now : Time)
    (m : MockProvider) (r : MemRecord) :
  unique_keys m → Validate scope = None → w_Metadata w = None →
  (MockProvider_Query scope (by_key (w_Key w)) m).2 = Done (Ok [r]) →
  ∃ m', MockProvider_Write now scope w m = (m', Panicked "assignment to entry in nil map") ∧
    (MockProvider_Query scope (by_key (w_Key w)) m').2 = Done (Ok []).
Proof.
  intros Hu Hv Hw Hq. rewrite Query_spec, Hv in Hq. cbn in Hq. injection Hq as Hq.
  destruct (MockProvider_Write now scope w m) as [m' o] eqn:E. exists m'.
  pose proof (Write_unique _ _ _ _ _ _ E Hu) as Hu'.
  assert (r ∈ filter (λ r, matches (scopeKey scope) (by_key (w_Key w)) r = true) (records m))
    as Hin by (unfold limited in Hq; cbn in Hq; rewrite Hq; left).
  apply list_elem_of_filter in Hin as [Hm Hin]. rewrite matches_by_key in Hm.
  apply Write_cases in E as [(l & r' & k & Hrec & Hr & Hk & Hl & Hrec' & ->)|(Hf & _)]; [| |done].
  2: { rewrite Forall_forall in Hf. specialize (Hf r Hin). cbn in Hf. congruence. }
  unfold update_record, cloneMeta in *. rewrite Hw in *. cbn in *. split; [done|].
  rewrite Query_spec, Hv, Hrec'. cbn. unfold limited. cbn. do 2 f_equal.
  apply filter_none. intros x Hx Hmx. rewrite matches_by_key in Hmx.
  rewrite Forall_forall in Hl.
  apply elem_of_app in Hx as [Hx|[->|Hx]%elem_of_cons].
  - specialize (Hl x Hx). cbn in Hl. congruence.
  - done.
  - specialize (Hu (scopeKey scope)). rewrite Hrec, filter_app, filter_scope_in, fmap_app in Hu
      by done. apply NoDup_app in Hu as (_ & _ & Hu). cbn in Hu. apply NoDup_cons in Hu as [Hu _].
    apply Hu, list_elem_of_fmap. exists x. rewrite andb_true_iff, bool_decide_eq_true in Hmx.
    destruct Hmx as [Hs Hkx]. split; [congruence|]. by apply list_elem_of_filter.
Qed.
End properties.

(** Age hints: the age in days is the number of whole days since the record
    was written, between 0 and the 106751 days a 64-bit duration can hold, 0 for a
    time in the future; the freshness warning appears exactly from two days on. *)
Theorem age_notes (now t : Time) :
  IsZero t = false →
  0 ≤ AgeDays now t ≤ 106751 ∧
  (now ≤ t → AgeHint now t = "今天写入") ∧
  (∀ k, 0 ≤ k ≤ 106750 → k * (24 * Hour) ≤ now - t < (k + 1) * (24 * Hour) →
     AgeDays now t = k) ∧
  (FreshnessNote now t ≠ [] ↔ 2 * (24 * Hour) ≤ now - t).
Proof.
  intros Ht.
  assert (∀ d, 0 ≤ d → 24 * Hour * (d `quot` (24 * Hour)) ≤ d < 24 * Hour * (d `quot` (24 * Hour)) + 24 * Hour) as Hq.
  { intros d Hd. rewrite Z.quot_div_nonneg by (unfold Hour; lia).
    pose proof (Z.mul_div_le d (24 * Hour)). pose proof (Z.mul_succ_div_gt d (24 * Hour)).
    unfold Hour in *. lia. }
  assert (AgeDays now t = (Z.max 0 (Z.min maxInt64 (now - t))) `quot` (24 * Hour)) as Hage.
  { unfold AgeDays, time_Since, minInt64. rewrite Ht. destruct (Z.ltb_spec (Z.max (-2 ^ 63) (Z.min maxInt64 (now - t))) 0).
    - replace (Z.max 0 _) with 0 by (unfold maxInt64 in *; lia). done.
    - f_equal. unfold maxInt64 in *. lia. }
  pose proof (Hq (Z.max 0 (Z.min maxInt64 (now - t))) ltac:(lia)) as Hb. rewrite <- Hage in Hb.
  unfold Hour, maxInt64 in *. split_and!.
  - lia.
  - lia.
  - intros Hle. unfold AgeHint. rewrite Ht. replace (AgeDays now t) with 0 by lia. done.
  - intros k Hk Hd. lia.
  - unfold FreshnessNote. rewrite Ht. cbn [orb].
    destruct (Z.leb_spec (AgeDays now t) 1); split; try done; lia.
Qed.

(** ** Witnesses and concrete runs *)

#[local] Existing Instance ascii_tables.

Definition tenant (u : gostring) : TenantScope := {| UserID := u; AgentID := "1" |}.

Definition writing (k c : gostring) (m : Metadata) : MemWrite :=
  {| w_Category := CategoryUser; w_Key := k; w_Content := c; w_Metadata := m |}.

(** The provider after one write. *)
Definition one_record : MockProvider :=
  (MockProvider_Write 7 (tenant "a") (writing "k" "alpha" None) NewMockProvider).1.

Lemma one_record_unique : unique_keys one_record.
Proof.
  apply (Write_unique 7 (tenant "a") (writing "k" "alpha" None) NewMockProvider _ (Done None));
    [done|]. intros sk. constructor.
Qed.

(** [TestMockProviderWriteQueryScoped]. *)
Lemma Write_isolated_witness :
  let m' := (MockProvider_Write 9 (tenant "b") (writing "k" "beta" None) one_record).1 in
  let q := {| q_Text := []; q_Keys := []; q_Categories := []; q_Limit := 10 |} in
  (MockProvider_Query (tenant "a") q m').2 = (MockProvider_Query (tenant "a") q one_record).2 ∧
  ∀ rs r, (MockProvider_Query (tenant "a") q one_record).2 = Done (Ok rs) → r ∈ rs →
    in_scope (scopeKey (tenant "a")) r = true ∧ in_scope (scopeKey (tenant "b")) r = false.
Proof.
  apply (Write_isolated (tenant "b") (tenant "a") (writing "k" "beta" None) _ 9 one_record _
    (Done None)); [refine (bool_decide_unpack _ _); exact I..|reflexivity].
Defined.

Lemma Write_then_read_witness :
  let w := writing "k" "new" (Some ∅) in
  let m' := (MockProvider_Write 9 (tenant "a") w one_record).1 in
  unique_keys m' ∧
  ∃ r, (MockProvider_Query (tenant "a") (by_key "k") m').2 = Done (Ok [r]) ∧
    r_Key r = "k" ∧ r_Content r = "new" ∧ r_Category r = CategoryUser ∧ r_UpdatedAt r = 9 ∧
    r_Metadata r = Some (<[scope_field := scopeKey (tenant "a")]> (default ∅ (Some ∅))).
Proof.
  apply (Write_then_read (tenant "a") (writing "k" "new" (Some ∅)) 9 one_record);
    [apply one_record_unique|reflexivity].
Defined.

Lemma Write_update_nil_metadata_witness :
  ∃ m', MockProvider_Write 9 (tenant "a") (writing "k" "new" None) one_record =
          (m', Panicked "assignment to entry in nil map") ∧
    (MockProvider_Query (tenant "a") (by_key "k") m').2 = Done (Ok []).
Proof.
  eapply (Write_update_nil_metadata (tenant "a") (writing "k" "new" None) 9 one_record);
    [apply one_record_unique|reflexivity..].
Defined.

Lemma age_notes_witness :
  IsZero 1 = false ∧
  (0 ≤ AgeDays (1 + 72 * Hour) 1 ≤ 106751 ∧
  (1 + 72 * Hour ≤ 1 → AgeHint (1 + 72 * Hour) 1 = "今天写入") ∧
  (∀ k, 0 ≤ k ≤ 106750 → k * (24 * Hour) ≤ 1 + 72 * Hour - 1 < (k + 1) * (24 * Hour) →
     AgeDays (1 + 72 * Hour) 1 = k) ∧
  (FreshnessNote (1 + 72 * Hour) 1 ≠ [] ↔ 2 * (24 * Hour) ≤ 1 + 72 * Hour - 1)).
Proof. split; [reflexivity|]. apply (age_notes (1 + 72 * Hour) 1). reflexivity. Defined.

Example three_days : AgeHint (1 + 72 * Hour) 1 = "3 天前写入".
Proof. vm_compute. reflexivity. Qed.
