(* ===== verification/Prompt.v ===== *)
(** * Packages [prompt], [profile] and [reflection]

    [src/pkg/agent_core/prompt/assembler.go]: the fragments of the system prompt
    and the default assembler; the two small interfaces the engine calls around
    it, with their mock and no-op implementations. *)

From S2P Require Import Prelude GoString Identity Transcript.
Open Scope Z_scope.

(** [AssembleInput]. *)
Record AssembleInput := {
  ai_Scope : TenantScope;
  ai_SessionID : gostring;
  CoreRules : gostring;
  Persona : gostring;
  ProjectRules : list gostring;
  Temporal : gostring;
  MemoryRecall : gostring;
  TodoFocus : gostring;
}.

(** The [Assembler] interface. *)
Definition Assembler (W : Type) : Type := (AssembleInput → Go W (result (list Message))).

(** The closure [add] of [BuildSystemMessages], over the builder [b]. *)
Definition add (title body b : gostring) : gostring :=
  let body := TrimSpace body in
  if decide (body = []) then b
  else
    (if 0 <? len b then b ++ [x0a; x0a] else b)
    ++ (if decide (title = []) then [] else "## " ++ title ++ [x0a])
    ++ body.

Definition default_prompt : gostring := "You are a helpful assistant.".

(** The builder after all the fragments. *)
Definition prompt_body (i : AssembleInput) : gostring :=
  let b := add "Core" (CoreRules i) [] in
  let b := add "Persona" (Persona i) b in
  let b :=
    if 0 <? len (ProjectRules i) then
      let joined := TrimSpace (Join (ProjectRules i) [x0a]) in
      if decide (joined = []) then b else add "Project rules" joined b
    else b in
  let b := add "Temporal context" (Temporal i) b in
  let b := add "Memory recall" (MemoryRecall i) b in
  add [] (TodoFocus i) b.

(** [DefaultAssembler.BuildSystemMessages]; the error is always nil. *)
Definition BuildSystemMessages (i : AssembleInput) : list Message :=
  let content := TrimSpace (prompt_body i) in
  let content := if decide (content = []) then default_prompt else content in
  [text_message RoleSystem content].

Definition DefaultAssembler {W} : Assembler W := λ i, mret (Ok (BuildSystemMessages i)).

(** [profile.Provider] and its mock. *)
Definition ProfileProvider (W : Type) : Type := (TenantScope → Go W (result gostring)).

Definition MockProfile_Persona {W} (text : gostring) (err : option goerror) : ProfileProvider W :=
  λ _, match err with Some e => mret (Err e) | None => mret (Ok text) end.

(** [reflection.PostTurnExtractor]: scope, session id and the messages of the turn. *)
Definition PostTurnExtractor (W : Type) : Type :=
  (TenantScope → gostring → list Message → Go W (option goerror)).

Definition NoopPostTurn {W} : PostTurnExtractor W := λ _ _ _, mret None.

(** [reflection.ConsolidationOptions] and [Consolidator]. *)
Record ConsolidationOptions := {
  co_Label : gostring;
  co_SessionID : gostring;
}.

Definition Consolidator (W : Type) : Type := (TenantScope → ConsolidationOptions → Go W (option goerror)).

Definition NoopConsolidator {W} : Consolidator W := λ _ _, mret None.

(** ** Specification: the non-blank sections, in their order *)

Definition section (title body : gostring) : list gostring :=
  if decide (TrimSpace body = []) then []
  else [(if decide (title = []) then [] else "## " ++ title ++ [x0a]) ++ TrimSpace body].

Definition sections (i : AssembleInput) : list gostring :=
  section "Core" (CoreRules i) ++ section "Persona" (Persona i)
  ++ section "Project rules" (Join (ProjectRules i) [x0a])
  ++ section "Temporal context" (Temporal i) ++ section "Memory recall" (MemoryRecall i)
  ++ section [] (TodoFocus i).

(** ** Lemmas *)

Lemma Join_snoc (l : list gostring) (s sep : gostring) :
  l ≠ [] → Join (l ++ [s]) sep = Join l sep ++ sep ++ s.
Proof.
  induction l as [|x l IH]; [done|]. intros _. destruct l as [|y l]; [done|].
  cbn [app Join] in *. rewrite IH by done. by rewrite <- !app_assoc.
Qed.

(** A section under a title starts with [#] and ends visibly. *)
Lemma section_spec title body s :
  s ∈ section title body →
  s ≠ [] ∧ ends_visible s ∧
  (if decide (title = []) then starts_visible s else ∃ s', s = x23 :: s').
Proof.
  unfold section. case_decide as Hb; [by intros ?%not_elem_of_nil|].
  intros ->%list_elem_of_singleton. case_decide; cbn [app].
  - split_and!; [done|apply TrimSpace_ends|apply TrimSpace_starts].
  - split_and!; [done| |by eexists].
    replace (_ :: _) with (("## " ++ title) ++ x0a :: TrimSpace body)
      by (cbn; by rewrite <- app_assoc).
    by apply ends_visible_newline, TrimSpace_ends.
Qed.

Definition visible_sections (l : list gostring) : Prop :=
  Forall (λ s, s ≠ [] ∧ ends_visible s) l.

Lemma section_visible title body : visible_sections (section title body).
Proof. apply Forall_forall. intros s Hs. by apply section_spec in Hs as (? & ? & _). Qed.

Lemma Join_nil_inv l sep : visible_sections l → Join l sep = [] → l = [].
Proof.
  intros Hl H. destruct l as [|s l]; [done|]. apply Forall_cons in Hl as [[Hs _] _].
  destruct l; cbn in H; [done|]. by apply app_nil in H as [? _].
Qed.

(** [add] appends a section. *)
Lemma add_section title body l :
  visible_sections l →
  add title body (Join l [x0a; x0a]) = Join (l ++ section title body) [x0a; x0a].
Proof.
  intros Hl. unfold add, section. case_decide; [by rewrite app_nil_r|].
  destruct (decide (l = [])) as [->|Hne]; [done|]. rewrite Join_snoc by done.
  destruct (Z.ltb_spec 0 (len (Join l [x0a; x0a]))) as [_|Hle]; [by rewrite <- app_assoc|].
  destruct (decide (Join l [x0a; x0a] = [])) as [E|E]; [by apply Join_nil_inv in E|].
  apply len_pos in E. lia.
Qed.

Lemma prompt_body_sections i : prompt_body i = Join (sections i) [x0a; x0a].
Proof.
  assert (∀ b, (if 0 <? len (ProjectRules i) then
      let joined := TrimSpace (Join (ProjectRules i) [x0a]) in
      if decide (joined = []) then b else add "Project rules" joined b
    else b) = add "Project rules" (Join (ProjectRules i) [x0a]) b) as Hp.
  { intros b. unfold add. rewrite TrimSpace_idem.
    destruct (ProjectRules i) as [|r rs]; [done|]. rewrite len_cons.
    rewrite (proj2 (Z.ltb_lt _ _)) by (pose proof (len_nonneg rs); lia).
    cbn zeta. by case_decide. }
  unfold prompt_body, sections. cbn zeta. rewrite Hp.
  change (add "Core" (CoreRules i) []) with (add "Core" (CoreRules i) (Join [] [x0a; x0a])).
  rewrite !add_section by (repeat (apply Forall_app; split); apply section_visible || constructor).
  cbn [app]. by rewrite <- !app_assoc.
Qed.

Lemma Join_ends l sep :
  visible_sections l → l ≠ [] → ends_visible (Join l (sep ++ [x0a])).
Proof.
  intros Hl Hne. destruct l as [|s l _] using rev_ind; [done|].
  apply Forall_app in Hl as [_ Hs]. apply Forall_singleton in Hs as [Hs He].
  destruct (decide (l = [])) as [->|]; [done|]. rewrite Join_snoc by done.
  rewrite <- app_assoc, (app_assoc _ sep). by apply ends_visible_newline.
Qed.

Lemma sections_visible i : visible_sections (sections i).
Proof. repeat (apply Forall_app; split); apply section_visible. Qed.

Lemma sections_starts i : starts_visible (Join (sections i) [x0a; x0a]).
Proof.
  assert (∃ hs, sections i = hs ++ section [] (TodoFocus i) ∧
            Forall (λ s, ∃ s', s = x23 :: s') hs) as (hs & -> & Hhs).
  { unfold sections. rewrite !app_assoc. eexists. split; [done|].
    repeat (apply Forall_app; split); apply Forall_forall; intros s Hs;
      apply section_spec in Hs as (_ & _ & Hs); exact Hs. }
  destruct Hhs as [|s hs [s' ->] _].
  - cbn [app]. unfold section. case_decide; [done|]. apply TrimSpace_starts.
  - cbn [app Join]. destruct (hs ++ _); [by apply starts_visible_ascii|].
    by apply starts_visible_ascii.
Qed.

(** ** Properties *)

(** The system prompt: the default assembler gives exactly one system
    message, whose content is the non-blank fragments in the order core, persona,
    project rules, temporal context, memory recall, todo focus, each trimmed under
    its title, separated by blank lines, and nothing else; with no fragment at all
    it is the default prompt. *)
Theorem BuildSystemMessages_sections (i : AssembleInput) :
  BuildSystemMessages i =
  [text_message RoleSystem
     (if decide (sections i = []) then default_prompt else Join (sections i) [x0a; x0a])].
Proof.
  unfold BuildSystemMessages. rewrite prompt_body_sections.
  destruct (decide (sections i = [])) as [->|Hne]; [done|].
  assert (Join (sections i) [x0a; x0a] ≠ []) as Hj
    by (intros E; by apply Join_nil_inv in E; [|apply sections_visible]).
  rewrite TrimSpace_fixed; [by rewrite decide_False|apply sections_starts|].
  apply (Join_ends _ [x0a]); [apply sections_visible|done].
Qed.

(** [TestDefaultAssemblerOrderAndTodoLast]. *)
Example assembled :
  m_Content <$> BuildSystemMessages
    {| ai_Scope := {| UserID := "u"; AgentID := "a" |}; ai_SessionID := [];
       CoreRules := " CORE "; Persona := []; ProjectRules := ["R1"; "R2"];
       Temporal := "TIME"; MemoryRecall := "  "; TodoFocus := "TODO_BLOCK" |} =
  ["## Core" ++ [x0a] ++ "CORE" ++ [x0a; x0a] ++ "## Project rules" ++ [x0a] ++ "R1" ++ [x0a]
   ++ "R2" ++ [x0a; x0a] ++ "## Temporal context" ++ [x0a] ++ "TIME" ++ [x0a; x0a]
   ++ "TODO_BLOCK"].
Proof. vm_compute. reflexivity. Qed.
