(* ===== verification/Engine.v ===== *)
(** * Package [agent_core]: the engine

    [src/pkg/agent_core/engine.go].  [PrepareLoop] validates the tenant, assembles
    the system prompt (persona, recalled memories, todo focus), prunes and
    compacts the history and builds the tool registry with its allow-list; [Run]
    and [RunStreamedToolLoop] run the loop on it, [RunStream] a single streamed
    completion.  Interface fields that may be nil are options. *)

From S2P Require Import Prelude GoString Identity Transcript Compaction Tools Planner Llm Loop.
From S2P Require Import Memory Prompt.
Open Scope Z_scope.

(** ** Data *)

Record RunOptions := {
  MaxToolTurns : Z;
  ro_MaxConsecutiveToolFailures : Z;
}.

Record RunRequest (W : Type) := {
  rq_Scope : TenantScope;
  rq_SessionID : gostring;
  rq_RequestID : gostring;
  rq_History : list Message;
  rq_UserMessage : Message;
  rq_AllowedSkillIDs : list gostring;
  rq_TodoStore : option (Store W);
  rq_SideQuery : option (SideQuerySelector W);
  rq_Profile : option (ProfileProvider W);
  rq_Assembler : option (Assembler W);
  rq_Prompt : AssembleInput;
  rq_Catalog : option (SkillCatalog W);
  rq_Model : option (ModelClient W);
  rq_Compactor : option Compactor;
  rq_ToolPruner : option ToolResultPruner;
  rq_PostTurn : option (PostTurnExtractor W);
  rq_Estimate : option TokenEstimator;
  rq_Options : RunOptions;
}.
Arguments rq_Scope {_} _.
Arguments rq_SessionID {_} _.
Arguments rq_RequestID {_} _.
Arguments rq_History {_} _.
Arguments rq_UserMessage {_} _.
Arguments rq_AllowedSkillIDs {_} _.
Arguments rq_TodoStore {_} _.
Arguments rq_SideQuery {_} _.
Arguments rq_Profile {_} _.
Arguments rq_Assembler {_} _.
Arguments rq_Prompt {_} _.
Arguments rq_Catalog {_} _.
Arguments rq_Model {_} _.
Arguments rq_Compactor {_} _.
Arguments rq_ToolPruner {_} _.
Arguments rq_PostTurn {_} _.
Arguments rq_Estimate {_} _.
Arguments rq_Options {_} _.

Record RunResult := {
  rr_Messages : list Message;
  rr_Delta : list Message;
  rr_FinalText : gostring;
}.

Record PreparedLoop (W : Type) := {
  pl_Messages : list Message;
  pl_PreLoopLen : Z;
  pl_Registry : Registry W;
  pl_ToolCtx : Context;
}.
Arguments pl_Messages {_} _.
Arguments pl_PreLoopLen {_} _.
Arguments pl_Registry {_} _.
Arguments pl_ToolCtx {_} _.

(** The struct updates of the code on [AssembleInput]. *)
Definition with_scope (i : AssembleInput) (sc : TenantScope) (sid : gostring) : AssembleInput :=
  {| ai_Scope := sc; ai_SessionID := sid; CoreRules := CoreRules i; Persona := Persona i;
     ProjectRules := ProjectRules i; Temporal := Temporal i; MemoryRecall := MemoryRecall i;
     TodoFocus := TodoFocus i |}.
Definition with_persona (i : AssembleInput) (p : gostring) : AssembleInput :=
  {| ai_Scope := ai_Scope i; ai_SessionID := ai_SessionID i; CoreRules := CoreRules i;
     Persona := p; ProjectRules := ProjectRules i; Temporal := Temporal i;
     MemoryRecall := MemoryRecall i; TodoFocus := TodoFocus i |}.
Definition with_recall (i : AssembleInput) (r : gostring) : AssembleInput :=
  {| ai_Scope := ai_Scope i; ai_SessionID := ai_SessionID i; CoreRules := CoreRules i;
     Persona := Persona i; ProjectRules := ProjectRules i; Temporal := Temporal i;
     MemoryRecall := r; TodoFocus := TodoFocus i |}.
Definition with_focus (i : AssembleInput) (f : gostring) : AssembleInput :=
  {| ai_Scope := ai_Scope i; ai_SessionID := ai_SessionID i; CoreRules := CoreRules i;
     Persona := Persona i; ProjectRules := ProjectRules i; Temporal := Temporal i;
     MemoryRecall := MemoryRecall i; TodoFocus := f |}.

Section engine.
Context `{UT : UnicodeTables} `{SS : SortSlice} `{TD : TodoDecoder}.
Context {W : Type} `{MO : MapOrder W} `{CL : Clock W}.

(** ** [formatMemoryRecall] *)

(** A hint that reads the clock unless the time is zero. *)
Definition hint_now (hint : Time → Time → gostring) (t : Time) : Go W gostring :=
  if IsZero t then mret [] else now ← go_state time_Now; mret (hint now t).

Definition recall_header : gostring :=
  "以下记忆由系统从长期存储中召回，**可能已过时**；涉及关键事实与外部状态时请用工具核对：" ++ [x0a].

(** One turn of the loop, on the builder [b]. *)
Definition recall_entry (b : gostring) (r : MemRecord) : Go W gostring :=
  hint ← hint_now AgeHint (r_CreatedAt r);
  note ← hint_now FreshnessNote (r_CreatedAt r);
  mret (b ++ "- [" ++ r_Category r ++ "] " ++ r_Key r
        ++ (if decide (hint = []) then [] else " — " ++ hint)
        ++ (if decide (note = []) then [] else " " ++ note)
        ++ [x0a] ++ "  " ++ TrimSpace (r_Content r) ++ [x0a]).

Fixpoint recall_entries (b : gostring) (recs : list MemRecord) : Go W gostring :=
  match recs with
  | [] => mret b
  | r :: recs' => b' ← recall_entry b r; recall_entries b' recs'
  end.

Definition formatMemoryRecall (recs : list MemRecord) : Go W gostring :=
  if decide (recs = []) then mret []
  else b ← recall_entries recall_header recs; mret (TrimSpace b).

(** ** [PrepareLoop] *)

(** The input of the assembler: persona, recalled memories, todo focus.  This part
    is the same text in [PrepareLoop] and [RunStream]. *)
Definition fill_prompt (req : RunRequest W) : Go W (result AssembleInput) :=
  let i := with_scope (rq_Prompt req) (rq_Scope req) (rq_SessionID req) in
  go_try (match rq_Profile req with
          | None => mret (Ok i)
          | Some persona =>
              go_try (persona (rq_Scope req)) (λ p,
                mret (Ok (if decide (Persona i = []) then with_persona i p else i)))
          end) (λ i,
  go_try (match rq_SideQuery req with
          | None => mret (Ok i)
          | Some select =>
              let q := TrimSpace (m_Content (rq_UserMessage req)) in
              go_try (select (rq_Scope req) q [] 5) (λ rec,
                recall ← formatMemoryRecall rec; mret (Ok (with_recall i recall)))
          end) (λ i,
  match rq_TodoStore req with
  | None => mret (Ok i)
  | Some st =>
      focus ← go_gets (FocusPrompt (rq_SessionID req) (Some st));
      mret (Ok (with_focus i focus))
  end)).

Definition assembler_of (req : RunRequest W) : Assembler W :=
  default DefaultAssembler (rq_Assembler req).

(** The messages before compaction. *)
Definition assemble_messages (req : RunRequest W) (sys : list Message) : list Message :=
  let pruner := default NoopToolPruner (rq_ToolPruner req) in
  sys ++ ((λ m, pruner (Clone m)) <$> rq_History req) ++ [Clone (rq_UserMessage req)].

Definition PrepareLoop (req : RunRequest W) : Go W (result (PreparedLoop W)) :=
  match Validate (rq_Scope req) with
  | Some e => mret (Err e)
  | None =>
  match rq_Catalog req with
  | None => mret (Err (ErrorString "agent_core: SkillCatalog is nil"))
  | Some catalog =>
      let comp := default NoopCompactor (rq_Compactor req) in
      go_try (fill_prompt req) (λ i,
      go_try (assembler_of req i) (λ sys,
      let msgs := assemble_messages req sys in
      let tok := match rq_Estimate req with Some f => f msgs | None => 0 end in
      match comp (rq_Scope req) (rq_SessionID req) msgs tok with
      | Err e => mret (Err e)
      | Ok (msgs, _) =>
      skills ← go_gets (catalog (rq_AllowedSkillIDs req));
      match skills with
      | Err e => mret (Err e)
      | Ok skillTools =>
          let allTools := skillTools ++ BuiltinTools (rq_TodoStore req) in
          match NewRegistry allTools with
          | Err e => mret (Err e)
          | Ok reg =>
              mret (Ok {| pl_Messages := msgs; pl_PreLoopLen := len msgs; pl_Registry := reg;
                          pl_ToolCtx :=
                            {| cx_Scope := rq_Scope req; cx_SessionID := rq_SessionID req;
                               cx_RequestID := rq_RequestID req;
                               cx_Allowed := Some (list_to_set (t_Name <$> allTools)) |} |})
          end
      end
      end))
  end
  end.

(** ** [Run], [RunStreamedToolLoop], [RunStream] *)

Definition loop_options (req : RunRequest W) : Options :=
  {| MaxTurns := MaxToolTurns (rq_Options req);
     MaxConsecutiveToolFailures := ro_MaxConsecutiveToolFailures (rq_Options req);
     ToolPruner := rq_ToolPruner req |}.

(** [out[n:]]. *)
Definition slice_from {A} (out : list A) (n : Z) : Go W (list A) :=
  if (0 <=? n) && (n <=? len out) then mret (drop (Z.to_nat n) out)
  else go_panic "slice bounds out of range".

Definition zero_result : RunResult := {| rr_Messages := []; rr_Delta := []; rr_FinalText := [] |}.

(** [Run] returns a result and an error together. *)
Definition Engine_Run (req : RunRequest W) : Go W (RunResult * option goerror) :=
  match rq_Model req with
  | None => mret (zero_result, Some (ErrorString "agent_core: Model is nil"))
  | Some model =>
      prep ← PrepareLoop req;
      match prep with
      | Err e => mret (zero_result, Some e)
      | Ok prep =>
          r ← Run (pl_ToolCtx prep) (pl_Messages prep) (pl_Registry prep) model
                (loop_options req);
          match lo_err r with
          | Some e => mret ({| rr_Messages := lo_msgs r; rr_Delta := [];
                               rr_FinalText := lo_text r |}, Some e)
          | None =>
              delta ← slice_from (lo_msgs r) (pl_PreLoopLen prep);
              let result := {| rr_Messages := lo_msgs r; rr_Delta := delta;
                               rr_FinalText := lo_text r |} in
              match rq_PostTurn req with
              | None => mret (result, None)
              | Some after =>
                  e ← after (rq_Scope req) (rq_SessionID req) delta;
                  mret (result, e)
              end
          end
      end
  end.

(** Its four results: messages, length before the loop, text, error. *)
Definition RunStreamedToolLoop (req : RunRequest W) (streamer : StreamTurnCompleter W)
    (hooks : StreamHooks W) : Go W (list Message * Z * gostring * option goerror) :=
  prep ← PrepareLoop req;
  match prep with
  | Err e => mret ([], 0, [], Some e)
  | Ok prep =>
      r ← RunStreamed (pl_ToolCtx prep) (pl_Messages prep) (pl_Registry prep) streamer
            (loop_options req) hooks;
      match lo_err r with
      | Some e => mret (lo_msgs r, pl_PreLoopLen prep, [], Some e)
      | None => mret (lo_msgs r, pl_PreLoopLen prep, lo_text r, None)
      end
  end.

Definition RunStream (req : RunRequest W) (sink : option (StreamSink W)) :
    Go W (option goerror) :=
  match Validate (rq_Scope req) with
  | Some e => mret (Some e)
  | None =>
  match rq_Model req, sink with
  | Some model, Some _ =>
      r ← go_try (fill_prompt req) (λ i, assembler_of req i);
      match r with
      | Err e => mret (Some e)
      | Ok sys =>
          mc_Stream model {| sr_Messages := sys ++ rq_History req ++ [rq_UserMessage req];
                             sr_ToolDefs := []; sr_Sink := sink |}
      end
  | _, _ => mret (Some (ErrorString "agent_core: Model and Sink required"))
  end
  end.
End engine.

(** ** Lemmas *)

Section lemmas.
Context `{UT : UnicodeTables} `{SS : SortSlice} `{TD : TodoDecoder}.
Context {W : Type} `{MO : MapOrder W} `{CL : Clock W}.
Implicit Types (req : RunRequest W) (w : W).

(** What a successful preparation went through. *)
Definition prepared req w w' (prep : PreparedLoop W) : Prop :=
  ∃ catalog i sys tools rep w1,
    Validate (rq_Scope req) = None ∧ rq_Catalog req = Some catalog ∧
    fill_prompt req w = (w1, Done (Ok i)) ∧
    assembler_of req i w1 = (w', Done (Ok sys)) ∧
    default NoopCompactor (rq_Compactor req) (rq_Scope req) (rq_SessionID req)
      (assemble_messages req sys)
      (match rq_Estimate req with Some f => f (assemble_messages req sys) | None => 0 end) =
      Ok (pl_Messages prep, rep) ∧
    catalog (rq_AllowedSkillIDs req) w' = Ok tools ∧
    NewRegistry (tools ++ BuiltinTools (rq_TodoStore req)) = Ok (pl_Registry prep) ∧
    pl_PreLoopLen prep = len (pl_Messages prep) ∧
    cx_Allowed (pl_ToolCtx prep) =
      Some (list_to_set (t_Name <$> tools ++ BuiltinTools (rq_TodoStore req))) ∧
    cx_Scope (pl_ToolCtx prep) = rq_Scope req ∧
    cx_SessionID (pl_ToolCtx prep) = rq_SessionID req.

Lemma PrepareLoop_prepared req w w' prep :
  PrepareLoop req w = (w', Done (Ok prep)) → prepared req w w' prep.
Proof.
  unfold PrepareLoop. intros E.
  destruct (Validate (rq_Scope req)) eqn:Hv; [by apply go_ret_Done in E as [_ ?]|].
  destruct (rq_Catalog req) as [catalog|] eqn:Hcat; [|by apply go_ret_Done in E as [_ ?]].
  apply go_try_Ok in E as (w1 & i & Hi & E). apply go_try_Ok in E as (w2 & sys & Hs & E).
  destruct (default NoopCompactor _ _ _ _ _) as [[msgs rep]|] eqn:Hc;
    [|by apply go_ret_Done in E as [_ ?]].
  apply go_bind_Done in E as (w3 & sk & [= <- <-] & E).
  destruct (catalog _ w2) as [tools|] eqn:Ht; [|by apply go_ret_Done in E as [_ ?]].
  destruct (NewRegistry _) as [reg|] eqn:Hr; [|by apply go_ret_Done in E as [_ ?]].
  apply go_ret_Done in E as [-> [= ->]]. by exists catalog, i, sys, tools, rep, w1.
Qed.

Lemma slice_from_app {A} (l k : list A) w : slice_from (l ++ k) (len l) w = (w, Done k).
Proof.
  unfold slice_from. rewrite len_app.
  rewrite (proj2 (Z.leb_le _ _) (len_nonneg l)), (proj2 (Z.leb_le _ _))
    by (pose proof (len_nonneg k); lia).
  cbn [andb]. unfold len. rewrite Nat2Z.id. by rewrite drop_app_length.
Qed.

(** The loop extends the prepared messages, so the slice is in bounds. *)
Lemma Run_delta tcx msgs (reg : Registry W) client opt w w' r :
  Run tcx msgs reg client opt w = (w', Done r) →
  ∃ delta, lo_msgs r = msgs ++ delta ∧
    (lo_err r = None → ∃ am, last delta = Some am ∧ m_ToolCalls am = [] ∧
                         lo_text r = TrimSpace (m_Content am)).
Proof.
  destruct (with_defaults_pos opt). rewrite Run_loop_after. intros E%loop_ended; [|done..].
  apply ended_extends in E as (rs & tl & Hm & _ & He); [|done].
  eexists. split; [exact Hm|]. intros Hn. rewrite Hn in He. destruct He as (am & -> & Hc & Ht).
  exists am. by rewrite last_snoc.
Qed.

Lemma go_try_returns {A B} (m : Go W (result A)) (k : A → Go W (result B)) :
  returns m → (∀ a, returns (k a)) → returns (go_try m k).
Proof. intros Hm Hk. apply returns_bind; [done|]. intros [a|e]; [apply Hk|apply returns_ret]. Qed.

Lemma returns_gets {A} (f : W → A) : returns (go_gets f).
Proof. intros w. by exists w, (f w). Qed.

Lemma returns_state {A} (f : W → W * A) : returns (go_state f).
Proof. intros w. unfold go_state. destruct (f w) as [w' a]. by exists w', a. Qed.

Lemma formatMemoryRecall_returns recs : returns (formatMemoryRecall (W := W) recs).
Proof.
  assert (∀ h t, returns (hint_now (W := W) h t)) as Hh.
  { intros h t. unfold hint_now. destruct (IsZero t); [apply returns_ret|].
    apply returns_bind; [apply returns_state|intros; apply returns_ret]. }
  assert (∀ b, returns (recall_entries (W := W) b recs)) as Hl.
  { induction recs as [|r recs IH]; intros b; [apply returns_ret|]. cbn [recall_entries].
    apply returns_bind; [|done]. unfold recall_entry.
    repeat (apply returns_bind; [apply Hh|intros ?]). apply returns_ret. }
  unfold formatMemoryRecall. case_decide; [apply returns_ret|].
  apply returns_bind; [apply Hl|intros; apply returns_ret].
Qed.
End lemmas.

(** ** No orphans from the history to the result *)

Section no_orphans.
Context `{UT : UnicodeTables} `{SS : SortSlice} `{TD : TodoDecoder}.
Context {W : Type} `{MO : MapOrder W} `{CL : Clock W}.




End no_orphans.

(** ** Properties *)

Section properties.
Context `{UT : UnicodeTables} `{SS : SortSlice} `{TD : TodoDecoder}.
Context {W : Type} `{MO : MapOrder W} `{CL : Clock W}.

(** No effect without a tenant: when the scope does not validate, every entry
    point of the engine returns the validation error, whose message is safe to
    show to the client, before it touches the world: no model call, no memory
    query, no tool, no post-turn hook. *)
Theorem invalid_scope_no_effect (req : RunRequest W) (streamer : StreamTurnCompleter W)
    (hooks : StreamHooks W) (sink : option (StreamSink W)) (e : goerror) (w : W) :
  Validate (rq_Scope req) = Some e →
  (∃ m, e = ValidationError m ∧ m ≠ [] ∧ ClientMessage m = m) ∧
  PrepareLoop req w = (w, Done (Err e)) ∧
  (is_Some (rq_Model req) → Engine_Run req w = (w, Done (zero_result, Some e))) ∧
  RunStreamedToolLoop req streamer hooks w = (w, Done ([], 0, [], Some e)) ∧
  RunStream req sink w = (w, Done (Some e)).
Proof.
  intros Hv. assert (PrepareLoop req w = (w, Done (Err e))) as Hp
    by (unfold PrepareLoop; by rewrite Hv).
  split_and!; [by eapply Validate_Some|done| | |].
  - intros [model Hm]. unfold Engine_Run. rewrite Hm. by rewrite (go_bind_eq _ _ _ _ _ Hp).
  - unfold RunStreamedToolLoop. by rewrite (go_bind_eq _ _ _ _ _ Hp).
  - unfold RunStream. by rewrite Hv.
Qed.

(** C19: a prepared loop is a sandbox for its tenant: the scope is valid and is
    the one of the request, the recorded length is the number of messages, and a
    tool can be executed exactly when it is offered, that is when it belongs to
    the skills asked for or to the todo tools of the request's store. *)
Theorem PrepareLoop_sandbox (req : RunRequest W) (w w' : W) (prep : PreparedLoop W) :
  PrepareLoop req w = (w', Done (Ok prep)) →
  scope_wf (rq_Scope req) ∧ cx_Scope (pl_ToolCtx prep) = rq_Scope req ∧
  pl_PreLoopLen prep = len (pl_Messages prep) ∧
  ∃ catalog tools, rq_Catalog req = Some catalog ∧
    catalog (rq_AllowedSkillIDs req) w' = Ok tools ∧
    (∀ n t, byName (pl_Registry prep) !! n = Some t ↔
       t ∈ tools ++ BuiltinTools (rq_TodoStore req) ∧ t_Name t = n) ∧
    (∀ n, ensureAllowed (pl_ToolCtx prep) n = None ↔ is_Some (byName (pl_Registry prep) !! n)).
Proof.
  intros E%PrepareLoop_prepared.
  destruct E as (cat & i & sys & tools & rep & w1 & Hv & Hc & _ & _ & _ & Ht & Hr & Hl & Ha & Hs & _).
  split_and!; [by apply Validate_None|done..|]. exists cat, tools.
  pose proof (λ n t, NewRegistry_lookup _ _ n t Hr) as Hlk.
  split_and!; [done..|]. intros n. rewrite ensureAllowed_None, Ha. split.
  - intros H. specialize (H _ eq_refl). rewrite elem_of_list_to_set in H.
    apply list_elem_of_fmap in H as (t & -> & Hin). exists t. by apply Hlk.
  - intros [t [Hin <-]%Hlk] a [= <-]. rewrite elem_of_list_to_set.
    by apply list_elem_of_fmap_2.
Qed.

(** [Run] ends a turn properly: without an error, the messages are the
    prepared ones followed by the delta (the slice never fails), the delta ends
    with an answer without tool calls, the final text is its trimmed content, and
    exactly the delta is given to the post-turn extractor, once, at the end. *)
Theorem Engine_Run_turn (req : RunRequest W) (w w' : W) (res : RunResult) :
  Engine_Run req w = (w', Done (res, None)) →
  ∃ prep w1 w2 am, PrepareLoop req w = (w1, Done (Ok prep)) ∧
    rr_Messages res = pl_Messages prep ++ rr_Delta res ∧
    last (rr_Delta res) = Some am ∧ m_ToolCalls am = [] ∧
    rr_FinalText res = TrimSpace (m_Content am) ∧
    match rq_PostTurn req with
    | None => w' = w2
    | Some after => after (rq_Scope req) (rq_SessionID req) (rr_Delta res) w2 = (w', Done None)
    end.
Proof.
  unfold Engine_Run. intros E. destruct (rq_Model req) as [model|];
    [|by apply go_ret_Done in E as [_ ?]].
  apply go_bind_Done in E as (w1 & [prep|e] & Hp & E); [|by apply go_ret_Done in E as [_ ?]].
  apply go_bind_Done in E as (w2 & r & Hr & E). apply Run_delta in Hr as (delta & Hm & Hl).
  destruct (lo_err r); [by apply go_ret_Done in E as [_ ?]|].
  destruct (Hl eq_refl) as (am & Hlast & Hc & Ht).
  pose proof (PrepareLoop_prepared _ _ _ _ Hp) as (? & ? & ? & ? & ? & ? & _ & _ & _ & _ & _ & _ & _ & Hlen & _).
  apply go_bind_Done in E as (w3 & d & Hd & E). rewrite Hm, Hlen, slice_from_app in Hd.
  injection Hd as <- <-. exists prep, w1, w2, am.
  destruct (rq_PostTurn req) as [after|].
  - apply go_bind_Done in E as (w4 & e & Ha & E). apply go_ret_Done in E as [-> [= -> ->]].
    by rewrite <- Ha.
  - apply go_ret_Done in E as [-> [= ->]]. done.
Qed.

(** C39: the engine terminates: when the request's components return (profile,
    memory selector, assembler, model, post-turn hook, and every tool of the
    catalog), [Run] returns, with a result or an error; in particular no panic
    comes from the engine itself. *)
Theorem Engine_Run_returns (req : RunRequest W) :
  (∀ f sc, rq_Profile req = Some f → returns (f sc)) →
  (∀ f sc q ns n, rq_SideQuery req = Some f → returns (f sc q ns n)) →
  (∀ i, returns (assembler_of req i)) →
  (∀ m r, rq_Model req = Some m → returns (mc_Complete m r)) →
  (∀ f sc sid turn, rq_PostTurn req = Some f → returns (f sc sid turn)) →
  (∀ cat ids v tools t cx input, rq_Catalog req = Some cat → cat ids v = Ok tools → t ∈ tools →
     returns (t_Execute t cx input)) →
  returns (Engine_Run req).
Proof.
  intros Hprof Hside Hasm Hmodel Hpost Htools.
  assert (returns (fill_prompt req)) as Hfill.
  { unfold fill_prompt. apply go_try_returns; [|intros i; apply go_try_returns; [|intros i']].
    - destruct (rq_Profile req) eqn:E; [|apply returns_ret].
      apply go_try_returns; [by apply Hprof|intros; apply returns_ret].
    - destruct (rq_SideQuery req) eqn:E; [|apply returns_ret].
      apply go_try_returns; [by apply Hside|intros rec]. apply returns_bind;
        [apply formatMemoryRecall_returns|intros; apply returns_ret].
    - destruct (rq_TodoStore req); [|apply returns_ret].
      apply returns_bind; [apply returns_gets|intros; apply returns_ret]. }
  assert (returns (PrepareLoop req)) as Hprep.
  { unfold PrepareLoop. destruct (Validate _); [apply returns_ret|].
    destruct (rq_Catalog req); [|apply returns_ret].
    apply go_try_returns; [done|intros i]. apply go_try_returns; [done|intros sys].
    destruct (default NoopCompactor _ _ _ _ _) as [[msgs rep]|e]; [|apply returns_ret].
    apply returns_bind; [apply returns_gets|intros sk].
    repeat case_match; apply returns_ret. }
  intros w. unfold Engine_Run. destruct (rq_Model req) as [model|] eqn:Em; [|by eexists _, _].
  destruct (Hprep w) as (w1 & [prep|e] & Ep); rewrite (go_bind_eq _ _ _ _ _ Ep); [|by eexists _, _].
  pose proof (PrepareLoop_prepared _ _ _ _ Ep) as
    (cat & i & sys & tools & ? & ? & _ & Hcat & _ & _ & _ & Ht & Hreg & Hlen & _).
  assert (returns (Run (pl_ToolCtx prep) (pl_Messages prep) (pl_Registry prep) model
            (loop_options req))) as Hrun.
  { intros w2. unfold Run. rewrite run_loop_generic. apply generic_loop_returns;
      [|intros r; apply returns_bind; [by apply Hmodel|intros; apply returns_ret]
       |intros; apply returns_ret..].
    intros n t cx input [Hin _]%(NewRegistry_lookup _ _ n t Hreg).
    apply elem_of_app in Hin as [Hin|Hin]; [by eapply Htools|].
    destruct (rq_TodoStore req) as [st|]; [|by apply not_elem_of_nil in Hin].
    cbn in Hin. rewrite elem_of_cons, list_elem_of_singleton in Hin. intros w3.
    destruct Hin as [->| ->]; cbn.
    - unfold updateTodo_Execute. destruct (unmarshal_tasks input); by eexists _, _.
    - unfold markDone_Execute. destruct (unmarshal_id input); [|by eexists _, _].
      destruct (st_MarkDone _ _ _ _) as [? []]; by eexists _, _. }
  destruct (Hrun w1) as (w2 & r & Er). rewrite (go_bind_eq _ _ _ _ _ Er).
  apply Run_delta in Er as (delta & Hm & _). destruct (lo_err r); [by eexists _, _|].
  rewrite Hm, Hlen. rewrite (go_bind_eq _ _ _ _ _ (slice_from_app _ _ _)).
  destruct (rq_PostTurn req) as [after|] eqn:Epost; [|by eexists _, _].
  apply returns_bind; [by apply Hpost|intros; apply returns_ret].
Qed.

End properties.

(** ** Witnesses and concrete runs *)

#[local] Existing Instance ascii_tables.
#[local] Existing Instance merge_SortSlice.
#[local] Existing Instance sample_decoder.
#[local] Instance zero_clock {W} : Clock W := λ w, (w, 0).

(** A request of user [u] to the model that calls [echo] once, with the default
    compactor and pruner of the runtime. *)
Definition sample_request (u : gostring) (model : option (ModelClient Z)) : RunRequest Z :=
  {| rq_Scope := {| UserID := u; AgentID := "a" |}; rq_SessionID := "s"; rq_RequestID := "r";
     rq_History := [text_message RoleUser "hello"; calling;
       {| m_Role := RoleTool; m_Content := "hi"; m_ToolCalls := []; m_ToolCallID := "1" |};
       text_message RoleAssistant "bye"];
     rq_UserMessage := text_message RoleUser "go"; rq_AllowedSkillIDs := ["s1"];
     rq_TodoStore := None; rq_SideQuery := None; rq_Profile := None; rq_Assembler := None;
     rq_Prompt := {| ai_Scope := sample_scope; ai_SessionID := []; CoreRules := "c";
       Persona := []; ProjectRules := []; Temporal := []; MemoryRecall := []; TodoFocus := [] |};
     rq_Catalog := Some (λ ids _, Ok (if decide (ids = ["s1"]) then [echo_tool] else []));
     rq_Model := model;
     rq_Compactor := Some (ThresholdCompactor_iface (Some {| MaxTokens := 10; MinTail := 1 |}));
     rq_ToolPruner := Some (Prune {| MaxRunes := 0; Ellipsis := [] |});
     rq_PostTurn := Some NoopPostTurn; rq_Estimate := Some RoughTokenEstimator;
     rq_Options := {| MaxToolTurns := 0; ro_MaxConsecutiveToolFailures := 0 |} |}.

(** The streamer of the same model, without deltas. *)
Definition once_streamer : StreamTurnCompleter Z := λ _ _,
  TurnWork (λ w, w + 1) (λ w, TurnReturn (Ok {| Assistant :=
    if w =? 0 then calling else text_message RoleAssistant "done" |})).

Definition no_hooks : StreamHooks Z :=
  {| OnTextDelta := None; AfterAssistantComplete := None; BeforeToolBatch := None;
     AfterToolBatch := None |}.

Lemma invalid_scope_no_effect_witness :
  let req := sample_request [] (Some once_client) in
  let e := ValidationError "User identity (user_id) is required." in
  (∃ m, e = ValidationError m ∧ m ≠ [] ∧ ClientMessage m = m) ∧
  PrepareLoop req 0 = (0, Done (Err e)) ∧
  (is_Some (rq_Model req) → Engine_Run req 0 = (0, Done (zero_result, Some e))) ∧
  RunStreamedToolLoop req once_streamer no_hooks 0 = (0, Done ([], 0, [], Some e)) ∧
  RunStream req None 0 = (0, Done (Some e)).
Proof.
  apply (invalid_scope_no_effect (sample_request [] (Some once_client))). reflexivity.
Defined.

Lemma PrepareLoop_sandbox_witness :
  ∃ prep, PrepareLoop (sample_request "u" None) 0 = (0, Done (Ok prep)) ∧
  (scope_wf {| UserID := "u"; AgentID := "a" |} ∧
  cx_Scope (pl_ToolCtx prep) = {| UserID := "u"; AgentID := "a" |} ∧
  pl_PreLoopLen prep = len (pl_Messages prep) ∧
  ∃ catalog tools, rq_Catalog (sample_request "u" None) = Some catalog ∧
    catalog ["s1"] 0 = Ok tools ∧
    (∀ n t, byName (pl_Registry prep) !! n = Some t ↔
       t ∈ tools ++ BuiltinTools None ∧ t_Name t = n) ∧
    (∀ n, ensureAllowed (pl_ToolCtx prep) n = None ↔ is_Some (byName (pl_Registry prep) !! n))).
Proof.
  refine (ex_intro _ _ (conj eq_refl
    (PrepareLoop_sandbox (sample_request "u" None) 0 0 _ eq_refl))).
Defined.

Lemma Engine_Run_turn_witness :
  let req := sample_request "u" (Some once_client) in
  ∃ w' res, Engine_Run req 0 = (w', Done (res, None)) ∧
  ∃ prep w1 w2 am, PrepareLoop req 0 = (w1, Done (Ok prep)) ∧
    rr_Messages res = pl_Messages prep ++ rr_Delta res ∧
    last (rr_Delta res) = Some am ∧ m_ToolCalls am = [] ∧
    rr_FinalText res = TrimSpace (m_Content am) ∧
    (NoopPostTurn (rq_Scope req) (rq_SessionID req) (rr_Delta res) w2 = (w', Done None)).
Proof.
  refine (ex_intro _ _ (ex_intro _ _ (conj eq_refl
    (Engine_Run_turn (sample_request "u" (Some once_client)) 0 _ _ eq_refl)))).
Defined.

Lemma Engine_Run_returns_witness : returns (Engine_Run (sample_request "u" (Some once_client))).
Proof.
  apply (Engine_Run_returns (sample_request "u" (Some once_client))); cbn.
  - done.
  - done.
  - intros i. apply returns_ret.
  - intros m r [= <-] w. by eexists _, _.
  - intros f sc sid turn [= <-]. apply returns_ret.
  - intros cat ids v tools t cx input [= <-] [= <-] Hin w. case_decide.
    + apply list_elem_of_singleton in Hin as ->. by eexists _, _.
    + by apply not_elem_of_nil in Hin.
Defined.


(** The turn of [sample_request]: the history is compacted away, the tool runs. *)
Example sample_turn :
  (RunStreamedToolLoop (sample_request "u" None) once_streamer no_hooks 0).2 =
  Done ([text_message RoleSystem ("## Core" ++ [x0a] ++ "c"); notice 3;
         text_message RoleAssistant "bye"; text_message RoleUser "go"; calling;
         {| m_Role := RoleTool; m_Content := "hi"; m_ToolCalls := []; m_ToolCallID := "1" |};
         text_message RoleAssistant "done"], 4, "done", None).
Proof. vm_compute. reflexivity. Qed.
