(* ===== verification/Env.v ===== *)
(** * The process: environment variables, conversions, host

    What the program uses of packages [os] and [strconv] and of the host it runs
    on: the environment is part of the world ([Environ]), [Getenv] and [Setenv]
    act on it, [Atoi] parses an option, [Host] names the rest (the operating
    system, the time layouts and the [go] statement). *)

From Stdlib Require Import DecimalPos DecimalZ.
From S2P Require Import Prelude GoString Memory.
Open Scope Z_scope.

(** ** Environment *)

(** The environment, and that the process may change it. *)
Class Environ (W : Type) := environ : W → gmap gostring gostring.

Class SetEnviron (W : Type) `{Environ W} := {
  set_environ : gmap gostring gostring → W → W;
  environ_set e w : environ (set_environ e w) = e;
}.

(** [os.Getenv]: an unset variable reads as the empty string. *)
Definition lookup_env (e : gmap gostring gostring) (k : gostring) : gostring := default [] (e !! k).
Definition Getenv `{Environ W} (k : gostring) (w : W) : gostring := lookup_env (environ w) k.

(** [os.Setenv] refuses an empty key, a key with [=] or NUL and a value with NUL. *)
Definition setenv_ok (k v : gostring) : bool :=
  negb (bool_decide (k = [])) &&
  forallb (λ b, negb (bool_decide (b = x3d ∨ b = x00))) k &&
  forallb (λ b, negb (bool_decide (b = x00))) v.

(** The environment after [_ = os.Setenv(k, v)]. *)
Definition setenv (k v : gostring) (e : gmap gostring gostring) : gmap gostring gostring :=
  if setenv_ok k v then <[k := v]> e else e.

(** ** The host *)

(** The operating system's names, the two time layouts, and the [go] statement. *)
Class Host (W : Type) := {
  GOOS : gostring;
  GOARCH : gostring;
  format_RFC3339 : Time → gostring;
  format_request : Time → gostring;
  go_spawn : Go W unit → W → W;
}.

Section host.
Context {W : Type} `{HO : Host W}.

(** Drop the result of a call. *)
Definition discard {A} (m : Go W A) : Go W unit := m ;; mret tt.

(** The [go] statement: the goroutine is started and the caller goes on. *)
Definition go_stmt (m : Go W unit) : Go W unit := λ w, (go_spawn m w, Done tt).
End host.

(** ** Conversions *)

Definition digit (b : byte) : option Z :=
  let z := byteZ b - 0x30 in if within 0 9 z then Some z else None.

Fixpoint digits (acc : Z) (s : gostring) : option Z :=
  match s with
  | [] => Some acc
  | b :: s' => match digit b with None => None | Some d => digits (10 * acc + d) s' end
  end.

(** [strconv.Atoi] on a 64-bit machine; [None] is a syntax or range error. *)
Definition Atoi (s : gostring) : option Z :=
  let '(neg, ds) :=
    match s with
    | b :: s' => if decide (b = x2d) then (true, s') else if decide (b = x2b) then (false, s')
                 else (false, s)
    | [] => (false, [])
    end in
  if decide (ds = []) then None
  else match digits 0 ds with
       | None => None
       | Some n =>
           let z := if neg : bool then - n else n in
           if within minInt64 maxInt64 z then Some z else None
       end.

(** [strings.TrimRight] for a cutset of ASCII bytes. *)
Fixpoint TrimRightBytes (cutset s : gostring) : gostring :=
  match s with
  | [] => []
  | b :: s' =>
      match TrimRightBytes cutset s' with
      | [] => if decide (b ∈ cutset) then [] else [b]
      | k => b :: k
      end
  end.

(** [strings.LastIndex] of one byte. *)
Fixpoint LastIndexByte (s : gostring) (b : byte) : option nat :=
  match s with
  | [] => None
  | c :: s' =>
      match LastIndexByte s' b with
      | Some i => Some (S i)
      | None => if decide (c = b) then Some 0%nat else None
      end
  end.

(** The lower-case ASCII letter a rune folds to, if any: the letters and, by simple
    case folding, the long s and the Kelvin sign. *)
Definition fold_ascii (r : Z) : Z :=
  if within 0x41 0x5A r then r + 32
  else if r =? 0x17F then 0x73 else if r =? 0x212A then 0x6B else r.

(** [strings.EqualFold] against a lower-case ASCII word. *)
Definition EqualFold (s word : gostring) : bool :=
  bool_decide (fold_ascii <$> runes s = byteZ <$> word).

(** A non-empty option that parses as a positive number, or the default. *)
Definition positive_option (v : gostring) (dflt : Z) : Z :=
  if decide (v = []) then dflt
  else match Atoi v with Some n => if 0 <? n then n else dflt | None => dflt end.

(** ** Lemmas *)

Ltac eval_digit :=
  match goal with |- context [digit ?b] =>
    let d := eval vm_compute in (digit b) in change (digit b) with d end; cbn iota.

Lemma digits_uint_acc u p :
  digits (Z.pos p) (uint_bytes u) = Some (Z.pos (Pos.of_uint_acc u p)).
Proof.
  revert p. induction u; intros p; [done|cbn -[Z.mul Z.add Pos.mul Pos.add]..].
  all: eval_digit; rewrite <- IHu; f_equal; lia.
Qed.

Lemma digits_uint u : digits 0 (uint_bytes u) = Some (Z.of_N (Pos.of_uint u)).
Proof.
  induction u; [done|cbn -[Pos.of_uint_acc Z.mul]..]; eval_digit; [done|..].
  all: by rewrite <- digits_uint_acc.
Qed.

Lemma uint_bytes_no_sign u :
  match uint_bytes u with b :: _ => b ≠ x2d ∧ b ≠ x2b | [] => u = Decimal.Nil end.
Proof. by destruct u. Qed.

(** [Atoi] reads back what [FormatInt] prints, on every 64-bit integer. *)
Lemma Atoi_FormatInt z : minInt64 ≤ z ≤ maxInt64 → Atoi (FormatInt z) = Some z.
Proof.
  intros Hz. pose proof (DecimalZ.of_to z) as Hd. unfold FormatInt.
  pose proof (proj2 (withinP minInt64 maxInt64 z) Hz) as Hin.
  assert (∀ u, u ≠ Decimal.Nil → uint_bytes u ≠ []) as Hne by by (intros []).
  destruct (Z.to_int z) as [u|u] eqn:Eu; cbn [Z.of_int] in Hd; unfold Z.of_uint in Hd.
  - pose proof (uint_bytes_no_sign u) as Hb. pose proof (digits_uint u) as Hdig.
    assert (uint_bytes u ≠ []) as Hn.
    { apply Hne. intros ->. destruct z as [|p|p]; cbn in Eu; [done| |done].
      injection Eu as Eu. by apply (DecimalPos.Unsigned.to_uint_nonnil p). }
    unfold Atoi. destruct (uint_bytes u) as [|b s] eqn:Es; [done|].
    destruct Hb as [Hb1 Hb2]. rewrite !decide_False by done. cbn beta iota.
    by rewrite Hdig, Hd, Hin.
  - unfold Atoi. cbn [app]. rewrite decide_True by done.
    rewrite decide_False, digits_uint, Hd, Hin; [done|]. apply Hne. intros ->.
    destruct z as [|p|p]; cbn in Eu; [done..|]. injection Eu as Eu.
    by apply (DecimalPos.Unsigned.to_uint_nonnil p).
Qed.

Lemma Atoi_range s z : Atoi s = Some z → minInt64 ≤ z ≤ maxInt64.
Proof.
  unfold Atoi. destruct s as [|b s]; cbn; [done|].
  repeat case_match; intros; simplify_eq; by apply withinP.
Qed.

Lemma positive_option_pos v d : 0 < d → 0 < positive_option v d.
Proof.
  intros Hd. unfold positive_option. case_decide; [done|].
  destruct (Atoi v) as [n|]; [|done]. destruct (Z.ltb_spec 0 n); done.
Qed.

Lemma TrimRightBytes_prefix cs s : TrimRightBytes cs s `prefix_of` s.
Proof.
  induction s as [|b s IH]; cbn; [done|]. destruct (TrimRightBytes cs s) as [|c t].
  - case_decide; [apply prefix_nil|apply prefix_cons, prefix_nil].
  - by apply prefix_cons.
Qed.

(** What [TrimRight] leaves does not end with a byte of the cutset. *)
Lemma TrimRightBytes_last cs s b : last (TrimRightBytes cs s) = Some b → b ∉ cs.
Proof.
  induction s as [|c s IH]; cbn; [done|]. destruct (TrimRightBytes cs s) as [|d t]; [|exact IH].
  case_decide; [done|]. by intros [= <-].
Qed.

(** Bytes of the cutset at the end do not matter. *)
Lemma TrimRightBytes_app cs s t : Forall (λ b, b ∈ cs) t → TrimRightBytes cs (s ++ t) = TrimRightBytes cs s.
Proof.
  intros Ht. assert (TrimRightBytes cs t = []) as Hn.
  { induction Ht as [|b t Hb _ IH]; [done|]. cbn. rewrite IH. by rewrite decide_True. }
  induction s as [|b s IH]; [done|]. cbn. by rewrite IH.
Qed.

Lemma LastIndexByte_Some s b i :
  LastIndexByte s b = Some i → s !! i = Some b ∧ ∀ j, (i < j)%nat → s !! j ≠ Some b.
Proof.
  revert i. induction s as [|c s IH]; intros i; cbn; [done|].
  destruct (LastIndexByte s b) as [k|] eqn:E.
  - intros [= <-]. destruct (IH k eq_refl) as [H1 H2]. split; [done|].
    intros [|j] Hj; [lia|]. cbn. apply H2. lia.
  - case_decide as Hc; [|done]. intros [= <-]. split; [by subst|]. intros [|j] Hj; [lia|]. cbn.
    clear -E. revert j. induction s as [|d s IH]; intros j; [done|]. cbn in E.
    destruct (LastIndexByte s b); [done|]. case_decide; [done|]. destruct j; cbn; [congruence|auto].
Qed.

Lemma setenv_other k v e k' : k ≠ k' → lookup_env (setenv k v e) k' = lookup_env e k'.
Proof.
  intros Hk. unfold setenv, lookup_env. destruct (setenv_ok k v); [|done].
  by rewrite lookup_insert_ne.
Qed.

(** ** Examples *)

Example Atoi_forms :
  Atoi "+12" = Some 12 ∧ Atoi "-0" = Some 0 ∧ Atoi "1_0" = None ∧ Atoi "-" = None ∧
  Atoi " 1" = None ∧ Atoi "9223372036854775807" = Some maxInt64 ∧
  Atoi "9223372036854775808" = None.
Proof. vm_compute. by split_and!. Qed.

Example EqualFold_long_s : EqualFold "FALſE" "false" = true ∧ EqualFold "0ff" "off" = false.
Proof. vm_compute. by split. Qed.
