(* ===== verification/Adapter.v ===== *)
(** * API-shaped messages and the model bridge

    [src/internal/types], [src/internal/adapter/transcript/convert.go] and
    [src/internal/adapter/llm/bridge.go]: the messages stored in the session and
    sent to the HTTP API, their conversion to the engine's messages, and the
    bridge that makes the HTTP client a [ModelClient] and a
    [StreamTurnCompleter].  The HTTP client is an interface here. *)

From S2P Require Import Prelude GoString Identity Transcript Tools Llm.
Open Scope Z_scope.

(** ** Data *)

(** [types.ToolCallFunction], [types.ToolCall] and [types.Message]. *)
Record TToolCallFunction := {
  tf_Name : gostring;
  tf_Arguments : gostring;
}.

Record TToolCall := {
  tt_ID : gostring;
  tt_Type : gostring;
  tt_Function : TToolCallFunction;
}.

Record TMessage := {
  tm_Role : gostring;
  tm_Content : gostring;
  tm_ToolCalls : list TToolCall;
  tm_ToolCallID : gostring;
}.

#[global] Instance TToolCallFunction_eq_decision : EqDecision TToolCallFunction.
Proof. solve_decision. Defined.
#[global] Instance TToolCall_eq_decision : EqDecision TToolCall.
Proof. solve_decision. Defined.
#[global] Instance TMessage_eq_decision : EqDecision TMessage.
Proof. solve_decision. Defined.

(** [types.ToolDefinition]. *)
Record ToolDefinition := {
  td_Type : gostring;
  td_Name : gostring;
  td_Description : gostring;
  td_InputSchema : list (gostring * any);
}.

(** ** Conversions *)

Definition FromTypes (m : TMessage) : Message :=
  {| m_Role := tm_Role m; m_Content := tm_Content m;
     m_ToolCalls :=
       if 0 <? len (tm_ToolCalls m) then
         (λ c, {| tc_ID := tt_ID c; tc_Type := tt_Type c; tc_Name := tf_Name (tt_Function c);
                  tc_Arguments := tf_Arguments (tt_Function c) |}) <$> tm_ToolCalls m
       else [];
     m_ToolCallID := tm_ToolCallID m |}.

Definition ToTypes (m : Message) : TMessage :=
  {| tm_Role := m_Role m; tm_Content := m_Content m;
     tm_ToolCalls :=
       if 0 <? len (m_ToolCalls m) then
         (λ c, {| tt_ID := tc_ID c; tt_Type := tc_Type c;
                  tt_Function := {| tf_Name := tc_Name c; tf_Arguments := tc_Arguments c |} |})
           <$> m_ToolCalls m
       else [];
     tm_ToolCallID := m_ToolCallID m |}.

Definition MessagesFromTypes (msgs : list TMessage) : list Message := FromTypes <$> msgs.
Definition MessagesToTypes (msgs : list Message) : list TMessage := ToTypes <$> msgs.

(** One definition of [toolDefsToTypes]. *)
Definition toolDefToType (d : ToolDef) : ToolDefinition :=
  {| td_Type := if decide (d_Type d = [] ∨ d_Type d = "function") then "custom" else d_Type d;
     td_Name := d_Name d; td_Description := d_Description d;
     td_InputSchema := d_Parameters d |}.

Definition toolDefsToTypes (defs : list ToolDef) : list ToolDefinition := toolDefToType <$> defs.

(** ** The bridge *)

(** What the bridge uses of [internal/llm.Client]: the non-streaming call and the
    streaming one, whose callback may be nil. *)
Record HttpClient (W : Type) := {
  hc_Chat : list TMessage → list ToolDefinition → Go W (result TMessage);
  hc_StreamChat : list TMessage → list ToolDefinition → bool → StreamTurn W TMessage;
}.
Arguments hc_Chat {_} _ _ _.
Arguments hc_StreamChat {_} _ _ _ _.

(** [Holder]: a client that can be replaced at any time; [Load] reads the world. *)
Abbreviation Holder W := (W → option (HttpClient W)).

(** [Bridge]: a nil bridge or a nil holder has no client. *)
Record Bridge (W : Type) := { br_LLM : option (Holder W) }.
Arguments br_LLM {_} _.

Section bridge.
Context {W : Type} (b : option (Bridge W)).

Definition inner (w : W) : option (HttpClient W) :=
  match b with
  | None => None
  | Some b => match br_LLM b with None => None | Some load => load w end
  end.

Definition no_client : goerror := ErrorString "llm bridge: no client".

Definition to_response (r : result TMessage) : result CompleteResponse :=
  (λ m, {| Assistant := FromTypes m |}) <$> r.

Definition Bridge_Complete (req : CompleteRequest) : Go W (result CompleteResponse) :=
  c ← go_gets inner;
  match c with
  | None => mret (Err no_client)
  | Some c =>
      resp ← hc_Chat c (MessagesToTypes (cr_Messages req)) (toolDefsToTypes (cr_ToolDefs req));
      mret (to_response resp)
  end.

Definition Bridge_Stream (req : StreamRequest W) : Go W (option goerror) :=
  mret (Some ErrStreamingNotSupported).

Definition Bridge_CompleteStreamTurn : StreamTurnCompleter W := λ req has_cb,
  TurnWork id (λ w,
    match inner w with
    | None => TurnReturn (Err no_client)
    | Some c =>
        turn_map to_response
          (hc_StreamChat c (MessagesToTypes (cr_Messages req))
             (toolDefsToTypes (cr_ToolDefs req)) has_cb)
    end).

Definition Bridge_iface : ModelClient W :=
  {| mc_Complete := Bridge_Complete; mc_Stream := Bridge_Stream |}.
End bridge.

(** ** Lemmas *)

Lemma map_if_nonempty {A B} (f : A → B) (l : list A) :
  (if 0 <? len l then f <$> l else []) = f <$> l.
Proof. by destruct l. Qed.

Lemma FromTypes_ToTypes m : FromTypes (ToTypes m) = m.
Proof.
  destruct m as [r c calls i]. unfold FromTypes, ToTypes. cbn. f_equal.
  rewrite !map_if_nonempty, <- list_fmap_compose. rewrite <- (list_fmap_id calls) at 2.
  apply list_fmap_ext. by intros _ [] _.
Qed.

Lemma ToTypes_FromTypes m : ToTypes (FromTypes m) = m.
Proof.
  destruct m as [r c calls i]. unfold FromTypes, ToTypes. cbn. f_equal.
  rewrite !map_if_nonempty, <- list_fmap_compose. rewrite <- (list_fmap_id calls) at 2.
  apply list_fmap_ext. by intros _ [? ? []] _.
Qed.

Lemma run_turn_map {W A B S} (f : result A → result B) (cb : option (gostring → S → Go W S))
    (t : StreamTurn W A) s w :
  run_turn cb (turn_map f t) s w = ((λ p, (p.1, f p.2)) <$> run_turn cb t s) w.
Proof.
  revert s w. induction t as [r|p|upd next IH|d t IH]; intros s w; cbn; [done..| |].
  - apply IH.
  - destruct cb as [g|]; [|done]. unfold fmap, Go_fmap. cbn.
    unfold mbind, Go_bind. destruct (g d s w) as [w' [s'|p]]; [apply IH|done].
Qed.

(** ** Properties *)

(** Nothing is lost between the engine and the session: converting messages
    to the API shape and back, and an API-shaped history to engine messages and
    back, is the identity, tool calls and ids included. *)
Theorem messages_roundtrip (msgs : list Message) (tmsgs : list TMessage) :
  MessagesFromTypes (MessagesToTypes msgs) = msgs ∧
  MessagesToTypes (MessagesFromTypes tmsgs) = tmsgs.
Proof.
  unfold MessagesFromTypes, MessagesToTypes. rewrite <- !list_fmap_compose. split.
  - rewrite <- (list_fmap_id msgs) at 2. apply list_fmap_ext. intros ? m ?. apply FromTypes_ToTypes.
  - rewrite <- (list_fmap_id tmsgs) at 2. apply list_fmap_ext. intros ? m ?. apply ToTypes_FromTypes.
Qed.

(** The bridge is a faithful streamer: when the HTTP client's streaming call
    does what its plain call does, a streamed turn of the bridge does what its
    [Complete] does (so that the streaming loop refines the plain one on it),
    and with no client both fail with the same error and no effect. *)
Theorem Bridge_streams {W} (b : option (Bridge W)) (req : CompleteRequest) (has_cb : bool) :
  (∀ w c msgs defs, inner b w = Some c →
     streams_call has_cb (hc_StreamChat c msgs defs has_cb) (hc_Chat c msgs defs)) →
  streams_call has_cb (Bridge_CompleteStreamTurn b req has_cb) (Bridge_Complete b req) ∧
  (∀ w, inner b w = None → Bridge_Complete b req w = (w, Done (Err no_client))).
Proof.
  intros Hc. split.
  - intros w. unfold Bridge_CompleteStreamTurn, Bridge_Complete, go_gets. cbn [run_turn id].
    unfold fmap at 1, Go_fmap, mbind at 1 2, Go_bind.
    destruct (inner b w) as [c|] eqn:E; [|done].
    rewrite run_turn_map. unfold fmap at 1, Go_fmap, mbind at 1, Go_bind.
    rewrite (Hc w c _ _ E w). unfold fmap at 1, Go_fmap, mbind, Go_bind.
    by destruct (hc_Chat c _ _ w) as [w' [r|p]].
  - intros w E. unfold Bridge_Complete, go_gets, mbind, Go_bind. by rewrite E.
Qed.

(** ** Witness *)

(** A client that answers with the last message, with one delta. *)
Definition parrot : HttpClient unit :=
  let answer msgs := {| tm_Role := "assistant";
    tm_Content := match last msgs with Some m => tm_Content m | None => [] end;
    tm_ToolCalls := []; tm_ToolCallID := [] |} in
  {| hc_Chat := λ msgs _ w, (w, Done (Ok (answer msgs)));
     hc_StreamChat := λ msgs _ has_cb,
       if has_cb then TurnDelta (tm_Content (answer msgs)) (TurnReturn (Ok (answer msgs)))
       else TurnReturn (Ok (answer msgs)) |}.

Lemma Bridge_streams_witness :
  let b := Some {| br_LLM := Some (λ _, Some parrot) |} in
  let req := {| cr_Messages := [text_message RoleUser "hi"]; cr_ToolDefs := [] |} in
  streams_call true (Bridge_CompleteStreamTurn b req true) (Bridge_Complete b req) ∧
  (∀ w, inner b w = None → Bridge_Complete b req w = (w, Done (Err no_client))).
Proof.
  apply (Bridge_streams (Some {| br_LLM := Some (λ _, Some parrot) |})).
  intros w c msgs defs [= <-] w'. done.
Defined.
