(* ===== verification/Session.v ===== *)
(** * Package [session]: short-term memory

    [src/internal/session/store.go]: the bounded message history of a session, in
    memory or in a Redis list.  Redis and the JSON codec of a message are
    interfaces; the Redis store is shown to implement the in-memory one. *)

From S2P Require Import Prelude GoString Transcript Adapter.
Open Scope Z_scope.

(** ** The two interfaces *)

(** The commands the store pipelines. *)
Inductive RedisCmd :=
| Del (k : gostring)
| RPush (k v : gostring)
| LTrim (k : gostring) (start stop : Z)
| Expire (k : gostring) (ttl : Z).

(** [redis.Client]: [Get] ([Ok None] is [redis.Nil]), [LRange k 0 -1] and the execution of
    a pipeline. *)
Record RedisClient (W : Type) := {
  rc_Get : gostring → Go W (result (option gostring));
  rc_LRangeAll : gostring → Go W (result (list gostring));
  rc_Exec : list RedisCmd → Go W (option goerror);
}.
Arguments rc_Get {_} _ _.
Arguments rc_LRangeAll {_} _ _.
Arguments rc_Exec {_} _ _.

(** [json.Marshal] and [json.Unmarshal] on [types.Message]. *)
Class MessageCodec := {
  json_Marshal : TMessage → result gostring;
  json_Unmarshal : gostring → result TMessage;
}.

(** ** The store *)

(** [Store], without the map of sessions, which the calls change: it is a part of
    the world, used when [Redis] is nil. *)
Record Store (W : Type) := {
  Redis : option (RedisClient W);
  MaxMessages : Z;
  TTL : Z;
}.
Arguments Redis {_} _.
Arguments MaxMessages {_} _.
Arguments TTL {_} _.

Abbreviation Sessions := (gmap gostring (list TMessage)).

Class HasSessions (W : Type) := {
  sessions : W → Sessions;
  set_sessions : Sessions → W → W;
  sessions_set m w : sessions (set_sessions m w) = m;
}.

Definition NewStore {W} : Store W :=
  {| Redis := None; MaxMessages := 60; TTL := 24 * 3600 * 1000000000 |}.

(** ** In memory *)

(** A missing session is a nil slice; the result is a copy. *)
Definition mem_Get (m : Sessions) (sid : gostring) : list TMessage := default [] (m !! sid).

Definition trimLocked (max : Z) (sid : gostring) (m : Sessions) : Sessions :=
  if max <=? 0 then m
  else
    let msgs := mem_Get m sid in
    if len msgs <=? max then m
    else
      let start := len msgs - max in
      <[sid := drop (Z.to_nat start) msgs]> m.

Definition mem_Append (max : Z) (sid : gostring) (msgs : list TMessage) (m : Sessions) : Sessions :=
  trimLocked max sid (<[sid := mem_Get m sid ++ msgs]> m).

Definition mem_Replace (max : Z) (sid : gostring) (msgs : list TMessage) (m : Sessions) :
    Sessions :=
  trimLocked max sid (<[sid := msgs]> m).

(** ** In Redis *)

Definition key (sid : gostring) : gostring := "overseer:session:" ++ sid ++ ":messages".

Section redis.
Context `{MC : MessageCodec} {W : Type}.

(** The items that decode; corrupted ones are skipped. *)
Fixpoint decode_all (raw : list gostring) : list TMessage :=
  match raw with
  | [] => []
  | item :: raw' =>
      match json_Unmarshal item with
      | Ok m => m :: decode_all raw'
      | Err _ => decode_all raw'
      end
  end.

(** The [RPush] of the messages that encode. *)
Fixpoint push_all (k : gostring) (msgs : list TMessage) : list RedisCmd :=
  match msgs with
  | [] => []
  | m :: msgs' =>
      match json_Marshal m with
      | Ok b => RPush k b :: push_all k msgs'
      | Err _ => push_all k msgs'
      end
  end.

(** Trim to the last messages, and set the lifetime. *)
Definition bound_cmds (s : Store W) (k : gostring) : list RedisCmd :=
  (if 0 <? MaxMessages s then [LTrim k (- MaxMessages s) (-1)] else [])
  ++ (if 0 <? TTL s then [Expire k (TTL s)] else []).

Definition getRedis (c : RedisClient W) (sid : gostring) : Go W (list TMessage) :=
  raw ← rc_LRangeAll c (key sid);
  match raw with
  | Err _ => mret []
  | Ok raw => mret (decode_all raw)
  end.

Definition appendRedis (s : Store W) (c : RedisClient W) (sid : gostring)
    (msgs : list TMessage) : Go W (option goerror) :=
  rc_Exec c (push_all (key sid) msgs ++ bound_cmds s (key sid)).

Definition replaceRedis (s : Store W) (c : RedisClient W) (sid : gostring)
    (msgs : list TMessage) : Go W (option goerror) :=
  rc_Exec c (Del (key sid) :: push_all (key sid) msgs ++ bound_cmds s (key sid)).

Context `{HS : HasSessions W}.

Definition Get (s : Store W) (sid : gostring) : Go W (list TMessage) :=
  match Redis s with
  | Some c => getRedis c sid
  | None => go_gets (λ w, mem_Get (sessions w) sid)
  end.

(** The error of the pipeline is dropped. *)
Definition Append (s : Store W) (sid : gostring) (msgs : list TMessage) : Go W unit :=
  match Redis s with
  | Some c => e ← appendRedis s c sid msgs; mret tt
  | None => λ w, (set_sessions (mem_Append (MaxMessages s) sid msgs (sessions w)) w, Done tt)
  end.

Definition Replace (s : Store W) (sid : gostring) (msgs : list TMessage) : Go W unit :=
  match Redis s with
  | Some c => e ← replaceRedis s c sid msgs; mret tt
  | None => λ w, (set_sessions (mem_Replace (MaxMessages s) sid msgs (sessions w)) w, Done tt)
  end.
End redis.

(** ** What the store relies on *)

(** The lists of a Redis server, and the effect of a command as the Redis
    documentation gives it; an empty list has no key, and the expiry of a key is
    not an effect of the command itself. *)
Abbreviation RedisData := (gmap gostring (list gostring)).

Definition put_list (k : gostring) (l : list gostring) (d : RedisData) : RedisData :=
  if decide (l = []) then delete k d else <[k := l]> d.

(** The index of a list of [n] elements a possibly negative index stands for. *)
Definition redis_index (n i : Z) : Z := if i <? 0 then n + i else i.

Definition redis_ltrim (l : list gostring) (start stop : Z) : list gostring :=
  let n := len l in
  let first := Z.max 0 (redis_index n start) in
  let past := Z.min n (redis_index n stop + 1) in
  take (Z.to_nat (past - first)) (drop (Z.to_nat first) l).

Definition redis_step (d : RedisData) (c : RedisCmd) : RedisData :=
  match c with
  | Del k => delete k d
  | RPush k v => put_list k (default [] (d !! k) ++ [v]) d
  | LTrim k start stop => put_list k (redis_ltrim (default [] (d !! k)) start stop) d
  | Expire _ _ => d
  end.

(** The key a command is about. *)
Definition cmd_key (c : RedisCmd) : gostring :=
  match c with Del k | RPush k _ | LTrim k _ _ | Expire k _ => k end.

(** A client of such a server.  A read returns, changes nothing, and gives the list of
    the key or an error (the server cannot be reached, a timeout); a pipeline that
    reports no error has run all its commands in order, and one that reports an error
    may have run any of them, on the keys they name. *)
Class RedisLaws {W} (c : RedisClient W) (data : W → RedisData) : Prop := {
  redis_lrange k w : ∃ w' r, rc_LRangeAll c k w = (w', Done r) ∧ data w' = data w ∧
    ∀ l, r = Ok l → l = default [] (data w !! k);
  redis_exec cmds w w' :
    rc_Exec c cmds w = (w', Done None) → data w' = foldl redis_step (data w) cmds;
  redis_exec_failed cmds w w' e :
    rc_Exec c cmds w = (w', Done (Some e)) →
    ∀ k, k ∉ cmd_key <$> cmds → data w' !! k = data w !! k;
}.

(** [encoding/json] writes every message, replacing invalid UTF-8, and reads back
    what it wrote. *)
Definition valid_utf8 (s : gostring) : Prop := string_of_runes (runes s) = s.

Definition valid_message (m : TMessage) : Prop :=
  valid_utf8 (tm_Role m) ∧ valid_utf8 (tm_Content m) ∧ valid_utf8 (tm_ToolCallID m) ∧
  Forall (λ c, valid_utf8 (tt_ID c) ∧ valid_utf8 (tt_Type c) ∧
    valid_utf8 (tf_Name (tt_Function c)) ∧ valid_utf8 (tf_Arguments (tt_Function c)))
    (tm_ToolCalls m).

Class CodecLaws (MC : MessageCodec) : Prop := {
  codec_roundtrip m : valid_message m →
    ∃ b, json_Marshal m = Ok b ∧ json_Unmarshal b = Ok m;
}.

(** ** Lemmas *)

(** The last [max] elements, or all of them without a limit. *)
Definition bounded {A} (max : Z) (l : list A) : list A :=
  if max <=? 0 then l else drop (Z.to_nat (len l - max)) l.

Lemma mem_Append_lookup max sid msgs m :
  mem_Get (mem_Append max sid msgs m) sid = bounded max (mem_Get m sid ++ msgs).
Proof.
  unfold mem_Append, trimLocked, bounded, mem_Get. rewrite lookup_insert_eq. cbn.
  destruct (Z.leb_spec max 0); [by rewrite lookup_insert_eq|].
  destruct (Z.leb_spec (len (default [] (m !! sid) ++ msgs)) max); rewrite lookup_insert_eq; cbn;
    [|done].
  by replace (Z.to_nat _) with 0%nat by lia.
Qed.

Lemma mem_Append_other max sid sid' msgs m :
  sid ≠ sid' → mem_Append max sid msgs m !! sid' = m !! sid'.
Proof.
  intros H. unfold mem_Append, trimLocked. cbn zeta. repeat case_match;
    by rewrite ?lookup_insert_ne.
Qed.

Lemma mem_Replace_Append max sid msgs m :
  mem_Replace max sid msgs m = mem_Append max sid msgs (delete sid m).
Proof.
  unfold mem_Replace, mem_Append, mem_Get. rewrite lookup_delete_eq. cbn.
  by rewrite insert_delete_eq.
Qed.

Lemma key_inj sid sid' : key sid = key sid' → sid = sid'.
Proof. unfold key. intros H%app_inv_head. by apply app_inv_tail in H. Qed.

Lemma bounded_len {A} max (l : list A) : 0 < max → len (bounded max l) ≤ max.
Proof.
  intros H. unfold bounded. destruct (Z.leb_spec max 0); [lia|].
  unfold len. rewrite length_drop. lia.
Qed.

Lemma redis_ltrim_bounded l max : 0 < max → redis_ltrim l (- max) (-1) = bounded max l.
Proof.
  intros H. pose proof (len_nonneg l). unfold redis_ltrim, redis_index, bounded. cbn zeta.
  rewrite (proj2 (Z.ltb_lt (- max) 0)) by lia. rewrite (proj2 (Z.ltb_lt (-1) 0)) by lia.
  destruct (Z.leb_spec max 0); [lia|].
  replace (Z.to_nat (Z.max 0 (len l + - max))) with (Z.to_nat (len l - max)) by lia.
  apply take_ge. rewrite length_drop. unfold len in *. lia.
Qed.

Lemma put_list_lookup k k' l d :
  default [] (put_list k l d !! k') = if decide (k = k') then l else default [] (d !! k').
Proof.
  unfold put_list. case_decide as Hl; case_decide as Hk; subst.
  - by rewrite lookup_delete_eq.
  - by rewrite lookup_delete_ne.
  - by rewrite lookup_insert_eq.
  - by rewrite lookup_insert_ne.
Qed.

(** The commands of an append and of a replacement are on the key of the session. *)
Lemma write_cmds_key `{MC : MessageCodec} {W} (s : Store W) (del : bool) sid msgs k :
  k ≠ key sid →
  k ∉ cmd_key <$> (if del then [Del (key sid)] else []) ++
    push_all (key sid) msgs ++ bound_cmds s (key sid).
Proof.
  intros Hne (c & -> & Hc)%list_elem_of_fmap. apply Hne. clear Hne.
  apply elem_of_app in Hc as [Hc|[Hc|Hc]%elem_of_app].
  - destruct del; [by apply list_elem_of_singleton in Hc as ->|by apply not_elem_of_nil in Hc].
  - induction msgs as [|m msgs IH]; cbn in Hc; [by apply not_elem_of_nil in Hc|].
    destruct (json_Marshal m); [|by apply IH].
    apply elem_of_cons in Hc as [->|Hc]; [done|by apply IH].
  - unfold bound_cmds in Hc. apply elem_of_app in Hc as [Hc|Hc]; case_match;
      (by apply list_elem_of_singleton in Hc as ->) || by apply not_elem_of_nil in Hc.
Qed.

Section refinement.
Context `{CO : !CodecLaws MC} {W : Type}.

(** A stored item and the message it is. *)
Definition stores (raw : gostring) (m : TMessage) : Prop := json_Unmarshal raw = Ok m.

(** The Redis lists hold the sessions. *)
Definition holds (d : RedisData) (m : Sessions) : Prop :=
  ∀ sid, Forall2 stores (default [] (d !! key sid)) (mem_Get m sid).

Lemma decode_all_stores raw msgs : Forall2 stores raw msgs → decode_all raw = msgs.
Proof. induction 1 as [|r m raw msgs H _ IH]; [done|]. cbn. unfold stores in H. by rewrite H, IH. Qed.

(** Pushing messages appends items that store them to the list of the key. *)
Lemma push_all_data k msgs d :
  Forall valid_message msgs →
  ∃ items, Forall2 stores items msgs ∧
    ∀ k', default [] (foldl redis_step d (push_all k msgs) !! k') =
          default [] (d !! k') ++ (if decide (k = k') then items else []).
Proof.
  intros Hv. revert d. induction Hv as [|m msgs Hm _ IH]; intros d.
  - exists []. split; [constructor|]. intros k'. cbn.
    destruct (decide _); by rewrite app_nil_r.
  - destruct (codec_roundtrip m Hm) as (b & Hb & Hu). cbn [push_all]. rewrite Hb. cbn [foldl].
    destruct (IH (redis_step d (RPush k b))) as (items & Hi & Hd).
    exists (b :: items). split; [by constructor|]. intros k'. rewrite Hd. cbn [redis_step].
    rewrite put_list_lookup. case_decide; [subst; by rewrite <- app_assoc|done].
Qed.

Lemma bound_cmds_data (s : Store W) k d k' :
  default [] (foldl redis_step d (bound_cmds s k) !! k') =
  if decide (k = k') then bounded (MaxMessages s) (default [] (d !! k'))
  else default [] (d !! k').
Proof.
  unfold bound_cmds. rewrite foldl_app.
  assert (∀ d', foldl redis_step d' (if 0 <? TTL s then [Expire k (TTL s)] else []) = d') as ->
    by (intros; by destruct (0 <? TTL s)).
  destruct (Z.ltb_spec 0 (MaxMessages s)) as [Hp|Hn]; cbn [foldl redis_step].
  - rewrite put_list_lookup, redis_ltrim_bounded by done. case_decide; by subst.
  - unfold bounded. rewrite (proj2 (Z.leb_le _ _)) by lia. by destruct (decide _).
Qed.

Lemma bounded_stores max raw msgs :
  Forall2 stores raw msgs → Forall2 stores (bounded max raw) (bounded max msgs).
Proof.
  intros H. unfold bounded, len. rewrite (Forall2_length _ _ _ H).
  destruct (max <=? 0); [done|]. by apply Forall2_drop.
Qed.

(** The commands of an append, from lists that hold the sessions. *)
Lemma append_holds (s : Store W) sid msgs d m :
  Forall valid_message msgs → holds d m →
  holds (foldl redis_step d (push_all (key sid) msgs ++ bound_cmds s (key sid)))
        (mem_Append (MaxMessages s) sid msgs m).
Proof.
  intros Hv Hh sid'. rewrite foldl_app, bound_cmds_data.
  destruct (push_all_data (key sid) msgs d Hv) as (items & Hi & Hd). rewrite Hd.
  destruct (decide (sid = sid')) as [<-|Hne].
  - rewrite !decide_True by done. rewrite mem_Append_lookup.
    apply bounded_stores, Forall2_app; [apply Hh|done].
  - rewrite !decide_False by (by intros ?%key_inj). rewrite app_nil_r.
    unfold mem_Get. rewrite mem_Append_other by done. apply Hh.
Qed.

Lemma delete_holds sid d m : holds d m → holds (delete (key sid) d) (delete sid m).
Proof.
  intros Hh sid'. unfold mem_Get. destruct (decide (sid = sid')) as [<-|Hne].
  - rewrite !lookup_delete_eq. constructor.
  - rewrite !lookup_delete_ne by (done || by intros ?%key_inj). apply Hh.
Qed.
End refinement.

(** ** Properties *)

(** C27: a session is a window on its conversation: after an append, the store
    gives the last [MaxMessages] messages of what it had followed by the new ones,
    in order (everything when the bound is not positive), a replacement gives the
    last [MaxMessages] of the replacement, no session exceeds the bound, and no
    other session changes. *)
Theorem memory_window (max : Z) (sid : gostring) (msgs : list TMessage) (m : Sessions) :
  mem_Get (mem_Append max sid msgs m) sid = bounded max (mem_Get m sid ++ msgs) ∧
  mem_Get (mem_Replace max sid msgs m) sid = bounded max msgs ∧
  (∀ sid', sid ≠ sid' → mem_Get (mem_Append max sid msgs m) sid' = mem_Get m sid' ∧
                        mem_Get (mem_Replace max sid msgs m) sid' = mem_Get m sid') ∧
  (0 < max → (∀ sid', len (mem_Get m sid') ≤ max) →
     ∀ sid', len (mem_Get (mem_Append max sid msgs m) sid') ≤ max ∧
             len (mem_Get (mem_Replace max sid msgs m) sid') ≤ max).
Proof.
  assert (mem_Get (mem_Replace max sid msgs m) sid = bounded max msgs) as Hr.
  { rewrite mem_Replace_Append, mem_Append_lookup. unfold mem_Get. by rewrite lookup_delete_eq. }
  assert (∀ sid', sid ≠ sid' → mem_Get (mem_Append max sid msgs m) sid' = mem_Get m sid' ∧
            mem_Get (mem_Replace max sid msgs m) sid' = mem_Get m sid') as Ho.
  { intros sid' Hne. rewrite mem_Replace_Append. unfold mem_Get.
    rewrite !mem_Append_other by done. by rewrite lookup_delete_ne. }
  split_and!; [apply mem_Append_lookup|done|done|]. intros Hp Hb sid'.
  destruct (decide (sid = sid')) as [<-|Hne].
  - rewrite Hr, mem_Append_lookup. split; by apply bounded_len.
  - destruct (Ho sid' Hne) as [-> ->]. by split.
Qed.

(** C26: the Redis store implements the in-memory store: when the Redis lists hold the
    sessions, a read changes nothing and gives what the in-memory store gives, or
    nothing when LRANGE reports an error; an append or a replacement of valid messages
    whose pipeline succeeds makes the lists hold the sessions the in-memory operation
    gives, for every session; and one whose pipeline reports an error is not reported to
    the caller and leaves the lists of every other session as they were. *)
Theorem Redis_refines_memory `{CO : !CodecLaws MC} `{HS : HasSessions W} (s : Store W)
    (c : RedisClient W) (data : W → RedisData) (L : RedisLaws c data) (m : Sessions)
    (sid : gostring) (msgs : list TMessage) (w : W) :
  Redis s = Some c → Forall valid_message msgs → holds (data w) m →
  (∃ w' r, rc_LRangeAll c (key sid) w = (w', Done r) ∧ data w' = data w ∧
     Get s sid w = (w', Done (match r with Ok _ => mem_Get m sid | Err _ => [] end))) ∧
  (∀ w', appendRedis s c sid msgs w = (w', Done None) →
     holds (data w') (mem_Append (MaxMessages s) sid msgs m) ∧
     Append s sid msgs w = (w', Done tt)) ∧
  (∀ w', replaceRedis s c sid msgs w = (w', Done None) →
     holds (data w') (mem_Replace (MaxMessages s) sid msgs m) ∧
     Replace s sid msgs w = (w', Done tt)) ∧
  (∀ w' e, appendRedis s c sid msgs w = (w', Done (Some e)) →
     Append s sid msgs w = (w', Done tt) ∧
     ∀ sid', sid' ≠ sid → data w' !! key sid' = data w !! key sid') ∧
  (∀ w' e, replaceRedis s c sid msgs w = (w', Done (Some e)) →
     Replace s sid msgs w = (w', Done tt) ∧
     ∀ sid', sid' ≠ sid → data w' !! key sid' = data w !! key sid').
Proof.
  intros Hs Hv Hh. unfold Get, Append, Replace. rewrite Hs. split_and!.
  - unfold getRedis.
    destruct (redis_lrange (c := c) (data := data) (key sid) w) as (w' & r & E & Hd & Hr).
    rewrite (go_bind_eq _ _ _ _ _ E). exists w', r. split_and!; [done..|].
    destruct r as [l|e]; [|done]. pose proof (Hr l eq_refl) as ->.
    by rewrite (decode_all_stores _ _ (Hh sid)).
  - intros w' E. rewrite (go_bind_eq _ _ _ _ _ E). split; [|done]. unfold appendRedis in E.
    rewrite (redis_exec _ _ _ E). by apply append_holds.
  - intros w' E. rewrite (go_bind_eq _ _ _ _ _ E). split; [|done]. unfold replaceRedis in E.
    rewrite (redis_exec _ _ _ E). cbn [foldl redis_step]. rewrite mem_Replace_Append.
    by apply append_holds, delete_holds.
  - intros w' e E. rewrite (go_bind_eq _ _ _ _ _ E). split; [done|]. intros sid' Hne.
    apply (redis_exec_failed _ _ _ _ E). by apply (write_cmds_key s false); intros ?%key_inj.
  - intros w' e E. rewrite (go_bind_eq _ _ _ _ _ E). split; [done|]. intros sid' Hne.
    apply (redis_exec_failed _ _ _ _ E). by apply (write_cmds_key s true); intros ?%key_inj.
Qed.

(** ** Witness and concrete runs *)

(** A world with an in-memory map and the data of a server that runs every
    command. *)
Abbreviation sample_world := (Sessions * RedisData)%type.

#[local] Instance sample_sessions : HasSessions sample_world.
Proof. by refine {| sessions := fst; set_sessions := λ m w, (m, w.2) |}. Defined.

Definition local_redis : RedisClient sample_world :=
  {| rc_Get := λ _, mret (Ok None);
     rc_LRangeAll := λ k w, (w, Done (Ok (default [] (w.2 !! k))));
     rc_Exec := λ cmds w, ((w.1, foldl redis_step w.2 cmds), Done None) |}.

Lemma local_redis_laws : RedisLaws local_redis snd.
Proof.
  split; [intros k w; exists w, (Ok (default [] (w.2 !! k))); by split_and!; [..|intros l [= <-]]|..]; cbn;
    [by intros cmds w w' [= <-]|done].
Qed.

(** A server that cannot be reached. *)
Definition lost_redis : RedisClient sample_world :=
  {| rc_Get := λ _, mret (Err (ErrorString "timeout"));
     rc_LRangeAll := λ _, mret (Err (ErrorString "timeout"));
     rc_Exec := λ _, mret (Some (ErrorString "timeout")) |}.

Lemma lost_redis_laws : RedisLaws lost_redis snd.
Proof. split; [intros k w; by eexists w, _|done|]. by intros cmds w w' e [= <-]. Qed.

(** A codec through the countability of messages: any injective encoding will do. *)
#[local] Instance TToolCallFunction_countable : Countable TToolCallFunction :=
  inj_countable' (λ f, (tf_Name f, tf_Arguments f))
    (λ p, {| tf_Name := p.1; tf_Arguments := p.2 |}) (λ f, match f with Build_TToolCallFunction _ _ => eq_refl end).
#[local] Instance TToolCall_countable : Countable TToolCall :=
  inj_countable' (λ c, (tt_ID c, tt_Type c, tt_Function c))
    (λ p, {| tt_ID := p.1.1; tt_Type := p.1.2; tt_Function := p.2 |})
    (λ c, match c with Build_TToolCall _ _ _ => eq_refl end).
#[local] Instance TMessage_countable : Countable TMessage :=
  inj_countable' (λ m, (tm_Role m, tm_Content m, tm_ToolCalls m, tm_ToolCallID m))
    (λ p, {| tm_Role := p.1.1.1; tm_Content := p.1.1.2; tm_ToolCalls := p.1.2;
             tm_ToolCallID := p.2 |})
    (λ m, match m with Build_TMessage _ _ _ _ => eq_refl end).

Fixpoint pos_bytes (p : positive) : gostring :=
  match p with
  | xI p => x01 :: pos_bytes p
  | xO p => x00 :: pos_bytes p
  | xH => []
  end.

Fixpoint bytes_pos (s : gostring) : positive :=
  match s with
  | x01 :: s => xI (bytes_pos s)
  | _ :: s => xO (bytes_pos s)
  | [] => xH
  end.

Lemma bytes_pos_bytes p : bytes_pos (pos_bytes p) = p.
Proof. induction p as [p IH|p IH|]; cbn; by rewrite ?IH. Qed.

#[local] Instance sample_codec : MessageCodec :=
  {| json_Marshal := λ m, Ok (pos_bytes (encode m));
     json_Unmarshal := λ s, match decode (bytes_pos s) with
       | Some m => Ok m | None => Err (ErrorString "json: syntax error") end |}.

#[local] Instance sample_codec_laws : CodecLaws sample_codec.
Proof.
  split. intros m _. exists (pos_bytes (encode m)). split; [done|]. cbn.
  by rewrite bytes_pos_bytes, decode_encode.
Qed.

Definition say (r c : gostring) : TMessage :=
  {| tm_Role := r; tm_Content := c; tm_ToolCalls := []; tm_ToolCallID := [] |}.

Definition redis_store : Store sample_world :=
  {| Redis := Some local_redis; MaxMessages := 2; TTL := 1 |}.

(** A server that runs every command, and one that cannot be reached: a session it holds
    is read as empty, and an append is lost. *)
Lemma Redis_refines_memory_witness :
  let msgs := [say "user" "a"; say "assistant" "b"; say "user" "c"] in
  let lost := {| Redis := Some lost_redis; MaxMessages := 2; TTL := 0 |} in
  let w := ((∅, foldl redis_step ∅ (push_all (key "s") msgs)) : sample_world) in
  (∃ w', Get redis_store "s" (∅, ∅) = (w', Done (mem_Get ∅ "s")) ∧ w'.2 = ∅) ∧
  (∀ w', appendRedis redis_store local_redis "s" msgs (∅, ∅) = (w', Done None) →
     holds w'.2 (mem_Append 2 "s" msgs ∅) ∧ Append redis_store "s" msgs (∅, ∅) = (w', Done tt)) ∧
  (∀ w', replaceRedis redis_store local_redis "s" msgs (∅, ∅) = (w', Done None) →
     holds w'.2 (mem_Replace 2 "s" msgs ∅) ∧ Replace redis_store "s" msgs (∅, ∅) = (w', Done tt)) ∧
  mem_Get {[ "s" := msgs ]} "s" = msgs ∧ Get lost "s" w = (w, Done []) ∧
  Append lost "s" msgs w = (w, Done tt).
Proof.
  intros msgs lost w. assert (Forall valid_message msgs) as Hv by repeat constructor.
  destruct (Redis_refines_memory redis_store local_redis snd local_redis_laws ∅ "s" msgs (∅, ∅))
    as ((w1 & r & Er & Hd & Hg) & Ha & Hr & _); [reflexivity|exact Hv|intros sid; constructor|].
  split_and!; [|exact Ha|exact Hr|reflexivity|..].
  - exists w1. split; [|exact Hd]. rewrite Hg. by destruct r.
  - assert (holds w.2 {[ "s" := msgs ]}) as Hh.
    { intros sid. unfold mem_Get. destruct (decide (sid = "s")) as [->|Hne].
      - rewrite lookup_singleton_eq.
        destruct (push_all_data (key "s") msgs ∅ Hv) as (items & Hi & H). unfold w. cbn [snd].
        by rewrite H, decide_True.
      - rewrite lookup_singleton_ne by done.
        destruct (push_all_data (key "s") msgs ∅ Hv) as (items & Hi & H). unfold w. cbn [snd].
        rewrite H, decide_False by (by intros ?%key_inj). constructor. }
    destruct (Redis_refines_memory lost lost_redis snd lost_redis_laws {[ "s" := msgs ]} "s" msgs w)
      as ((w2 & r2 & Er2 & _ & Hg2) & _); [reflexivity|exact Hv|exact Hh|].
    cbn in Er2. injection Er2 as <- <-. exact Hg2.
  - reflexivity.
Defined.

Lemma memory_window_witness :
  mem_Get (mem_Append 2 "s" [say "user" "a"] ∅) "s" = bounded 2 [say "user" "a"] ∧
  ∀ sid', len (mem_Get (mem_Append 2 "s" [say "user" "a"] ∅) sid') ≤ 2 ∧
          len (mem_Get (mem_Replace 2 "s" [say "user" "a"] ∅) sid') ≤ 2.
Proof.
  destruct (memory_window 2 "s" [say "user" "a"] ∅) as (Ha & _ & _ & Hb).
  split; [exact Ha|]. apply Hb; [reflexivity|]. intros sid'. vm_compute. discriminate.
Defined.

(** Trimming cuts a round in two: the oldest message kept answers a call that is
    gone, and the history given to the model has an orphan tool result. *)
Example trimmed_orphan :
  let call := {| tm_Role := "assistant"; tm_Content := [];
    tm_ToolCalls := [{| tt_ID := "1"; tt_Type := "function";
      tt_Function := {| tf_Name := "f"; tf_Arguments := "{}" |} |}]; tm_ToolCallID := [] |} in
  let answer := {| tm_Role := "tool"; tm_Content := "ok"; tm_ToolCalls := [];
    tm_ToolCallID := "1" |} in
  let turn := [say "user" "q"; call; answer; say "assistant" "a"] in
  no_orphans (MessagesFromTypes (mem_Get (mem_Append 4 "s" turn ∅) "s")) = true ∧
  no_orphans (MessagesFromTypes
    (mem_Get (mem_Append 4 "s" [say "user" "next"; say "assistant" "b"]
      (mem_Append 4 "s" turn ∅)) "s")) = false.
Proof. vm_compute. split; reflexivity. Qed.
