(* ===== verification/Pg.v ===== *)
(** * PostgreSQL memory and the side query

    The connection pool and its transactions as interfaces; the two tenant-wide reads
    of [src/internal/integration/pg/memory_store.go] (the rest of the store is in
    [PgStore]) and [src/internal/adapter/memory/sidequery.go]: the long-term memories
    recalled before a turn.  What the SQL of the two reads returns is stated as laws on
    the table. *)

From S2P Require Import Prelude GoString Identity Tools Memory.
Open Scope Z_scope.

(** ** Data *)

(** [types.MemoryRecord]. *)
Record MemoryRecord := {
  mr_ID : Z;
  mr_SessionID : gostring;
  mr_UserID : gostring;
  mr_AgentID : gostring;
  mr_Category : gostring;
  mr_Key : gostring;
  mr_Content : gostring;
  mr_CreatedAt : Time;
}.

Inductive PgArg :=
| ArgText (s : gostring)
| ArgInt (z : Z).

(** [pgx.Tx]: the statements of a transaction. *)
Record Tx (W : Type) := {
  tx_Exec : gostring → list PgArg → Go W (option goerror);
  tx_Commit : Go W (option goerror);
  tx_Rollback : Go W (option goerror);
}.
Arguments tx_Exec {_} _ _ _.
Arguments tx_Commit {_} _.
Arguments tx_Rollback {_} _.

(** [pgxpool.Pool].  A query comes with its rows scanned, into records, into one text
    column or into pairs of texts; any error of the query, of a scan or of the
    iteration is the error of the call, except that the pairs scanned before the
    iteration failed are returned with its error. *)
Record Pool (W : Type) := {
  pool_Query : gostring → list PgArg → Go W (result (list MemoryRecord));
  pool_QueryText : gostring → list PgArg → Go W (result (list gostring));
  pool_QueryPairs : gostring →
    Go W (result (list (gostring * gostring) * option goerror));
  pool_Exec : gostring → list PgArg → Go W (option goerror);
  pool_Begin : Go W (result (Tx W));
}.
Arguments pool_Query {_} _ _ _.
Arguments pool_QueryText {_} _ _ _.
Arguments pool_QueryPairs {_} _ _.
Arguments pool_Exec {_} _ _ _.
Arguments pool_Begin {_} _.

(** [MemoryStore]: the pool may be nil, and so may the store. *)
Record MemoryStore (W : Type) := { ms_pool : option (Pool W) }.
Arguments ms_pool {_} _.

(** ** The tenant-wide reads *)

Definition not_initialized : goerror := ErrorString "pg memory store not initialized".

Definition sql_recent : gostring :=
  [x0a] ++ "SELECT id, session_id, user_id, agent_id, category, key, content, created_at" ++ [x0a] ++
  "FROM overseer_memories" ++ [x0a] ++
  "WHERE user_id = $1 AND agent_id = $2" ++ [x0a] ++
  "ORDER BY created_at DESC" ++ [x0a] ++
  "LIMIT $3" ++ [x0a].

Definition sql_match : gostring :=
  [x0a] ++ "SELECT id, session_id, user_id, agent_id, category, key, content, created_at" ++ [x0a] ++
  "FROM overseer_memories" ++ [x0a] ++
  "WHERE user_id = $1 AND agent_id = $2" ++ [x0a] ++
  "  AND (key = $3 OR content ILIKE '%' || $3 || '%')" ++ [x0a] ++
  "ORDER BY created_at DESC" ++ [x0a] ++
  "LIMIT $4" ++ [x0a].

(** [limit <= 0 || limit > 50] falls back to a default. *)
Definition clamp_limit (dflt limit : Z) : Z :=
  if (limit <=? 0) || (50 <? limit) then dflt else limit.

Section reads.
Context {W : Type}.

(** The receiver may be nil. *)
Definition pool_of (s : option (MemoryStore W)) : option (Pool W) :=
  match s with None => None | Some s => ms_pool s end.

Definition ListRecentForTenant (s : option (MemoryStore W)) (userID agentID : gostring)
    (limit : Z) : Go W (result (list MemoryRecord)) :=
  match pool_of s with
  | None => mret (Err not_initialized)
  | Some pool =>
      let limit := clamp_limit 15 limit in
      pool_Query pool sql_recent [ArgText userID; ArgText agentID; ArgInt limit]
  end.

Definition ReadForTenant (s : option (MemoryStore W)) (userID agentID query : gostring)
    (limit : Z) : Go W (result (list MemoryRecord)) :=
  match pool_of s with
  | None => mret (Err not_initialized)
  | Some pool =>
      let limit := clamp_limit 10 limit in
      pool_Query pool sql_match
        [ArgText userID; ArgText agentID; ArgText query; ArgInt limit]
  end.
End reads.

(** ** The side query *)

(** [SideQuery]; its fields. *)
Record SideQuery (W : Type) := {
  sq_PG : option (MemoryStore W);
  sq_SessionID : gostring;
  RecentExtra : Z;
}.
Arguments sq_PG {_} _.
Arguments sq_SessionID {_} _.
Arguments RecentExtra {_} _.

Definition to_record (r : MemoryRecord) : MemRecord :=
  {| r_ID := FormatInt (mr_ID r); r_Category := mr_Category r; r_Key := mr_Key r;
     r_Content := mr_Content r; r_Metadata := None; r_CreatedAt := mr_CreatedAt r;
     r_UpdatedAt := 0 |}.

(** [byID], filled by a list of rows: a later row replaces one of the same id. *)
Definition add_rows (m : gmap Z MemoryRecord) (rows : list MemoryRecord) : gmap Z MemoryRecord :=
  foldl (λ m r, <[mr_ID r := r]> m) m rows.

Section side_query.
Context `{SS : SortSlice} {W : Type} `{MO : MapOrder W}.

(** The rows of the map, newest first, cut at the limit. *)
Definition newest_rows (limit : Z) (byID : gmap Z MemoryRecord) (w : W) : list MemoryRecord :=
  let merged := sort_key (λ r, - mr_CreatedAt r) (map_order w (map_to_list byID).*2) in
  if limit <? len merged then take (Z.to_nat limit) merged else merged.

(** [SelectForTurn].  The receiver is a pointer: reading [PG] of a nil one panics. *)
Definition SelectForTurn (s : option (SideQuery W)) : SideQuerySelector W :=
  λ scope query _ limit,
  match s with
  | None => go_panic "invalid memory address or nil pointer dereference"
  | Some s =>
      match sq_PG s with
      | None => mret (Ok [])
      | Some pg =>
          let limit := if limit <=? 0 then 5 else limit in
          let recentN := if RecentExtra s <=? 0 then 12 else RecentExtra s in
          let q := TrimSpace query in
          go_try (if decide (q = []) then mret (Ok ∅)
                  else go_try (ReadForTenant (Some pg) (UserID scope) (AgentID scope) q (limit + 8))
                         (λ rows, mret (Ok (add_rows ∅ rows)))) (λ byID,
          go_try (ListRecentForTenant (Some pg) (UserID scope) (AgentID scope) recentN) (λ recent,
          merged ← go_gets (newest_rows limit (add_rows byID recent));
          mret (Ok (to_record <$> merged))))
      end
  end.
End side_query.

(** ** The table behind the pool *)

Definition of_tenant (u a : gostring) (r : MemoryRecord) : bool :=
  bool_decide (mr_UserID r = u) && bool_decide (mr_AgentID r = a).

Definition newer (x y : MemoryRecord) : Prop := mr_CreatedAt y ≤ mr_CreatedAt x.

(** [rows] is a result of [SELECT ... WHERE P ORDER BY created_at DESC LIMIT n]. *)
Definition newest (n : Z) (P : MemoryRecord → bool) (tbl rows : list MemoryRecord) : Prop :=
  ∃ l, l ≡ₚ filter (λ r, P r = true) tbl ∧ StronglySorted newer l ∧ rows = take (Z.to_nat n) l.

(** The two queries read the table and leave it as it is; [like] is [ILIKE] between
    percent signs. *)
Class PoolLaws {W} (pool : Pool W) (table : W → list MemoryRecord)
    (like : gostring → gostring → bool) : Prop := {
  query_recent u a n w w' rows :
    pool_Query pool sql_recent [ArgText u; ArgText a; ArgInt n] w = (w', Done (Ok rows)) →
    newest n (of_tenant u a) (table w) rows ∧ table w' = table w;
  query_match u a q n w w' rows :
    pool_Query pool sql_match [ArgText u; ArgText a; ArgText q; ArgInt n] w =
      (w', Done (Ok rows)) →
    newest n (λ r, of_tenant u a r && (bool_decide (mr_Key r = q) || like (mr_Content r) q))
      (table w) rows ∧ table w' = table w;
}.

(** ** Lemmas *)

Lemma newest_subset n P tbl rows r :
  newest n P tbl rows → r ∈ rows → r ∈ tbl ∧ P r = true.
Proof.
  intros (l & Hl & _ & ->) Hin. apply elem_of_take in Hin as (i & Hi & _).
  apply list_elem_of_lookup_2 in Hi. rewrite Hl in Hi. apply list_elem_of_filter in Hi. tauto.
Qed.

(** A map from ids to rows of a table with unique ids. *)
Definition by_id (tbl : list MemoryRecord) (m : gmap Z MemoryRecord) : Prop :=
  ∀ i r, m !! i = Some r → r ∈ tbl ∧ mr_ID r = i.

Lemma unique_id tbl r r' :
  NoDup (mr_ID <$> tbl) → r ∈ tbl → r' ∈ tbl → mr_ID r = mr_ID r' → r = r'.
Proof.
  intros Hnd [i Hi]%list_elem_of_lookup [j Hj]%list_elem_of_lookup He.
  assert (i = j) as <-; [|by simplify_eq].
  eapply NoDup_lookup; [done|rewrite list_lookup_fmap, Hi; done|].
  rewrite list_lookup_fmap, Hj. cbn. by rewrite He.
Qed.

Lemma add_rows_spec tbl m rows :
  NoDup (mr_ID <$> tbl) → by_id tbl m → (∀ r, r ∈ rows → r ∈ tbl) →
  by_id tbl (add_rows m rows) ∧
  ∀ r, add_rows m rows !! mr_ID r = Some r ↔ r ∈ rows ∨ m !! mr_ID r = Some r.
Proof.
  intros Hnd. revert m. induction rows as [|x rows IH]; intros m Hm Hin; cbn.
  { split; [done|]. intros r. rewrite elem_of_nil. tauto. }
  destruct (IH (<[mr_ID x := x]> m)) as [Hb Hs].
  - intros i r [[<- <-]|[_ H]]%lookup_insert_Some; [|by apply Hm]. split; [apply Hin; left|done].
  - intros r Hr. apply Hin. by right.
  - split; [done|]. intros r. unfold add_rows in Hs. rewrite Hs, elem_of_cons, lookup_insert_Some.
    split; [naive_solver|]. intros [[->|H]|H]; [naive_solver..|]. right.
    destruct (decide (mr_ID x = mr_ID r)) as [He|]; [|by right]. left. split; [done|].
    apply (unique_id tbl); [done|apply Hin; left| |done]. by apply Hm in H as [? _].
Qed.

(** The rows of such a map, each once. *)
Lemma map_rows tbl m :
  by_id tbl m →
  NoDup (map_to_list m).*2 ∧ ∀ r, r ∈ (map_to_list m).*2 ↔ m !! mr_ID r = Some r.
Proof.
  intros Hm. split.
  - apply NoDup_fmap_2_strong; [|apply NoDup_map_to_list].
    intros [i r] [j r'] Hi%elem_of_map_to_list Hj%elem_of_map_to_list He. cbn in He. subst r'.
    apply Hm in Hi as [_ <-], Hj as [_ <-]. done.
  - intros r. rewrite list_elem_of_fmap. split.
    + intros ([i r'] & -> & Hi%elem_of_map_to_list). cbn. pose proof (Hm _ _ Hi) as [_ ->]. done.
    + intros H. exists (mr_ID r, r). split; [done|]. by apply elem_of_map_to_list.
Qed.

Lemma StronglySorted_filter {A} (R : A → A → Prop) (P : A → Prop) `{∀ x, Decision (P x)} l :
  StronglySorted R l → StronglySorted R (filter P l).
Proof.
  induction 1 as [|x l _ IH Hx]; [constructor|]. rewrite filter_cons. case_decide; [|done].
  constructor; [done|]. rewrite Forall_forall in *. intros y [_ Hy]%list_elem_of_filter. auto.
Qed.

#[local] Instance MemoryRecord_eq_decision : EqDecision MemoryRecord.
Proof. solve_decision. Defined.

Lemma NoDup_take {A} n (l : list A) : NoDup l → NoDup (take n l).
Proof. rewrite <- (take_drop n l) at 1. by intros [? _]%NoDup_app. Qed.

Lemma drop_no_take {A} n (l : list A) x : x ∈ l → x ∉ take n l → x ∈ drop n l.
Proof. rewrite <- (take_drop n l) at 1. intros [?|?]%elem_of_app; done. Qed.

Section recall.
Context (l M : list MemoryRecord) (n k : nat).
Context (Hl : StronglySorted newer l) (Hnd : NoDup l).
Context (HM : StronglySorted newer M) (HMnd : NoDup M).
Context (Hsub : ∀ r, r ∈ M → r ∈ l) (Hsup : ∀ r, r ∈ take n l → r ∈ M) (Hk : (k ≤ n)%nat).

(** When [M] has the first [n] rows of [l], its first [k] rows are not older than any
    other row of [l]: none of the [n] is. *)
Lemma recalled_newer x y : x ∈ take k M → y ∈ l → y ∉ take k M → newer x y.
Proof.
  intros Hx Hy Hn. rewrite <- (take_drop k M) in HM. apply StronglySorted_app in HM as (HMs & _ & _).
  destruct (decide (y ∈ M)) as [HyM|HyM]; [by apply HMs, drop_no_take|].
  assert (y ∈ drop n l) as Hyd by (apply drop_no_take; auto).
  rewrite <- (take_drop n l) in Hl. apply StronglySorted_app in Hl as (Hls & _ & _).
  destruct (decide (Forall (λ z, z ∈ take k M) (take n l))) as [Hin|Hout].
  - apply Hls; [|done]. rewrite Forall_forall in Hin.
    assert (take n l ≡ₚ take k M) as ->; [|done]. apply submseteq_length_Permutation.
    + by apply NoDup_submseteq; [apply NoDup_take|].
    + destruct (le_lt_dec (length l) n) as [Hle|Hlt]; [by rewrite drop_ge, elem_of_nil in Hyd|].
      rewrite !length_take. lia.
  - apply not_Forall_Exists in Hout; [|apply _]. apply Exists_exists in Hout as (z & Hz & Hzk).
    assert (newer x z) as Hxz by (apply HMs; [done|]; by apply drop_no_take; auto).
    pose proof (Hls z y Hz Hyd). unfold newer in *. lia.
Qed.

(** So they are [k] newest rows of [l], in some order of the rows of one instant. *)
Lemma recalled_newest : ∃ l', l' ≡ₚ l ∧ StronglySorted newer l' ∧ take k M = take k l'.
Proof.
  exists (take k M ++ filter (λ r, r ∉ take k M) l).
  assert (∀ r, r ∈ take k M → r ∈ l) as Hin by (intros r (i & Hi & _)%elem_of_take; eauto using list_elem_of_lookup_2).
  split_and!.
  - apply NoDup_Permutation; [|done|].
    + apply NoDup_app. split_and!; [by apply NoDup_take| |by apply NoDup_filter].
      by intros r Hr [? _]%list_elem_of_filter.
    + intros r. rewrite elem_of_app, list_elem_of_filter. split; [naive_solver|].
      intros Hr. destruct (decide (r ∈ take k M)); auto.
  - apply StronglySorted_app. split_and!.
    + intros x y Hx [Hy Hyl]%list_elem_of_filter. by apply recalled_newer.
    + rewrite <- (take_drop k M) in HM. by apply StronglySorted_app in HM as (_ & ? & _).
    + by apply StronglySorted_filter.
  - destruct (le_lt_dec k (length M)) as [Hle|Hlt].
    + rewrite take_app_le by (rewrite length_take; lia). by rewrite take_take, Nat.min_id.
    + rewrite !(take_ge M) by lia.
      assert (filter (λ r, r ∉ M) l = []) as ->; [|by rewrite app_nil_r, take_ge by lia].
      assert (length (take n l) ≤ length M)%nat as Hlen.
      { apply submseteq_length, NoDup_submseteq; [by apply NoDup_take|done]. }
      rewrite length_take in Hlen. rewrite take_ge in Hsup by lia.
      apply elem_of_nil_inv. intros r [Hr ?]%list_elem_of_filter. by apply Hr, Hsup.
Qed.
End recall.

Lemma sort_newer `{SS : SortSlice} (l : list MemoryRecord) :
  StronglySorted newer (sort_key (λ r, - mr_CreatedAt r) l).
Proof.
  pose proof (sort_key_Sorted (λ r, - mr_CreatedAt r) l) as H.
  induction H as [|x k _ IH Hx]; constructor; [done|].
  eapply Forall_impl; [exact Hx|]. unfold newer. cbn. lia.
Qed.

(** ** Properties *)

(** The limits the side query ends up with. *)
Definition recall_limit (limit : Z) : Z := if limit <=? 0 then 5 else limit.
Definition recent_limit {W} (s : SideQuery W) : Z :=
  clamp_limit 15 (if RecentExtra s <=? 0 then 12 else RecentExtra s).

(** C37: the side query recalls the newest memories of the tenant, whatever the query:
    when the rows of the table have distinct ids (the primary key) and the recall limit
    (5 for a turn) does not exceed the number of recent rows read (12 by default), what is
    recalled is [limit] newest rows of the tenant (all, when there are fewer): no row
    that is left out is newer than one that is recalled, so a keyword match can at most
    decide between rows of the same creation time; and the table is left as it is. *)
Theorem SelectForTurn_newest `{SS : SortSlice} `{MO : MapOrder W} (s : SideQuery W)
    (pg : MemoryStore W) (pool : Pool W) (table : W → list MemoryRecord)
    (like : gostring → gostring → bool) (L : PoolLaws pool table like)
    (scope : TenantScope) (query : gostring) (names : list gostring) (limit : Z)
    (w w' : W) (recs : list MemRecord) :
  sq_PG s = Some pg → ms_pool pg = Some pool →
  NoDup (mr_ID <$> table w) →
  recall_limit limit ≤ recent_limit s →
  SelectForTurn (Some s) scope query names limit w = (w', Done (Ok recs)) →
  table w' = table w ∧
  ∃ rows, newest (recall_limit limit) (of_tenant (UserID scope) (AgentID scope)) (table w) rows ∧
    recs = to_record <$> rows.
Proof.
  intros Hpg Hpool Hid Hlim E. unfold SelectForTurn in E. rewrite Hpg in E.
  apply go_try_Ok in E as (w1 & byID & E1 & E). apply go_try_Ok in E as (w2 & recent & E2 & E).
  apply go_bind_Done in E as (w3 & merged & [= <- <-] & E). apply go_ret_Done in E as [-> [= ->]].
  assert (table w1 = table w ∧ by_id (table w) byID ∧ ∀ i r, byID !! i = Some r →
            of_tenant (UserID scope) (AgentID scope) r = true) as (Ht1 & Hb & Htn).
  { case_decide; [by apply go_ret_Done in E1 as [-> [= ->]]|].
    apply go_try_Ok in E1 as (w4 & rows & E1 & E3). apply go_ret_Done in E3 as [-> [= ->]].
    unfold ReadForTenant, pool_of in E1. rewrite Hpool in E1. apply query_match in E1 as [Hn Ht].
    destruct (add_rows_spec (table w) ∅ rows) as [Hb Hs]; [done|done| |].
    { intros r Hr. by eapply newest_subset in Hr as [? _]. }
    split_and!; [done|done|]. intros i r Hi. pose proof (Hb _ _ Hi) as [_ <-].
    apply Hs in Hi as [Hi|Hi]; [|done]. eapply newest_subset in Hi as [_ Hi]; [|done].
    by apply andb_true_iff in Hi as [? _]. }
  unfold ListRecentForTenant, pool_of in E2. rewrite Hpool in E2.
  apply query_recent in E2 as [(l & Hl & Hsort & ->) Ht2]. rewrite Ht1 in Hl, Ht2.
  split; [done|]. eexists. split; [|done].
  destruct (add_rows_spec (table w) byID (take (Z.to_nat (recent_limit s)) l)) as [Hb' Hs];
    [done|done| |].
  { intros r (i & Hi & _)%elem_of_take. apply list_elem_of_lookup_2 in Hi.
    rewrite Hl in Hi. by apply list_elem_of_filter in Hi as [_ ?]. }
  destruct (map_rows _ _ Hb') as [Hnd Hrows].
  fold (recall_limit limit). fold (recent_limit s). unfold newest_rows.
  set (M := sort_key _ _).
  assert (M ≡ₚ (map_to_list (add_rows byID (take (Z.to_nat (recent_limit s)) l))).*2) as HM
    by (unfold M; by rewrite sort_key_Permutation, map_order_Permutation).
  destruct (recalled_newest l M (Z.to_nat (recent_limit s)) (Z.to_nat (recall_limit limit)))
    as (l' & Hl' & Hsort' & Htake); [done| |apply sort_newer|by rewrite HM| | |lia|].
  - rewrite Hl. by apply NoDup_filter, (NoDup_fmap_1 mr_ID).
  - intros r Hr. rewrite HM, Hrows, Hs in Hr. rewrite Hl. apply list_elem_of_filter.
    destruct Hr as [(i & Hi & _)%elem_of_take|Hr].
    + apply list_elem_of_lookup_2 in Hi. rewrite Hl in Hi. by apply list_elem_of_filter in Hi.
    + split; [by eapply Htn|]. by apply Hb in Hr as [? _].
  - intros r Hr. rewrite HM, Hrows, Hs. by left.
  - exists l'. split_and!; [by rewrite Hl', Hl|done|]. rewrite <- Htake.
    destruct (Z.ltb_spec (recall_limit limit) (len M)); [done|].
    rewrite take_ge; [done|]. unfold len in *. lia.
Qed.

(** A side query that is a nil pointer in a non-nil interface panics, before it
    reads anything; with a side query but no store nothing is recalled. *)
Lemma SelectForTurn_nil `{SS : SortSlice} `{MO : MapOrder W} (scope : TenantScope)
    (query : gostring) (names : list gostring) (limit : Z) (w : W) :
  SelectForTurn None scope query names limit w =
  (w, Panicked "invalid memory address or nil pointer dereference") ∧
  ∀ s, sq_PG s = None → SelectForTurn (Some s) scope query names limit w = (w, Done (Ok [])).
Proof. split; [done|]. intros s H. unfold SelectForTurn. by rewrite H. Qed.

(** ** Witness *)

#[local] Existing Instance merge_SortSlice.

#[local] Instance newer_dec : RelDecision newer.
Proof. intros x y. unfold newer. apply _. Defined.
#[local] Instance newer_total : Total newer.
Proof. intros x y. unfold newer. lia. Qed.
#[local] Instance newer_trans : Transitive newer.
Proof. intros x y z. unfold newer. lia. Qed.

(** A pool over a table, with substring search as [ILIKE]. *)
Definition select (n : Z) (P : MemoryRecord → bool) (tbl : list MemoryRecord) : list MemoryRecord :=
  take (Z.to_nat n) (merge_sort newer (filter (λ r, P r = true) tbl)).

Definition table_pool : Pool (list MemoryRecord) :=
  {| pool_Query := λ sql args w, (w, Done (match args with
       | [ArgText u; ArgText a; ArgInt n] => Ok (select n (of_tenant u a) w)
       | [ArgText u; ArgText a; ArgText q; ArgInt n] =>
           Ok (select n (λ r, of_tenant u a r &&
             (bool_decide (mr_Key r = q) || Contains (mr_Content r) q)) w)
       | _ => Err (ErrorString "pg")
       end));
     pool_QueryText := λ _ _, mret (Err (ErrorString "pg"));
     pool_QueryPairs := λ _, mret (Err (ErrorString "pg"));
     pool_Exec := λ _ _, mret (Some (ErrorString "pg"));
     pool_Begin := mret (Err (ErrorString "pg")) |}.

Lemma select_newest n P tbl : newest n P tbl (select n P tbl).
Proof.
  exists (merge_sort newer (filter (λ r, P r = true) tbl)).
  split_and!; [apply merge_sort_Permutation| |done].
  apply Sorted_StronglySorted; [apply _|]. apply (Sorted_merge_sort newer).
Qed.

Lemma table_pool_laws : PoolLaws table_pool id Contains.
Proof. split; intros; simplify_eq/=; split; try done; apply select_newest. Qed.

Definition row (id : Z) (k c : gostring) : MemoryRecord :=
  {| mr_ID := id; mr_SessionID := "s"; mr_UserID := "u"; mr_AgentID := "a";
     mr_Category := "user"; mr_Key := k; mr_Content := c; mr_CreatedAt := id |}.

(** Six rows; the oldest is the only one that matches the query. *)
Definition six_rows : list MemoryRecord :=
  [row 1 "name" "Ada"; row 2 "k2" "x"; row 3 "k3" "x"; row 4 "k4" "x"; row 5 "k5" "x";
   row 6 "k6" "x"].

Definition sample_side_query : SideQuery (list MemoryRecord) :=
  {| sq_PG := Some {| ms_pool := Some table_pool |}; sq_SessionID := "s"; RecentExtra := 0 |}.

Lemma SelectForTurn_newest_witness :
  ∃ recs, SelectForTurn (Some sample_side_query) sample_scope "name" [] 5 six_rows =
            (six_rows, Done (Ok recs)) ∧
  six_rows = six_rows ∧
  ∃ rows, newest (recall_limit 5) (of_tenant "u" "a") six_rows rows ∧ recs = to_record <$> rows.
Proof.
  refine (ex_intro _ _ (conj _ (SelectForTurn_newest sample_side_query
    {| ms_pool := Some table_pool |} table_pool id Contains table_pool_laws sample_scope "name"
    [] 5 six_rows six_rows _ eq_refl eq_refl _ _ _))).
  - vm_compute. reflexivity.
  - refine (bool_decide_unpack _ _). exact I.
  - vm_compute. done.
  - vm_compute. reflexivity.
Defined.

(** The only memory named [name] is not recalled for the query [name]. *)
Example keyword_not_recalled :
  r_Key <$> match (SelectForTurn (Some sample_side_query) sample_scope "name" [] 5 six_rows).2 with
            | Done (Ok recs) => recs | _ => [] end = ["k6"; "k5"; "k4"; "k3"; "k2"].
Proof. vm_compute. reflexivity. Qed.

(** Sixteen rows of one instant, as a consolidation leaves them: the match decides which
    of them are recalled. *)
Example keyword_breaks_tie :
  let tied := (λ i : nat, {| mr_ID := Z.of_nat i; mr_SessionID := "s"; mr_UserID := "u";
    mr_AgentID := "a"; mr_Category := "user"; mr_Key := if Z.of_nat i =? 16 then "name" else "k";
    mr_Content := "x"; mr_CreatedAt := 0 |}) <$> seq 1 16 in
  let recalled q := r_Key <$> match (SelectForTurn (Some sample_side_query) sample_scope q [] 5 tied).2 with
            | Done (Ok recs) => recs | _ => [] end in
  "name" ∈ recalled "name" ∧ "name" ∉ recalled "other".
Proof. split; refine (bool_decide_unpack _ _); vm_compute; exact I. Qed.
