(* ===== verification/Usage.v ===== *)
(** * Package [usage]: who a model call is accounted to

    [src/internal/usage], [src/internal/llm/context_model.go] and
    [src/internal/integration/pg/token_usage_store.go]: the values a call finds in its
    context (attribution and model override), the ledger row of a call, and the
    store that appends it in the background. *)

From S2P Require Import Prelude GoString Identity Memory Env Pg.
Open Scope Z_scope.

(** ** The context of a call *)

(** [usage.Attribution]. *)
Record Attribution := {
  at_UserID : gostring;
  at_AgentID : gostring;
  at_OperatorRole : gostring;
  at_SessionID : gostring;
  at_RequestID : gostring;
}.

(** The values a call finds in its [context.Context]: the usage attribution and the
    model of the connection. *)
Record ChatCtx := {
  ctx_Attribution : option Attribution;
  ctx_ChatModel : option gostring;
}.

(** [llm.ContextWithChatModel]. *)
Definition ContextWithChatModel (c : ChatCtx) (model : gostring) : ChatCtx :=
  let m := TrimSpace model in
  if decide (m = []) then c
  else {| ctx_Attribution := ctx_Attribution c; ctx_ChatModel := Some m |}.

(** [usage.WithAttribution]. *)
Definition WithAttribution (c : ChatCtx) (a : Attribution) : ChatCtx :=
  {| ctx_Attribution := Some a; ctx_ChatModel := ctx_ChatModel c |}.

(** [llm.chatModelFromContext]; a missing value reads as the empty string. *)
Definition chatModelFromContext (c : ChatCtx) : gostring :=
  TrimSpace (default [] (ctx_ChatModel c)).

(** [usage.FromContext]; callers ignore the boolean, so a missing attribution is the
    zero value. *)
Definition zero_attribution : Attribution :=
  {| at_UserID := []; at_AgentID := []; at_OperatorRole := []; at_SessionID := [];
     at_RequestID := [] |}.
Definition FromContext (c : ChatCtx) : Attribution * bool :=
  match ctx_Attribution c with
  | Some a => (a, true)
  | None => (zero_attribution, false)
  end.

(** ** The ledger *)

Record Row := {
  rw_UserID : gostring;
  rw_AgentID : gostring;
  rw_OperatorRole : gostring;
  rw_SessionID : gostring;
  rw_RequestID : gostring;
  rw_Model : gostring;
  rw_Channel : gostring;
  rw_PromptTokens : Z;
  rw_CompletionTokens : Z;
  rw_TotalTokens : Z;
  rw_ProviderRequestID : gostring;
}.

#[global] Instance Row_eq_decision : EqDecision Row.
Proof. solve_decision. Defined.

(** [AsyncRecorder]: the call returns at once. *)
Definition AsyncRecorder (W : Type) : Type := (Row → W → W).

(** [TokenUsageStore]: the pool may be nil, and so may the store. *)
Record TokenUsageStore (W : Type) := { tu_pool : option (Pool W) }.
Arguments tu_pool {_} _.

Definition NewTokenUsageStore {W} (pool : option (Pool W)) : option (TokenUsageStore W) :=
  match pool with
  | None => None
  | Some _ => Some {| tu_pool := pool |}
  end.

Definition sql_usage_ddl : gostring :=
  [x0a] ++ "CREATE TABLE IF NOT EXISTS overseer_token_usage (" ++ [x0a] ++
  "  id BIGSERIAL PRIMARY KEY," ++ [x0a] ++
  "  created_at TIMESTAMPTZ NOT NULL DEFAULT now()," ++ [x0a] ++
  "  user_id TEXT NOT NULL DEFAULT ''," ++ [x0a] ++
  "  agent_id TEXT NOT NULL DEFAULT ''," ++ [x0a] ++
  "  operator_role TEXT NOT NULL DEFAULT ''," ++ [x0a] ++
  "  session_id TEXT NOT NULL DEFAULT ''," ++ [x0a] ++
  "  request_id TEXT NOT NULL DEFAULT ''," ++ [x0a] ++
  "  model TEXT NOT NULL," ++ [x0a] ++
  "  channel TEXT NOT NULL," ++ [x0a] ++
  "  prompt_tokens INT NOT NULL DEFAULT 0," ++ [x0a] ++
  "  completion_tokens INT NOT NULL DEFAULT 0," ++ [x0a] ++
  "  total_tokens INT NOT NULL DEFAULT 0," ++ [x0a] ++
  "  provider_request_id TEXT NOT NULL DEFAULT ''" ++ [x0a] ++
  ");" ++ [x0a] ++
  "CREATE INDEX IF NOT EXISTS idx_overseer_token_usage_created ON overseer_token_usage(created_at DESC);" ++ [x0a] ++
  "CREATE INDEX IF NOT EXISTS idx_overseer_token_usage_tenant_time ON overseer_token_usage(user_id, agent_id, created_at DESC);" ++ [x0a].

Definition sql_usage_insert : gostring :=
  [x0a] ++ "INSERT INTO overseer_token_usage(" ++ [x0a] ++
  "  user_id, agent_id, operator_role, session_id, request_id," ++ [x0a] ++
  "  model, channel, prompt_tokens, completion_tokens, total_tokens, provider_request_id" ++ [x0a] ++
  ") VALUES ($1,$2,$3,$4,$5,$6,$7,$8,$9,$10,$11)" ++ [x0a].

(** The arguments of the insert. *)
Definition row_args (row : Row) : list PgArg :=
  [ArgText (rw_UserID row); ArgText (rw_AgentID row); ArgText (rw_OperatorRole row);
   ArgText (rw_SessionID row); ArgText (rw_RequestID row); ArgText (rw_Model row);
   ArgText (rw_Channel row); ArgInt (rw_PromptTokens row); ArgInt (rw_CompletionTokens row);
   ArgInt (rw_TotalTokens row); ArgText (rw_ProviderRequestID row)].

Section usage_store.
Context {W : Type} `{HO : Host W}.

(** The receiver may be nil. *)
Definition usage_pool (s : option (TokenUsageStore W)) : option (Pool W) :=
  match s with None => None | Some s => tu_pool s end.

Definition Usage_EnsureSchema (s : option (TokenUsageStore W)) : Go W (option goerror) :=
  match usage_pool s with
  | None => mret (Some (ErrorString "token usage store not initialized"))
  | Some pool => pool_Exec pool sql_usage_ddl []
  end.

(** [RecordAsync]: the insert runs in a goroutine; its error is only logged. *)
Definition RecordAsync (s : option (TokenUsageStore W)) : AsyncRecorder W := λ row w,
  match usage_pool s with
  | None => w
  | Some pool => go_spawn (discard (pool_Exec pool sql_usage_insert (row_args row))) w
  end.
End usage_store.
