(* ===== verification/PgStore.v ===== *)
(** * The PostgreSQL memory store

    [src/internal/integration/pg/memory_store.go]: the writes, the session-wide reads,
    the consolidation transaction and the schema of the long-term memory (the two
    tenant-wide reads are in [Pg]).  What PostgreSQL does with the statements is stated
    as laws on a table with a unique index on session, tenant and key; a transaction
    has a view of the table that replaces it when it commits.  [DbState] is a small
    server that keeps the laws. *)

From S2P Require Import Prelude GoString Identity Tools Memory Env Pg.
Open Scope Z_scope.

(** ** Statements *)

Definition sql_columns : gostring :=
  "SELECT id, session_id, user_id, agent_id, category, key, content, created_at" ++ [x0a] ++
  "FROM overseer_memories" ++ [x0a].

Definition sql_upsert : gostring :=
  [x0a] ++ "INSERT INTO overseer_memories(session_id, user_id, agent_id, category, key, content)" ++ [x0a] ++
  "VALUES ($1,$2,$3,$4,$5,$6)" ++ [x0a] ++
  "ON CONFLICT (session_id, user_id, agent_id, key)" ++ [x0a] ++
  "DO UPDATE SET category = EXCLUDED.category, content = EXCLUDED.content" ++ [x0a].

Definition sql_recent_scoped : gostring :=
  [x0a] ++ sql_columns ++
  "WHERE session_id = $1 AND user_id = $2 AND agent_id = $3" ++ [x0a] ++
  "ORDER BY created_at DESC" ++ [x0a] ++
  "LIMIT $4" ++ [x0a].

Definition sql_sessions : gostring :=
  [x0a] ++ "SELECT DISTINCT session_id" ++ [x0a] ++
  "FROM overseer_memories" ++ [x0a] ++
  "WHERE user_id = $1 AND agent_id = $2" ++ [x0a] ++
  "ORDER BY session_id" ++ [x0a].

Definition sql_all_session : gostring :=
  [x0a] ++ sql_columns ++
  "WHERE session_id = $1 AND user_id = $2 AND agent_id = $3" ++ [x0a] ++
  "ORDER BY key ASC, created_at ASC" ++ [x0a] ++
  "LIMIT $4" ++ [x0a].

Definition sql_delete_session : gostring :=
  [x0a] ++ "DELETE FROM overseer_memories" ++ [x0a] ++
  "WHERE session_id = $1 AND user_id = $2 AND agent_id = $3" ++ [x0a].

Definition sql_insert : gostring :=
  [x0a] ++ "INSERT INTO overseer_memories(session_id, user_id, agent_id, category, key, content)" ++ [x0a] ++
  "VALUES ($1,$2,$3,$4,$5,$6)" ++ [x0a].

Definition sql_match_scoped : gostring :=
  [x0a] ++ sql_columns ++
  "WHERE session_id = $1 AND user_id = $2 AND agent_id = $3" ++ [x0a] ++
  "  AND (key = $4 OR content ILIKE '%' || $4 || '%')" ++ [x0a] ++
  "ORDER BY created_at DESC" ++ [x0a] ++
  "LIMIT $5" ++ [x0a].

Definition sql_match_session : gostring :=
  [x0a] ++ sql_columns ++
  "WHERE session_id = $1" ++ [x0a] ++
  "  AND (key = $2 OR content ILIKE '%' || $2 || '%')" ++ [x0a] ++
  "ORDER BY created_at DESC" ++ [x0a] ++
  "LIMIT $3" ++ [x0a].

Definition sql_schema : gostring :=
  [x0a] ++ "CREATE TABLE IF NOT EXISTS overseer_memories (" ++ [x0a] ++
  "  id BIGSERIAL PRIMARY KEY," ++ [x0a] ++
  "  session_id TEXT NOT NULL," ++ [x0a] ++
  "  user_id TEXT NOT NULL DEFAULT ''," ++ [x0a] ++
  "  agent_id TEXT NOT NULL DEFAULT ''," ++ [x0a] ++
  "  category TEXT NOT NULL DEFAULT 'reference'," ++ [x0a] ++
  "  key TEXT NOT NULL," ++ [x0a] ++
  "  content TEXT NOT NULL," ++ [x0a] ++
  "  created_at TIMESTAMPTZ NOT NULL DEFAULT now()" ++ [x0a] ++
  ");" ++ [x0a] ++
  "CREATE INDEX IF NOT EXISTS idx_overseer_memories_session_id ON overseer_memories(session_id);" ++ [x0a] ++
  "CREATE INDEX IF NOT EXISTS idx_overseer_memories_key ON overseer_memories(key);" ++ [x0a] ++
  "CREATE INDEX IF NOT EXISTS idx_overseer_memories_tenant ON overseer_memories(session_id, user_id, agent_id);" ++ [x0a].

(** The statements after the first, whose errors are dropped. *)
Definition sql_migrations : list gostring :=
  ["ALTER TABLE overseer_memories ADD COLUMN IF NOT EXISTS user_id TEXT NOT NULL DEFAULT ''";
   "ALTER TABLE overseer_memories ADD COLUMN IF NOT EXISTS agent_id TEXT NOT NULL DEFAULT ''";
   "ALTER TABLE overseer_memories ADD COLUMN IF NOT EXISTS category TEXT NOT NULL DEFAULT 'reference'";
   "CREATE INDEX IF NOT EXISTS idx_overseer_memories_tenant ON overseer_memories(session_id, user_id, agent_id)";
   "CREATE UNIQUE INDEX IF NOT EXISTS idx_overseer_memories_dedupe ON overseer_memories(session_id, user_id, agent_id, key)";
   "CREATE INDEX IF NOT EXISTS idx_overseer_memories_user_agent_time ON overseer_memories(user_id, agent_id, created_at DESC)"].

(** ** Operations *)

(** A row of [ReplaceSessionMemories]. *)
Record NewMemory := {
  nm_Category : gostring;
  nm_Key : gostring;
  nm_Content : gostring;
}.

(** [limit <= 0 || limit > 200] falls back to 120. *)
Definition clamp_all (limit : Z) : Z := if (limit <=? 0) || (200 <? limit) then 120 else limit.

Definition or_reference (category : gostring) : gostring :=
  if decide (category = []) then "reference" else category.

Definition nil_deref : gostring := "invalid memory address or nil pointer dereference".

Section store.
Context {W : Type}.

Definition NewMemoryStore (pool : option (Pool W)) : option (MemoryStore W) :=
  Some {| ms_pool := pool |}.

(** Statements whose errors are dropped. *)
Fixpoint exec_all (pool : Pool W) (stmts : list gostring) : Go W unit :=
  match stmts with
  | [] => mret tt
  | sql :: stmts' => pool_Exec pool sql [] ;; exec_all pool stmts'
  end.

(** [EnsureSchema]: the pool is used without a test for nil. *)
Definition EnsureSchema (s : option (MemoryStore W)) : Go W (option goerror) :=
  match pool_of s with
  | None => go_panic nil_deref
  | Some pool =>
      e ← pool_Exec pool sql_schema [];
      match e with
      | Some e => mret (Some e)
      | None => exec_all pool sql_migrations ;; mret None
      end
  end.

Definition WriteScoped (s : option (MemoryStore W))
    (sessionID userID agentID category key content : gostring) : Go W (option goerror) :=
  match pool_of s with
  | None => mret (Some not_initialized)
  | Some pool =>
      pool_Exec pool sql_upsert
        [ArgText sessionID; ArgText userID; ArgText agentID; ArgText (or_reference category);
         ArgText key; ArgText content]
  end.

Definition ListRecentScoped (s : option (MemoryStore W)) (sessionID userID agentID : gostring)
    (limit : Z) : Go W (result (list MemoryRecord)) :=
  match pool_of s with
  | None => mret (Err not_initialized)
  | Some pool =>
      pool_Query pool sql_recent_scoped
        [ArgText sessionID; ArgText userID; ArgText agentID; ArgInt (clamp_limit 15 limit)]
  end.

Definition ListDistinctSessionsForTenant (s : option (MemoryStore W)) (userID agentID : gostring) :
    Go W (result (list gostring)) :=
  match pool_of s with
  | None => mret (Err not_initialized)
  | Some pool => pool_QueryText pool sql_sessions [ArgText userID; ArgText agentID]
  end.

Definition ListAllForSession (s : option (MemoryStore W)) (sessionID userID agentID : gostring)
    (limit : Z) : Go W (result (list MemoryRecord)) :=
  match pool_of s with
  | None => mret (Err not_initialized)
  | Some pool =>
      pool_Query pool sql_all_session
        [ArgText sessionID; ArgText userID; ArgText agentID; ArgInt (clamp_all limit)]
  end.

(** The loop over the rows and the commit. *)
Fixpoint insert_rows (tx : Tx W) (sessionID userID agentID : gostring) (rows : list NewMemory) :
    Go W (option goerror) :=
  match rows with
  | [] => tx_Commit tx
  | r :: rows' =>
      e ← tx_Exec tx sql_insert
            [ArgText sessionID; ArgText userID; ArgText agentID;
             ArgText (or_reference (nm_Category r)); ArgText (nm_Key r); ArgText (nm_Content r)];
      match e with
      | Some e => mret (Some e)
      | None => insert_rows tx sessionID userID agentID rows'
      end
  end.

Definition ReplaceSessionMemories (s : option (MemoryStore W))
    (sessionID userID agentID : gostring) (rows : list NewMemory) : Go W (option goerror) :=
  match pool_of s with
  | None => mret (Some not_initialized)
  | Some pool =>
      tx ← pool_Begin pool;
      match tx with
      | Err e => mret (Some e)
      | Ok tx =>
          go_defer
            (e ← tx_Exec tx sql_delete_session [ArgText sessionID; ArgText userID; ArgText agentID];
             match e with
             | Some e => mret (Some e)
             | None => insert_rows tx sessionID userID agentID rows
             end)
            (discard (tx_Rollback tx))
      end
  end.

Definition ReadScoped (s : option (MemoryStore W)) (sessionID userID agentID query : gostring)
    (limit : Z) : Go W (result (list MemoryRecord)) :=
  match pool_of s with
  | None => mret (Err not_initialized)
  | Some pool =>
      pool_Query pool sql_match_scoped
        [ArgText sessionID; ArgText userID; ArgText agentID; ArgText query;
         ArgInt (clamp_limit 10 limit)]
  end.

(** The legacy store: no tenant. *)
Definition Write (s : option (MemoryStore W)) (sessionID key content : gostring) :
    Go W (option goerror) :=
  WriteScoped s sessionID [] [] "reference" key content.

Definition Read (s : option (MemoryStore W)) (sessionID query : gostring) (limit : Z) :
    Go W (result (list MemoryRecord)) :=
  match pool_of s with
  | None => mret (Err not_initialized)
  | Some pool =>
      pool_Query pool sql_match_session
        [ArgText sessionID; ArgText query; ArgInt (clamp_limit 10 limit)]
  end.
End store.

(** ** The table behind the store *)

Definition in_session (s u a : gostring) (r : MemoryRecord) : bool :=
  bool_decide (mr_SessionID r = s) && of_tenant u a r.

(** The columns of the unique index. *)
Definition mem_key : Type := gostring * gostring * gostring * gostring.
Definition key_of (r : MemoryRecord) : mem_key :=
  (mr_SessionID r, mr_UserID r, mr_AgentID r, mr_Key r).

Definition unique_keys (tbl : list MemoryRecord) : Prop := NoDup (key_of <$> tbl).

(** What [DO UPDATE] sets; identifier and creation time stay. *)
Definition set_content (c x : gostring) (r : MemoryRecord) : MemoryRecord :=
  {| mr_ID := mr_ID r; mr_SessionID := mr_SessionID r; mr_UserID := mr_UserID r;
     mr_AgentID := mr_AgentID r; mr_Category := c; mr_Key := mr_Key r; mr_Content := x;
     mr_CreatedAt := mr_CreatedAt r |}.

(** A new row: a fresh key and identifier, the given columns, any creation time. *)
Definition row_added (k : mem_key) (c x : gostring) (tbl tbl' : list MemoryRecord) : Prop :=
  ∃ r, tbl' ≡ₚ r :: tbl ∧ key_of r = k ∧ (k ∉ key_of <$> tbl) ∧ (mr_ID r ∉ mr_ID <$> tbl) ∧
    mr_Category r = c ∧ mr_Content r = x.

Definition row_updated (k : mem_key) (c x : gostring) (tbl tbl' : list MemoryRecord) : Prop :=
  ∃ r rest, tbl ≡ₚ r :: rest ∧ key_of r = k ∧ tbl' ≡ₚ set_content c x r :: rest.

Definition upserted (k : mem_key) (c x : gostring) (tbl tbl' : list MemoryRecord) : Prop :=
  row_added k c x tbl tbl' ∨ row_updated k c x tbl tbl'.

(** A transaction works on its [view]; the [table] is what others see. *)
Class TxLaws {W} (tx : Tx W) (table view : W → list MemoryRecord) : Prop := {
  tx_Exec_keeps sql args : go_rel (λ w w', table w' = table w) (tx_Exec tx sql args);
  tx_delete s u a w w' :
    tx_Exec tx sql_delete_session [ArgText s; ArgText u; ArgText a] w = (w', Done None) →
    view w' ≡ₚ filter (λ r, in_session s u a r = false) (view w);
  tx_insert s u a c k x w w' :
    tx_Exec tx sql_insert
      [ArgText s; ArgText u; ArgText a; ArgText c; ArgText k; ArgText x] w = (w', Done None) →
    row_added (s, u, a, k) c x (view w) (view w');
  tx_commit_Done w w' : tx_Commit tx w = (w', Done None) → table w' = view w;
  tx_commit_atomic w :
    table (tx_Commit tx w).1 = table w ∨ table (tx_Commit tx w).1 = view w;
  tx_Rollback_keeps : go_rel (λ w w', table w' = table w) (tx_Rollback tx);
}.

(** The statements of the store, on a table with the unique index.  Queries leave the
    table as it is, however they end; a statement that fails did nothing or
    everything. *)
Class PostgresLaws {W} (pool : Pool W) (table view : W → list MemoryRecord)
    (like : gostring → gostring → bool) : Prop := {
  pg_PoolLaws :: PoolLaws pool table like;
  pg_Query_keeps sql args : go_rel (λ w w', table w' = table w) (pool_Query pool sql args);
  pg_QueryText_keeps sql args :
    go_rel (λ w w', table w' = table w) (pool_QueryText pool sql args);
  pg_recent_scoped s u a n w w' rows :
    pool_Query pool sql_recent_scoped [ArgText s; ArgText u; ArgText a; ArgInt n] w =
      (w', Done (Ok rows)) →
    newest n (in_session s u a) (table w) rows;
  pg_match_scoped s u a q n w w' rows :
    pool_Query pool sql_match_scoped [ArgText s; ArgText u; ArgText a; ArgText q; ArgInt n] w =
      (w', Done (Ok rows)) →
    newest n (λ r, in_session s u a r && (bool_decide (mr_Key r = q) || like (mr_Content r) q))
      (table w) rows;
  pg_all_session s u a n w w' rows :
    pool_Query pool sql_all_session [ArgText s; ArgText u; ArgText a; ArgInt n] w =
      (w', Done (Ok rows)) →
    ∃ l, l ≡ₚ filter (λ r, in_session s u a r = true) (table w) ∧ rows = take (Z.to_nat n) l;
  pg_sessions u a w w' l :
    pool_QueryText pool sql_sessions [ArgText u; ArgText a] w = (w', Done (Ok l)) →
    NoDup l ∧ ∀ s, s ∈ l ↔ ∃ r, r ∈ table w ∧ in_session s u a r = true;
  pg_upsert_Done s u a c k x w w' :
    pool_Exec pool sql_upsert
      [ArgText s; ArgText u; ArgText a; ArgText c; ArgText k; ArgText x] w = (w', Done None) →
    upserted (s, u, a, k) c x (table w) (table w');
  pg_upsert_atomic s u a c k x w :
    let w' := (pool_Exec pool sql_upsert
      [ArgText s; ArgText u; ArgText a; ArgText c; ArgText k; ArgText x] w).1 in
    table w' = table w ∨ upserted (s, u, a, k) c x (table w) (table w');
  pg_Begin_keeps : go_rel (λ w w', table w' = table w) (pool_Begin pool);
  pg_Begin w w' tx :
    pool_Begin pool w = (w', Done (Ok tx)) → view w' = table w ∧ TxLaws tx table view;
}.

(** ** Specification

    The store promises a map from session, tenant and key to category and content. *)

Definition memory_map : Type := gmap mem_key (gostring * gostring).

Definition contents (tbl : list MemoryRecord) : memory_map :=
  list_to_map ((λ r, (key_of r, (mr_Category r, mr_Content r))) <$> tbl).

Inductive StoreCmd :=
| CmdWrite (s u a c k x : gostring)
| CmdReplace (s u a : gostring) (rows : list NewMemory).

Definition key_in (s u a : gostring) (k : mem_key) : Prop := k.1 = (s, u, a).

Definition add_row (s u a : gostring) (m : memory_map) (n : NewMemory) : memory_map :=
  <[(s, u, a, nm_Key n) := (or_reference (nm_Category n), nm_Content n)]> m.

Definition spec_cmd (c : StoreCmd) (m : memory_map) : memory_map :=
  match c with
  | CmdWrite s u a c k x => <[(s, u, a, k) := (or_reference c, x)]> m
  | CmdReplace s u a rows =>
      foldl (add_row s u a) (filter (λ kv, kv.1.1 ≠ (s, u, a)) m) rows
  end.

Definition run_cmd {W} (st : option (MemoryStore W)) (c : StoreCmd) : Go W (option goerror) :=
  match c with
  | CmdWrite s u a c k x => WriteScoped st s u a c k x
  | CmdReplace s u a rows => ReplaceSessionMemories st s u a rows
  end.

(** ** Lemmas on tables *)

(** Every row has its own identifier and its own key. *)
Definition table_wf (tbl : list MemoryRecord) : Prop := unique_keys tbl ∧ NoDup (mr_ID <$> tbl).

(** The rows outside [P] are the same. *)
Definition keeps_outside (P : MemoryRecord → bool) (tbl tbl' : list MemoryRecord) : Prop :=
  filter (λ r, P r = false) tbl' ≡ₚ filter (λ r, P r = false) tbl.

(** The rows of a replacement, one after the other. *)
Inductive rows_added (s u a : gostring) :
    list NewMemory → list MemoryRecord → list MemoryRecord → Prop :=
| rows_added_nil t : rows_added s u a [] t t
| rows_added_cons n rows t t1 t2 :
    row_added (s, u, a, nm_Key n) (or_reference (nm_Category n)) (nm_Content n) t t1 →
    rows_added s u a rows t1 t2 → rows_added s u a (n :: rows) t t2.

Definition replaced (s u a : gostring) (rows : list NewMemory) (tbl tbl' : list MemoryRecord) :
    Prop :=
  ∃ t, t ≡ₚ filter (λ r, in_session s u a r = false) tbl ∧ rows_added s u a rows t tbl'.

#[export] Instance table_wf_proper : Proper ((≡ₚ) ==> iff) table_wf.
Proof. intros t t' Ht. unfold table_wf, unique_keys. by rewrite Ht. Qed.

#[export] Instance unique_keys_proper : Proper ((≡ₚ) ==> iff) unique_keys.
Proof. intros t t' Ht. unfold unique_keys. by rewrite Ht. Qed.

#[export] Instance keeps_outside_preorder P : PreOrder (keeps_outside P).
Proof. unfold keeps_outside. split; [intros t; reflexivity|]. intros t1 t2 t3 H1 H2. by rewrite H2. Qed.

Lemma keeps_outside_mono (P P' : MemoryRecord → bool) t t' :
  (∀ r, P r = true → P' r = true) → keeps_outside P t t' → keeps_outside P' t t'.
Proof.
  intros HP H. unfold keeps_outside in *.
  assert (∀ l : list MemoryRecord,
    filter (λ r, P' r = false) l = filter (λ r, P' r = false) (filter (λ r, P r = false) l)) as He.
  { intros l. symmetry. apply list_filter_filter_l. intros r Hr. specialize (HP r).
    destruct (P r); [|done]. rewrite HP in Hr; done. }
  rewrite (He t'), (He t). by rewrite H.
Qed.

Lemma contents_perm t t' : unique_keys t → t ≡ₚ t' → contents t = contents t'.
Proof.
  intros Hnd Ht. apply list_to_map_proper; [|by rewrite Ht].
  rewrite <- list_fmap_compose. exact Hnd.
Qed.

Lemma contents_cons r t :
  contents (r :: t) = <[key_of r := (mr_Category r, mr_Content r)]> (contents t).
Proof. done. Qed.

Lemma in_session_spec s u a r : in_session s u a r = true ↔ (key_of r).1 = (s, u, a).
Proof.
  unfold in_session, of_tenant, key_of. cbn. rewrite !andb_true_iff, !bool_decide_eq_true.
  naive_solver.
Qed.

Lemma in_session_false s u a r : in_session s u a r = false ↔ (key_of r).1 ≠ (s, u, a).
Proof. rewrite <- in_session_spec. destruct (in_session s u a r); naive_solver. Qed.

Lemma row_added_wf k c x t t' : row_added k c x t t' → table_wf t → table_wf t'.
Proof.
  intros (r & -> & <- & Hk & Hi & _) [H1 H2]. split; unfold unique_keys; rewrite fmap_cons;
    by constructor.
Qed.

Lemma row_updated_wf k c x t t' : row_updated k c x t t' → table_wf t → table_wf t'.
Proof. intros (r & rest & -> & _ & ->). done. Qed.

Lemma row_added_contents k c x t t' :
  unique_keys t → row_added k c x t t' → contents t' = <[k := (c, x)]> (contents t).
Proof.
  intros Hu (r & Ht & <- & Hk & _ & <- & <-). rewrite <- contents_cons. symmetry.
  apply contents_perm; [|done]. by constructor.
Qed.

Lemma row_updated_contents k c x t t' :
  unique_keys t → row_updated k c x t t' → contents t' = <[k := (c, x)]> (contents t).
Proof.
  intros Hu (r & rest & Ht & <- & Ht'). rewrite (contents_perm t (r :: rest)) by done.
  symmetry in Ht'. rewrite <- (contents_perm (set_content c x r :: rest) t'); [|by rewrite Ht in Hu|done].
  rewrite !contents_cons. symmetry. exact (insert_insert_eq (contents rest) _ _ _).
Qed.

Lemma upserted_contents k c x t t' :
  table_wf t → upserted k c x t t' → table_wf t' ∧ contents t' = <[k := (c, x)]> (contents t).
Proof.
  intros Hw [H|H]; split.
  - by eapply row_added_wf.
  - apply row_added_contents; [apply Hw|done].
  - by eapply row_updated_wf.
  - apply row_updated_contents; [apply Hw|done].
Qed.

Lemma keeps_outside_cons P r t t' : P r = true → t' ≡ₚ r :: t → keeps_outside P t t'.
Proof. intros HP Ht. unfold keeps_outside. rewrite Ht. by rewrite filter_cons_False by congruence. Qed.

Lemma row_added_outside P s u a k c x t t' :
  (∀ r, in_session s u a r = true → P r = true) → row_added (s, u, a, k) c x t t' →
  keeps_outside P t t'.
Proof.
  intros HP (r & Ht & Hk & _). apply (keeps_outside_cons P r); [|done].
  apply HP, in_session_spec. by rewrite Hk.
Qed.

Lemma upserted_outside P s u a k c x t t' :
  (∀ r, in_session s u a r = true → P r = true) → upserted (s, u, a, k) c x t t' →
  keeps_outside P t t'.
Proof.
  intros HP [H|(r & rest & Ht & Hk & Ht')]; [by eapply row_added_outside|].
  assert (∀ r', key_of r' = key_of r → P r' = true) as HPr.
  { intros r' Hr'. apply HP, in_session_spec. by rewrite Hr', Hk. }
  transitivity rest.
  - unfold keeps_outside. rewrite Ht, filter_cons_False; [done|]. by rewrite HPr.
  - apply (keeps_outside_cons P (set_content c x r)); [by apply HPr|done].
Qed.

Lemma contents_lookup t k v :
  unique_keys t →
  contents t !! k = Some v ↔ ∃ r, r ∈ t ∧ key_of r = k ∧ (mr_Category r, mr_Content r) = v.
Proof.
  intros Hu. unfold contents. etrans; [symmetry; apply elem_of_list_to_map|].
  - rewrite <- list_fmap_compose. exact Hu.
  - rewrite list_elem_of_fmap. naive_solver.
Qed.

Lemma unique_keys_filter (P : MemoryRecord → Prop) `{∀ r, Decision (P r)} t :
  unique_keys t → unique_keys (filter P t).
Proof.
  unfold unique_keys. induction t as [|r t IH]; [done|]. rewrite fmap_cons, filter_cons.
  intros [Hr Ht]%NoDup_cons. case_decide; [|auto]. rewrite fmap_cons. constructor; [|auto].
  intros (r' & Hk & [_ Hin]%list_elem_of_filter)%list_elem_of_fmap. apply Hr. rewrite Hk.
  by apply list_elem_of_fmap_2.
Qed.

Lemma contents_filter s u a t :
  unique_keys t →
  contents (filter (λ r, in_session s u a r = false) t) =
  filter (λ kv, kv.1.1 ≠ (s, u, a)) (contents t).
Proof.
  intros Hu. apply map_eq. intros k. apply option_eq. intros v.
  rewrite map_lookup_filter_Some, !contents_lookup by (try apply unique_keys_filter; done).
  cbn. split.
  - intros (r & [Hs Hin]%list_elem_of_filter & <- & <-). split; [eauto|].
    by apply in_session_false in Hs.
  - intros [(r & Hin & <- & <-) Hs]. exists r. split_and!; [|done..].
    apply list_elem_of_filter. split; [|done]. by apply in_session_false.
Qed.

Lemma filter_wf (P : MemoryRecord → Prop) `{∀ r, Decision (P r)} t :
  table_wf t → table_wf (filter P t).
Proof.
  intros [H1 H2]. split; [by apply unique_keys_filter|].
  eapply sublist_NoDup; [exact H2|]. apply fmap_sublist, sublist_filter.
Qed.

Lemma rows_added_spec s u a rows t t' :
  rows_added s u a rows t t' → table_wf t →
  table_wf t' ∧ contents t' = foldl (add_row s u a) (contents t) rows.
Proof.
  induction 1 as [|n rows t t1 t2 H _ IH]; intros Hw; [done|].
  destruct IH as [Hw2 ->]; [by eapply row_added_wf|]. split; [done|]. cbn. unfold add_row at 2.
  by rewrite (row_added_contents _ _ _ t) by first [apply Hw|done].
Qed.

(** The keys of the rows differ, and from those of the table. *)
Lemma rows_added_keys s u a rows t t' :
  rows_added s u a rows t t' →
  NoDup (nm_Key <$> rows) ∧ ∀ k, (s, u, a, k) ∈ key_of <$> t → k ∉ nm_Key <$> rows.
Proof.
  induction 1 as [|n rows t t1 t2 (r & Ht & Hk & Hf & _) _ [IH1 IH2]].
  { split; [constructor|]. intros k _. apply not_elem_of_nil. }
  rewrite fmap_cons. split.
  - constructor; [|done]. apply IH2. rewrite Ht, fmap_cons, Hk. left.
  - intros k Hin. apply not_elem_of_cons. split; [naive_solver|]. apply IH2. rewrite Ht. by right.
Qed.

Lemma rows_added_outside P s u a rows t t' :
  (∀ r, in_session s u a r = true → P r = true) → rows_added s u a rows t t' →
  keeps_outside P t t'.
Proof.
  intros HP. induction 1 as [|n rows t t1 t2 H _ IH]; [done|].
  transitivity t1; [by eapply row_added_outside|done].
Qed.

Lemma replaced_spec s u a rows t t' :
  replaced s u a rows t t' → table_wf t →
  table_wf t' ∧
  contents t' = foldl (add_row s u a) (filter (λ kv, kv.1.1 ≠ (s, u, a)) (contents t)) rows.
Proof.
  intros (t0 & Ht & Hr) Hw. apply rows_added_spec in Hr as [Hw' ->].
  - split; [done|]. f_equal. rewrite <- contents_filter by apply Hw.
    symmetry. apply contents_perm; [|done]. by apply filter_wf.
  - rewrite Ht. by apply filter_wf.
Qed.

Lemma replaced_outside P s u a rows t t' :
  (∀ r, in_session s u a r = true → P r = true) → replaced s u a rows t t' →
  keeps_outside P t t'.
Proof.
  intros HP (t0 & Ht & Hr). transitivity t0; [|by eapply rows_added_outside].
  unfold keeps_outside. rewrite Ht, list_filter_filter_l; [done|].
  intros r Hr'. destruct (in_session s u a r) eqn:E; [|done]. rewrite HP in Hr'; done.
Qed.

(** ** Lemmas on runs *)

Section runs.
Context {W : Type} (pool : Pool W) (table view : W → list MemoryRecord)
  (like : gostring → gostring → bool) `{L : !PostgresLaws pool table view like}
  (st : option (MemoryStore W)) (Hst : pool_of st = Some pool).

Lemma WriteScoped_run s u a c k x w w' o :
  WriteScoped st s u a c k x w = (w', o) →
  upserted (s, u, a, k) (or_reference c) x (table w) (table w') ∨
  (o ≠ Done None ∧ table w' = table w).
Proof.
  unfold WriteScoped. rewrite Hst. intros E.
  pose proof (pg_upsert_atomic s u a (or_reference c) k x w) as H. cbv zeta in H. rewrite E in H. cbn [fst] in H.
  destruct H as [H|H]; [|by left].
  destruct (decide (o = Done None)) as [->|]; [left|by right].
  by apply pg_upsert_Done in E.
Qed.

Lemma insert_rows_run tx s u a rows w w' o :
  TxLaws tx table view → insert_rows tx s u a rows w = (w', o) →
  rows_added s u a rows (view w) (table w') ∨ (o ≠ Done None ∧ table w' = table w).
Proof.
  intros HT. revert w. induction rows as [|n rows IH]; intros w E; cbn in E.
  { destruct (decide (o = Done None)) as [->|Ho].
    - apply tx_commit_Done in E as ->. left. constructor.
    - pose proof (tx_commit_atomic (tx := tx) w) as H. rewrite E in H. cbn in H.
      destruct H as [->| ->]; [by right|left; constructor]. }
  unfold mbind, Go_bind in E. destruct (tx_Exec tx _ _ w) as [w1 e] eqn:E1.
  assert (table w1 = table w) as Ht by exact (go_rel_run _ _ _ _ _ (tx_Exec_keeps _ _) E1).
  destruct e as [[e|]|p].
  - right. by injection E as <- <-.
  - apply tx_insert in E1. apply IH in E as [E|[Ho E]].
    + left. by econstructor.
    + right. split; [done|congruence].
  - right. by injection E as <- <-.
Qed.

Lemma ReplaceSessionMemories_run s u a rows w w' o :
  ReplaceSessionMemories st s u a rows w = (w', o) →
  replaced s u a rows (table w) (table w') ∨ (o ≠ Done None ∧ table w' = table w).
Proof.
  unfold ReplaceSessionMemories. rewrite Hst. unfold mbind at 1, Go_bind at 1.
  destruct (pool_Begin pool w) as [w1 tx] eqn:E1.
  assert (table w1 = table w) as Ht1 by exact (go_rel_run _ _ _ _ _ pg_Begin_keeps E1).
  destruct tx as [[tx|e]|p]; [|by intros [= <- <-]; right..].
  apply pg_Begin in E1 as [Hv HT]. unfold go_defer.
  match goal with |- context [?m w1] => destruct (m w1) as [w2 o2] eqn:E2 end.
  intros E. assert (table w' = table w2 ∧ (o = Done None → o2 = Done None)) as [-> Ho].
  { pose proof (tx_Rollback_keeps (tx := tx) w2) as Hr. unfold discard, mbind, Go_bind in E.
    destruct (tx_Rollback tx w2) as [w3 [e|p]]; cbn in Hr, E; by injection E as <- <-. }
  unfold mbind, Go_bind in E2. destruct (tx_Exec tx _ _ w1) as [w3 e] eqn:E3.
  assert (table w3 = table w1) as Ht3 by exact (go_rel_run _ _ _ _ _ (tx_Exec_keeps _ _) E3).
  destruct e as [[e|]|p].
  - right. injection E2 as <- <-. split; [naive_solver|congruence].
  - apply tx_delete in E3. rewrite Hv in E3.
    apply insert_rows_run in E2 as [E2|[Ho2 E2]]; [left|right|done].
    + by exists (view w3).
    + split; [naive_solver|congruence].
  - right. injection E2 as <- <-. split; [naive_solver|congruence].
Qed.

(** What a command can do to the rows outside the session it names: nothing. *)
Lemma run_cmd_outside (P : MemoryRecord → bool) c :
  (∀ r, match c with
        | CmdWrite s u a _ _ _ | CmdReplace s u a _ => in_session s u a r
        end = true → P r = true) →
  go_rel (λ w w', keeps_outside P (table w) (table w')) (run_cmd st c).
Proof.
  intros HP w. destruct (run_cmd st c w) as [w' o] eqn:E. cbn. destruct c as [s u a c k x|s u a rows]; cbn in E.
  - apply WriteScoped_run in E as [E|[_ ->]]; [|reflexivity]. by eapply upserted_outside.
  - apply ReplaceSessionMemories_run in E as [E|[_ ->]]; [|reflexivity].
    by eapply replaced_outside.
Qed.

(** The reads leave the table as it is. *)
Lemma reads_keep :
  (∀ u a n, go_rel (λ w w', table w' = table w) (ListRecentForTenant st u a n)) ∧
  (∀ u a q n, go_rel (λ w w', table w' = table w) (ReadForTenant st u a q n)) ∧
  (∀ s u a n, go_rel (λ w w', table w' = table w) (ListRecentScoped st s u a n)) ∧
  (∀ s u a q n, go_rel (λ w w', table w' = table w) (ReadScoped st s u a q n)) ∧
  (∀ s u a n, go_rel (λ w w', table w' = table w) (ListAllForSession st s u a n)) ∧
  (∀ u a, go_rel (λ w w', table w' = table w) (ListDistinctSessionsForTenant st u a)) ∧
  (∀ s q n, go_rel (λ w w', table w' = table w) (Read st s q n)).
Proof.
  unfold ListRecentForTenant, ReadForTenant, ListRecentScoped, ReadScoped, ListAllForSession,
    ListDistinctSessionsForTenant, Read. rewrite Hst.
  split_and!; intros; first [apply pg_Query_keeps | apply pg_QueryText_keeps].
Qed.
End runs.

(** ** Properties *)

(** C11: the store is a map from session, tenant and key to category and content.  On a
    table whose rows have distinct identifiers and distinct keys, a write that
    succeeds sets one key and a replacement that succeeds removes the session's
    entries and adds the given ones, in a table with the same invariant; and a call
    that ends in any other way, by an error or a panic, has either had its whole
    effect or left the table as it was. *)
Theorem store_implements_map {W} (pool : Pool W) (table view : W → list MemoryRecord)
    (like : gostring → gostring → bool) (L : PostgresLaws pool table view like)
    (st : option (MemoryStore W)) (c : StoreCmd) (w w' : W) (o : outcome (option goerror)) :
  pool_of st = Some pool → table_wf (table w) → run_cmd st c w = (w', o) →
  table_wf (table w') ∧
  (contents (table w') = spec_cmd c (contents (table w)) ∨
   (o ≠ Done None ∧ table w' = table w)).
Proof.
  intros Hst Hw E. destruct c as [s u a c k x|s u a rows]; cbn in E.
  - apply (WriteScoped_run pool table view like) in E as [E|[Ho E]]; [| |done].
    + apply upserted_contents in E as [? ?]; auto.
    + rewrite E. auto.
  - apply (ReplaceSessionMemories_run pool table view like) in E as [E|[Ho E]]; [| |done].
    + apply replaced_spec in E as [? ?]; auto.
    + rewrite E. auto.
Qed.

(** Two rows of one key are never stored by a replacement: it fails and leaves the
    table as it was. *)
Lemma ReplaceSessionMemories_duplicate {W} (pool : Pool W) (table view : W → list MemoryRecord)
    (like : gostring → gostring → bool) (L : PostgresLaws pool table view like)
    (st : option (MemoryStore W)) s u a (rows : list NewMemory) (w w' : W) o :
  pool_of st = Some pool → ¬ NoDup (nm_Key <$> rows) →
  ReplaceSessionMemories st s u a rows w = (w', o) → o ≠ Done None ∧ table w' = table w.
Proof.
  intros Hst Hd E.
  apply (ReplaceSessionMemories_run pool table view like) in E as [(t & _ & Hr)|?]; [|done..].
  destruct Hd. by apply rows_added_keys in Hr as [? _].
Qed.

(** ** A server

    Rows in insertion order, the view of the open transaction, the next identifier
    (consumed by failed insertions too) and the clock. *)

Record DbState := { d_rows : list MemoryRecord; d_view : list MemoryRecord; d_next : Z }.

Class HasDb (W : Type) := {
  get_db : W → DbState;
  set_db : DbState → W → W;
  get_set_db d w : get_db (set_db d w) = d;
}.

#[export] Instance DbState_HasDb : HasDb DbState :=
  {| get_db := id; set_db d _ := d; get_set_db _ _ := eq_refl |}.

Section server.

Definition pg_error : goerror := ErrorString "ERROR: duplicate key value (SQLSTATE 23505)".

Definition new_row (id : Z) (s u a c k x : gostring) : MemoryRecord :=
  {| mr_ID := id; mr_SessionID := s; mr_UserID := u; mr_AgentID := a; mr_Category := c;
     mr_Key := k; mr_Content := x; mr_CreatedAt := id |}.

Definition insert_row (r : MemoryRecord) (rows : list MemoryRecord) : option (list MemoryRecord) :=
  if decide ((key_of r ∉ key_of <$> rows) ∧ (mr_ID r ∉ mr_ID <$> rows)) then Some (rows ++ [r])
  else None.

Fixpoint update_first (k : mem_key) (c x : gostring) (rows : list MemoryRecord) :
    option (list MemoryRecord) :=
  match rows with
  | [] => None
  | r :: rows' =>
      if decide (key_of r = k) then Some (set_content c x r :: rows')
      else cons r <$> update_first k c x rows'
  end.

Definition exec_rows (sql : gostring) (args : list PgArg) (id : Z) (rows : list MemoryRecord) :
    option (list MemoryRecord) :=
  match args with
  | [] => Some rows
  | [ArgText s; ArgText u; ArgText a] =>
      if decide (sql = sql_delete_session) then Some (filter (λ r, in_session s u a r = false) rows)
      else None
  | [ArgText s; ArgText u; ArgText a; ArgText c; ArgText k; ArgText x] =>
      let r := new_row id s u a c k x in
      if decide (sql = sql_insert) then insert_row r rows
      else if decide (sql = sql_upsert) then
        match update_first (s, u, a, k) c x rows with
        | Some rows' => Some rows'
        | None => insert_row r rows
        end
      else None
  | _ => None
  end.

Definition query_rows (sql : gostring) (args : list PgArg) (rows : list MemoryRecord) :
    result (list MemoryRecord) :=
  let hit q r := bool_decide (mr_Key r = q) || Contains (mr_Content r) q in
  match args with
  | [ArgText u; ArgText a; ArgInt n] => Ok (select n (of_tenant u a) rows)
  | [ArgText s; ArgText u; ArgText a; ArgInt n] =>
      if decide (sql = sql_match) then Ok (select n (λ r, of_tenant s u r && hit a r) rows)
      else if decide (sql = sql_recent_scoped) then Ok (select n (in_session s u a) rows)
      else Ok (take (Z.to_nat n) (filter (λ r, in_session s u a r = true) rows))
  | [ArgText s; ArgText u; ArgText a; ArgText q; ArgInt n] =>
      Ok (select n (λ r, in_session s u a r && hit q r) rows)
  | _ => Err pg_error
  end.

Context {W : Type} `{!HasDb W}.

Definition db_table (w : W) : list MemoryRecord := d_rows (get_db w).
Definition db_view (w : W) : list MemoryRecord := d_view (get_db w).

Definition db_put (rows view : list MemoryRecord) (w : W) : W :=
  set_db {| d_rows := rows; d_view := view; d_next := d_next (get_db w) + 1 |} w.

Definition db_tx : Tx W :=
  {| tx_Exec := λ sql args w,
       match exec_rows sql args (d_next (get_db w)) (db_view w) with
       | Some view => (db_put (db_table w) view w, Done None)
       | None => (db_put (db_table w) (db_view w) w, Done (Some pg_error))
       end;
     tx_Commit := λ w, (db_put (db_view w) (db_view w) w, Done None);
     tx_Rollback := λ w, (db_put (db_table w) [] w, Done None) |}.

Definition db_pool : Pool W :=
  {| pool_Query := λ sql args w, (w, Done (query_rows sql args (db_table w)));
     pool_QueryText := λ _ args w, (w, Done (match args with
       | [ArgText u; ArgText a] =>
           Ok (remove_dups (mr_SessionID <$> filter (λ r, of_tenant u a r = true) (db_table w)))
       | _ => Err pg_error
       end));
     pool_QueryPairs := λ _, mret (Err pg_error);
     pool_Exec := λ sql args w,
       match exec_rows sql args (d_next (get_db w)) (db_table w) with
       | Some rows => (db_put rows (db_view w) w, Done None)
       | None => (db_put (db_table w) (db_view w) w, Done (Some pg_error))
       end;
     pool_Begin := λ w, (db_put (db_table w) (db_table w) w, Done (Ok db_tx)) |}.

Definition db_store : option (MemoryStore W) := NewMemoryStore (Some db_pool).

Lemma db_put_table rows view w :
  db_table (db_put rows view w) = rows ∧ db_view (db_put rows view w) = view.
Proof. unfold db_table, db_view, db_put. by rewrite get_set_db. Qed.

Lemma insert_row_added id s u a c k x rows rows' :
  insert_row (new_row id s u a c k x) rows = Some rows' →
  row_added (s, u, a, k) c x rows rows'.
Proof.
  unfold insert_row. case_decide as H; [|done]. intros [= <-]. destruct H as [H1 H2].
  exists (new_row id s u a c k x). split_and!; [|done..]. by rewrite Permutation_app_comm.
Qed.

Lemma update_first_updated k c x rows rows' :
  update_first k c x rows = Some rows' → row_updated k c x rows rows'.
Proof.
  revert rows'. induction rows as [|r rows IH]; intros rows'; cbn; [done|]. case_decide as Hk.
  - intros [= <-]. by exists r, rows.
  - intros (l & Hl & ->)%fmap_Some. apply IH in Hl as (r' & rest & H1 & H2 & H3).
    exists r', (r :: rest). rewrite H1, H3. split_and!; [apply Permutation_swap|done|apply Permutation_swap].
Qed.

Lemma sql_distinct :
  sql_insert ≠ sql_upsert ∧ sql_recent_scoped ≠ sql_match ∧ sql_all_session ≠ sql_match ∧
  sql_all_session ≠ sql_recent_scoped.
Proof. split_and!; by vm_compute. Qed.

#[export] Instance db_tx_laws : TxLaws db_tx db_table db_view.
Proof.
  split.
  - intros sql args w. cbn. destruct (exec_rows _ _ _ _); apply db_put_table.
  - intros s u a w w'. cbn. rewrite decide_True by done. intros [= <-].
    by rewrite (proj2 (db_put_table _ _ _)).
  - intros s u a c k x w w'. cbn -[sql_insert]. rewrite decide_True by done.
    destruct (insert_row _ _) as [rows|] eqn:E; [|done]. intros [= <-].
    rewrite (proj2 (db_put_table _ _ _)). by eapply insert_row_added.
  - intros w w'. cbn. intros [= <-]. apply db_put_table.
  - intros w. right. apply db_put_table.
  - intros w. apply db_put_table.
Qed.

Lemma db_upsert s u a c k x id rows :
  match exec_rows sql_upsert
    [ArgText s; ArgText u; ArgText a; ArgText c; ArgText k; ArgText x] id rows with
  | Some rows' => upserted (s, u, a, k) c x rows rows'
  | None => True
  end.
Proof.
  unfold exec_rows. destruct sql_distinct as [Hd _].
  rewrite (decide_False (P := sql_upsert = sql_insert)) by congruence.
  rewrite (decide_True (P := sql_upsert = sql_upsert)) by done.
  destruct (update_first _ _ _ _) eqn:E; [right; by apply update_first_updated|].
  destruct (insert_row _ _) eqn:E'; [|done]. left. by eapply insert_row_added.
Qed.

#[export] Instance db_pool_laws : PostgresLaws db_pool db_table db_view Contains.
Proof.
  destruct sql_distinct as (_ & H1 & H2 & H3). split.
  - split.
    + intros u a n w w' rows [= <- <-]. split; [apply select_newest|done].
    + intros u a q n w w' rows E. cbn -[sql_match] in E. rewrite decide_True in E by done.
      injection E as <- <-. split; [apply select_newest|done].
  - intros sql args w. done.
  - intros sql args w. done.
  - intros s u a n w w' rows E. cbn -[sql_match sql_recent_scoped] in E.
    rewrite decide_False, decide_True in E by done. injection E as <- <-. apply select_newest.
  - intros s u a q n w w' rows [= <- <-]. apply select_newest.
  - intros s u a n w w' rows E. cbn -[sql_match sql_recent_scoped sql_all_session] in E.
    rewrite !decide_False in E by done. injection E as <- <-. by eexists.
  - intros u a w w' l [= <- <-]. split; [apply NoDup_remove_dups|]. intros s.
    rewrite elem_of_remove_dups, list_elem_of_fmap. setoid_rewrite list_elem_of_filter.
    setoid_rewrite in_session_spec. split.
    + intros (r & -> & Ht & Hr). exists r. split; [done|]. by apply in_session_spec; cbv [in_session]; rewrite bool_decide_true.
    + intros (r & Hr & Hs). exists r. apply in_session_spec in Hs. cbv [in_session] in Hs.
      apply andb_true_iff in Hs as [Hs%bool_decide_eq_true Ht]. done.
  - intros s u a c k x w w' E. pose proof (db_upsert s u a c k x (d_next (get_db w)) (db_table w)) as H.
    cbn [pool_Exec db_pool] in E. destruct (exec_rows _ _ _ _); [|done]. injection E as <-.
    by rewrite (proj1 (db_put_table _ _ _)).
  - intros s u a c k x w. pose proof (db_upsert s u a c k x (d_next (get_db w)) (db_table w)) as H.
    cbn [pool_Exec db_pool]. destruct (exec_rows _ _ _ _); cbn [fst];
      rewrite (proj1 (db_put_table _ _ _)); auto.
  - intros w. apply db_put_table.
  - intros w w' tx [= <- <-]. split; [apply db_put_table|apply _].
Qed.
End server.

(** ** Witness and examples *)

#[local] Existing Instance merge_SortSlice.

Definition sample_db : DbState :=
  {| d_rows := [new_row 1 "s" "u" "a" "user" "name" "Ada";
                new_row 2 "s" "u" "a" "user" "tea" "green";
                new_row 3 "t" "u" "a" "feedback" "name" "Bob"];
     d_view := []; d_next := 4 |}.

Definition two_rows : list NewMemory :=
  [{| nm_Category := ""; nm_Key := "name"; nm_Content := "Ada L." |};
   {| nm_Category := "user"; nm_Key := "drink"; nm_Content := "green tea" |}].

(** The columns of the rows, without identifiers and times. *)
Definition columns (d : DbState) : list (gostring * gostring * gostring * gostring) :=
  (λ r, (mr_SessionID r, mr_Category r, mr_Key r, mr_Content r)) <$> d_rows d.

Lemma store_implements_map_witness :
  columns (run_cmd db_store (CmdReplace "s" "u" "a" two_rows) sample_db).1 =
    [("t", "feedback", "name", "Bob"); ("s", "reference", "name", "Ada L.");
     ("s", "user", "drink", "green tea")] ∧
  table_wf (db_table (run_cmd db_store (CmdReplace "s" "u" "a" two_rows) sample_db).1).
Proof.
  split; [vm_compute; reflexivity|].
  refine (proj1 (store_implements_map db_pool db_table db_view Contains db_pool_laws db_store
    (CmdReplace "s" "u" "a" two_rows) sample_db _ _ eq_refl _ (surjective_pairing _))).
  split; refine (bool_decide_unpack _ _); vm_compute; exact I.
Defined.

(** A later row of the same key makes the whole replacement fail. *)
Example duplicate_key_fails :
  let r := run_cmd db_store (CmdReplace "s" "u" "a" (two_rows ++ two_rows)) sample_db in
  r.2 = Done (Some pg_error) ∧ d_rows r.1 = d_rows sample_db.
Proof. vm_compute. split; reflexivity. Qed.

(** An update keeps the creation time, so a memory written again is still the oldest of
    the recent ones. *)
Example update_not_recent :
  let w := (run_cmd db_store (CmdWrite "s" "u" "a" "user" "name" "Eve") sample_db).1 in
  columns w = [("s", "user", "name", "Eve"); ("s", "user", "tea", "green");
               ("t", "feedback", "name", "Bob")] ∧
  match (ListRecentScoped db_store "s" "u" "a" 1 w).2 with
  | Done (Ok rows) => mr_Key <$> rows = ["tea"]
  | _ => False
  end.
Proof. vm_compute. split; reflexivity. Qed.
