(* ===== verification/Skills.v ===== *)
(** * The skill catalog and its tools

    [src/internal/skills] ([catalog.go], [read_memory.go], [write_memory.go],
    [spawn_pet.go]), the publisher of [internal/types] and
    [src/internal/integration/nats/publisher.go]: the tools every chat is given.  The
    JSON of the arguments and results is a parameter ([SkillCodec]), and so are the
    floating-point numbers of a spawn command. *)

From S2P Require Import Prelude GoString Identity Tools Planner Memory Env Pg PgStore.
Open Scope Z_scope.

(** ** NATS *)

(** [types.NATSPublisher]: subject and payload. *)
Definition NATSPublisher (W : Type) : Type := gostring → gostring → Go W (option goerror).

(** What the program uses of [nats.Conn]: the handler of a subscription runs on every
    message. *)
Record NatsConn (W : Type) := {
  nc_Publish : gostring → gostring → Go W (option goerror);
  nc_Subscribe : gostring → Go W unit → Go W (option goerror);
}.
Arguments nc_Publish {_} _ _ _.
Arguments nc_Subscribe {_} _ _ _.

(** [ConnPublisher]: the connection may be nil, and so may the publisher; the error of
    the connection is dropped. *)
Record ConnPublisher (W : Type) := { cp_conn : option (NatsConn W) }.
Arguments cp_conn {_} _.

Definition NewConnPublisher {W} (conn : option (NatsConn W)) : option (ConnPublisher W) :=
  Some {| cp_conn := conn |}.

Definition ConnPublisher_Publish {W} (p : option (ConnPublisher W)) : NATSPublisher W :=
  λ subject payload,
  match p with
  | None => mret None
  | Some p =>
      match cp_conn p with
      | None => mret None
      | Some conn => discard (nc_Publish conn subject payload) ;; mret None
      end
  end.

(** ** Arguments and results *)

Record SpawnInput (F : Type) := {
  sp_PetType : gostring;
  sp_X : F;
  sp_Y : F;
  sp_PetID : gostring;
}.
Arguments sp_PetType {_} _.
Arguments sp_X {_} _.
Arguments sp_Y {_} _.
Arguments sp_PetID {_} _.

Record WriteInput := { wi_Key : gostring; wi_Content : gostring; wi_Category : gostring }.

Record ReadItem := {
  ri_ID : Z;
  ri_Category : gostring;
  ri_Key : gostring;
  ri_Content : gostring;
  ri_CreatedAt : gostring;
}.

(** A value of the spawn command. *)
Inductive CommandValue (F : Type) :=
| CommandText (s : gostring)
| CommandNumber (x : F).
Arguments CommandText {_} _.
Arguments CommandNumber {_} _.

(** JSON, and the verb [%.3f]. *)
Class SkillCodec (F : Type) := {
  unmarshal_spawn : gostring → result (SpawnInput F);
  marshal_command : list (gostring * CommandValue F) → result gostring;
  format_3f : F → gostring;
  unmarshal_read : gostring → result (gostring * Z);
  unmarshal_write : gostring → result WriteInput;
  marshal_items : list ReadItem → gostring;
}.

Definition schema_object (properties : list (gostring * any)) (required : list gostring) :
    list (gostring * any) :=
  [("type", AnyString "object"); ("properties", AnyMap properties);
   ("required", AnyStrings required)].
Definition schema_type (t : gostring) : any := AnyMap [("type", AnyString t)].
Definition schema_described (t d : gostring) : any :=
  AnyMap [("type", AnyString t); ("description", AnyString d)].

Section skills.
Context `{UT : UnicodeTables} {W : Type} `{HO : Host W} `{EN : Environ W}.
Context {F : Type} `{SC : SkillCodec F}.

(** ** [SpawnPet] *)

Definition SpawnPet_Definition : ToolDef :=
  {| d_Type := "function"; d_Name := "SpawnPet";
     d_Description := "Spawn a pet in the sandbox at coordinates (x,y).";
     d_Parameters := schema_object
       [("pet_type", schema_described "string" "Pet type (e.g. cat, slime).");
        ("x", schema_described "number" "X coordinate.");
        ("y", schema_described "number" "Y coordinate.");
        ("pet_id", schema_described "string" "Optional stable id.")]
       ["pet_type"; "x"; "y"] |}.

(** The answer of a spawn. *)
Definition spawn_text (i : SpawnInput F) : gostring :=
  (if decide (sp_PetID i = []) then "Spawned pet: " ++ sp_PetType i ++ " at ("
   else "Spawned pet: " ++ sp_PetType i ++ " (id=" ++ sp_PetID i ++ ") at (") ++
  format_3f (sp_X i) ++ ", " ++ format_3f (sp_Y i) ++ ").".

Definition SpawnPet_Execute (nats : option (NATSPublisher W)) (tcx : Context) (input : gostring) :
    Go W (result gostring) :=
  match unmarshal_spawn input with
  | Err e => mret (Err (WrapError ("SpawnPet: " ++ error_text e) e))
  | Ok i =>
      if decide (sp_PetType i = []) then mret (Err (ErrorString "pet_type required"))
      else
        go_try (match nats with
                | None => mret (Ok tt)
                | Some publish =>
                    match marshal_command
                      [("action", CommandText "spawn_pet"); ("type", CommandText (sp_PetType i));
                       ("x", CommandNumber (sp_X i)); ("y", CommandNumber (sp_Y i))] with
                    | Err e => mret (Err e)
                    | Ok b =>
                        e ← publish "world.admin.command" b;
                        mret match e with
                             | Some e => Err (WrapError ("nats publish: " ++ error_text e) e)
                             | None => Ok tt
                             end
                    end
                end) (λ _, mret (Ok (spawn_text i)))
  end.

Definition NewSpawnPetTool (nats : option (NATSPublisher W)) : Tool W :=
  {| t_Name := "SpawnPet"; t_Definition := SpawnPet_Definition;
     t_Execute := SpawnPet_Execute nats |}.

(** ** [ReadMemory] *)

Definition ReadMemory_Definition : ToolDef :=
  {| d_Type := "function"; d_Name := "ReadMemory";
     d_Description := Join
       ["Retrieve long-term memory for this user and assistant across all chat sessions";
        "(same agent_id), not only the current conversation.";
        "Query matches key exactly or searches within content (case-insensitive)."] " ";
     d_Parameters := schema_object
       [("query", schema_type "string");
        ("limit", schema_described "integer" "1-20, default 10")] ["query"] |}.

Definition read_item (r : MemoryRecord) : ReadItem :=
  {| ri_ID := mr_ID r; ri_Category := mr_Category r; ri_Key := mr_Key r;
     ri_Content := mr_Content r; ri_CreatedAt := format_RFC3339 (W := W) (mr_CreatedAt r) |}.

Definition store_unavailable : goerror := ErrorString "memory store not available".

Definition ReadMemory_Execute (pg : option (MemoryStore W)) (tcx : Context) (input : gostring) :
    Go W (result gostring) :=
  match pg with
  | None => mret (Err store_unavailable)
  | Some _ =>
      match unmarshal_read input with
      | Err e => mret (Err e)
      | Ok (query, n) =>
          let q := TrimSpace query in
          if decide (q = []) then mret (Err (ErrorString "query required"))
          else
            let limit := if n <=? 0 then 10 else n in
            go_try (ReadForTenant pg (UserID (cx_Scope tcx)) (AgentID (cx_Scope tcx)) q limit)
              (λ rows, mret (Ok (marshal_items (read_item <$> rows))))
      end
  end.

Definition NewReadMemoryTool (pg : option (MemoryStore W)) : Tool W :=
  {| t_Name := "ReadMemory"; t_Definition := ReadMemory_Definition;
     t_Execute := ReadMemory_Execute pg |}.

(** ** [WriteMemory] *)

Definition WriteMemory_Definition : ToolDef :=
  {| d_Type := "function"; d_Name := "WriteMemory";
     d_Description := Join
       ["Persist long-term memory for this session and tenant.";
        "Optional category: user, feedback, project, reference (default reference).";
        "Do not store secrets (API keys, tokens, passwords)."] " ";
     d_Parameters := schema_object
       [("key", schema_type "string"); ("content", schema_type "string");
        ("category", schema_described "string" "user|feedback|project|reference")]
       ["key"; "content"] |}.

(** The four categories of the taxonomy. *)
Definition taxonomy : list Category :=
  [CategoryUser; CategoryFeedback; CategoryProject; CategoryRef].

Definition known_category (category : gostring) : Category :=
  let cat := TrimSpace category in
  let cat := if decide (cat = []) then CategoryRef else cat in
  if decide (cat ∈ taxonomy) then cat else CategoryRef.

Definition WriteMemory_Execute (pg : option (MemoryStore W)) (tcx : Context) (input : gostring) :
    Go W (result gostring) :=
  match pg with
  | None => mret (Err store_unavailable)
  | Some _ =>
      match unmarshal_write input with
      | Err e => mret (Err e)
      | Ok i =>
          let key := TrimSpace (wi_Key i) in
          let content := TrimSpace (wi_Content i) in
          if decide (key = [] ∨ content = []) then
            mret (Err (ErrorString "key and content required"))
          else if (200 <? len key) || (8000 <? len content) then
            mret (Err (ErrorString "key or content too long"))
          else
            let cat := known_category (wi_Category i) in
            e ← WriteScoped pg (cx_SessionID tcx) (UserID (cx_Scope tcx)) (AgentID (cx_Scope tcx))
                  cat key content;
            mret match e with
                 | Some e => Err e
                 | None => Ok ("Memory written: key=" ++ Quote key ++ " category=" ++ cat)
                 end
      end
  end.

Definition NewWriteMemoryTool (pg : option (MemoryStore W)) : Tool W :=
  {| t_Name := "WriteMemory"; t_Definition := WriteMemory_Definition;
     t_Execute := WriteMemory_Execute pg |}.

(** ** The catalog *)

(** The skill bundle every chat uses. *)
Definition DefaultSkillID : gostring := "default".

Record Catalog := {
  ca_PG : option (MemoryStore W);
  ca_NATS : option (NATSPublisher W);
}.

(** [v == "1" || v == "true" || v == "yes" || v == "on"]. *)
Definition env_on (v : gostring) : bool :=
  bool_decide (ToLower (TrimSpace v) ∈ (["1"; "true"; "yes"; "on"] : list gostring)).

Definition spawnPetDisabled (w : W) : bool := env_on (Getenv "DISABLE_SPAWN_PET" w).

Definition coreTools (c : Catalog) (w : W) : list (Tool W) :=
  (if spawnPetDisabled w then [] else [NewSpawnPetTool (ca_NATS c)]) ++
  [NewReadMemoryTool (ca_PG c); NewWriteMemoryTool (ca_PG c)].

(** The loop over the skill ids. *)
Fixpoint collect_ids (c : Catalog) (w : W) (seen : gset gostring) (out : list (Tool W))
    (ids : list gostring) : result (list (Tool W)) :=
  match ids with
  | [] => Ok out
  | id :: ids' =>
      if decide (id = DefaultSkillID) then
        let '(seen', out') := add_unseen seen out (coreTools c w) in
        collect_ids c w seen' out' ids'
      else Err (ErrorString ("skills: unknown skill id " ++ Quote id))
  end.

Definition ToolsForSkills (c : Catalog) : SkillCatalog W := λ ids w,
  if decide (ids = []) then Ok (coreTools c w)
  else SortByName t_Name <$> collect_ids c w ∅ [] ids.
End skills.
Arguments Catalog : clear implicits.

(** ** Rows of the memory *)

(** What the program's writers keep of a row: a category of the taxonomy, a key of 1 to
    200 bytes and a content of 1 to 8000, both trimmed. *)
Record cols_wf (c k x : gostring) : Prop := {
  wf_category : c ∈ taxonomy;
  wf_key : k ≠ [] ∧ len k ≤ 200 ∧ TrimSpace k = k;
  wf_content : x ≠ [] ∧ len x ≤ 8000 ∧ TrimSpace x = x;
}.

Definition row_wf (r : MemoryRecord) : Prop := cols_wf (mr_Category r) (mr_Key r) (mr_Content r).

Definition memory_wf (tbl : list MemoryRecord) : Prop := table_wf tbl ∧ Forall row_wf tbl.

Lemma taxonomy_not_empty c : c ∈ taxonomy → or_reference c = c.
Proof.
  unfold or_reference. intros H. case_decide as E; [|done]. subst.
  assert (bool_decide ([] ∈ taxonomy) = false) as Hn by (vm_compute; reflexivity).
  by apply bool_decide_eq_false in Hn.
Qed.

Lemma known_category_taxonomy s : known_category s ∈ taxonomy.
Proof.
  unfold known_category. cbn zeta. case_decide; case_decide; try done;
    (refine (bool_decide_unpack _ _); exact I).
Qed.

(** The test the three writers make on a trimmed key and content. *)
Lemma cols_wf_trimmed c k x :
  c ∈ taxonomy → ¬ (TrimSpace k = [] ∨ TrimSpace x = []) →
  (200 <? len (TrimSpace k)) || (8000 <? len (TrimSpace x)) = false →
  cols_wf c (TrimSpace k) (TrimSpace x).
Proof.
  intros Hc Hne [Hk%Z.ltb_ge Hx%Z.ltb_ge]%orb_false_iff.
  split; [done| |]; (split_and!; [tauto|done|apply TrimSpace_idem]).
Qed.

Lemma row_added_rows s u a k c x t t' :
  cols_wf c k x → row_added (s, u, a, k) c x t t' → Forall row_wf t → Forall row_wf t'.
Proof.
  intros Hc (r & -> & Hk & _ & _ & <- & <-) Ht. constructor; [|done].
  unfold row_wf. injection Hk as _ _ _ ->. done.
Qed.

Lemma upserted_memory_wf s u a k c x t t' :
  cols_wf c k x → upserted (s, u, a, k) (or_reference c) x t t' → memory_wf t → memory_wf t'.
Proof.
  intros Hc H [Hw Hr]. split; [by eapply upserted_contents|].
  rewrite (taxonomy_not_empty c) in H by apply Hc.
  destruct H as [H|(r & rest & Ht & Hk & ->)]; [by eapply row_added_rows|].
  rewrite Ht in Hr. apply Forall_cons in Hr as [_ Hr]. constructor; [|done].
  unfold row_wf. cbn. injection Hk as _ _ _ ->. done.
Qed.

Lemma replaced_memory_wf s u a rows t t' :
  Forall (λ n, cols_wf (nm_Category n) (nm_Key n) (nm_Content n)) rows →
  replaced s u a rows t t' → memory_wf t → memory_wf t'.
Proof.
  intros Hc H [Hw Hr]. split; [by eapply replaced_spec|]. destruct H as (t0 & Ht & H).
  assert (Forall row_wf t0) as Hr0.
  { rewrite Ht. apply Forall_forall. intros r [_ Hin]%list_elem_of_filter.
    by eapply Forall_forall in Hr. }
  clear Ht Hr Hw t. induction H as [|n rows t t1 t2 H _ IH]; [done|].
  apply Forall_cons in Hc as [Hn Hc]. apply IH; [done|].
  rewrite (taxonomy_not_empty (nm_Category n)) in H by apply Hn. by eapply row_added_rows.
Qed.

(** ** Lemmas on the catalog *)

Section catalog_lemmas.
Context `{UT : UnicodeTables} {W : Type} `{HO : Host W} `{EN : Environ W}.
Context {F : Type} `{SC : SkillCodec F}.

Definition core_names (w : W) : list gostring :=
  (if spawnPetDisabled w then [] else ["SpawnPet"]) ++ ["ReadMemory"; "WriteMemory"].

Lemma coreTools_names (c : Catalog W) w : t_Name <$> coreTools c w = core_names w.
Proof. unfold coreTools, core_names. by destruct (spawnPetDisabled w). Qed.

Lemma core_names_NoDup w : NoDup (core_names w).
Proof.
  unfold core_names. destruct (spawnPetDisabled w); refine (bool_decide_unpack _ _); exact I.
Qed.

Lemma add_unseen_fresh (seen : gset gostring) (out ts : list (Tool W)) :
  NoDup (t_Name <$> ts) → (∀ t, t ∈ ts → t_Name t ∉ seen) →
  add_unseen seen out ts = (list_to_set (t_Name <$> ts) ∪ seen, out ++ ts).
Proof.
  revert seen out. induction ts as [|t ts IH]; intros seen out; cbn [fmap list_fmap].
  { intros _ _. cbn. rewrite app_nil_r. f_equal. set_solver. }
  intros [Ht Hnd]%NoDup_cons Hs. cbn [add_unseen]. rewrite decide_False by (apply Hs; left).
  rewrite IH; [|done|].
  - cbn. rewrite <- app_assoc. f_equal. set_solver.
  - intros t' Hin. apply not_elem_of_union. split; [|apply Hs; by right].
    rewrite elem_of_singleton. intros He. apply Ht. rewrite <- He. by apply list_elem_of_fmap_2.
Qed.

Lemma add_unseen_seen (seen : gset gostring) (out ts : list (Tool W)) :
  (∀ t, t ∈ ts → t_Name t ∈ seen) → add_unseen seen out ts = (seen, out).
Proof.
  revert seen out. induction ts as [|t ts IH]; intros seen out Hs; [done|]. cbn.
  rewrite decide_True by (apply Hs; left). apply IH. intros t' H. apply Hs. by right.
Qed.

(** Once the bundle is in, more ids change nothing or are unknown. *)
Lemma collect_ids_seen (c : Catalog W) w ids :
  collect_ids c w (list_to_set (core_names w)) (coreTools c w) ids =
  match find (λ id, negb (bool_decide (id = DefaultSkillID))) ids with
  | None => Ok (coreTools c w)
  | Some id => Err (ErrorString ("skills: unknown skill id " ++ Quote id))
  end.
Proof.
  induction ids as [|id ids IH]; [done|]. cbn [collect_ids find]. case_decide as E.
  - rewrite bool_decide_true by done. cbn [negb].
    rewrite add_unseen_seen; [done|]. intros t Ht. apply elem_of_list_to_set.
    rewrite <- (coreTools_names c). by apply list_elem_of_fmap_2.
  - by rewrite bool_decide_false.
Qed.

Lemma collect_ids_default (c : Catalog W) w ids :
  ids ≠ [] →
  collect_ids c w ∅ [] ids =
  match find (λ id, negb (bool_decide (id = DefaultSkillID))) ids with
  | None => Ok (coreTools c w)
  | Some id => Err (ErrorString ("skills: unknown skill id " ++ Quote id))
  end.
Proof.
  destruct ids as [|id ids]; [done|]. intros _. cbn [collect_ids find]. case_decide as E.
  - rewrite bool_decide_true by done. cbn [negb]. rewrite add_unseen_fresh.
    + rewrite coreTools_names, union_empty_r_L. apply collect_ids_seen.
    + rewrite coreTools_names. apply core_names_NoDup.
    + intros t _. apply not_elem_of_empty.
  - by rewrite bool_decide_false.
Qed.

(** The tools of any list of ids are the bundle, in some order. *)
Lemma ToolsForSkills_core (c : Catalog W) ids w ts :
  ToolsForSkills c ids w = Ok ts → ts ≡ₚ coreTools c w.
Proof.
  unfold ToolsForSkills. case_decide as E; [by intros [= <-]|].
  rewrite collect_ids_default by done. destruct (find _ ids); [done|]. intros [= <-].
  apply SortByName_Permutation.
Qed.
End catalog_lemmas.

(** ** Lemmas on the tools *)

(** What a call on behalf of a session may do to the table: rows of other sessions are
    the same, and a well-formed memory stays so. *)
Definition confined (s u a : gostring) (tbl tbl' : list MemoryRecord) : Prop :=
  keeps_outside (in_session s u a) tbl tbl' ∧ (memory_wf tbl → memory_wf tbl').

#[export] Instance confined_preorder s u a : PreOrder (confined s u a).
Proof.
  split; [by split|]. intros t1 t2 t3 [H1 H2] [H3 H4]. split; [by etrans|auto].
Qed.

Lemma confined_same s u a tbl tbl' : tbl' = tbl → confined s u a tbl tbl'.
Proof. by intros ->. Qed.

#[export] Instance confined_world_preorder {W} (table : W → list MemoryRecord) s u a :
  PreOrder (λ w w' : W, confined s u a (table w) (table w')).
Proof. split; [intros w; reflexivity|]. intros w1 w2 w3 H1 H2. by etrans. Qed.

Section tool_lemmas.
Context `{UT : UnicodeTables} {W : Type} `{HO : Host W} `{EN : Environ W}.
Context {F : Type} `{SC : SkillCodec F}.

(** A call of a tool of the bundle changes the world as the publisher, the reads of its
    tenant and its own well-formed writes do. *)
Lemma coreTools_rel (R : relation W) `{!PreOrder R} (c : Catalog W) w0 t tcx input :
  (∀ publish, ca_NATS c = Some publish → ∀ subj b, go_rel R (publish subj b)) →
  (∀ q n, go_rel R (ReadForTenant (ca_PG c) (UserID (cx_Scope tcx)) (AgentID (cx_Scope tcx)) q n)) →
  (∀ cat k x, cols_wf cat k x →
     go_rel R (WriteScoped (ca_PG c) (cx_SessionID tcx) (UserID (cx_Scope tcx))
                 (AgentID (cx_Scope tcx)) cat k x)) →
  t ∈ coreTools c w0 → go_rel R (t_Execute t tcx input).
Proof.
  intros Hn Hread Hwrite Ht.
  assert (t = NewSpawnPetTool (ca_NATS c) ∨ t = NewReadMemoryTool (ca_PG c) ∨
          t = NewWriteMemoryTool (ca_PG c)) as [->|[->| ->]].
  { unfold coreTools in Ht. destruct (spawnPetDisabled w0); set_solver. }
  - cbn. unfold SpawnPet_Execute. destruct (unmarshal_spawn input) as [i|e]; [|apply go_rel_ret, _].
    case_decide; [apply go_rel_ret, _|]. apply go_rel_try; [done| |intros; apply go_rel_ret, _].
    destruct (ca_NATS c) as [publish|]; [|apply go_rel_ret, _].
    destruct (marshal_command _); [|apply go_rel_ret, _].
    apply go_rel_bind; [done|by apply Hn|intros; apply go_rel_ret, _].
  - cbn. unfold ReadMemory_Execute. destruct (ca_PG c) as [st|] eqn:E; [|apply go_rel_ret, _].
    destruct (unmarshal_read input) as [[q n]|e]; [|apply go_rel_ret, _].
    case_decide; [apply go_rel_ret, _|]. apply go_rel_try; [done|apply Hread|].
    intros; apply go_rel_ret, _.
  - cbn. unfold WriteMemory_Execute. destruct (ca_PG c) as [st|] eqn:E; [|apply go_rel_ret, _].
    destruct (unmarshal_write input) as [i|e]; [|apply go_rel_ret, _].
    case_decide; [apply go_rel_ret, _|].
    destruct ((200 <? _) || _) eqn:El; [apply go_rel_ret, _|].
    apply go_rel_bind; [done| |intros; apply go_rel_ret, _].
    apply Hwrite, cols_wf_trimmed; [apply known_category_taxonomy|done..].
Qed.

Context (pool : Pool W) (table view : W → list MemoryRecord) (like : gostring → gostring → bool)
  `{L : !PostgresLaws pool table view like}.

(** The store's own pool, when it has one. *)
Definition store_on (pg : option (MemoryStore W)) : Prop := ∀ p, pool_of pg = Some p → p = pool.

Lemma WriteScoped_confined pg s u a c k x :
  store_on pg → cols_wf c k x →
  go_rel (λ w w', confined s u a (table w) (table w')) (WriteScoped pg s u a c k x).
Proof.
  intros Hpg Hc w. destruct (WriteScoped pg s u a c k x w) as [w' o] eqn:E. cbn.
  destruct (pool_of pg) as [p|] eqn:Ep.
  - rewrite (Hpg p Ep) in Ep.
    apply (WriteScoped_run pool table view like pg Ep) in E as [E|[_ E]]; [|by apply confined_same].
    split; [by eapply upserted_outside|by eapply upserted_memory_wf].
  - unfold WriteScoped in E. rewrite Ep in E. injection E as <- _. reflexivity.
Qed.

Lemma ReplaceSessionMemories_confined pg s u a rows :
  store_on pg → Forall (λ n, cols_wf (nm_Category n) (nm_Key n) (nm_Content n)) rows →
  go_rel (λ w w', confined s u a (table w) (table w')) (ReplaceSessionMemories pg s u a rows).
Proof.
  intros Hpg Hc w. destruct (ReplaceSessionMemories pg s u a rows w) as [w' o] eqn:E. cbn.
  destruct (pool_of pg) as [p|] eqn:Ep.
  - rewrite (Hpg p Ep) in Ep.
    apply (ReplaceSessionMemories_run pool table view like pg Ep) in E as [E|[_ E]];
      [|by apply confined_same].
    split; [by eapply replaced_outside|by eapply replaced_memory_wf].
  - unfold ReplaceSessionMemories in E. rewrite Ep in E. injection E as <- _. reflexivity.
Qed.

Lemma ReadForTenant_keeps pg u a q n :
  store_on pg → go_rel (λ w w', table w' = table w) (ReadForTenant pg u a q n).
Proof.
  intros Hpg. unfold ReadForTenant. destruct (pool_of pg) as [p|] eqn:Ep; [|by intros w].
  rewrite (Hpg p Ep). apply pg_Query_keeps.
Qed.

Lemma keeps_confined {A} (m : Go W A) s u a :
  go_rel (λ w w', table w' = table w) m → go_rel (λ w w', confined s u a (table w) (table w')) m.
Proof. intros Hm w. apply confined_same, Hm. Qed.

Lemma coreTools_confined (c : Catalog W) w0 t tcx input :
  store_on (ca_PG c) →
  (∀ publish, ca_NATS c = Some publish →
     ∀ subj b, go_rel (λ w w', table w' = table w) (publish subj b)) →
  t ∈ coreTools c w0 →
  go_rel (λ w w', confined (cx_SessionID tcx) (UserID (cx_Scope tcx)) (AgentID (cx_Scope tcx))
    (table w) (table w')) (t_Execute t tcx input).
Proof.
  intros Hpg Hn. apply coreTools_rel; [apply _| | |].
  - intros publish Hp subj b. by apply keeps_confined, Hn.
  - intros q n. by apply keeps_confined, ReadForTenant_keeps.
  - intros cat k x. by apply WriteScoped_confined.
Qed.

Lemma upserted_row k c x t t' :
  upserted k c x t t' →
  ∃ r, r ∈ t' ∧ key_of r = k ∧ mr_Category r = c ∧ mr_Content r = x.
Proof.
  intros [(r & Ht & Hk & _ & _ & Hc & Hx)|(r & rest & _ & Hk & Ht)].
  - exists r. rewrite Ht. split; [left|done].
  - exists (set_content c x r). rewrite Ht. split; [left|done].
Qed.

(** All the rows, when there are no more than the limit. *)
Lemma newest_all n P tbl rows r :
  newest n P tbl rows → len (filter (λ r, P r = true) tbl) ≤ n → r ∈ tbl → P r = true → r ∈ rows.
Proof.
  intros (l & Hl & _ & ->) Hn Hr HP. rewrite take_ge.
  - rewrite Hl. by apply list_elem_of_filter.
  - apply Permutation_length in Hl. unfold len in Hn. lia.
Qed.
End tool_lemmas.

(** ** Properties *)

Section properties.
Context `{UT : UnicodeTables} {W : Type} `{HO : Host W} `{EN : Environ W}.
Context {F : Type} `{SC : SkillCodec F} `{TD : TodoDecoder}.

(** The names of the bundle, sorted. *)
Definition sorted_names (w : W) : list gostring :=
  if spawnPetDisabled w then ["ReadMemory"; "WriteMemory"]
  else ["ReadMemory"; "SpawnPet"; "WriteMemory"].

Lemma SortByName_core (c : Catalog W) w : t_Name <$> SortByName t_Name (coreTools c w) = sorted_names w.
Proof. unfold coreTools, sorted_names. destruct (spawnPetDisabled w); vm_compute; reflexivity. Qed.

(** The bundle of a chat. *)
Lemma ToolsForSkills_default (c : Catalog W) w :
  ToolsForSkills c [DefaultSkillID] w = Ok (SortByName t_Name (coreTools c w)).
Proof. unfold ToolsForSkills. rewrite decide_False, collect_ids_default by done. reflexivity. Qed.

(** Distinct, non-empty names make a registry. *)
Lemma NewRegistry_names (ts : list (Tool W)) :
  NoDup (t_Name <$> ts) → Forall (λ n, n ≠ []) (t_Name <$> ts) → is_Ok (NewRegistry ts).
Proof.
  intros Hnd Hne. unfold NewRegistry. destruct (register_all ∅ ts) as [m|e] eqn:E; [by eexists|].
  assert (register_all ∅ ts = Ok (foldl (λ m t, <[t_Name t := t]> m) ∅ ts)) as Hr; [|congruence].
  apply register_all_Ok. split_and!; [exact (proj1 (Forall_fmap t_Name (λ n, n ≠ []) ts) Hne)|done|by intros; apply lookup_empty|done].
Qed.

(** C35: the catalog gives every chat a consistent set of tools, whatever the process
    environment: it accepts exactly the built-in bundle, however often it is named;
    the tools are then [ReadMemory], [WriteMemory] and, unless it is disabled,
    [SpawnPet], each once, sorted by name when ids are given; and together with the
    todo tools the engine adds they always form a registry. *)
Theorem ToolsForSkills_registry (c : Catalog W) (ids : list gostring) (w : W)
    (todos : option (Planner.Store W)) :
  match ToolsForSkills c ids w with
  | Ok ts =>
      (∀ id, id ∈ ids → id = DefaultSkillID) ∧
      t_Name <$> ts = (if decide (ids = []) then core_names w else sorted_names w) ∧
      is_Ok (NewRegistry (ts ++ BuiltinTools todos))
  | Err _ => ∃ id, id ∈ ids ∧ id ≠ DefaultSkillID
  end.
Proof.
  assert (∀ ts, ts ≡ₚ coreTools c w → is_Ok (NewRegistry (ts ++ BuiltinTools todos))) as Hreg.
  { intros ts Hp. assert (t_Name <$> ts ++ BuiltinTools todos ≡ₚ
      core_names w ++ match todos with None => [] | Some _ => BuiltinToolNames end) as Hn
      by (rewrite fmap_app, Hp, coreTools_names; by destruct todos).
    apply NewRegistry_names; rewrite Hn; unfold core_names;
      destruct (spawnPetDisabled w), todos; refine (bool_decide_unpack _ _); exact I. }
  unfold ToolsForSkills. case_decide as E.
  - subst. split_and!; [intros id Hin; by apply not_elem_of_nil in Hin|apply coreTools_names|by apply Hreg].
  - rewrite collect_ids_default by done. destruct (find _ ids) as [id|] eqn:Ef.
    + apply find_some in Ef as [Hin%list_elem_of_In Hid]. exists id. split; [done|].
      by case_bool_decide.
    + split_and!; [|apply SortByName_core|apply Hreg, SortByName_Permutation].
      intros id Hin%list_elem_of_In. eapply find_none in Ef; [|done]. cbn in Ef. by case_bool_decide.
Qed.

(** C15: the tools of a chat stay in its session and tenant: whatever arguments the
    model gives a tool of the catalog, and however the call ends, the memories
    outside the session and tenant of the call are the same afterwards, and a
    well-formed memory (distinct keys and identifiers; categories of the taxonomy,
    keys of 1 to 200 and contents of 1 to 8000 bytes, trimmed) stays well formed. *)
Theorem catalog_tools_confined (pool : Pool W) (table view : W → list MemoryRecord)
    (like : gostring → gostring → bool) (L : PostgresLaws pool table view like)
    (c : Catalog W) (ids : list gostring) (ts : list (Tool W)) (t : Tool W)
    (tcx : Context) (input : gostring) (w0 w w' : W) (o : outcome (result gostring)) :
  store_on pool (ca_PG c) →
  (∀ publish, ca_NATS c = Some publish →
     ∀ subj b, go_rel (λ w w', table w' = table w) (publish subj b)) →
  ToolsForSkills c ids w0 = Ok ts → t ∈ ts → t_Execute t tcx input w = (w', o) →
  keeps_outside (in_session (cx_SessionID tcx) (UserID (cx_Scope tcx)) (AgentID (cx_Scope tcx)))
    (table w) (table w') ∧
  (memory_wf (table w) → memory_wf (table w')).
Proof.
  intros Hpg Hn Hts Ht E. apply ToolsForSkills_core in Hts. rewrite Hts in Ht.
  exact (go_rel_run _ _ _ _ _ (coreTools_confined pool table view like c w0 t tcx input Hpg Hn Ht) E).
Qed.

(** C32: what [WriteMemory] stores, [ReadMemory] finds: after a successful write, a
    read of the trimmed key from any session of the same tenant, that succeeds, shows
    an entry with this key, the trimmed content and the normalised category, unless
    more rows match than the limit lets through; every entry it shows is a row of
    the tenant, and reading changes nothing. *)
Theorem WriteMemory_ReadMemory (pool : Pool W) (table view : W → list MemoryRecord)
    (like : gostring → gostring → bool) (L : PostgresLaws pool table view like)
    (pg : option (MemoryStore W)) (tcx tcx' : Context) (input input' msg out query : gostring)
    (i : WriteInput) (n : Z) (w w1 w2 : W) :
  pool_of pg = Some pool → cx_Scope tcx' = cx_Scope tcx →
  unmarshal_write input = Ok i → unmarshal_read input' = Ok (query, n) →
  TrimSpace query = TrimSpace (wi_Key i) →
  WriteMemory_Execute pg tcx input w = (w1, Done (Ok msg)) →
  ReadMemory_Execute pg tcx' input' w1 = (w2, Done (Ok out)) →
  let u := UserID (cx_Scope tcx) in
  let a := AgentID (cx_Scope tcx) in
  let key := TrimSpace (wi_Key i) in
  let hits := filter (λ r, of_tenant u a r &&
                (bool_decide (mr_Key r = key) || like (mr_Content r) key) = true) (table w1) in
  ∃ rows, out = marshal_items (read_item <$> rows) ∧ table w2 = table w1 ∧
    (∀ r, r ∈ rows → r ∈ table w1 ∧ of_tenant u a r = true) ∧
    (len hits ≤ clamp_limit 10 (if n <=? 0 then 10 else n) →
     ∃ r, r ∈ rows ∧ mr_Key r = key ∧ mr_Content r = TrimSpace (wi_Content i) ∧
       mr_Category r = known_category (wi_Category i)).
Proof.
  intros Hpool Hcx Hi Hr Hq Ew Er u a key hits.
  destruct pg as [st|]; [|done]. unfold WriteMemory_Execute in Ew. rewrite Hi in Ew.
  case_decide; [by apply go_ret_Done in Ew as [_ ?]|].
  destruct ((200 <? _) || _); [by apply go_ret_Done in Ew as [_ ?]|].
  apply go_bind_Done in Ew as (w3 & e & Ew & E3). apply go_ret_Done in E3 as [-> E3].
  destruct e; [done|]. unfold WriteScoped in Ew. rewrite Hpool in Ew.
  apply pg_upsert_Done, upserted_row in Ew as (r & Hin & Hk & Hc & Hx).
  unfold ReadMemory_Execute in Er. rewrite Hr in Er. case_decide; [by apply go_ret_Done in Er as [_ ?]|].
  apply go_try_Ok in Er as (w4 & rows & Er & E4). apply go_ret_Done in E4 as [-> [= ->]].
  unfold ReadForTenant in Er. rewrite Hpool, Hq, Hcx in Er.
  apply query_match in Er as [Hn Ht]. exists rows. split_and!; [done|done| |].
  - intros r' Hr'. eapply newest_subset in Hr' as [? Hr']; [|done].
    split; [done|]. by apply andb_true_iff in Hr' as [? _].
  - intros Hlen. exists r. injection Hk as _ Hu Ha Hk.
    split_and!; [|done|done|by rewrite Hc, (taxonomy_not_empty _ (known_category_taxonomy _))].
    eapply newest_all; [exact Hn|done|done|]. unfold of_tenant.
    by rewrite !bool_decide_true by done.
Qed.
End properties.

(** ** Witnesses and examples *)

(** A process: its database, its environment and what it published. *)
Record Process := {
  pr_db : DbState;
  pr_env : gmap gostring gostring;
  pr_sent : list (gostring * gostring);
}.

#[export] Instance Process_HasDb : HasDb Process :=
  {| get_db := pr_db; set_db d w := {| pr_db := d; pr_env := pr_env w; pr_sent := pr_sent w |};
     get_set_db _ _ := eq_refl |}.

#[export] Instance Process_Environ : Environ Process := pr_env.

#[export] Instance Process_SetEnviron : SetEnviron Process :=
  {| set_environ e w := {| pr_db := pr_db w; pr_env := e; pr_sent := pr_sent w |};
     environ_set _ _ := eq_refl |}.

#[export] Instance Process_Host : Host Process :=
  {| GOOS := "linux"; GOARCH := "amd64"; format_RFC3339 := FormatInt; format_request := FormatInt;
     go_spawn := λ m w, (m w).1 |}.

Definition sample_publisher : NATSPublisher Process := λ subj b w,
  ({| pr_db := pr_db w; pr_env := pr_env w; pr_sent := pr_sent w ++ [(subj, b)] |}, Done None).

(** Arguments are taken from the text itself: a write stores it under [ name ], a read
    asks for it. *)
#[local] Instance sample_skill_codec : SkillCodec Z :=
  {| unmarshal_spawn := λ s,
       Ok {| sp_PetType := s; sp_X := 1; sp_Y := 2; sp_PetID := [] |};
     marshal_command := λ kvs, Ok (Join kvs.*1 ",");
     format_3f := λ x, FormatInt x ++ ".000";
     unmarshal_read := λ s, Ok (s, 0);
     unmarshal_write := λ s,
       Ok {| wi_Key := " name "; wi_Content := s; wi_Category := "friend" |};
     marshal_items := λ l, Join ((λ i, ri_Category i ++ "/" ++ ri_Key i ++ "=" ++ ri_Content i) <$> l) ";" |}.

#[local] Existing Instance ascii_tables.

Definition sample_process : Process :=
  {| pr_db := sample_db; pr_env := ∅; pr_sent := [] |}.

Definition sample_catalog : Catalog Process :=
  {| ca_PG := db_store; ca_NATS := Some sample_publisher |}.

Lemma sample_memory_wf : memory_wf (db_table sample_process).
Proof.
  split; [split; refine (bool_decide_unpack _ _); vm_compute; exact I|].
  repeat constructor; try (refine (bool_decide_unpack _ _); vm_compute; exact I); by vm_compute.
Qed.

Lemma sample_store_on : store_on (W := Process) db_pool db_store.
Proof. by intros p [= <-]. Qed.

Lemma catalog_tools_confined_witness :
  let t := NewWriteMemoryTool db_store in
  let w' := (t_Execute t (sample_cx []) "Ada L." sample_process).1 in
  columns (pr_db w') = [("s", "reference", "name", "Ada L."); ("s", "user", "tea", "green");
                        ("t", "feedback", "name", "Bob")] ∧
  memory_wf (db_table w').
Proof.
  intros t w'. split; [vm_compute; reflexivity|].
  refine (proj2 (catalog_tools_confined db_pool db_table db_view Contains db_pool_laws
    sample_catalog [DefaultSkillID] (SortByName t_Name (coreTools sample_catalog sample_process)) t
    (sample_cx []) "Ada L." sample_process sample_process w' _ sample_store_on _ _ _
    (surjective_pairing _)) sample_memory_wf).
  - intros publish [= <-] subj b v. reflexivity.
  - apply ToolsForSkills_default.
  - rewrite SortByName_Permutation. right. right. left.
Defined.

Lemma WriteMemory_ReadMemory_witness :
  let w1 := (WriteMemory_Execute db_store (sample_cx []) "Ada L." sample_process).1 in
  (ReadMemory_Execute db_store (sample_cx []) "name" w1).2 =
    Done (Ok "feedback/name=Bob;reference/name=Ada L.") ∧
  ∃ rows, ("feedback/name=Bob;reference/name=Ada L." : gostring) =
      marshal_items (read_item (W := Process) <$> rows) ∧
    ∃ r, r ∈ rows ∧ mr_Key r = "name" ∧ mr_Content r = "Ada L." ∧ mr_Category r = "reference".
Proof.
  intros w1. pose (r1 := WriteMemory_Execute db_store (sample_cx []) "Ada L." sample_process).
  pose (r2 := ReadMemory_Execute db_store (sample_cx []) "name" w1).
  assert (r2.2 = Done (Ok "feedback/name=Bob;reference/name=Ada L.")) as Hr by (vm_compute; reflexivity).
  assert (r1.2 = Done (Ok ("Memory written: key=" ++ Quote "name" ++ " category=reference")))
    as Hw by (vm_compute; reflexivity).
  split; [exact Hr|].
  destruct (WriteMemory_ReadMemory (UT := ascii_tables) (F := Z) (SC := sample_skill_codec) db_pool db_table db_view Contains db_pool_laws db_store
    (sample_cx []) (sample_cx []) "Ada L." "name" _ _ "name"
    {| wi_Key := " name "; wi_Content := "Ada L."; wi_Category := "friend" |} 0 sample_process w1
    r2.1 eq_refl eq_refl eq_refl eq_refl (eq_refl : TrimSpace "name" = TrimSpace " name ")
    (eq_trans (surjective_pairing r1) (f_equal (pair r1.1) Hw))
    (eq_trans (surjective_pairing r2) (f_equal (pair r2.1) Hr))) as (rows & Hrows & _ & _ & H).
  exists rows. split; [exact Hrows|]. apply H. vm_compute. discriminate.
Defined.

(** A spawn publishes its command before it answers. *)
Example spawn_published :
  let r := SpawnPet_Execute (Some sample_publisher) (sample_cx []) "cat" sample_process in
  r.2 = Done (Ok "Spawned pet: cat at (1.000, 2.000).") ∧
  pr_sent r.1 = [("world.admin.command", "action,type,x,y")].
Proof. vm_compute. split; reflexivity. Qed.

(** The schema of [ReadMemory] says limits go up to 20; 50 is accepted, and more falls
    back to 10. *)
Example read_limit_clamped : clamp_limit 10 50 = 50 ∧ clamp_limit 10 51 = 10.
Proof. split; reflexivity. Qed.
