(* ===== verification/Client.v ===== *)
(** * The HTTP model client

    [src/internal/llm/client.go] and [holder.go]: the OpenAI-compatible client.  [Chat]
    and [ChatTextOnly] decode one JSON answer; [StreamChat] reads server-sent events
    line by line, delivers the text deltas and assembles the tool calls from their
    fragments; [emitUsage] gives the token counts to the ledger.

    JSON and the HTTP transport are an interface ([HttpLib]).  A response body is
    the list of byte chunks its reader yields, cut anywhere, and how it ends; the
    main theorem says that the cuts do not matter: [StreamChat] does what a scan of
    the whole body line by line does. *)

From Stdlib Require Import QArith.QArith_base.
From S2P Require Import Prelude GoString Identity Transcript Tools Llm Memory Env Adapter Session.
From S2P Require Import Pg Usage.
Open Scope Z_scope.

(** ** Data *)

(** [openAIUsage]. *)
Record OpenAIUsage := {
  PromptTokens : Z;
  CompletionTokens : Z;
  TotalTokens : Z;
}.

(** [openAIChatCompletionResponse], the fields that are read. *)
Record ChatCompletion := {
  cc_ID : gostring;
  cc_Model : gostring;
  cc_Choices : list TMessage;
  cc_Usage : option OpenAIUsage;
}.

(** The payload of a streamed event, the fields that are read. *)
Record CallDelta := {
  cd_Index : Z;
  cd_ID : gostring;
  cd_Name : gostring;
  cd_Arguments : gostring;
}.

Record ChunkDelta := {
  dl_Content : option gostring;
  dl_ToolCalls : list CallDelta;
}.

Record StreamChunk := {
  sc_ID : gostring;
  sc_ChunkModel : gostring;
  sc_Usage : option OpenAIUsage;
  sc_Choices : list ChunkDelta;
}.

(** [types.ToolUse]. *)
Record ToolUse := {
  tu_ID : gostring;
  tu_Name : gostring;
  tu_Input : list (gostring * any);
}.

Record ChatResponse := {
  AssistantText : gostring;
  ToolUses : list ToolUse;
  AssistantMsg : TMessage;
}.

(** [openAITool]; the type is always [function]. *)
Record OpenAITool := {
  oa_Name : gostring;
  oa_Description : gostring;
  oa_Parameters : list (gostring * any);
}.

(** The request body; an absent [tools] key is [None]. *)
Record Payload := {
  py_Model : gostring;
  py_Messages : list TMessage;
  py_Tools : option (list OpenAITool);
  py_Stream : bool;
  py_Temperature : Q;
  py_MaxTokens : Z;
}.

Record HttpRequest := {
  hq_URL : gostring;
  hq_Headers : list (gostring * gostring);
  hq_Body : gostring;
}.

(** A response: its body is what successive reads yield, then the end of the file
    ([None]) or an error of the transport. *)
Record HttpResponse := {
  hp_Status : Z;
  hp_Chunks : list gostring;
  hp_End : option goerror;
}.

(** [encoding/json] on the client's types, and [net/http]: [http_NewRequest] gives the
    error of an unusable URL. *)
Class HttpLib (W : Type) := {
  json_Payload : Payload → result gostring;
  http_NewRequest : gostring → option goerror;
  http_Do : Z → HttpRequest → Go W (result HttpResponse);
  json_Completion : gostring → option goerror → result ChatCompletion;
  json_Chunk : gostring → option StreamChunk;
  json_Object : gostring → option (list (gostring * any));
}.

(** The ledger of the process. *)
Class Ledger (W : Type) := record_usage : AsyncRecorder W.

(** [Client]; [Recorder] tells whether the ledger is attached to it. *)
Record Client := {
  BaseURL : gostring;
  AuthToken : gostring;
  APIKey : gostring;
  c_Model : gostring;
  c_Timeout : Z;
  Recorder : bool;
}.

Definition NewClient (baseURL authToken apiKey model : gostring) (timeout : Z) : Client :=
  {| BaseURL := TrimRightBytes "/" baseURL; AuthToken := authToken; APIKey := apiKey;
     c_Model := model; c_Timeout := timeout; Recorder := false |}.

(** ** Server-sent events *)

(** [toolCallAccum] and the local variables of the read loop. *)
Record Accum := {
  ac_id : gostring;
  ac_name : gostring;
  ac_args : gostring;
}.

Record SSE := {
  accums : gmap Z Accum;
  assistantText : gostring;
  lastUsage : option OpenAIUsage;
  streamID : gostring;
  streamModel : gostring;
}.

Definition sse_init : SSE :=
  {| accums := ∅; assistantText := []; lastUsage := None; streamID := []; streamModel := [] |}.

(** [if v != "" { old = v }]. *)
Definition keep_or (old v : gostring) : gostring := if decide (v = []) then old else v.

(** One fragment of a tool call. *)
Definition add_fragment (m : gmap Z Accum) (tc : CallDelta) : gmap Z Accum :=
  let acc := default {| ac_id := []; ac_name := []; ac_args := [] |} (m !! cd_Index tc) in
  <[cd_Index tc := {| ac_id := keep_or (ac_id acc) (cd_ID tc);
                      ac_name := keep_or (ac_name acc) (cd_Name tc);
                      ac_args := ac_args acc ++ cd_Arguments tc |}]> m.

(** What the body of the loop does after a line: [continue], [break], or go on to the
    test for the end of the file. *)
Inductive Verdict := VContinue | VBreak | VTest.

(** One decoded event: the state after it, and the delta it delivers. *)
Definition stream_chunk (chunk : StreamChunk) (st : SSE) : Verdict * SSE * option gostring :=
  let st1 := {| accums := accums st; assistantText := assistantText st;
                lastUsage := match sc_Usage chunk with Some u => Some u | None => lastUsage st end;
                streamID := keep_or (streamID st) (sc_ID chunk);
                streamModel := keep_or (streamModel st) (sc_ChunkModel chunk) |} in
  match sc_Choices chunk with
  | [] => (VContinue, st1, None)
  | delta :: _ =>
      let text := default [] (dl_Content delta) in
      (VTest, {| accums := foldl add_fragment (accums st) (dl_ToolCalls delta);
                 assistantText := assistantText st ++ text; lastUsage := lastUsage st1;
                 streamID := streamID st1; streamModel := streamModel st1 |},
       if decide (text = []) then None else Some text)
  end.

Section stream.
Context {W : Type} `{HL : HttpLib W}.

(** One line, already cut at its end. *)
Definition stream_line (line : gostring) (st : SSE) : Verdict * SSE * option gostring :=
  if HasPrefix line "data:" then
    let data := TrimSpace (TrimPrefix line "data:") in
    if decide (data = []) then (VContinue, st, None)
    else if decide (data = "[DONE]") then (VBreak, st, None)
    else match json_Chunk data with
         | None => (VContinue, st, None)
         | Some chunk => stream_chunk chunk st
         end
  else (VTest, st, None).

(** [bufio.Reader] over the body: the bytes read and not consumed, the chunks to come,
    the end. *)
Record Reader := {
  rd_buf : gostring;
  rd_chunks : list gostring;
  rd_end : option goerror;
}.

Inductive ReadErr := ReadOk | ReadEOF | ReadFailed (e : goerror).

(** The bytes up to and with the first newline, and the rest. *)
Fixpoint cut_line (s : gostring) : option (gostring * gostring) :=
  match s with
  | [] => None
  | b :: s' =>
      if decide (b = x0a) then Some ([b], s')
      else match cut_line s' with Some (l, r) => Some (b :: l, r) | None => None end
  end.

(** [ReadString('\n')]: reads until the buffer holds a line; at the end, what is left
    and the end. *)
Fixpoint read_string (buf : gostring) (chunks : list gostring) (e : option goerror) :
    gostring * Reader * ReadErr :=
  match cut_line buf with
  | Some (line, rest) => (line, {| rd_buf := rest; rd_chunks := chunks; rd_end := e |}, ReadOk)
  | None =>
      match chunks with
      | [] => (buf, {| rd_buf := []; rd_chunks := []; rd_end := e |},
               match e with None => ReadEOF | Some e => ReadFailed e end)
      | c :: cs => read_string (buf ++ c) cs e
      end
  end.

Definition ReadString (r : Reader) : gostring * Reader * ReadErr :=
  read_string (rd_buf r) (rd_chunks r) (rd_end r).

Definition line_end : gostring := [x0d; x0a].

(** The [for] loop of [StreamChat]; [finish] is what follows it.  A delta is delivered
    in the middle of its line, before the fragments of the line are stored: both only
    meet in [finish]. *)
Fixpoint read_loop {A} (finish : SSE → StreamTurn W A) (fuel : nat) (r : Reader) (st : SSE) :
    StreamTurn W A :=
  match fuel with
  | O => TurnPanic "out of fuel"
  | S fuel' =>
      let '(line, r', rerr) := ReadString r in
      match rerr with
      | ReadFailed e => TurnReturn (Err e)
      | _ =>
          let '(v, st', d) := stream_line (TrimRightBytes line_end line) st in
          let next :=
            match v, rerr with
            | VBreak, _ | VTest, ReadEOF => finish st'
            | _, _ => read_loop finish fuel' r' st'
            end in
          match d with Some d => TurnDelta d next | None => next end
      end
  end.
End stream.

(** ** The calls *)

Section client.
Context {W : Type} `{HL : HttpLib W} `{LG : Ledger W}.

Definition openai_tool (t : ToolDefinition) : OpenAITool :=
  {| oa_Name := td_Name t; oa_Description := td_Description t; oa_Parameters := td_InputSchema t |}.

(** The headers set on every request. *)
Definition headers (c : Client) : list (gostring * gostring) :=
  [("Content-Type", "application/json")] ++
  (if decide (AuthToken c = []) then
     if decide (APIKey c = []) then [] else [("Authorization", "Bearer " ++ APIKey c)]
   else [("Authorization", "Bearer " ++ AuthToken c)]) ++
  [("User-Agent", "ascentia-core/0.1")].

(** Encode the payload, build the request and send it. *)
Definition send (c : Client) (p : Payload) : Go W (result HttpResponse) :=
  let endpoint := BaseURL c ++ "/v1/chat/completions" in
  match json_Payload p with
  | Err e => mret (Err e)
  | Ok body =>
      match http_NewRequest endpoint with
      | Some e => mret (Err e)
      | None => http_Do (c_Timeout c)
                  {| hq_URL := endpoint; hq_Headers := headers c; hq_Body := body |}
      end
  end.

Definition status_ok (r : HttpResponse) : bool := within 200 299 (hp_Status r).

(** [emitUsage]: the row given to the ledger, if any. *)
Definition usage_row (c : Client) (ctx : ChatCtx) (channel providerID responseModel : gostring)
    (u : option OpenAIUsage) : option Row :=
  match u with
  | None => None
  | Some u =>
      if negb (Recorder c) then None
      else
        let pt := PromptTokens u in
        let ct := CompletionTokens u in
        let tt := if TotalTokens u =? 0 then int64 (pt + ct) else TotalTokens u in
        if (pt =? 0) && (ct =? 0) && (tt =? 0) then None
        else
          let a := (FromContext ctx).1 in
          Some {| rw_UserID := at_UserID a; rw_AgentID := at_AgentID a;
                  rw_OperatorRole := at_OperatorRole a; rw_SessionID := at_SessionID a;
                  rw_RequestID := at_RequestID a;
                  rw_Model := if decide (responseModel = []) then c_Model c else responseModel;
                  rw_Channel := channel; rw_PromptTokens := pt; rw_CompletionTokens := ct;
                  rw_TotalTokens := tt; rw_ProviderRequestID := providerID |}
  end.

Definition emitUsage (c : Client) (ctx : ChatCtx) (channel providerID responseModel : gostring)
    (u : option OpenAIUsage) (w : W) : W :=
  match usage_row c ctx channel providerID responseModel u with
  | None => w
  | Some row => record_usage row w
  end.

(** The arguments of a call as an object; anything else reads as the empty object. *)
Definition parse_input (args : gostring) : list (gostring * any) :=
  if decide (TrimSpace args = []) then [] else default [] (json_Object args).

Definition extractToolUsesFromAssistant (m : TMessage) : list ToolUse :=
  omap (λ tc, let f := tt_Function tc in
    if decide (tf_Name f = []) then None
    else Some {| tu_ID := tt_ID tc; tu_Name := tf_Name f; tu_Input := parse_input (tf_Arguments f) |})
    (tm_ToolCalls m).

(** The payload of a call that is not streamed: the configured model. *)
Definition chat_payload (c : Client) (messages : list TMessage) (tools : list ToolDefinition)
    (maxTokens : Z) (temperature : Q) : Payload :=
  {| py_Model := c_Model c; py_Messages := messages;
     py_Tools := if 0 <? len tools then Some (openai_tool <$> tools) else None;
     py_Stream := false; py_Temperature := temperature; py_MaxTokens := maxTokens |}.

(** [completeChat]. *)
Definition completeChat (c : Client) (ctx : ChatCtx) (messages : list TMessage)
    (tools : list ToolDefinition) (maxTokens : Z) (temperature : Q) (channel : gostring) :
    Go W (result ChatResponse) :=
  go_try (send c (chat_payload c messages tools maxTokens temperature)) (λ resp,
  let body := mjoin (hp_Chunks resp) in
  if negb (status_ok resp) then
    mret (Err (ErrorString ("llm http " ++ FormatInt (hp_Status resp) ++ ": " ++ body)))
  else
    match json_Completion body (hp_End resp) with
    | Err e => mret (Err e)
    | Ok res =>
        match cc_Choices res with
        | [] => mret (Err (ErrorString "llm: empty choices"))
        | assistantMsg :: _ => λ w,
            (emitUsage c ctx channel (cc_ID res) (cc_Model res) (cc_Usage res) w,
             Done (Ok {| AssistantText := tm_Content assistantMsg;
                         ToolUses := extractToolUsesFromAssistant assistantMsg;
                         AssistantMsg := assistantMsg |}))
        end
    end).

Definition Chat (c : Client) (ctx : ChatCtx) (messages : list TMessage)
    (tools : list ToolDefinition) : Go W (result ChatResponse) :=
  completeChat c ctx messages tools 1024 (1 # 5) "chat_completion".

Definition ChatTextOnly (c : Client) (ctx : ChatCtx) (messages : list TMessage) (maxTokens : Z) :
    Go W (result ChatResponse) :=
  completeChat c ctx messages [] (if maxTokens <=? 0 then 512 else maxTokens) (1 # 10) "text_only".

(** The accumulated call of an index, if it has a name. *)
Definition named_call (m : gmap Z Accum) (i : nat) : option Accum :=
  match m !! Z.of_nat i with
  | None => None
  | Some acc => if decide (ac_name acc = []) then None else Some acc
  end.

(** The loop over [accums]: its indices below the number of entries. *)
Definition collected (m : gmap Z Accum) : list Accum := omap (named_call m) (seq 0 (size m)).

Definition accum_use (acc : Accum) : ToolUse :=
  {| tu_ID := ac_id acc; tu_Name := ac_name acc; tu_Input := parse_input (ac_args acc) |}.

Definition accum_call (acc : Accum) : TToolCall :=
  {| tt_ID := ac_id acc; tt_Type := "function";
     tt_Function := {| tf_Name := ac_name acc; tf_Arguments := ac_args acc |} |}.

Definition stream_message (st : SSE) : TMessage :=
  {| tm_Role := RoleAssistant; tm_Content := assistantText st;
     tm_ToolCalls := accum_call <$> collected (accums st); tm_ToolCallID := [] |}.

(** What follows the read loop. *)
Definition finish_stream (c : Client) (ctx : ChatCtx) (st : SSE) :
    StreamTurn W (TMessage * list ToolUse) :=
  TurnWork (emitUsage c ctx "stream_chat" (streamID st) (streamModel st) (lastUsage st))
    (λ _, TurnReturn (Ok (stream_message st, accum_use <$> collected (accums st)))).

Definition read_fuel (r : Reader) : nat := S (S (length (rd_buf r ++ mjoin (rd_chunks r)))).

(** The payload of a streaming call: the model of the connection wins. *)
Definition stream_payload (c : Client) (ctx : ChatCtx) (messages : list TMessage)
    (tools : list ToolDefinition) : Payload :=
  let m := chatModelFromContext ctx in
  {| py_Model := if decide (m = []) then c_Model c else m; py_Messages := messages;
     py_Tools := Some (openai_tool <$> tools); py_Stream := true;
     py_Temperature := 1 # 5; py_MaxTokens := 1024 |}.

(** [StreamChat]; the callback is called without a test for nil. *)
Definition StreamChat (c : Client) (ctx : ChatCtx) (messages : list TMessage)
    (tools : list ToolDefinition) : StreamTurn W (TMessage * list ToolUse) :=
  TurnGo (send c (stream_payload c ctx messages tools)) (λ resp,
  match resp with
  | Err e => TurnReturn (Err e)
  | Ok resp =>
      if negb (status_ok resp) then
        TurnReturn (Err (ErrorString ("llm stream http " ++ FormatInt (hp_Status resp) ++ ": "
                                      ++ mjoin (hp_Chunks resp))))
      else
        let r := {| rd_buf := []; rd_chunks := hp_Chunks resp; rd_end := hp_End resp |} in
        read_loop (finish_stream c ctx) (read_fuel r) r sse_init
  end).

(** The client as the bridge uses it. *)
Definition Client_iface (ctx : ChatCtx) (c : Client) : HttpClient W :=
  {| hc_Chat := λ msgs tools, r ← Chat c ctx msgs tools; mret (AssistantMsg <$> r);
     hc_StreamChat := λ msgs tools _, turn_map (λ r, fst <$> r) (StreamChat c ctx msgs tools) |}.
End client.

(** ** [Holder] *)

(** The pointer of the holder, in the world; it may be nil. *)
Class HasHolder (W : Type) := {
  held : W → option Client;
  set_held : option Client → W → W;
  held_set c w : held (set_held c w) = c;
}.

Section holder.
Context {W : Type} `{HH : HasHolder W} `{HL : HttpLib W} `{LG : Ledger W}.

(** [Store]: a nil client is ignored. *)
Definition Holder_Store (c : option Client) (w : W) : W :=
  match c with None => w | Some _ => set_held c w end.

Definition Holder_Load (w : W) : option Client := held w.

(** [NewHolder]. *)
Definition NewHolder (c : option Client) (w : W) : W := Holder_Store c (set_held None w).

(** The bridge over the holder, in the context of a call. *)
Definition HolderBridge (ctx : ChatCtx) : Bridge W :=
  {| br_LLM := Some (λ w, Client_iface ctx <$> Holder_Load w) |}.
End holder.

(** ** The specification of a stream

    The body as one sequence of bytes is cut into lines; the lines are handled in
    order until one says to stop.  A body that stops without [[DONE]] is complete
    when it ends with the end of the file: its last line, without newline, counts. *)

Fixpoint split_lines (s : gostring) : list gostring * gostring :=
  match s with
  | [] => ([], [])
  | b :: s' =>
      let '(ls, r) := split_lines s' in
      if decide (b = x0a) then ([b] :: ls, r)
      else match ls with
           | l :: ls' => ((b :: l) :: ls', r)
           | [] => ([], b :: r)
           end
  end.

(** The deliveries [ds], then [t]. *)
Definition deltas_then {W A} (ds : list gostring) (t : StreamTurn W A) : StreamTurn W A :=
  foldr TurnDelta t ds.

Section spec.
Context {W : Type} `{HL : HttpLib W}.

(** The deltas of the lines, the state after them, and whether they said to stop. *)
Fixpoint scan_lines (lines : list gostring) (st : SSE) : list gostring * SSE * bool :=
  match lines with
  | [] => ([], st, false)
  | l :: ls =>
      let '(v, st', d) := stream_line (TrimRightBytes line_end l) st in
      match v with
      | VBreak => (option_list d, st', true)
      | _ => let '(ds, st'', stop) := scan_lines ls st' in (option_list d ++ ds, st'', stop)
      end
  end.

Definition scan_body (body : gostring) (e : option goerror) (st : SSE) :
    list gostring * result SSE :=
  let '(lines, rest) := split_lines body in
  let '(ds, st', stop) := scan_lines lines st in
  if stop : bool then (ds, Ok st')
  else match e with
       | Some e => (ds, Err e)
       | None => let '(ds', st'', _) := scan_lines [rest] st' in (ds ++ ds', Ok st'')
       end.

(** The events of a body: what its data lines decode to, up to the line that ends the
    stream; what cannot be decoded is not an event. *)
Definition line_data (l : gostring) : option gostring :=
  let l := TrimRightBytes line_end l in
  if HasPrefix l "data:" then Some (TrimSpace (TrimPrefix l "data:")) else None.

Fixpoint lines_events (lines : list gostring) : list StreamChunk :=
  match lines with
  | [] => []
  | l :: ls =>
      match line_data l with
      | None => lines_events ls
      | Some data =>
          if decide (data = "[DONE]") then []
          else option_list (if decide (data = []) then None else json_Chunk data) ++ lines_events ls
      end
  end.

Definition body_events (body : gostring) : list StreamChunk :=
  let '(lines, rest) := split_lines body in lines_events (lines ++ [rest]).

(** ** Lemmas *)

Lemma cut_line_Some s l r :
  cut_line s = Some (l, r) →
  s = l ++ r ∧ split_lines s = (l :: (split_lines r).1, (split_lines r).2) ∧
  (0 < length l)%nat ∧ ∀ t, cut_line (s ++ t) = Some (l, r ++ t).
Proof.
  revert l r. induction s as [|b s IH]; intros l r; cbn; [done|]. case_decide as Hb.
  - intros [= <- <-]. destruct (split_lines s). split_and!; [done..|cbn; lia|done].
  - destruct (cut_line s) as [[l' r']|]; [|done]. intros [= <- <-].
    destruct (IH l' r' eq_refl) as (-> & -> & ? & Ht).
    split_and!; [done..|cbn; lia|]. intros t. by rewrite Ht.
Qed.

Lemma cut_line_None s : cut_line s = None → split_lines s = ([], s).
Proof.
  induction s as [|b s IH]; cbn; [done|]. case_decide; [done|].
  destruct (cut_line s) as [[l r]|]; [done|]. by rewrite IH.
Qed.

(** Reading a line from the chunks is cutting one from their concatenation. *)
Lemma read_string_spec buf chunks e :
  match cut_line (buf ++ mjoin chunks) with
  | Some (l, rest) => ∃ r, read_string buf chunks e = (l, r, ReadOk) ∧
      rd_buf r ++ mjoin (rd_chunks r) = rest ∧ rd_end r = e
  | None => read_string buf chunks e =
      (buf ++ mjoin chunks, {| rd_buf := []; rd_chunks := []; rd_end := e |},
       match e with None => ReadEOF | Some e => ReadFailed e end)
  end.
Proof.
  revert buf. induction chunks as [|c cs IH]; intros buf.
  - cbn. rewrite app_nil_r. destruct (cut_line buf) as [[l r]|]; [|done].
    eexists. split; [done|]. by rewrite app_nil_r.
  - cbn [mjoin list_join]. cbn [read_string]. destruct (cut_line buf) as [[l r]|] eqn:E.
    + apply cut_line_Some in E as (_ & _ & _ & ->). by eexists.
    + specialize (IH (buf ++ c)). rewrite <- app_assoc in IH. exact IH.
Qed.

Lemma stream_line_nil st : stream_line (TrimRightBytes line_end []) st = (VTest, st, None).
Proof. done. Qed.

Lemma stream_line_break l st st' d :
  stream_line l st = (VBreak, st', d) → st' = st ∧ d = None.
Proof.
  unfold stream_line, stream_chunk. intros H. repeat case_match; by simplify_eq.
Qed.

(** The read loop is the scan of the whole body, with fuel for its lines. *)
Lemma read_loop_scan {A} (finish : SSE → StreamTurn W A) fuel r st :
  (read_fuel r ≤ fuel)%nat →
  read_loop finish fuel r st =
  let '(ds, res) := scan_body (rd_buf r ++ mjoin (rd_chunks r)) (rd_end r) st in
  deltas_then ds (match res with Ok st' => finish st' | Err e => TurnReturn (Err e) end).
Proof.
  revert r st. induction fuel as [|fuel IH]; intros [buf chunks e] st; unfold read_fuel; [lia|].
  cbn [rd_buf rd_chunks rd_end]. intros Hf. cbn [read_loop]. unfold ReadString.
  cbn [rd_buf rd_chunks rd_end]. pose proof (read_string_spec buf chunks e) as Hr.
  destruct (cut_line (buf ++ mjoin chunks)) as [[l rest]|] eqn:Ec.
  - destruct Hr as (r & -> & Hrest & He). apply cut_line_Some in Ec as (Hs & Hsp & Hl & _).
    assert (∀ st, read_loop finish fuel r st =
      let '(ds, res) := scan_body rest e st in
      deltas_then ds (match res with Ok st' => finish st' | Err e => TurnReturn (Err e) end)) as IHr.
    { intros st'. rewrite IH, Hrest, He; [done|]. unfold read_fuel. rewrite Hrest.
      apply (f_equal length) in Hs. rewrite (length_app l rest) in Hs. lia. }
    unfold scan_body in *. rewrite Hsp. destruct (split_lines rest) as [ls tl]. cbn [fst snd].
    cbn [scan_lines]. destruct (stream_line _ st) as [[v st'] d] eqn:El.
    destruct v; [|by apply stream_line_break in El as [-> ->]|]; rewrite IHr;
      destruct (scan_lines ls st') as [[ds st''] stop]; destruct stop, e, d; cbn;
      try destruct (stream_line _ st'') as [[[] ?] ?]; done.
  - rewrite Hr. unfold scan_body. rewrite (cut_line_None _ Ec). cbn [scan_lines].
    destruct e as [e|]; [done|].
    destruct (stream_line _ st) as [[v st'] d] eqn:El.
    destruct v; [|by apply stream_line_break in El as [-> ->]|].
    + destruct fuel as [|fuel]; [lia|]. cbn. by destruct d.
    + by destruct d.
Qed.
End spec.

(** ** What a scan collects *)

(** The fragments of a sequence of events, and one call assembled from its own. *)
Definition event_calls (c : StreamChunk) : list CallDelta :=
  match sc_Choices c with d :: _ => dl_ToolCalls d | [] => [] end.
Definition event_text (c : StreamChunk) : gostring :=
  match sc_Choices c with d :: _ => default [] (dl_Content d) | [] => [] end.

Definition fragments (cs : list StreamChunk) : list CallDelta := cs ≫= event_calls.

Definition of_index (i : nat) (fs : list CallDelta) : list CallDelta :=
  filter (λ f, cd_Index f = Z.of_nat i) fs.

Definition no_accum : Accum := {| ac_id := []; ac_name := []; ac_args := [] |}.

Definition add_one (a : Accum) (f : CallDelta) : Accum :=
  {| ac_id := keep_or (ac_id a) (cd_ID f); ac_name := keep_or (ac_name a) (cd_Name f);
     ac_args := ac_args a ++ cd_Arguments f |}.

(** The last non-empty id and name, and all the arguments in order. *)
Definition assemble (fs : list CallDelta) : Accum := foldl add_one no_accum fs.

(** [fs] is a call cut into pieces, call by call: every fragment belongs to one of the
    calls, and the fragments of a call assemble to it. *)
Definition cuts_calls (fs : list CallDelta) (calls : list TToolCall) : Prop :=
  (∀ f, f ∈ fs → 0 ≤ cd_Index f < len calls) ∧
  ∀ i call, calls !! i = Some call →
    tf_Name (tt_Function call) ≠ [] ∧ accum_call (assemble (of_index i fs)) = call.

Lemma add_fragment_lookup m f i :
  add_fragment m f !! i =
  if decide (cd_Index f = i) then Some (add_one (default no_accum (m !! i)) f) else m !! i.
Proof.
  unfold add_fragment. case_decide as H; [subst; by rewrite lookup_insert_eq|].
  by rewrite lookup_insert_ne.
Qed.

Lemma fragments_lookup fs m (i : nat) :
  foldl add_fragment m fs !! Z.of_nat i =
  if decide (of_index i fs = []) then m !! Z.of_nat i
  else Some (foldl add_one (default no_accum (m !! Z.of_nat i)) (of_index i fs)).
Proof.
  revert m. induction fs as [|f fs IH]; intros m; [done|]. cbn [foldl]. rewrite IH.
  assert (of_index i (f :: fs) = if decide (cd_Index f = Z.of_nat i) then f :: of_index i fs
                                 else of_index i fs) as ->
    by (unfold of_index; by rewrite filter_cons).
  rewrite add_fragment_lookup. destruct (decide (cd_Index f = Z.of_nat i)); [|done].
  rewrite (decide_False (P := f :: _ = [])) by done. cbn [foldl].
  case_decide as Hn; [by rewrite Hn|done].
Qed.

Lemma fragments_dom fs m (n : nat) :
  (∀ i a, m !! i = Some a → 0 ≤ i < Z.of_nat n) → (∀ f, f ∈ fs → 0 ≤ cd_Index f < Z.of_nat n) →
  ∀ i a, foldl add_fragment m fs !! i = Some a → 0 ≤ i < Z.of_nat n.
Proof.
  revert m. induction fs as [|f fs IH]; intros m Hm Hf i a; [apply Hm|]. cbn.
  apply IH; [|intros g Hg; apply Hf; by right]. intros j b. rewrite add_fragment_lookup.
  case_decide as H; [intros _; subst; apply Hf; by left|apply Hm].
Qed.

(** A map whose keys are the first [n] integers. *)
Lemma size_initial {A} (m : gmap Z A) (n : nat) :
  (∀ i, is_Some (m !! i) ↔ 0 ≤ i < Z.of_nat n) → size m = n.
Proof.
  intros Hm. rewrite <- size_dom. assert (dom m = list_to_set (Z.of_nat <$> seq 0 n)) as ->.
  { apply set_eq. intros i. rewrite elem_of_dom, Hm, elem_of_list_to_set, list_elem_of_fmap.
    split; [|intros (k & -> & Hk%elem_of_seq); lia]. intros Hi. exists (Z.to_nat i).
    split; [lia|]. apply elem_of_seq. lia. }
  rewrite size_list_to_set, length_fmap, length_seq; [done|].
  apply NoDup_fmap_2; [|apply NoDup_seq]. intros x y. lia.
Qed.

Lemma omap_seq_lookup {A B} (f : nat → option A) (g : A → B) (l : list B) k :
  (∀ i b, l !! i = Some b → ∃ a, f (k + i)%nat = Some a ∧ g a = b) →
  g <$> omap f (seq k (length l)) = l.
Proof.
  revert k. induction l as [|b l IH]; intros k H; [done|]. cbn [length seq omap list_omap].
  destruct (H 0%nat b eq_refl) as (a & Ha & Hb). rewrite Nat.add_0_r in Ha. rewrite Ha.
  cbn. rewrite Hb. f_equal. apply IH. intros i c Hi. destruct (H (S i) c Hi) as (x & Hx & ?).
  exists x. split; [|done]. by rewrite Nat.add_succ_r in Hx.
Qed.

(** The fragments of some calls give back the calls. *)
Lemma cuts_calls_collected fs calls :
  cuts_calls fs calls → accum_call <$> collected (foldl add_fragment ∅ fs) = calls.
Proof.
  intros [Hin Hc].
  assert (∀ i call, calls !! i = Some call → ∃ a,
    foldl add_fragment ∅ fs !! Z.of_nat i = Some a ∧ ac_name a ≠ [] ∧ accum_call a = call) as Hl.
  { intros i call Hi. destruct (Hc i call Hi) as [Hn Ha]. rewrite fragments_lookup.
    unfold assemble in Ha. case_decide as Hf.
    - rewrite Hf in Ha. cbn in Ha. by rewrite <- Ha in Hn.
    - eexists. split; [done|]. rewrite lookup_empty. cbn [default from_option].
      split; [|done]. by rewrite <- Ha in Hn. }
  unfold collected. rewrite (size_initial _ (length calls)).
  - apply omap_seq_lookup. intros i call Hi. destruct (Hl i call Hi) as (a & Ha & Hn & Hcall).
    exists a. split; [|done]. unfold named_call. cbn [Nat.add]. rewrite Ha. by rewrite decide_False.
  - intros i. split.
    + intros [a Ha]. revert Ha. apply fragments_dom; [intros j b; by rewrite lookup_empty|done].
    + intros Hi. destruct (lookup_lt_is_Some_2 calls (Z.to_nat i)) as [call Hcall]; [lia|].
      destruct (Hl _ _ Hcall) as (a & Ha & _). rewrite Z2Nat.id in Ha by lia. by exists a.
Qed.

(** ** A server *)

(** An event [encoding/json] can decode to: its strings are valid UTF-8, its integers
    fit 64 bits. *)
Definition int_64 (z : Z) : Prop := - 2 ^ 63 ≤ z < 2 ^ 63.

Definition valid_call_delta (d : CallDelta) : Prop :=
  int_64 (cd_Index d) ∧ valid_utf8 (cd_ID d) ∧ valid_utf8 (cd_Name d) ∧
  valid_utf8 (cd_Arguments d).

Definition valid_chunk_delta (d : ChunkDelta) : Prop :=
  (∀ t, dl_Content d = Some t → valid_utf8 t) ∧ Forall valid_call_delta (dl_ToolCalls d).

Definition valid_event (c : StreamChunk) : Prop :=
  valid_utf8 (sc_ID c) ∧ valid_utf8 (sc_ChunkModel c) ∧
  (∀ u, sc_Usage c = Some u →
     int_64 (PromptTokens u) ∧ int_64 (CompletionTokens u) ∧ int_64 (TotalTokens u)) ∧
  Forall valid_chunk_delta (sc_Choices c).

(** A server that sends JSON events: such an event is encoded without line breaks or
    surrounding white space, and decodes to itself. *)
Class EventEncoder (W : Type) `{HL : HttpLib W} := {
  encode_event : StreamChunk → gostring;
  decode_encoded c : valid_event c → json_Chunk (encode_event c) = Some c;
  encoded_one_line c : valid_event c → (x0a ∉ encode_event c) ∧ (x0d ∉ encode_event c);
  encoded_trimmed c : valid_event c → TrimSpace (encode_event c) = encode_event c;
  encoded_not_done c : valid_event c → encode_event c ≠ [] ∧ encode_event c ≠ "[DONE]";
}.

Section server.
Context {W : Type} `{EE : EventEncoder W}.

(** Its events, each a [data:] line and an empty line, and the end of the stream. *)
Definition sse_event (c : StreamChunk) : gostring := "data: " ++ encode_event c ++ [x0a; x0a].
Definition sse_stream (cs : list StreamChunk) : gostring :=
  mjoin (sse_event <$> cs) ++ "data: [DONE]" ++ [x0a; x0a].

(** The visible deltas of the events, and the state after them. *)
Definition event_deltas (cs : list StreamChunk) : list gostring :=
  filter (λ d, d ≠ []) (event_text <$> cs).
Definition run_events (cs : list StreamChunk) (st : SSE) : SSE :=
  foldl (λ st c, (stream_chunk c st).1.2) st cs.

Lemma split_lines_line l s :
  x0a ∉ l → split_lines (l ++ x0a :: s) = ((l ++ [x0a]) :: (split_lines s).1, (split_lines s).2).
Proof.
  induction l as [|b l IH]; intros Hl; cbn.
  - by destruct (split_lines s).
  - apply not_elem_of_cons in Hl as [Hb Hl]. rewrite (IH Hl). by rewrite decide_False.
Qed.

Lemma TrimSpace_space p : TrimSpace (x20 :: p) = TrimSpace p.
Proof.
  unfold TrimSpace. f_equal.
Qed.

Lemma TrimRightBytes_id s : (∀ b, last s = Some b → b ∉ line_end) → TrimRightBytes line_end s = s.
Proof.
  induction s as [|b s IH]; intros H; [done|]. cbn. rewrite IH.
  - destruct s; [|done]. rewrite decide_False; [done|]. by apply H.
  - intros c Hc. apply H. rewrite last_cons, Hc. done.
Qed.

(** The line of an event is the event, the empty line nothing, the last one the end. *)
Lemma stream_line_event c st :
  valid_event c →
  stream_line (TrimRightBytes line_end (("data: " ++ encode_event c) ++ [x0a])) st = stream_chunk c st.
Proof.
  intros Hv. destruct (encoded_one_line c Hv) as [Hn Hr].
  pose proof (encoded_trimmed c Hv) as Ht. destruct (encoded_not_done c Hv) as [Hne Hd].
  rewrite TrimRightBytes_app by (repeat constructor; done). rewrite TrimRightBytes_id.
  - unfold stream_line. change ("data: " ++ encode_event c)
      with ("data:" ++ (x20 :: encode_event c)). unfold TrimPrefix, HasPrefix.
    rewrite !bool_decide_eq_true_2 by by apply prefix_app_r.
    rewrite drop_app_length. rewrite TrimSpace_space, Ht.
    by rewrite !decide_False, decode_encoded by done.
  - intros b Hb. rewrite last_app in Hb. destruct (last (encode_event c)) as [b'|] eqn:E.
    + injection Hb as ->. apply last_Some_elem_of in E.
      by intros [->|[->|[]%elem_of_nil]%elem_of_cons]%elem_of_cons.
    + by apply last_None in E.
Qed.

Lemma stream_chunk_delta c st :
  option_list (stream_chunk c st).2 = filter (λ d, d ≠ []) [event_text c] ∧
  (stream_chunk c st).1.1 ≠ VBreak.
Proof.
  unfold stream_chunk, event_text. destruct (sc_Choices c) as [|d ds]; [done|]. cbn.
  split; [|done]. set (t := default [] (dl_Content d)). unfold filter, list_filter. by repeat case_decide.
Qed.

(** The lines of an event, before the lines of [s]. *)
Lemma split_event c s :
  valid_event c →
  split_lines (sse_event c ++ s) =
  ((("data: " ++ encode_event c) ++ [x0a]) :: [x0a] :: (split_lines s).1, (split_lines s).2).
Proof.
  intros Hv. unfold sse_event. change ("data: " ++ encode_event c ++ [x0a; x0a])
    with ("data: " ++ (encode_event c ++ [x0a; x0a])).
  rewrite (app_assoc "data: "), <- (app_assoc _ [x0a; x0a]). change ([x0a; x0a] ++ s) with (x0a :: x0a :: s).
  rewrite split_lines_line.
  - cbn. by destruct (split_lines s).
  - intros [H|H]%elem_of_app; [revert H; apply (bool_decide_unpack _); exact I|].
    by apply (encoded_one_line c Hv) in H.
Qed.

Lemma scan_events cs st :
  Forall valid_event cs →
  scan_lines (split_lines (sse_stream cs)).1 st = (event_deltas cs, run_events cs st, true).
Proof.
  intros Hv. revert st. unfold sse_stream.
  induction Hv as [|c cs Hc _ IH]; intros st; [done|].
  cbn [fmap list_fmap mjoin list_join]. rewrite <- app_assoc, split_event by done. cbn [fst].
  cbn [scan_lines]. rewrite stream_line_event by done.
  destruct (stream_chunk_delta c st) as [Hd Hv].
  change (run_events (c :: cs) st) with (run_events cs (stream_chunk c st).1.2).
  assert (event_deltas (c :: cs) = option_list (stream_chunk c st).2 ++ event_deltas cs) as ->
    by (rewrite Hd; unfold event_deltas; by rewrite <- filter_app).
  destruct (stream_chunk c st) as [[v st'] d]. cbn [fst snd] in Hv |- *.
  change (stream_line (TrimRightBytes line_end [x0a]) st') with (VTest, st', @None gostring).
  cbn beta iota. rewrite IH. by destruct v.
Qed.

(** The state after the events: all the text, and the fragments by index. *)
Lemma run_events_state cs st :
  assistantText (run_events cs st) = assistantText st ++ mjoin (event_text <$> cs) ∧
  accums (run_events cs st) = foldl add_fragment (accums st) (fragments cs).
Proof.
  revert st. induction cs as [|c cs IH]; intros st; [by rewrite app_nil_r|].
  change (run_events (c :: cs) st) with (run_events cs (stream_chunk c st).1.2).
  destruct (IH (stream_chunk c st).1.2) as [-> ->]. clear IH.
  change (mjoin (event_text <$> c :: cs)) with (event_text c ++ mjoin (event_text <$> cs)).
  change (fragments (c :: cs)) with (event_calls c ++ fragments cs).
  rewrite foldl_app, app_assoc. unfold stream_chunk, event_text, event_calls.
  destruct (sc_Choices c); cbn; [by rewrite app_nil_r|done].
Qed.
End server.

(** ** Properties *)

Section properties.
Context {W : Type} `{HL : HttpLib W} `{LG : Ledger W}.

Lemma stream_line_text l st :
  assistantText (stream_line l st).1.2 = assistantText st ++ mjoin (option_list (stream_line l st).2).
Proof.
  assert (assistantText st = assistantText st ++ mjoin (option_list (None : option gostring)))
    as Hnone by (cbn; by rewrite app_nil_r).
  unfold stream_line. destruct (HasPrefix l _); [|exact Hnone]. cbv zeta.
  case_decide; [exact Hnone|]. case_decide; [exact Hnone|]. destruct (json_Chunk _) as [c|]; [|exact Hnone].
  unfold stream_chunk. destruct (sc_Choices c) as [|d ds]; [exact Hnone|]. cbn [fst snd assistantText].
  destruct (decide _) as [->|_]; [done|]. cbn. by rewrite app_nil_r.
Qed.

Lemma scan_lines_text ls st :
  assistantText (scan_lines ls st).1.2 = assistantText st ++ mjoin (scan_lines ls st).1.1.
Proof.
  revert st. induction ls as [|l ls IH]; intros st; cbn; [by rewrite app_nil_r|].
  destruct (stream_line _ st) as [[v st'] d] eqn:E.
  assert (assistantText st' = assistantText st ++ mjoin (option_list d)) as Ht.
  { pose proof (stream_line_text (TrimRightBytes line_end l) st) as H. by rewrite E in H. }
  specialize (IH st'). destruct (scan_lines ls st') as [[ds st''] b]. cbn in IH.
  destruct v, d; cbn in Ht |- *; rewrite ?app_nil_r in *; try done;
    by rewrite IH, Ht, ?app_assoc.
Qed.

(** What a scan leaves behind is what its events leave behind. *)
Lemma stream_line_data l st :
  stream_line (TrimRightBytes line_end l) st =
  match line_data l with
  | None => (VTest, st, None)
  | Some data =>
      if decide (data = "[DONE]") then (VBreak, st, None)
      else match (if decide (data = []) then None else json_Chunk data) with
           | None => (VContinue, st, None)
           | Some chunk => stream_chunk chunk st
           end
  end.
Proof.
  unfold stream_line, line_data. destruct (HasPrefix _ _); [|done].
  set (data := TrimSpace _). destruct (decide (data = [])) as [->|]; [done|]. done.
Qed.

Lemma scan_lines_events ls st :
  let r := scan_lines ls st in
  r.1.2 = run_events (lines_events ls) st ∧
  ∀ more, lines_events (ls ++ more) = lines_events ls ++ (if r.2 then [] else lines_events more).
Proof.
  revert st. induction ls as [|l ls IH]; intros st; [done|]. cbn [scan_lines lines_events app].
  rewrite stream_line_data. destruct (line_data l) as [data|].
  - destruct (decide (data = "[DONE]")); [done|].
    destruct (if decide (data = []) then None else json_Chunk data) as [c|].
    + pose proof (stream_chunk_delta c st) as [_ Hv].
      change (run_events (option_list (Some c) ++ lines_events ls) st)
        with (run_events (lines_events ls) (stream_chunk c st).1.2).
      destruct (stream_chunk c st) as [[v st'] d]. cbn [fst snd] in Hv |- *.
      destruct (IH st') as [H1 H2]. destruct (scan_lines ls st') as [[ds st''] b].
      destruct v; [|done|]; (split; [exact H1|]; intros more; cbn; by rewrite H2).
    + destruct (IH st) as [H1 H2]. destruct (scan_lines ls st) as [[ds st''] b]. by split.
  - destruct (IH st) as [H1 H2]. destruct (scan_lines ls st) as [[ds st''] b]. by split.
Qed.

Lemma scan_body_events body e st ds st' :
  scan_body body e st = (ds, Ok st') → st' = run_events (body_events body) st.
Proof.
  unfold scan_body, body_events. destruct (split_lines body) as [ls rest].
  destruct (scan_lines_events ls st) as [H1 H2].
  destruct (scan_lines ls st) as [[ds1 st1] stop]. cbn [fst snd] in H1, H2. rewrite H2.
  destruct stop; [rewrite app_nil_r; by intros [= <- <-]|]. destruct e; [done|].
  destruct (scan_lines_events [rest] st1) as [H3 _].
  destruct (scan_lines [rest] st1) as [[ds2 st2] b]. cbn [fst snd] in H3. intros [= <- <-].
  rewrite H3, H1. unfold run_events. by rewrite foldl_app.
Qed.

(** The last id, model and usage among the events. *)
Lemma run_events_meta cs st :
  streamID (run_events cs st) =
    default (streamID st) (last (filter (λ v, v ≠ []) (sc_ID <$> cs))) ∧
  streamModel (run_events cs st) =
    default (streamModel st) (last (filter (λ v, v ≠ []) (sc_ChunkModel <$> cs))) ∧
  lastUsage (run_events cs st) =
    match last (omap sc_Usage cs) with Some u => Some u | None => lastUsage st end.
Proof.
  revert st. induction cs as [|c cs IH]; intros st; [done|].
  change (run_events (c :: cs) st) with (run_events cs (stream_chunk c st).1.2).
  destruct (IH (stream_chunk c st).1.2) as (-> & -> & ->). clear IH.
  assert (streamID (stream_chunk c st).1.2 = keep_or (streamID st) (sc_ID c) ∧
    streamModel (stream_chunk c st).1.2 = keep_or (streamModel st) (sc_ChunkModel c) ∧
    lastUsage (stream_chunk c st).1.2 =
      match sc_Usage c with Some u => Some u | None => lastUsage st end) as (-> & -> & ->)
    by (unfold stream_chunk; by destruct (sc_Choices c)).
  assert (∀ (f : StreamChunk → gostring) old,
    default (keep_or old (f c)) (last (filter (λ v, v ≠ []) (f <$> cs))) =
    default old (last (filter (λ v, v ≠ []) (f <$> c :: cs)))) as Hk.
  { intros f old. rewrite fmap_cons, filter_cons. unfold keep_or.
    destruct (decide (f c = [])) as [He|He]; [by rewrite decide_False by auto|].
    rewrite decide_True by done. rewrite last_cons. by destruct (last _). }
  split_and!; [apply Hk..|]. cbn [omap list_omap]. destruct (sc_Usage c); [|done].
  rewrite last_cons. by destruct (last _).
Qed.

(** The delivered deltas are the text of the message. *)
Lemma scan_body_text body e st ds st' :
  scan_body body e st = (ds, Ok st') → assistantText st' = assistantText st ++ mjoin ds.
Proof.
  unfold scan_body. destruct (split_lines body) as [ls rest].
  pose proof (scan_lines_text ls st) as H1.
  destruct (scan_lines ls st) as [[ds1 st1] stop]. cbn in H1. destruct stop.
  - by intros [= <- <-].
  - destruct e; [done|]. pose proof (scan_lines_text [rest] st1) as H2.
    destruct (scan_lines [rest] st1) as [[ds2 st2] b]. cbn [fst snd] in H2. intros [= <- <-].
    by rewrite H2, H1, <- app_assoc, join_app.
Qed.

(** A streaming call from the response on. *)
Lemma StreamChat_response {S} (c : Client) (ctx : ChatCtx) msgs tools
    (cb : option (gostring → S → Go W S)) (s : S) (w w1 : W) resp :
  send c (stream_payload c ctx msgs tools) w = (w1, Done (Ok resp)) → status_ok resp = true →
  run_turn cb (StreamChat c ctx msgs tools) s w =
  let '(ds, res) := scan_body (mjoin (hp_Chunks resp)) (hp_End resp) sse_init in
  run_turn cb (deltas_then ds (match res with
    | Ok st => finish_stream c ctx st | Err e => TurnReturn (Err e) end)) s w1.
Proof.
  intros Hs Hok. unfold StreamChat. rewrite run_turn_go, (go_bind_eq _ _ _ _ _ Hs), Hok. cbn [negb].
  rewrite read_loop_scan by done. cbn [rd_buf rd_chunks rd_end app].
  by destruct (scan_body _ _ _) as [ds res].
Qed.

(** C5: a streamed answer does not depend on how the network cuts it: reading the
    response through the buffered reader delivers the deltas, and ends with the
    message or the error, of a scan of the concatenated body line by line (the loop
    always ends); and the text that is returned, and later stored, is exactly the
    text that was delivered. *)
Theorem StreamChat_scan {S} (c : Client) (ctx : ChatCtx) (msgs : list TMessage)
    (tools : list ToolDefinition) (cb : option (gostring → S → Go W S)) (s : S) (w w1 : W)
    (resp : HttpResponse) :
  send c (stream_payload c ctx msgs tools) w = (w1, Done (Ok resp)) → status_ok resp = true →
  let '(ds, res) := scan_body (mjoin (hp_Chunks resp)) (hp_End resp) sse_init in
  run_turn cb (StreamChat c ctx msgs tools) s w =
    run_turn cb (deltas_then ds (match res with
      | Ok st => finish_stream c ctx st | Err e => TurnReturn (Err e) end)) s w1 ∧
  ∀ st, res = Ok st → tm_Content (stream_message st) = mjoin ds.
Proof.
  intros Hs Hok. pose proof (StreamChat_response c ctx msgs tools cb s w w1 resp Hs Hok) as H.
  destruct (scan_body _ _ _) as [ds res] eqn:E. split; [exact H|].
  intros st ->. by apply scan_body_text in E.
Qed.

(** C30: streaming loses nothing of an answer: when the server sends as events (of valid
    UTF-8 strings and 64-bit integers, which are what JSON can carry) a message cut into pieces (its text in deltas, each tool call in fragments of its
    index, in any interleaving), however the network cuts the bytes and whatever
    follows the end of the stream, [StreamChat] delivers the non-empty text deltas
    in order and returns the message. *)
Theorem StreamChat_reassembles `{EE : !EventEncoder W} (c : Client) (ctx : ChatCtx)
    (msgs : list TMessage) (tools : list ToolDefinition) (w w1 : W) (resp : HttpResponse)
    (cs : list StreamChunk) (m : TMessage) :
  send c (stream_payload c ctx msgs tools) w = (w1, Done (Ok resp)) → status_ok resp = true →
  Forall valid_event cs → mjoin (hp_Chunks resp) = sse_stream cs →
  tm_Role m = RoleAssistant → tm_ToolCallID m = [] →
  tm_Content m = mjoin (event_text <$> cs) → cuts_calls (fragments cs) (tm_ToolCalls m) →
  ∃ w2 uses, run_turn (Some (λ d s, mret (s ++ [d]))) (StreamChat c ctx msgs tools) [] w =
    (w2, Done (event_deltas cs, Ok (m, uses))).
Proof.
  intros Hs Hok Hv Hb Hr Hi Ht Hc. rewrite (StreamChat_response c ctx msgs tools _ _ w w1 resp Hs Hok).
  rewrite Hb. unfold scan_body.
  pose proof (scan_events cs sse_init Hv) as He. destruct (split_lines (sse_stream cs)) as [ls rest].
  cbn [fst] in He. rewrite He. destruct (run_events_state cs sse_init) as [Htext Hacc].
  assert (stream_message (run_events cs sse_init) = m) as Hm.
  { unfold stream_message. rewrite Htext, Hacc. cbn [assistantText accums sse_init app].
    rewrite (cuts_calls_collected _ _ Hc), <- Ht, <- Hr, <- Hi. by destruct m. }
  assert (∀ (t : StreamTurn W (TMessage * list ToolUse)) ds s v,
    run_turn (Some (λ d s, mret (s ++ [d]))) (deltas_then ds t) s v =
    run_turn (Some (λ d s, mret (s ++ [d]))) t (s ++ ds) v) as Hrun.
  { intros t ds. induction ds as [|d ds IH]; intros s v; cbn; [by rewrite app_nil_r|].
    unfold mbind, Go_bind, mret, Go_ret. by rewrite IH, <- app_assoc. }
  rewrite Hrun. cbn. rewrite Hm. by eexists _, _.
Qed.

(** The ledger as a list of rows that only [record_usage] extends. *)
Class LedgerLaws (rows : W → list Row) : Prop := {
  record_appends row w : rows (record_usage row w) = rows w ++ [row];
  do_keeps_rows t q w : rows (http_Do t q w).1 = rows w;
}.

Lemma send_rows `{LL : !LedgerLaws rows} c p w : rows (send c p w).1 = rows w.
Proof. unfold send. repeat case_match; [done|apply do_keeps_rows|done]. Qed.

Lemma emitUsage_rows `{LL : !LedgerLaws rows} c ctx ch id model u w :
  rows (emitUsage c ctx ch id model u w) = rows w ++ option_list (usage_row c ctx ch id model u).
Proof.
  unfold emitUsage. destruct (usage_row _ _ _ _ _ _); cbn; [apply record_appends|].
  by rewrite app_nil_r.
Qed.

(** Deliveries that keep the rows lead to what follows them, or panic. *)
Lemma run_deltas_rows {S A} (rows : W → list Row) (cb : option (gostring → S → Go W S))
    (t : StreamTurn W A) ds s w :
  (∀ f d s w, cb = Some f → rows (f d s w).1 = rows w) →
  (∃ s' w', rows w' = rows w ∧ run_turn cb (deltas_then ds t) s w = run_turn cb t s' w') ∨
  (∃ p w', rows w' = rows w ∧ run_turn cb (deltas_then ds t) s w = (w', Panicked p)).
Proof.
  intros Hcb. revert s w. induction ds as [|d ds IH]; intros s w; [left; by exists s, w|].
  cbn. destruct cb as [f|]; [|right; by eexists _, w].
  pose proof (Hcb f d s w eq_refl) as Hf. unfold mbind, Go_bind.
  destruct (f d s w) as [w' [s'|p]]; cbn in Hf; [|right; by exists p, w'].
  destruct (IH s' w') as [(s2 & w2 & H1 & H2)|(p & w2 & H1 & H2)].
  - left. exists s2, w2. by rewrite H1.
  - right. exists p, w2. by rewrite H1.
Qed.

Lemma no_row (w w' : list Row) : w' = w → ∃ new, w' = w ++ new ∧ new = [].
Proof. intros ->. exists []. by rewrite app_nil_r. Qed.

(** The specification of a row.  A usage counts when one of its numbers is not zero. *)
Definition counts (u : OpenAIUsage) : Prop :=
  PromptTokens u ≠ 0 ∨ CompletionTokens u ≠ 0 ∨ TotalTokens u ≠ 0.

(** The row of an answer: the attribution of the context, the channel of the call, the id
    and the model of the answer (or the configured model), its counts, and its total, or
    the 64-bit sum of the counts when the total is absent. *)
Definition row_of (c : Client) (ctx : ChatCtx) (channel id model : gostring) (u : OpenAIUsage)
    (row : Row) : Prop :=
  let a := default zero_attribution (ctx_Attribution ctx) in
  rw_UserID row = at_UserID a ∧ rw_AgentID row = at_AgentID a ∧
  rw_OperatorRole row = at_OperatorRole a ∧ rw_SessionID row = at_SessionID a ∧
  rw_RequestID row = at_RequestID a ∧
  rw_Channel row = channel ∧ rw_ProviderRequestID row = id ∧
  (model ≠ [] → rw_Model row = model) ∧ (model = [] → rw_Model row = c_Model c) ∧
  rw_PromptTokens row = PromptTokens u ∧ rw_CompletionTokens row = CompletionTokens u ∧
  (TotalTokens u ≠ 0 → rw_TotalTokens row = TotalTokens u) ∧
  (TotalTokens u = 0 → rw_TotalTokens row = int64 (PromptTokens u + CompletionTokens u)).

(** The rows an answer adds: one when a recorder is attached and the answer has a usage
    that counts, and none otherwise. *)
Definition bills (c : Client) (ctx : ChatCtx) (channel id model : gostring)
    (u : option OpenAIUsage) (new : list Row) : Prop :=
  match u with
  | Some v => (Recorder c = true ∧ counts v → ∃ row, new = [row] ∧ row_of c ctx channel id model v row) ∧
              (¬ (Recorder c = true ∧ counts v) → new = [])
  | None => new = []
  end.

Lemma usage_row_bills c ctx ch id model u :
  bills c ctx ch id model u (option_list (usage_row c ctx ch id model u)).
Proof.
  destruct u as [[p q t]|]; [|done]. unfold usage_row, counts, row_of, FromContext. cbn.
  destruct (Recorder c); cbn [negb]; [|by split; [intros []|]]. split.
  - intros [_ H].
    assert ((p =? 0) && (q =? 0) && ((if t =? 0 then int64 (p + q) else t) =? 0) = false) as ->.
    { destruct (Z.eqb_spec p 0) as [->|]; [|done]. destruct (Z.eqb_spec q 0) as [->|]; [|done].
      destruct (Z.eqb_spec t 0); [|by apply Z.eqb_neq]. unfold counts in H; cbn in H. lia. }
    eexists. split; [reflexivity|]. cbn.
    split_and!; try (destruct (ctx_Attribution ctx); done); try (intros; by case_decide).
    + cbn. intros Ht. by destruct (Z.eqb_spec t 0).
    + cbn. by intros ->.
  - intros H. unfold counts in H. cbn in H.
    assert (p = 0 ∧ q = 0 ∧ t = 0) as (-> & -> & ->); [|done].
    destruct (decide (p = 0 ∧ q = 0 ∧ t = 0)) as [|Hz]; [done|]. destruct H. split; [done|lia].
Qed.

(** C36: the ledger: a call adds no row when it fails (an error of the transport, a bad
    status, an unreadable or empty answer, a panic of the client's callback).  When it
    succeeds, the row is that of the answer the server gave: of the decoded completion,
    or of the last usage, id and model among the events of the stream; there is exactly
    one when a recorder is attached and one of the counts of the answer is not zero, with
    the attribution of the context, the channel of the call, the answer's id, its model or
    the configured one, its prompt and completion counts, and its total or their sum; and
    none otherwise. *)
Theorem calls_ledger `{LL : !LedgerLaws rows} {S} (c : Client) (ctx : ChatCtx)
    (msgs : list TMessage) (tools : list ToolDefinition) (maxTokens : Z) (temperature : Q)
    (channel : gostring) (cb : option (gostring → S → Go W S)) (s : S) (w : W) :
  (∀ f d s w, cb = Some f → rows (f d s w).1 = rows w) →
  (let '(w', o) := completeChat c ctx msgs tools maxTokens temperature channel w in
   ∃ new, rows w' = rows w ++ new ∧
   match o with
   | Done (Ok r) => ∃ w1 resp res,
       send c (chat_payload c msgs tools maxTokens temperature) w = (w1, Done (Ok resp)) ∧
       200 ≤ hp_Status resp ≤ 299 ∧
       json_Completion (mjoin (hp_Chunks resp)) (hp_End resp) = Ok res ∧
       head (cc_Choices res) = Some (AssistantMsg r) ∧
       bills c ctx channel (cc_ID res) (cc_Model res) (cc_Usage res) new
   | _ => new = []
   end) ∧
  (let '(w', o) := run_turn cb (StreamChat c ctx msgs tools) s w in
   ∃ new, rows w' = rows w ++ new ∧
   match o with
   | Done (_, Ok r) => ∃ w1 resp,
       send c (stream_payload c ctx msgs tools) w = (w1, Done (Ok resp)) ∧
       200 ≤ hp_Status resp ≤ 299 ∧
       let es := body_events (mjoin (hp_Chunks resp)) in
       tm_Content r.1 = mjoin (event_text <$> es) ∧
       bills c ctx "stream_chat"
         (default [] (last (filter (λ v, v ≠ []) (sc_ID <$> es))))
         (default [] (last (filter (λ v, v ≠ []) (sc_ChunkModel <$> es))))
         (last (omap sc_Usage es)) new
   | _ => new = []
   end).
Proof.
  intros Hcb. split.
  - unfold completeChat, go_try, mbind, Go_bind.
    match goal with |- context [send c ?p w] => pose proof (send_rows c p w) as Hs;
      destruct (send c p w) as [w1 [[resp|e]|p']] eqn:E end; cbn in Hs; [|by apply no_row..].
    destruct (status_ok resp) eqn:Hok; cbn [negb]; [|by apply no_row].
    destruct (json_Completion _ _) as [res|e] eqn:Ec; [|by apply no_row].
    destruct (cc_Choices res) as [|m ms] eqn:Em; [by apply no_row|].
    eexists. rewrite emitUsage_rows, Hs. split; [done|].
    exists w1, resp, res. split; [done|]. split; [by apply withinP|]. split; [done|].
    split; [by rewrite Em|apply usage_row_bills].
  - pose proof (send_rows c (stream_payload c ctx msgs tools) w) as Hs.
    destruct (send c (stream_payload c ctx msgs tools) w) as [w1 [[resp|e]|p']] eqn:E; cbn in Hs.
    + destruct (status_ok resp) eqn:Hok.
      * rewrite (StreamChat_response c ctx msgs tools cb s w w1 resp E Hok).
        destruct (scan_body _ _ _) as [ds res] eqn:Eb.
        match goal with |- context [run_turn cb (deltas_then ds ?t) s w1] =>
          destruct (run_deltas_rows rows cb t ds s w1 Hcb) as [(s' & w' & H1 & ->)|(p & w' & H1 & ->)]
        end; rewrite Hs in H1; [|by apply no_row].
        destruct res as [st|e]; [|by apply no_row]. cbn.
        apply scan_body_events in Eb as ->. eexists. rewrite emitUsage_rows, H1. split; [done|].
        exists w1, resp. split; [done|]. split; [by apply withinP|]. cbn.
        rewrite (proj1 (run_events_state _ _)).
        destruct (run_events_meta (body_events (mjoin (hp_Chunks resp))) sse_init) as (-> & -> & ->).
        split; [done|]. cbn [streamID streamModel lastUsage sse_init].
        destruct (last (omap sc_Usage _)); apply usage_row_bills.
      * unfold StreamChat. rewrite run_turn_go, (go_bind_eq _ _ _ _ _ E), Hok. by apply no_row.
    + unfold StreamChat. rewrite run_turn_go, (go_bind_eq _ _ _ _ _ E). by apply no_row.
    + unfold StreamChat. rewrite run_turn_go, (go_bind_Panicked _ _ _ _ _ E). by apply no_row.
Qed.
End properties.

(** The role of a streamed answer is always that of the assistant. *)
Lemma StreamChat_role {W} `{HL : HttpLib W} `{LG : Ledger W} {S} (c : Client) (ctx : ChatCtx)
    msgs tools (cb : option (gostring → S → Go W S)) s w w' s' m uses :
  run_turn cb (StreamChat c ctx msgs tools) s w = (w', Done (s', Ok (m, uses))) →
  tm_Role m = RoleAssistant.
Proof.
  intros E. destruct (send c (stream_payload c ctx msgs tools) w) as [w1 [[resp|e]|p]] eqn:Es.
  - destruct (status_ok resp) eqn:Hok.
    + rewrite (StreamChat_response c ctx msgs tools cb s w w1 resp Es Hok) in E.
      destruct (scan_body _ _ _) as [ds res]. revert s w1 Es E.
      assert (∀ s w1, run_turn cb (deltas_then ds (match res with
          | Ok st => finish_stream c ctx st | Err e => TurnReturn (Err e) end)) s w1 =
        (w', Done (s', Ok (m, uses))) → tm_Role m = RoleAssistant) as H; [|by eauto].
      induction ds as [|d ds IH]; intros s w1 E.
      * destruct res as [st|e]; cbn in E; [|done]. by injection E as <- <- <- <-.
      * cbn in E. destruct cb as [f|]; [|done]. apply go_bind_Done in E as (w2 & s2 & _ & E).
        by eapply IH.
    + unfold StreamChat in E. rewrite run_turn_go, (go_bind_eq _ _ _ _ _ Es), Hok in E. done.
  - unfold StreamChat in E. by rewrite run_turn_go, (go_bind_eq _ _ _ _ _ Es) in E.
  - unfold StreamChat in E. by rewrite run_turn_go, (go_bind_Panicked _ _ _ _ _ Es) in E.
Qed.

(** ** Witnesses and concrete runs *)

#[local] Instance OpenAIUsage_countable_eq : EqDecision OpenAIUsage.
Proof. solve_decision. Defined.
#[local] Instance OpenAIUsage_countable : Countable OpenAIUsage :=
  inj_countable' (λ u, (PromptTokens u, CompletionTokens u, TotalTokens u))
    (λ p, {| PromptTokens := p.1.1; CompletionTokens := p.1.2; TotalTokens := p.2 |})
    (λ u, match u with Build_OpenAIUsage _ _ _ => eq_refl end).
#[local] Instance CallDelta_eq : EqDecision CallDelta.
Proof. solve_decision. Defined.
#[local] Instance CallDelta_countable : Countable CallDelta :=
  inj_countable' (λ d, (cd_Index d, cd_ID d, cd_Name d, cd_Arguments d))
    (λ p, {| cd_Index := p.1.1.1; cd_ID := p.1.1.2; cd_Name := p.1.2; cd_Arguments := p.2 |})
    (λ d, match d with Build_CallDelta _ _ _ _ => eq_refl end).
#[local] Instance ChunkDelta_eq : EqDecision ChunkDelta.
Proof. solve_decision. Defined.
#[local] Instance ChunkDelta_countable : Countable ChunkDelta :=
  inj_countable' (λ d, (dl_Content d, dl_ToolCalls d))
    (λ p, {| dl_Content := p.1; dl_ToolCalls := p.2 |})
    (λ d, match d with Build_ChunkDelta _ _ => eq_refl end).
#[local] Instance StreamChunk_eq : EqDecision StreamChunk.
Proof. solve_decision. Defined.
#[local] Instance StreamChunk_countable : Countable StreamChunk :=
  inj_countable' (λ c, (sc_ID c, sc_ChunkModel c, sc_Usage c, sc_Choices c))
    (λ p, {| sc_ID := p.1.1.1; sc_ChunkModel := p.1.1.2; sc_Usage := p.1.2; sc_Choices := p.2 |})
    (λ c, match c with Build_StreamChunk _ _ _ _ => eq_refl end).

(** Events in braces. *)
Definition brace (c : StreamChunk) : gostring := "{" ++ pos_bytes (encode c) ++ "}".
Definition unbrace (s : gostring) : option StreamChunk :=
  match s with
  | x7b :: s' => decode (bytes_pos (take (length s' - 1) s'))
  | _ => None
  end.

(** A transport that always answers with [resp], in a world that is a ledger. *)
Definition sample_http (resp : HttpResponse) : HttpLib (list Row) :=
  {| json_Payload := λ p, Ok (py_Model p); http_NewRequest := λ _, None;
     http_Do := λ _ _, mret (Ok resp);
     json_Completion := λ s _, Ok {| cc_ID := "id"; cc_Model := []; cc_Choices := [say RoleAssistant s];
       cc_Usage := Some {| PromptTokens := 2; CompletionTokens := 3; TotalTokens := 0 |} |};
     json_Chunk := unbrace; json_Object := λ _, None |}.

#[local] Instance sample_ledger : Ledger (list Row) := λ row w, w ++ [row].

Lemma pos_bytes_bits p b : b ∈ pos_bytes p → b = x00 ∨ b = x01.
Proof.
  induction p; cbn; [intros [->|?]%elem_of_cons; auto..|by intros ?%elem_of_nil].
Qed.

Lemma sample_encoder resp : EventEncoder (list Row) (HL := sample_http resp).
Proof.
  refine {| encode_event := brace |}.
  - intros c _. cbn -[encode decode pos_bytes bytes_pos]. unfold brace.
    cbn -[encode decode pos_bytes bytes_pos]. rewrite length_app. cbn [length].
    rewrite Nat.add_sub, take_app_length, bytes_pos_bytes. by rewrite decode_encode.
  - intros c _. unfold brace. split; (intros [H|[H|H]%elem_of_app]%elem_of_app;
      [|by apply pos_bytes_bits in H as [?|?]|]); revert H; apply (bool_decide_unpack _); exact I.
  - intros c _. apply TrimSpace_fixed; [by apply starts_visible_ascii|]. unfold brace.
    rewrite app_assoc. by apply (ends_visible_ascii x7d).
  - by intros c.
Defined.

Definition text_event (s : gostring) : StreamChunk :=
  {| sc_ID := "id"; sc_ChunkModel := []; sc_Usage := None;
     sc_Choices := [{| dl_Content := Some s; dl_ToolCalls := [] |}] |}.
Definition call_event (i : Z) (id name args : gostring) : StreamChunk :=
  {| sc_ID := "id"; sc_ChunkModel := [];
     sc_Usage := Some {| PromptTokens := 2; CompletionTokens := 3; TotalTokens := 0 |};
     sc_Choices := [{| dl_Content := None;
       dl_ToolCalls := [{| cd_Index := i; cd_ID := id; cd_Name := name; cd_Arguments := args |}] |}] |}.

(** Two calls whose fragments are interleaved. *)
Definition sample_events : list StreamChunk :=
  [text_event "he"; call_event 0 "a" "f" "{"; text_event "llo"; call_event 1 "b" "g" "[";
   call_event 0 [] [] "}"; call_event 1 [] [] "]"].

Lemma text_event_valid s : valid_utf8 s → valid_event (text_event s).
Proof.
  intros H. split_and!; [done..|]. repeat constructor. cbn. by intros t [= <-].
Qed.

Lemma call_event_valid i id name args :
  int_64 i → valid_utf8 id → valid_utf8 name → valid_utf8 args →
  valid_event (call_event i id name args).
Proof.
  intros Hi Hid Hn Ha. split_and!; [done..| |].
  - intros u [= <-]. cbn. unfold int_64. lia.
  - apply Forall_singleton. split; [done|]. by apply Forall_singleton.
Qed.

Lemma sample_events_valid : Forall valid_event sample_events.
Proof.
  unfold sample_events. repeat (apply Forall_cons; split); [..|by apply Forall_nil];
    (apply text_event_valid || apply call_event_valid); unfold int_64; lia || reflexivity.
Qed.

Definition the_call (id name args : gostring) : TToolCall :=
  {| tt_ID := id; tt_Type := "function";
     tt_Function := {| tf_Name := name; tf_Arguments := args |} |}.

Definition sample_answer_message : TMessage :=
  {| tm_Role := RoleAssistant; tm_Content := "hello";
     tm_ToolCalls := [the_call "a" "f" "{}"; the_call "b" "g" "[]"]; tm_ToolCallID := [] |}.

(** [s] in pieces of [k] bytes. *)
Fixpoint pieces (fuel k : nat) (s : gostring) : list gostring :=
  match fuel with
  | O => [s]
  | S f => take k s :: pieces f k (drop k s)
  end.

Definition sample_response : HttpResponse :=
  let r := {| hp_Status := 200; hp_Chunks := []; hp_End := None |} in
  {| hp_Status := 200;
     hp_Chunks := pieces 40 7 (sse_stream (HL := sample_http r) (EE := sample_encoder r) sample_events);
     hp_End := Some (ErrorString "reset") |}.

Definition sample_client : Client :=
  {| BaseURL := "http://x"; AuthToken := []; APIKey := "k"; c_Model := "m"; c_Timeout := 1;
     Recorder := true |}.

Definition sample_ctx : ChatCtx :=
  {| ctx_Attribution := Some {| at_UserID := "u"; at_AgentID := "a"; at_OperatorRole := [];
       at_SessionID := "s"; at_RequestID := "r" |}; ctx_ChatModel := Some "other" |}.

Lemma StreamChat_scan_witness :
  let HL := sample_http sample_response in
  let '(ds, res) := scan_body (mjoin (hp_Chunks sample_response)) (hp_End sample_response) sse_init in
  run_turn None (StreamChat sample_client sample_ctx [] []) tt [] =
    run_turn None (deltas_then ds (match res with
      | Ok st => finish_stream sample_client sample_ctx st | Err e => TurnReturn (Err e) end)) tt [] ∧
  ∀ st, res = Ok st → tm_Content (stream_message st) = mjoin ds.
Proof.
  apply (StreamChat_scan (HL := sample_http sample_response) sample_client sample_ctx [] [] None tt
    [] [] sample_response); reflexivity.
Defined.

Lemma StreamChat_reassembles_witness :
  ∃ w2 uses, run_turn (Some (λ d s, mret (s ++ [d])))
      (StreamChat (HL := sample_http sample_response) sample_client sample_ctx [] []) [] [] =
    (w2, Done (["he"; "llo"], Ok (sample_answer_message, uses))).
Proof.
  apply (StreamChat_reassembles (HL := sample_http sample_response)
    (EE := sample_encoder sample_response) sample_client sample_ctx [] [] [] [] sample_response
    sample_events sample_answer_message);
    [reflexivity..| | |reflexivity|reflexivity|reflexivity|].
  - apply sample_events_valid.
  - vm_compute. reflexivity.
  - split.
    + apply Forall_forall. refine (bool_decide_unpack _ _). vm_compute. exact I.
    + intros [|[|i]] call; intros [= <-]; split; done || reflexivity.
Defined.

(** A call that is not streamed and one that is, each with its row. *)
Lemma calls_ledger_witness :
  let HL := sample_http sample_response in
  let row ch := {| rw_UserID := "u"; rw_AgentID := "a"; rw_OperatorRole := []; rw_SessionID := "s";
    rw_RequestID := "r"; rw_Model := "m"; rw_Channel := ch; rw_PromptTokens := 2;
    rw_CompletionTokens := 3; rw_TotalTokens := 5; rw_ProviderRequestID := "id" |} in
  (∃ new, (completeChat sample_client sample_ctx [] [] 512 0 "text_only" []).1 = new ∧
     bills sample_client sample_ctx "text_only" "id" []
       (Some {| PromptTokens := 2; CompletionTokens := 3; TotalTokens := 0 |}) new) ∧
  (completeChat sample_client sample_ctx [] [] 512 0 "text_only" []).1 = [row "text_only"] ∧
  (run_turn (Some (λ d s, mret (s ++ [d]))) (StreamChat sample_client sample_ctx [] [])
     ([] : list gostring) []).1 = [row "stream_chat"].
Proof.
  intros HL row. split; [|split; vm_compute; reflexivity].
  assert (LedgerLaws (HL := HL) id) as L by by split.
  pose proof (calls_ledger (HL := HL) (LL := L) sample_client sample_ctx [] [] 512 0 "text_only"
    (Some (λ d s, mret (s ++ [d]))) ([] : list gostring) []) as [H _]; [by intros f d s w [= <-]|].
  destruct (completeChat sample_client sample_ctx [] [] 512 0 "text_only" []) as [w' [[r|e]|p]] eqn:E;
    cbn in E; [|done..].
  destruct H as (new & Hn & w1 & resp & res & _ & _ & Hc & _ & Hb).
  exists new. split; [exact Hn|]. cbn in Hc. injection Hc as <-. exact Hb.
Defined.

(** Calls are collected up to the number of entries: a first index other than 0 loses
    the call. *)
Example index_gap :
  collected (foldl add_fragment ∅
    [{| cd_Index := 1; cd_ID := "a"; cd_Name := "f"; cd_Arguments := "{}" |}]) = [].
Proof. vm_compute. reflexivity. Qed.

(** When the provider does not name the model, the ledger gets the configured one even
    if the connection chose another. *)
Example override_not_in_ledger :
  py_Model (stream_payload sample_client sample_ctx [] []) = "other" ∧
  (rw_Model <$> usage_row sample_client sample_ctx "stream_chat" "id" []
    (Some {| PromptTokens := 1; CompletionTokens := 1; TotalTokens := 0 |})) = Some "m".
Proof. vm_compute. by split. Qed.

(** A stream cut before its end is an answer like another. *)
Example truncated_stream :
  let HL := sample_http sample_response in
  let EE := sample_encoder sample_response in
  (stream_message <$> (scan_body (sse_event (text_event "he")) None sse_init).2) =
  Ok (say RoleAssistant "he").
Proof. vm_compute. reflexivity. Qed.

(** With a nil callback the first delta panics. *)
Example nil_callback :
  (run_turn None (StreamChat (HL := sample_http sample_response) sample_client sample_ctx [] [])
    tt []).2 = Panicked "invalid memory address or nil pointer dereference".
Proof. vm_compute. reflexivity. Qed.
