(* ===== verification/Memorywork.v ===== *)
(** * Package [memorywork]: extraction and consolidation

    [src/internal/memorywork]: after a turn, [LLMExtractor] asks the model for facts
    worth keeping and writes them ([extractor.go]); from time to time,
    [DreamConsolidator] asks it to rewrite the memories of each session ([dream.go]).
    The JSON decoder of the model's answer is a parameter ([ItemDecoder]). *)

From Stdlib Require Import QArith.QArith_base.
From S2P Require Import Prelude GoString Identity Transcript Tools Planner Memory Prompt Env Adapter.
From S2P Require Import Session Pg Usage PgStore Client Skills.
Open Scope Z_scope.

(** ** The model's answer *)

(** [memItem]. *)
Record MemItem := { mi_Category : gostring; mi_Key : gostring; mi_Content : gostring }.

(** [json.Unmarshal] into a slice of items. *)
Class ItemDecoder := unmarshal_mem_items : gostring → result (list MemItem).

Definition stripJSONFence (s : gostring) : gostring :=
  let s := TrimSpace s in
  let s := TrimPrefix s "```json" in
  let s := TrimPrefix s "```JSON" in
  let s := TrimPrefix s "```" in
  let s := TrimSuffix s "```" in
  TrimSpace s.

(** The text from the first opening to the last closing bracket. *)
Definition json_array (raw : gostring) : option gostring :=
  match Index raw "[", LastIndexByte raw x5d with
  | Some i, Some j => if (j <=? i)%nat then None else Some (take (S j - i) (drop i raw))
  | _, _ => None
  end.

Definition parse_items `{ItemDecoder} (none : gostring) (maxN : Z) (raw : gostring) :
    result (list MemItem) :=
  match json_array raw with
  | None => Err (ErrorString none)
  | Some raw =>
      match unmarshal_mem_items raw with
      | Err e => Err e
      | Ok items => Ok (if maxN <? len items then take (Z.to_nat maxN) items else items)
      end
  end.

Definition parseMemoryItems `{ItemDecoder} (raw : gostring) : result (list MemItem) :=
  parse_items "no json array in model output" 5 raw.

Definition parseDreamItems `{ItemDecoder} (raw : gostring) (maxN : Z) : result (list MemItem) :=
  parse_items "no json array" maxN raw.

Definition normalizeCategory `{UnicodeTables} (s : gostring) : Category :=
  let s := ToLower (TrimSpace s) in
  if decide (s = "user") then CategoryUser
  else if decide (s = "feedback") then CategoryFeedback
  else if decide (s = "project") then CategoryProject
  else CategoryRef.

(** An item as it would be stored: [None] when its trimmed key or content is empty or
    too long. *)
Definition clean_item `{UnicodeTables} (it : MemItem) : option NewMemory :=
  let cat := normalizeCategory (mi_Category it) in
  let key := TrimSpace (mi_Key it) in
  let content := TrimSpace (mi_Content it) in
  if decide (key = [] ∨ content = []) then None
  else if (200 <? len key) || (8000 <? len content) then None
  else Some {| nm_Category := cat; nm_Key := key; nm_Content := content |}.

(** ** The extractor *)

(** [LLMExtractor]; the holder may be nil. *)
Record LLMExtractor (W : Type) := {
  ex_LLM : option (W → option Client);
  ex_PG : option (MemoryStore W);
  ex_MaxTokens : Z;
  ex_MinTurnLen : Z;
}.
Arguments ex_LLM {_} _.
Arguments ex_PG {_} _.
Arguments ex_MaxTokens {_} _.
Arguments ex_MinTurnLen {_} _.

Definition in_quotes (s : gostring) : gostring := [x22] ++ s ++ [x22].

Definition extract_prompt : gostring := TrimSpace (
  [x0a] ++
  "你是记忆策展助手。根据对话片段，仅提取**值得跨轮次保留**的稳定事实（用户偏好、项目规则、世界设定、用户明确反馈）。" ++ [x0a] ++
  "不要保存：临时任务步骤、一次性命令、已在工具结果里的冗长原文、密钥与隐私。" ++ [x0a] ++
  "输出必须是 **JSON 数组**，元素形如：" ++ [x0a] ++
  "[{" ++ in_quotes "category" ++ ":" ++ in_quotes "user|feedback|project|reference" ++ "," ++
  in_quotes "key" ++ ":" ++ in_quotes "snake_case_id" ++ "," ++
  in_quotes "content" ++ ":" ++ in_quotes "一句具体事实" ++ "}]" ++ [x0a] ++
  "最多 5 条；若无值得保存的内容，输出 []。" ++ [x0a] ++
  "只输出 JSON，不要 markdown 围栏。").

(** A line of the turn; the text is cut at a number of bytes. *)
Definition turn_line (m : Message) : gostring :=
  let line := TrimSpace (m_Content m) in
  let line := if 4000 <? len line then take 4000 line ++ "…(truncated)" else line in
  (if decide (m_Role m = RoleUser) then "用户: " ++ line
   else if decide (m_Role m = RoleAssistant) then
     "助手: " ++ line ++ (if 0 <? len (m_ToolCalls m) then " [tool_calls]" else [])
   else if decide (m_Role m = RoleTool) then "工具结果: " ++ line
   else m_Role m ++ ": " ++ line) ++ [x0a].

Definition summarizeTurn (turn : list Message) : gostring := mjoin (turn_line <$> turn).

Definition plain_message (role content : gostring) : TMessage :=
  {| tm_Role := role; tm_Content := content; tm_ToolCalls := []; tm_ToolCallID := [] |}.

Section memorywork.
Context `{UT : UnicodeTables} `{ID : ItemDecoder} {W : Type} `{HL : HttpLib W} `{LG : Ledger W}.

(** [NewLLMExtractor]. *)
Definition NewLLMExtractor (llm : option (W → option Client)) (pg : option (MemoryStore W)) :
    LLMExtractor W :=
  {| ex_LLM := llm; ex_PG := pg; ex_MaxTokens := 512; ex_MinTurnLen := 64 |}.

(** [llmClient] of both: nil without a holder, else what the holder holds. *)
Definition llmClient (llm : option (W → option Client)) (w : W) : option Client :=
  match llm with None => None | Some load => load w end.

Definition minLen (e : LLMExtractor W) : Z :=
  if 0 <? ex_MinTurnLen e then ex_MinTurnLen e else 64.

(** The loop over the items. *)
Fixpoint write_items (pg : option (MemoryStore W)) (scope : TenantScope) (sessionID : gostring)
    (items : list MemItem) : Go W (option goerror) :=
  match items with
  | [] => mret None
  | it :: items' =>
      match clean_item it with
      | None => write_items pg scope sessionID items'
      | Some n =>
          e ← WriteScoped pg sessionID (UserID scope) (AgentID scope)
                (nm_Category n) (nm_Key n) (nm_Content n);
          match e with
          | Some e => mret (Some e)
          | None => write_items pg scope sessionID items'
          end
      end
  end.

(** [AfterTurn], for the values [ctx] of the context; the receiver may be nil. *)
Definition AfterTurn (e : option (LLMExtractor W)) (ctx : ChatCtx) : PostTurnExtractor W :=
  λ scope sessionID turn,
  match e with
  | None => mret None
  | Some e =>
      if decide (ex_PG e = None) then mret None
      else
        client ← go_gets (llmClient (ex_LLM e));
        match (client : option Client) with
        | None => mret None
        | Some client =>
            match Validate scope with
            | Some err => mret (Some err)
            | None =>
                let text := summarizeTurn turn in
                if RuneCount text <? minLen e then mret None
                else
                  let maxTok := if ex_MaxTokens e <=? 0 then 512 else ex_MaxTokens e in
                  resp ← ChatTextOnly client ctx
                    [plain_message RoleSystem extract_prompt;
                     plain_message RoleUser ("对话片段：" ++ [x0a] ++ text)] maxTok;
                  match resp with
                  | Err err => mret (Some err)
                  | Ok resp =>
                      let raw := stripJSONFence (TrimSpace (tm_Content (AssistantMsg resp))) in
                      match parseMemoryItems raw with
                      | Err err =>
                          mret (Some (WrapError ("memory extract parse: " ++ error_text err) err))
                      | Ok items => write_items (ex_PG e) scope sessionID items
                      end
                  end
            end
        end
  end.

(** ** The consolidator *)

(** [DreamConsolidator]; the holder may be nil. *)
Record DreamConsolidator := {
  dc_LLM : option (W → option Client);
  dc_PG : option (MemoryStore W);
  dc_MaxTokens : Z;
  MaxRowsLoad : Z;
  MinRowsToRun : Z;
  MaxRowsOutput : Z;
}.

Definition NewDreamConsolidator (llm : option (W → option Client)) (pg : option (MemoryStore W)) :
    DreamConsolidator :=
  {| dc_LLM := llm; dc_PG := pg; dc_MaxTokens := 3072; MaxRowsLoad := 120; MinRowsToRun := 3;
     MaxRowsOutput := 60 |}.

Definition minRun (d : DreamConsolidator) : Z := if 0 <? MinRowsToRun d then MinRowsToRun d else 3.
Definition maxOut (d : DreamConsolidator) : Z :=
  if 0 <? MaxRowsOutput d then MaxRowsOutput d else 60.

Definition sessionsToProcess (d : DreamConsolidator) (scope : TenantScope) (single : gostring) :
    Go W (result (list gostring)) :=
  if decide (TrimSpace single = []) then
    ListDistinctSessionsForTenant (dc_PG d) (UserID scope) (AgentID scope)
  else mret (Ok [single]).

Definition dream_prompt : gostring := TrimSpace (
  [x0a] ++
  "你是记忆整理（Dream）助手。下面是一个会话下的长期记忆列表（可能重复、矛盾或含噪声）。" ++ [x0a] ++
  "任务：输出**整理后**的 JSON 数组，每项 {" ++ in_quotes "category" ++ ":" ++
  in_quotes "user|feedback|project|reference" ++ "," ++ in_quotes "key" ++ ":" ++
  in_quotes "snake_case" ++ "," ++ in_quotes "content" ++ ":" ++ in_quotes "合并后的一句事实" ++
  "}。" ++ [x0a] ++
  "规则：" ++ [x0a] ++
  "- 语义重复合并为一条，保留信息更完整、更新的版本。" ++ [x0a] ++
  "- 明显矛盾时保留更可能仍成立的一条，并在 content 里简短说明取舍（可选）。" ++ [x0a] ++
  "- 删掉纯临时、无长期价值的条目。" ++ [x0a] ++
  "- key 保持稳定可读；可重命名 key 若明显更清晰。" ++ [x0a] ++
  "- 条目数不超过输入条数，且不超过 60。" ++ [x0a] ++
  "输出只能是 JSON 数组，不要 markdown。").

Definition dream_line (r : MemoryRecord) : gostring :=
  "- [" ++ mr_Category r ++ "] " ++ mr_Key r ++ " :: " ++ TrimSpace (mr_Content r) ++ [x0a].

(** The context of the call: the run is accounted to the tenant as [dream]. *)
Definition dream_ctx (ctx : ChatCtx) (scope : TenantScope) (sessionID : gostring) : ChatCtx :=
  WithAttribution ctx {| at_UserID := UserID scope; at_AgentID := AgentID scope;
    at_OperatorRole := []; at_SessionID := sessionID; at_RequestID := "dream" |}.

(** The second half of [consolidateOneSession]: from the model's text to the
    replacement. *)
Definition store_dream (d : DreamConsolidator) (scope : TenantScope) (sessionID text : gostring) :
    Go W (option goerror) :=
  match parseDreamItems (stripJSONFence (TrimSpace text)) (maxOut d) with
  | Err e =>
      mret (Some (WrapError ("dream parse session " ++ sessionID ++ ": " ++ error_text e) e))
  | Ok [] => mret None
  | Ok items =>
      let repl := omap clean_item items in
      if decide (repl = []) then mret None
      else ReplaceSessionMemories (dc_PG d) sessionID (UserID scope) (AgentID scope) repl
  end.

Definition consolidateOneSession (d : DreamConsolidator) (ctx : ChatCtx) (scope : TenantScope)
    (sessionID : gostring) : Go W (option goerror) :=
  client ← go_gets (llmClient (dc_LLM d));
  match (client : option Client) with
  | None => mret None
  | Some client =>
      let limit := if MaxRowsLoad d <=? 0 then 120 else MaxRowsLoad d in
      rows ← ListAllForSession (dc_PG d) sessionID (UserID scope) (AgentID scope) limit;
      match rows with
      | Err e => mret (Some e)
      | Ok rows =>
          if len rows <? minRun d then mret None
          else
            let maxTok := if dc_MaxTokens d <=? 0 then 3072 else dc_MaxTokens d in
            resp ← ChatTextOnly client (dream_ctx ctx scope sessionID)
              [plain_message RoleSystem dream_prompt;
               plain_message RoleUser ("待整理记忆：" ++ [x0a] ++ mjoin (dream_line <$> rows))] maxTok;
            match resp with
            | Err e => mret (Some e)
            | Ok resp => store_dream d scope sessionID (tm_Content (AssistantMsg resp))
            end
      end
  end.

(** The loop over the sessions; the first error stops it. *)
Fixpoint consolidate_all (d : DreamConsolidator) (ctx : ChatCtx) (scope : TenantScope)
    (sessions : list gostring) : Go W (option goerror) :=
  match sessions with
  | [] => mret None
  | sid :: sessions' =>
      e ← consolidateOneSession d ctx scope sid;
      match e with
      | Some e => mret (Some e)
      | None => consolidate_all d ctx scope sessions'
      end
  end.

(** [Consolidate]; the receiver may be nil. *)
Definition Consolidate (d : option DreamConsolidator) (ctx : ChatCtx) : Consolidator W :=
  λ scope opts,
  match d with
  | None => mret None
  | Some d =>
      if decide (dc_PG d = None) then mret None
      else
        client ← go_gets (llmClient (dc_LLM d));
        match (client : option Client) with
        | None => mret None
        | Some _ =>
            match Validate scope with
            | Some e => mret (Some e)
            | None =>
                sessions ← sessionsToProcess d scope (co_SessionID opts);
                match sessions with
                | Err e => mret (Some e)
                | Ok sessions => consolidate_all d ctx scope sessions
                end
            end
        end
  end.
End memorywork.
Arguments DreamConsolidator : clear implicits.

(** ** Lemmas *)

(** The transport and the ledger do not touch the table of memories. *)
Class QuietModel {W} `{HL : HttpLib W} `{LG : Ledger W} (table : W → list MemoryRecord) : Prop := {
  quiet_Do t req : go_rel (λ w w', table w' = table w) (http_Do t req);
  quiet_ledger row w : table (record_usage row w) = table w;
}.

#[export] Instance same_table_preorder {W} (table : W → list MemoryRecord) :
  PreOrder (λ w w' : W, table w' = table w).
Proof. split; [done|]. intros w1 w2 w3 H1 H2. by rewrite H2. Qed.

Lemma clean_item_wf `{UT : UnicodeTables} it n :
  clean_item it = Some n → cols_wf (nm_Category n) (nm_Key n) (nm_Content n).
Proof.
  unfold clean_item. case_decide; [done|]. destruct ((200 <? _) || _) eqn:El; [done|].
  intros [= <-]. cbn. apply cols_wf_trimmed; [|done..]. unfold normalizeCategory.
  repeat case_decide; refine (bool_decide_unpack _ _); exact I.
Qed.

Lemma parse_items_length `{ID : ItemDecoder} none maxN raw items :
  0 ≤ maxN → parse_items none maxN raw = Ok items → len items ≤ maxN.
Proof.
  unfold parse_items. intros Hn. destruct (json_array raw) as [t|]; [|done].
  destruct (unmarshal_mem_items t) as [l|]; [|done]. intros [= <-]. unfold len.
  destruct (Z.ltb_spec maxN (Z.of_nat (length l))); [|done]. rewrite length_take. lia.
Qed.

Lemma length_omap_le {A B} (f : A → option B) l : (length (omap f l) ≤ length l)%nat.
Proof. induction l as [|x l IH]; cbn; [done|]. destruct (f x); cbn; lia. Qed.

Lemma clean_items_wf `{UT : UnicodeTables} items :
  Forall (λ n, cols_wf (nm_Category n) (nm_Key n) (nm_Content n)) (omap clean_item items).
Proof.
  apply Forall_forall. intros n (it & _ & H)%list_elem_of_omap. by eapply clean_item_wf.
Qed.

(** The rows of a session. *)
Definition rows_of (s u a : gostring) (tbl : list MemoryRecord) : list MemoryRecord :=
  filter (λ r, in_session s u a r = true) tbl.

Lemma keeps_outside_session s s' u a tbl tbl' :
  s ≠ s' → keeps_outside (in_session s u a) tbl tbl' → rows_of s' u a tbl' ≡ₚ rows_of s' u a tbl.
Proof.
  intros Hs H. unfold keeps_outside in H.
  assert (∀ t, rows_of s' u a t =
    filter (λ r, in_session s' u a r = true) (filter (λ r, in_session s u a r = false) t)) as He.
  { intros t. symmetry. apply list_filter_filter_l. intros r Hr%in_session_spec.
    apply in_session_false. rewrite Hr. congruence. }
  rewrite !He. by rewrite H.
Qed.

Lemma rows_added_session s u a rows t t' :
  rows_added s u a rows t t' →
  length (rows_of s u a t') = (length rows + length (rows_of s u a t))%nat.
Proof.
  induction 1 as [|n rows t t1 t2 (r & Ht & Hk & _) _ IH]; [done|]. rewrite IH. unfold rows_of.
  rewrite Ht, filter_cons_True by by apply in_session_spec; rewrite Hk. cbn. lia.
Qed.

Lemma replaced_length s u a rows t t' :
  replaced s u a rows t t' → length (rows_of s u a t') = length rows.
Proof.
  intros (t0 & Ht & H). rewrite (rows_added_session _ _ _ _ _ _ H). unfold rows_of at 1.
  rewrite Ht. replace (filter _ _) with ([] : list MemoryRecord); [cbn; lia|]. symmetry.
  apply elem_of_nil_inv. intros r [Hr [Hr' _]%list_elem_of_filter]%list_elem_of_filter. congruence.
Qed.

(** A session after a run: as before, or at least [mn] rows replaced by one row or more,
    at most [mx], all well formed. *)
Definition rows_after (mn mx : Z) (old new : list MemoryRecord) : Prop :=
  new ≡ₚ old ∨ (mn ≤ len old ∧ 1 ≤ len new ≤ mx ∧ Forall row_wf new).

#[export] Instance rows_after_proper mn mx : Proper ((≡ₚ) ==> (≡ₚ) ==> iff) (rows_after mn mx).
Proof.
  intros o o' Ho n n' Hn. unfold rows_after, len. by rewrite Ho, Hn.
Qed.

Lemma rows_unchanged s u a t t' :
  keeps_outside (λ r, negb (in_session s u a r)) t t' → rows_of s u a t' ≡ₚ rows_of s u a t.
Proof.
  unfold keeps_outside, rows_of. intros H.
  assert (∀ l : list MemoryRecord, filter (λ r, in_session s u a r = true) l =
               filter (λ r, negb (in_session s u a r) = false) l) as He.
  { intros l. apply list_filter_iff. intros r. by destruct (in_session s u a r). }
  by rewrite !He.
Qed.

Lemma replaced_rows s u a rows t t' :
  Forall (λ n, cols_wf (nm_Category n) (nm_Key n) (nm_Content n)) rows →
  replaced s u a rows t t' → Forall row_wf (rows_of s u a t').
Proof.
  intros Hc (t0 & Ht & H). assert (Forall row_wf (rows_of s u a t0)) as H0.
  { apply Forall_forall. unfold rows_of. intros r [Hr Hin]%list_elem_of_filter.
    rewrite Ht in Hin. apply list_elem_of_filter in Hin as [Hr' _]. congruence. }
  clear Ht t. induction H as [|n rows t t1 t2 (r & Ht & Hk & _ & _ & Hcat & Hx) _ IH]; [done|].
  apply Forall_cons in Hc as [Hn Hc]. apply IH; [done|]. unfold rows_of. rewrite Ht.
  rewrite filter_cons_True by by apply in_session_spec; rewrite Hk. constructor; [|done].
  unfold row_wf. rewrite Hcat, Hx, (taxonomy_not_empty (nm_Category n)) by apply Hn.
  injection Hk as _ _ _ ->. done.
Qed.

(** One session: unchanged, or replaced by a bounded number of well-formed rows. *)
Lemma session_step_run s u a mn mx t t' :
  (t' = t ∨ ∃ rows, mn ≤ len (rows_of s u a t) ∧ 1 ≤ len rows ≤ mx ∧
     Forall (λ n, cols_wf (nm_Category n) (nm_Key n) (nm_Content n)) rows ∧
     replaced s u a rows t t') →
  (∀ P, (∀ r, in_session s u a r = true → P r = true) → keeps_outside P t t') ∧
  (memory_wf t → memory_wf t') ∧ rows_after mn mx (rows_of s u a t) (rows_of s u a t').
Proof.
  intros [->|(rows & Hmn & Hmx & Hc & H)]; [split_and!; [reflexivity|done|by left]|].
  split_and!; [intros; by eapply replaced_outside|by eapply replaced_memory_wf|].
  right. pose proof (replaced_length _ _ _ _ _ _ H) as Hl. unfold len in *. rewrite Hl.
  split_and!; [done|lia|lia|by eapply replaced_rows].
Qed.

Section runs.
Context `{UT : UnicodeTables} `{ID : ItemDecoder} {W : Type} `{HL : HttpLib W} `{LG : Ledger W}.
Context (pool : Pool W) (table view : W → list MemoryRecord) (like : gostring → gostring → bool)
  `{L : !PostgresLaws pool table view like} `{QM : !QuietModel table}.

Lemma ChatTextOnly_keeps c ctx msgs n :
  go_rel (λ w w', table w' = table w) (ChatTextOnly c ctx msgs n).
Proof.
  apply go_rel_try; [apply _| |].
  - unfold send. destruct (json_Payload _); [|by apply go_rel_ret, _].
    destruct (http_NewRequest _); [by apply go_rel_ret, _|apply quiet_Do].
  - intros resp. cbv zeta. destruct (negb _); [by apply go_rel_ret, _|].
    destruct (json_Completion (mjoin (hp_Chunks resp)) (hp_End resp)) as [res|e]; [|by apply go_rel_ret, _].
    destruct (cc_Choices res); [by apply go_rel_ret, _|]. intros w. cbn [fst]. unfold emitUsage.
    case_match; [apply quiet_ledger|done].
Qed.

(** The writes that were made: a prefix of the items that can be stored. *)
Lemma write_items_run pg scope sid items w w' o :
  pool_of pg = Some pool → table_wf (table w) → write_items pg scope sid items w = (w', o) →
  ∃ rows, rows `prefix_of` omap clean_item items ∧
    (o = Done None → rows = omap clean_item items) ∧ table_wf (table w') ∧
    contents (table w') =
      foldl (add_row sid (UserID scope) (AgentID scope)) (contents (table w)) rows ∧
    confined sid (UserID scope) (AgentID scope) (table w) (table w').
Proof.
  intros Hpg. revert w. induction items as [|it items IH]; intros w Hw E.
  { injection E as <- <-. by exists []. }
  cbn in E |- *. destruct (clean_item it) as [n|] eqn:En; [|by apply IH].
  unfold mbind, Go_bind in E.
  destruct (WriteScoped _ _ _ _ _ _ _ w) as [w1 r] eqn:E1.
  assert (confined sid (UserID scope) (AgentID scope) (table w) (table w1)) as Hc.
  { refine (go_rel_run _ _ _ _ _ (WriteScoped_confined pool table view like pg sid _ _ _ _ _ _ _) E1).
    - intros p Hp. congruence.
    - by eapply clean_item_wf. }
  apply (WriteScoped_run pool table view like pg Hpg) in E1 as [E1|[Ho E1]].
  - apply upserted_contents in E1 as [Hw1 Hc1]; [|done].
    assert (w1 = w' ∧ o ≠ Done None ∨ write_items pg scope sid items w1 = (w', o)) as [[<- Ho]|E2].
    { destruct r as [[e|]|p]; [left; by injection E as <- <-|by right|left; by injection E as <- <-]. }
    + exists [n]. split_and!; [apply prefix_cons, prefix_nil|done..].
    + apply IH in E2 as (rows & Hp & Hd & Hw' & Hr & Hc'); [|done]. exists (n :: rows).
      split_and!; [by apply prefix_cons|intros Ho; by rewrite Hd|done| |by etrans].
      cbn. unfold add_row at 2. by rewrite Hr, Hc1.
  - destruct r as [[e|]|p]; [|done|]; injection E as <- <-; exists [];
      (split_and!; [apply prefix_nil|done|by rewrite E1|by rewrite E1|done]).
Qed.

Lemma consolidateOneSession_run d ctx scope s w w' o :
  pool_of (dc_PG d) = Some pool → consolidateOneSession d ctx scope s w = (w', o) →
  table w' = table w ∨
  ∃ rows, minRun d ≤ len (rows_of s (UserID scope) (AgentID scope) (table w)) ∧
    1 ≤ len rows ≤ maxOut d ∧
    Forall (λ n, cols_wf (nm_Category n) (nm_Key n) (nm_Content n)) rows ∧
    replaced s (UserID scope) (AgentID scope) rows (table w) (table w').
Proof.
  intros Hpg E. unfold consolidateOneSession, go_gets in E. unfold mbind at 1, Go_bind at 1 in E.
  destruct (llmClient (dc_LLM d) w) as [client|]; [|by injection E as <- <-; left].
  unfold mbind, Go_bind in E. destruct (ListAllForSession _ _ _ _ _ w) as [w1 rows] eqn:E1.
  assert (table w1 = table w) as Ht1.
  { eapply (go_rel_run (λ v v', table v' = table v)); [|exact E1]. unfold ListAllForSession. rewrite Hpg. apply pg_Query_keeps. }
  destruct rows as [[rows|e]|p]; [|left; by injection E as <- <-..].
  destruct (Z.ltb_spec (len rows) (minRun d)) as [|Hmin]; [left; by injection E as <- <-|].
  assert (len rows ≤ len (rows_of s (UserID scope) (AgentID scope) (table w))) as Hlen.
  { unfold ListAllForSession in E1. rewrite Hpg in E1. apply pg_all_session in E1 as (l & Hl & ->).
    apply Permutation_length in Hl. unfold len, rows_of. rewrite length_take. lia. }
  destruct (ChatTextOnly _ _ _ _ w1) as [w2 resp] eqn:E2.
  assert (table w2 = table w) as Ht2.
  { rewrite <- Ht1. exact (go_rel_run _ _ _ _ _ (ChatTextOnly_keeps _ _ _ _) E2). }
  destruct resp as [[resp|e]|p]; [|left; by injection E as <- <-..].
  unfold store_dream in E.
  destruct (parseDreamItems _ _) as [items|e] eqn:Ep; [|left; by injection E as <- <-].
  apply parse_items_length in Ep; [|unfold maxOut; destruct (Z.ltb_spec 0 (MaxRowsOutput d)); lia].
  destruct items as [|it items]; [left; by injection E as <- <-|].
  case_decide as Hr; [left; by injection E as <- <-|].
  apply (ReplaceSessionMemories_run pool table view like _ Hpg) in E as [E|[_ E]]; [|left; congruence].
  right. eexists. rewrite Ht2 in E. split_and!; [lia| | |apply clean_items_wf|exact E].
  - unfold len. destruct (omap clean_item (it :: items)); [done|]. cbn. lia.
  - unfold len in *. pose proof (length_omap_le clean_item (it :: items)). lia.
Qed.

(** Several sessions, each at most once. *)
Lemma consolidate_all_run d ctx scope sessions w w' o :
  let u := UserID scope in
  let a := AgentID scope in
  pool_of (dc_PG d) = Some pool → NoDup sessions →
  consolidate_all d ctx scope sessions w = (w', o) →
  keeps_outside (of_tenant u a) (table w) (table w') ∧
  (memory_wf (table w) → memory_wf (table w')) ∧
  (∀ s, rows_after (minRun d) (maxOut d) (rows_of s u a (table w)) (rows_of s u a (table w'))) ∧
  (∀ P, (∀ s r, s ∈ sessions → in_session s u a r = true → P r = true) →
     keeps_outside P (table w) (table w')).
Proof.
  intros u a Hpg. revert w. induction sessions as [|s sessions IH]; intros w Hnd E.
  { injection E as <- _. split_and!; [reflexivity|done|by left|reflexivity]. }
  apply NoDup_cons in Hnd as [Hs Hnd]. cbn in E. unfold mbind, Go_bind in E.
  destruct (consolidateOneSession d ctx scope s w) as [w1 r] eqn:E1.
  apply consolidateOneSession_run in E1; [|done]. fold u a in E1.
  apply session_step_run in E1 as (Ho1 & Hm1 & Hr1).
  assert (w1 = w' ∨ consolidate_all d ctx scope sessions w1 = (w', o)) as [<-|E2].
  { destruct r as [[e|]|p]; [left; by injection E as <- _|by right|left; by injection E as <- _]. }
  - split_and!; [|done| |].
    + apply Ho1. intros r' Hr'. by apply andb_true_iff in Hr' as [_ ?].
    + intros s'. destruct (decide (s' = s)) as [->|Hne]; [done|]. left.
      apply (keeps_outside_session s); [done|]. by apply Ho1.
    + intros P HP. apply Ho1. intros r' Hr'. apply (HP s); [left|done].
  - apply IH in E2 as (Ho2 & Hm2 & Hr2 & HP2); [|done]. split_and!; [|auto| |].
    + etrans; [|exact Ho2]. apply Ho1. intros r' Hr'. by apply andb_true_iff in Hr' as [_ ?].
    + intros s'. destruct (decide (s' = s)) as [->|Hne].
      * rewrite (rows_unchanged s u a (table w1) (table w')); [done|].
        apply HP2. intros s' r' Hin Hr'. apply negb_true_iff, in_session_false.
        apply in_session_spec in Hr'. rewrite Hr'. set_solver.
      * rewrite <- (keeps_outside_session s s' u a (table w) (table w1)); [done|done|by apply Ho1].
    + intros P HP. etrans; [|apply HP2; intros s' r' Hin; apply HP; by right].
      apply Ho1. intros r'. apply HP. left.
Qed.
(** A run of [AfterTurn] does nothing or writes at most five items. *)
Lemma AfterTurn_cases e ctx scope sid turn w w' o :
  AfterTurn (Some e) ctx scope sid turn w = (w', o) →
  table w' = table w ∨ ∃ items w2, table w2 = table w ∧ len items ≤ 5 ∧
    write_items (ex_PG e) scope sid items w2 = (w', o) ∧
    Validate scope = None ∧ minLen e ≤ RuneCount (summarizeTurn turn).
Proof.
  intros E. unfold AfterTurn in E. case_decide as Hn; [by left; injection E as <- _|].
  unfold go_gets, mbind at 1, Go_bind at 1 in E.
  destruct (llmClient (ex_LLM e) w) as [client|]; [|left; by injection E as <- _].
  destruct (Validate scope); [left; by injection E as <- _|].
  destruct (Z.ltb_spec (RuneCount (summarizeTurn turn)) (minLen e)); [left; by injection E as <- _|].
  unfold mbind, Go_bind in E. destruct (ChatTextOnly _ _ _ _ w) as [w1 resp] eqn:E1.
  assert (table w1 = table w) as Ht1
    by exact (go_rel_run _ _ _ _ _ (ChatTextOnly_keeps _ _ _ _) E1).
  destruct resp as [[resp|err]|p]; [|left; by injection E as <- _..].
  destruct (parseMemoryItems _) as [items|err] eqn:Ep; [|left; by injection E as <- _].
  right. exists items, w1. split_and!; [done| |done..]. by eapply parse_items_length in Ep.
Qed.

(** A run of [Consolidate] does nothing or goes through the sessions. *)
Lemma Consolidate_cases d ctx scope opts w w' o :
  pool_of (dc_PG d) = Some pool → Consolidate (Some d) ctx scope opts w = (w', o) →
  table w' = table w ∨ ∃ sessions w2, table w2 = table w ∧ NoDup sessions ∧
    (TrimSpace (co_SessionID opts) ≠ [] → sessions = [co_SessionID opts]) ∧
    consolidate_all d ctx scope sessions w2 = (w', o).
Proof.
  intros Hpg E. unfold Consolidate in E. case_decide as Hn; [by left; injection E as <- _|].
  unfold go_gets, mbind at 1, Go_bind at 1 in E.
  destruct (llmClient (dc_LLM d) w) as [client|]; [|left; by injection E as <- _].
  destruct (Validate scope); [left; by injection E as <- _|].
  unfold mbind, Go_bind in E. destruct (sessionsToProcess d scope _ w) as [w1 ss] eqn:E1.
  unfold sessionsToProcess in E1. case_decide as Hs.
  - unfold ListDistinctSessionsForTenant in E1. rewrite Hpg in E1.
    assert (table w1 = table w) as Ht1 by exact (go_rel_run _ _ _ _ _ (pg_QueryText_keeps _ _) E1).
    destruct ss as [[ss|err]|p]; [|left; by injection E as <- _..].
    apply pg_sessions in E1 as [Hnd _]. right. exists ss, w1. by split_and!.
  - injection E1 as <- <-. right. exists [co_SessionID opts], w.
    split_and!; [done|apply NoDup_singleton|done|done].
Qed.

Lemma AfterTurn_confined e ctx scope sid turn w w' o :
  pool_of (ex_PG e) = Some pool → AfterTurn (Some e) ctx scope sid turn w = (w', o) →
  memory_wf (table w) → memory_wf (table w').
Proof.
  intros Hpg E Hw. apply AfterTurn_cases in E as [->|(items & w2 & Ht & _ & E & _)]; [done|].
  apply write_items_run in E as (rows & _ & _ & _ & _ & _ & Hm); [|done|rewrite Ht; apply Hw].
  apply Hm. by rewrite Ht.
Qed.

Lemma Consolidate_run d ctx scope opts w w' o :
  pool_of (dc_PG d) = Some pool → Consolidate (Some d) ctx scope opts w = (w', o) →
  memory_wf (table w) → memory_wf (table w').
Proof.
  intros Hpg E Hw. apply Consolidate_cases in E as [->|(ss & w2 & Ht & Hnd & _ & E)]; [done| |done].
  apply consolidate_all_run in E as (_ & Hm & _); [|done..]. apply Hm. by rewrite Ht.
Qed.
End runs.

(** ** Properties *)

Section properties.
Context `{UT : UnicodeTables} `{ID : ItemDecoder} {W : Type} `{HL : HttpLib W} `{LG : Ledger W}.
Context `{HO : Host W} `{EN : Environ W} {F : Type} `{SC : SkillCodec F}.

(** C31: extraction writes a few clean facts of its own session: however a call of
    [AfterTurn] ends, what it did to the memory is to set at most five keys of the
    session and tenant it was called for, each with a category of the taxonomy and
    a trimmed key and content within the limits; other sessions' rows are the same;
    and it writes only for a valid tenant and a turn that is long enough. *)
Theorem AfterTurn_writes (pool : Pool W) (table view : W → list MemoryRecord)
    (like : gostring → gostring → bool) (L : PostgresLaws pool table view like)
    (Q : QuietModel table) (e : LLMExtractor W) (ctx : ChatCtx) (scope : TenantScope)
    (sid : gostring) (turn : list Message) (w w' : W) (o : outcome (option goerror)) :
  pool_of (ex_PG e) = Some pool → table_wf (table w) →
  AfterTurn (Some e) ctx scope sid turn w = (w', o) →
  ∃ rows : list NewMemory,
    len rows ≤ 5 ∧
    Forall (λ n, cols_wf (nm_Category n) (nm_Key n) (nm_Content n)) rows ∧
    contents (table w') =
      foldl (add_row sid (UserID scope) (AgentID scope)) (contents (table w)) rows ∧
    table_wf (table w') ∧
    keeps_outside (in_session sid (UserID scope) (AgentID scope)) (table w) (table w') ∧
    (rows ≠ [] → Validate scope = None ∧ minLen e ≤ RuneCount (summarizeTurn turn)).
Proof.
  intros Hpg Hw E.
  apply (AfterTurn_cases table) in E as [Ht|H].
  - exists []. rewrite Ht. by split_and!.
  - destruct H as (items & w2 & Ht & Hlen & Hi & Hv & Hmin).
    apply (write_items_run pool table view like) in Hi as (rows & Hp & _ & Hw' & Hc & Hk); [|done|by rewrite Ht].
    rewrite Ht in Hc, Hk. exists rows. split_and!; try done; [| |apply Hk].
    + apply prefix_length in Hp. unfold len in *. pose proof (length_omap_le clean_item items). lia.
    + destruct Hp as [k Hk']. pose proof (clean_items_wf items) as Hcl. rewrite Hk' in Hcl.
      by apply Forall_app in Hcl as [? _].
Qed.

(** C16: consolidation never loses a session: however a run of [Consolidate] ends,
    each session of the tenant either has the rows it had, or had at least the
    minimum number of rows and now has between one and the maximum, all well
    formed; the memories of other tenants are the same, and so are those of other
    sessions when one session is asked for; and a well-formed memory stays so. *)
Theorem Consolidate_sessions (pool : Pool W) (table view : W → list MemoryRecord)
    (like : gostring → gostring → bool) (L : PostgresLaws pool table view like)
    (Q : QuietModel table) (d : DreamConsolidator W) (ctx : ChatCtx) (scope : TenantScope)
    (opts : ConsolidationOptions) (w w' : W) (o : outcome (option goerror)) :
  pool_of (dc_PG d) = Some pool → Consolidate (Some d) ctx scope opts w = (w', o) →
  let u := UserID scope in
  let a := AgentID scope in
  (∀ s, rows_after (minRun d) (maxOut d) (rows_of s u a (table w)) (rows_of s u a (table w'))) ∧
  keeps_outside (of_tenant u a) (table w) (table w') ∧
  (TrimSpace (co_SessionID opts) ≠ [] →
   keeps_outside (in_session (co_SessionID opts) u a) (table w) (table w')) ∧
  (memory_wf (table w) → memory_wf (table w')).
Proof.
  intros Hpg E u a.
  apply (Consolidate_cases pool table view like) in E as [Ht|H]; [| |done].
  - rewrite Ht. split_and!; [by left|reflexivity|reflexivity|done].
  - destruct H as (sessions & w2 & Ht & Hnd & Hs & Hc).
    apply (consolidate_all_run pool table view like) in Hc as (Ho & Hm & Hr & HP); [|done..].
    rewrite Ht in Ho, Hm, Hr, HP. split_and!; [done..| |done].
    intros Hsid. apply HP. rewrite (Hs Hsid). by intros s r ->%list_elem_of_singleton.
Qed.

(** The program's writers of the memory. *)
Inductive memory_call (pool : Pool W) : Go W unit → Prop :=
| call_tool (c : Catalog W) (ids : list gostring) (w0 : W) (ts : list (Tool W)) (t : Tool W)
    (tcx : Context) (input : gostring) :
    store_on pool (ca_PG c) → ca_NATS c = None → ToolsForSkills c ids w0 = Ok ts → t ∈ ts →
    memory_call pool (discard (t_Execute t tcx input))
| call_extract (e : LLMExtractor W) ctx scope sid turn :
    pool_of (ex_PG e) = Some pool → memory_call pool (discard (AfterTurn (Some e) ctx scope sid turn))
| call_dream (d : DreamConsolidator W) ctx scope opts :
    pool_of (dc_PG d) = Some pool → memory_call pool (discard (Consolidate (Some d) ctx scope opts)).

Lemma memory_call_wf (pool : Pool W) (table view : W → list MemoryRecord)
    (like : gostring → gostring → bool) (L : PostgresLaws pool table view like)
    (Q : QuietModel table) (m : Go W unit) (w : W) :
  memory_call pool m → memory_wf (table w) → memory_wf (table (m w).1).
Proof.
  assert (∀ A (m : Go W A) v, (discard m v).1 = (m v).1) as Hd.
  { intros A n v. unfold discard, mbind, Go_bind. by destruct (n v) as [? [?|?]]. }
  intros Hm Hw. destruct Hm as [c ids w0 ts t tcx input Hpg Hn Hts Ht|e ctx scope sid turn Hpg|d ctx scope opts Hpg];
    rewrite Hd.
  - apply ToolsForSkills_core in Hts. rewrite Hts in Ht.
    eapply (coreTools_confined pool table view like c); try done. intros p Hp. congruence.
  - destruct (AfterTurn (Some e) ctx scope sid turn w) as [w' o] eqn:E. cbn.
    by eapply (AfterTurn_confined pool table view like).
  - destruct (Consolidate (Some d) ctx scope opts w) as [w' o] eqn:E. cbn.
    by eapply (Consolidate_run pool table view like).
Qed.

(** C10: the memory is well typed: starting from a table whose rows have distinct
    identifiers and distinct keys, a category of the taxonomy, a trimmed key of 1 to
    200 bytes and a trimmed content of 1 to 8000, any sequence of calls of the
    program's writers (the tools of a catalog, the extractor after a turn, the
    consolidator), for any tenants and however each call ends, leaves such a table. *)
Theorem memory_well_typed (pool : Pool W) (table view : W → list MemoryRecord)
    (like : gostring → gostring → bool) (L : PostgresLaws pool table view like)
    (Q : QuietModel table) (calls : list (Go W unit)) (w : W) :
  Forall (memory_call pool) calls → memory_wf (table w) →
  memory_wf (table (foldl (λ w m, (m w).1) w calls)).
Proof.
  intros Hc. revert w. induction Hc as [|m calls Hm _ IH]; intros w Hw; [done|]. cbn.
  apply IH. by eapply memory_call_wf.
Qed.
End properties.

(** ** Witnesses and examples *)

#[local] Existing Instance ascii_tables.
#[local] Existing Instance sample_skill_codec.

(** A model that always answers [reply]; nothing is accounted. *)
Definition sample_model (reply : gostring) : HttpLib Process :=
  {| json_Payload := λ p, Ok (py_Model p); http_NewRequest := λ _, None;
     http_Do := λ _ _, mret (Ok {| hp_Status := 200; hp_Chunks := [reply]; hp_End := None |});
     json_Completion := λ s _, Ok {| cc_ID := "id"; cc_Model := [];
       cc_Choices := [plain_message RoleAssistant s]; cc_Usage := None |};
     json_Chunk := λ _, None; json_Object := λ _, None |}.

#[local] Instance quiet_ledger_Process : Ledger Process := λ _ w, w.

(** Arrays written as [[category/key/content;...]]. *)
#[local] Instance sample_items : ItemDecoder := λ s,
  Ok (omap (λ p, match SplitByte p x2f with
                 | [c; k; x] => Some {| mi_Category := c; mi_Key := k; mi_Content := x |}
                 | _ => None end)
       (SplitByte (drop 1 (take (length s - 1) s)) x3b)).

Lemma sample_quiet reply : QuietModel (HL := sample_model reply) (db_table (W := Process)).
Proof. by split. Qed.

Definition sample_holder : option (Process → option Client) := Some (λ _, Some sample_client).

Definition sample_extractor : LLMExtractor Process := NewLLMExtractor sample_holder db_store.

Definition sample_dreamer : DreamConsolidator Process :=
  {| dc_LLM := sample_holder; dc_PG := db_store; dc_MaxTokens := 0; MaxRowsLoad := 0;
     MinRowsToRun := 2; MaxRowsOutput := 0 |}.

Definition long_turn : list Message :=
  [{| m_Role := RoleUser;
      m_Content := "I moved to Paris last week, and from now on you can call me Ada L., please";
      m_ToolCalls := []; m_ToolCallID := [] |}].

Definition fenced : gostring :=
  "```json" ++ [x0a] ++ "[user/city/Paris; ref /name/Ada L.;user// ;other/pet/cat]" ++ [x0a] ++ "```".

Definition merged : gostring := "[user/name/Ada L.;project/drink/green tea]".

Lemma AfterTurn_writes_witness :
  let HL := sample_model fenced in
  let r := AfterTurn (Some sample_extractor) sample_ctx sample_scope "s" long_turn sample_process in
  columns (pr_db r.1) =
    [("s", "reference", "name", "Ada L."); ("s", "user", "tea", "green");
     ("t", "feedback", "name", "Bob"); ("s", "user", "city", "Paris");
     ("s", "reference", "pet", "cat")] ∧
  ∃ rows : list NewMemory, len rows ≤ 5 ∧
    contents (db_table r.1) = foldl (add_row "s" "u" "a") (contents (db_table sample_process)) rows.
Proof.
  intros HL r. split; [vm_compute; reflexivity|].
  pose proof (surjective_pairing r) as E. unfold r at 1 in E.
  pose proof (proj1 sample_memory_wf) as Hw.
  assert (pool_of (ex_PG sample_extractor) = Some db_pool) as Hp by reflexivity.
  pose proof (AfterTurn_writes (HL := HL) db_pool db_table db_view Contains db_pool_laws
    (sample_quiet fenced) sample_extractor sample_ctx sample_scope "s" long_turn sample_process) as H.
  specialize (H _ _ Hp Hw E).
  destruct H as (rows & Hlen & _ & Hc & _).
  exists rows. exact (conj Hlen Hc).
Defined.

Lemma Consolidate_sessions_witness :
  let HL := sample_model merged in
  let r := Consolidate (Some sample_dreamer) sample_ctx sample_scope
             {| co_Label := []; co_SessionID := [] |} sample_process in
  columns (pr_db r.1) =
    [("t", "feedback", "name", "Bob"); ("s", "user", "name", "Ada L.");
     ("s", "project", "drink", "green tea")] ∧
  ∀ s, rows_after 2 60 (rows_of s "u" "a" (db_table sample_process))
         (rows_of s "u" "a" (db_table r.1)).
Proof.
  intros HL r. split; [vm_compute; reflexivity|].
  pose proof (surjective_pairing r) as E. unfold r at 1 in E.
  assert (pool_of (dc_PG sample_dreamer) = Some db_pool) as Hp by reflexivity.
  pose proof (Consolidate_sessions (HL := HL) db_pool db_table db_view Contains db_pool_laws
    (sample_quiet merged) sample_dreamer sample_ctx sample_scope
    {| co_Label := []; co_SessionID := [] |} sample_process) as H.
  exact (proj1 (H _ _ Hp E)).
Defined.

Lemma memory_well_typed_witness :
  let HL := sample_model merged in
  let calls := [
    discard (t_Execute (NewWriteMemoryTool db_store) (sample_cx []) "Ada L.");
    discard (AfterTurn (Some sample_extractor) sample_ctx sample_scope "v" long_turn);
    discard (Consolidate (Some sample_dreamer) sample_ctx sample_scope
      {| co_Label := []; co_SessionID := [] |})] in
  let w' := foldl (λ w m, (m w).1) sample_process calls in
  memory_wf (db_table w') ∧ length (d_rows (pr_db w')) = 5%nat.
Proof.
  intros HL calls w'. split; [|vm_compute; reflexivity].
  apply (memory_well_typed (F := Z) (SC := sample_skill_codec) db_pool db_table db_view Contains
    db_pool_laws (sample_quiet merged)); [|apply sample_memory_wf].
  repeat apply Forall_cons_2; [| | |apply Forall_nil_2].
  - refine (call_tool db_pool {| ca_PG := db_store; ca_NATS := None |} [DefaultSkillID]
      sample_process _ _ (sample_cx []) "Ada L." sample_store_on eq_refl
      (ToolsForSkills_default _ _) _).
    rewrite SortByName_Permutation. right. right. left.
  - by apply call_extract.
  - by apply call_dream.
Defined.

(** Rows beyond the number loaded are lost, although the model never saw them. *)
Example unloaded_rows_lost :
  let HL := sample_model "[user/name/Ada]" in
  let d := {| dc_LLM := sample_holder; dc_PG := db_store; dc_MaxTokens := 0; MaxRowsLoad := 1;
              MinRowsToRun := 1; MaxRowsOutput := 0 |} in
  columns (pr_db (Consolidate (Some d) sample_ctx sample_scope
             {| co_Label := []; co_SessionID := "s" |} sample_process).1) =
    [("t", "feedback", "name", "Bob"); ("s", "user", "name", "Ada")].
Proof. vm_compute. reflexivity. Qed.

(** So are the rows written while the model thinks: the rows are read before the call and
    deleted after it.  Here a chat of the same session keeps a fact during the call. *)
Definition busy_model (reply : gostring) : HttpLib Process :=
  let quiet := sample_model reply in
  {| json_Payload := json_Payload (HttpLib := quiet);
     http_NewRequest := http_NewRequest (HttpLib := quiet);
     http_Do t req :=
       WriteScoped db_store "s" "u" "a" "user" "city" "Paris" ;; http_Do (HttpLib := quiet) t req;
     json_Completion := json_Completion (HttpLib := quiet);
     json_Chunk := json_Chunk (HttpLib := quiet); json_Object := json_Object (HttpLib := quiet) |}.

Example concurrent_write_lost :
  let run HL := (Consolidate (HL := HL) (Some sample_dreamer) sample_ctx sample_scope
                   {| co_Label := []; co_SessionID := "s" |} sample_process).1 in
  columns (pr_db (run (busy_model merged))) = columns (pr_db (run (sample_model merged))).
Proof. vm_compute. reflexivity. Qed.

(** A model that names a key twice stops the run: the sessions after it are not
    consolidated. *)
Example duplicate_key_stops :
  let HL := sample_model "[user/name/Ada;user/name/Ada L.]" in
  let d := {| dc_LLM := sample_holder; dc_PG := db_store; dc_MaxTokens := 0; MaxRowsLoad := 0;
              MinRowsToRun := 1; MaxRowsOutput := 0 |} in
  let r := Consolidate (Some d) sample_ctx sample_scope
             {| co_Label := []; co_SessionID := [] |} sample_process in
  r.2 = Done (Some pg_error) ∧ columns (pr_db r.1) = columns sample_db.
Proof. vm_compute. split; reflexivity. Qed.
