(* ===== verification/Config.v ===== *)
(** * Configuration

    [src/internal/configenv/apply.go], [src/internal/configbus],
    [src/internal/integration/pg/core_settings.go] and
    [src/internal/llm/from_env.go]: the settings a control plane may push, merged into
    the environment variables of the process through a whitelist, and the model client
    that the environment describes.  The JSON decoder of the pushed snapshot is a
    parameter ([ConfigDecoder]). *)

From Stdlib Require Import QArith.QArith_base.
From S2P Require Import Prelude GoString Identity Tools Planner Memory Env Adapter Session Pg Usage.
From S2P Require Import Client.
Open Scope Z_scope.

(** ** The whitelist *)

Definition MergeableKeys : list gostring :=
  ["ANTHROPIC_BASE_URL"; "ANTHROPIC_AUTH_TOKEN"; "ANTHROPIC_API_KEY"; "ANTHROPIC_MODEL";
   "ANTHROPIC_DEFAULT_SONNET_MODEL"; "ANTHROPIC_DEFAULT_HAIKU_MODEL"; "API_TIMEOUT_MS"; "PORT";
   "WS_PATH"; "MAX_TURNS"; "MAX_TOOL_FAILURE_STREAK"; "DEFAULT_USER_ID"; "DEFAULT_AGENT_ID";
   "NATS_URL"; "REDIS_URL"; "REDIS_ADDR"; "REDIS_PASSWORD"; "REDIS_DB"; "SESSION_MAX_MESSAGES";
   "SESSION_TTL_SECONDS"; "CLAUDE_CODE_DISABLE_THINKING";
   "CLAUDE_CODE_DISABLE_NONESSENTIAL_TRAFFIC"; "DISABLE_TELEMETRY"; "MEMORY_AUTO_EXTRACT";
   "MEMORY_EXTRACT_MAX_TOKENS"; "MEMORY_DREAM"; "MEMORY_DREAM_INTERVAL_MINUTES";
   "MEMORY_DREAM_MAX_TOKENS"; "CONTEXT_TOKEN_BUDGET"; "CONTEXT_COMPACT_MIN_TAIL";
   "TOOL_RESULT_MAX_RUNES"; "AGENT_PERSONA"; "RUNTIME_HINT"; "WS_ALLOWED_ORIGINS";
   "WS_STRICT_ORIGIN"; "WS_AUTH_MODE"; "WS_BEARER_TOKEN"; "WS_JWT_HS256_SECRET";
   "GVA_JWT_SIGNING_KEY"; "WS_ALLOW_QUERY_BEARER"; "WS_ALLOW_QUERY_JWT";
   "WS_MAX_MESSAGES_PER_MINUTE"; "DISABLE_SPAWN_PET"].

Definition RedisKeyCoreConfig : gostring := "ascentia:core:config".
Definition NATSSubjectCoreConfigUpdated : gostring := "ascentia.config.core_updated".

(** The rows of the shared settings table. *)
Definition sql_core_settings : gostring :=
  [x0a] ++ "SELECT config_key, config_value" ++ [x0a] ++
  "FROM sys_core_settings" ++ [x0a] ++
  "WHERE deleted_at IS NULL" ++ [x0a] ++
  "  AND config_key IS NOT NULL" ++ [x0a] ++
  "  AND TRIM(config_key) <> ''" ++ [x0a] ++
  "  AND config_value IS NOT NULL" ++ [x0a] ++
  "  AND TRIM(config_value) <> ''".

(** [json.Unmarshal] into a [map[string]string]; the JSON value [null] gives the empty
    map. *)
Class ConfigDecoder := unmarshal_config : gostring → result (gmap gostring gostring).

Abbreviation environment := (gmap gostring gostring).

(** An entry as it is applied: trimmed, if it is not blank and its key is allowed. *)
Definition eligible (kv : gostring * gostring) : option (gostring * gostring) :=
  let k := TrimSpace kv.1 in
  let v := TrimSpace kv.2 in
  if decide (k = [] ∨ v = []) then None
  else if decide (k ∈ MergeableKeys) then Some (k, v) else None.

(** The body of the loop of [ApplyMap]; an error of [Setenv] is dropped. *)
Definition apply_entry (st : environment * Z) (kv : gostring * gostring) : environment * Z :=
  match eligible kv with
  | None => st
  | Some (k, v) => (setenv k v st.1, st.2 + 1)
  end.

(** [v, err := strconv.Atoi(Getenv(k)); err == nil && v > 0], or the default. *)
Definition option_of `{Environ W} (k : gostring) (dflt : Z) (w : W) : Z :=
  positive_option (Getenv k w) dflt.

Section config.
Context {W : Type} `{EN : Environ W} `{SE : !SetEnviron W} `{MO : MapOrder W}.

Definition ApplyMap (m : gmap gostring gostring) : Go W Z := λ w,
  if decide (m = ∅) then (w, Done 0)
  else
    let '(e, applied) := foldl apply_entry (environ w, 0) (map_order w (map_to_list m)) in
    (set_environ e w, Done applied).

(** [MergeFromRedis]: the client may be nil. *)
Definition MergeFromRedis `{ConfigDecoder} (rdb : option (RedisClient W)) :
    Go W (Z * option goerror) :=
  match rdb with
  | None => mret (0, None)
  | Some rdb =>
      val ← rc_Get rdb RedisKeyCoreConfig;
      match val with
      | Err e => mret (0, Some e)
      | Ok None => mret (0, None)
      | Ok (Some val) =>
          match unmarshal_config val with
          | Err e => mret (0, Some (WrapError ("configbus: json: " ++ error_text e) e))
          | Ok m => applied ← ApplyMap m; mret (applied, None)
          end
      end
  end.

(** [MergeCoreSettingsEnv]: the pool may be nil; a later row of a key wins. *)
Definition MergeCoreSettingsEnv (pool : option (Pool W)) : Go W (Z * option goerror) :=
  match pool with
  | None => mret (0, None)
  | Some pool =>
      rows ← pool_QueryPairs pool sql_core_settings;
      match rows with
      | Err _ => mret (0, None)
      | Ok (_, Some e) => mret (0, Some e)
      | Ok (pairs, None) =>
          let m := foldl (λ m kv, <[kv.1 := kv.2]> m) (∅ : gmap gostring gostring) pairs in
          applied ← ApplyMap m; mret (applied, None)
      end
  end.

(** [BuildClientFromEnv]; [recorder] tells whether the interface value given is not
    nil. *)
Definition BuildClientFromEnv (recorder : bool) (w : W) : result Client :=
  let baseURL := TrimSpace (Getenv "ANTHROPIC_BASE_URL" w) in
  if decide (baseURL = []) then Err (ErrorString "ANTHROPIC_BASE_URL is empty")
  else
    let model := Getenv "ANTHROPIC_MODEL" w in
    let model := if decide (model = []) then Getenv "ANTHROPIC_DEFAULT_SONNET_MODEL" w else model in
    let model := if decide (model = []) then Getenv "ANTHROPIC_DEFAULT_HAIKU_MODEL" w else model in
    if decide (TrimSpace model = []) then
      Err (ErrorString "ANTHROPIC_MODEL (or default sonnet/haiku) is empty")
    else
      let timeoutMs := option_of "API_TIMEOUT_MS" 300000 w in
      let c := NewClient baseURL (Getenv "ANTHROPIC_AUTH_TOKEN" w) (Getenv "ANTHROPIC_API_KEY" w)
                 model (int64 (timeoutMs * 1000000)) in
      Ok {| BaseURL := BaseURL c; AuthToken := AuthToken c; APIKey := APIKey c;
            c_Model := c_Model c; c_Timeout := c_Timeout c; Recorder := recorder |}.
End config.

(** ** Lemmas *)

Lemma eligible_Some kv k v :
  eligible kv = Some (k, v) →
  k = TrimSpace kv.1 ∧ v = TrimSpace kv.2 ∧ k ∈ MergeableKeys ∧ v ≠ [].
Proof.
  unfold eligible. case_decide as H1; [done|]. case_decide as H2; [|done]. intros [= <- <-].
  split_and!; [done..|tauto].
Qed.

(** The keys of the whitelist can be set. *)
Lemma setenv_mergeable k v e : k ∈ MergeableKeys → x00 ∉ v → lookup_env (setenv k v e) k = v.
Proof.
  intros Hk Hv. unfold setenv, lookup_env, setenv_ok.
  assert (forallb (λ k, negb (bool_decide (k = [])) &&
    forallb (λ b, negb (bool_decide (b = x3d ∨ b = x00))) k) MergeableKeys = true) as Hall
    by (vm_compute; reflexivity).
  rewrite forallb_forall in Hall. rewrite (Hall k) by by apply list_elem_of_In.
  assert (forallb (λ b, negb (bool_decide (b = x00))) v = true) as ->.
  { apply forallb_forall. intros b Hb%list_elem_of_In. apply negb_true_iff, bool_decide_eq_false.
    by intros ->. }
  cbn. by rewrite lookup_insert_eq.
Qed.

Lemma apply_all_count l st : (foldl apply_entry st l).2 = st.2 + len (omap eligible l).
Proof.
  revert st. induction l as [|kv l IH]; intros st; cbn; [unfold len; cbn; lia|]. rewrite IH.
  unfold apply_entry. destruct (eligible kv) as [[k v]|]; [|done]. rewrite len_cons. cbn. lia.
Qed.

(** A variable after the loop: as before, or the value of an entry. *)
Lemma apply_all_value l st k :
  lookup_env (foldl apply_entry st l).1 k = lookup_env st.1 k ∨
  ∃ kv, kv ∈ l ∧ eligible kv = Some (k, lookup_env (foldl apply_entry st l).1 k).
Proof.
  revert st. induction l as [|kv l IH]; intros st; [by left|]. cbn [foldl].
  destruct (IH (apply_entry st kv)) as [H|(kv' & Hin & H)]; [|right; exists kv'; split; [by right|done]].
  rewrite H. unfold apply_entry. destruct (eligible kv) as [[k' v]|] eqn:E; [|by left]. cbn.
  destruct (decide (k' = k)) as [->|Hk]; [|left; by apply setenv_other].
  unfold setenv. destruct (setenv_ok k v) eqn:Eok; [|by left]. right. exists kv.
  split; [left|]. unfold lookup_env. by rewrite lookup_insert_eq.
Qed.

(** The only entry of a variable sets it. *)
Lemma apply_all_set l st kv k v :
  kv ∈ l → eligible kv = Some (k, v) → x00 ∉ v →
  (∀ kv', kv' ∈ l → TrimSpace kv'.1 = k → kv' = kv) →
  lookup_env (foldl apply_entry st l).1 k = v.
Proof.
  intros Hin Hkv Hv Huniq. revert st Hin. induction l as [|kv' l IH]; intros st Hin; cbn [foldl].
  { by apply not_elem_of_nil in Hin. }
  destruct (decide (kv ∈ l)) as [Hl|Hl].
  { apply IH; [|done]. intros kv2 H2. apply Huniq. by right. }
  apply elem_of_cons in Hin as [<-|]; [|done].
  destruct (apply_all_value l (apply_entry st kv) k) as [->|(kv2 & H2 & E2)].
  - unfold apply_entry. rewrite Hkv. cbn. apply setenv_mergeable; [|done].
    by apply eligible_Some in Hkv as (_ & _ & ? & _).
  - destruct Hl. rewrite <- (Huniq kv2); [done|by right|]. by apply eligible_Some in E2 as [-> _].
Qed.

Section lemmas.
Context {W : Type} `{EN : Environ W} `{SE : !SetEnviron W} `{MO : MapOrder W}.

(** What [ApplyMap] does, on every world. *)
Lemma ApplyMap_run (m : gmap gostring gostring) (w : W) :
  ∃ l, l ≡ₚ map_to_list m ∧ (ApplyMap m w).2 = Done (len (omap eligible l)) ∧
    ∀ k, Getenv k (ApplyMap m w).1 = lookup_env (foldl apply_entry (environ w, 0) l).1 k.
Proof.
  unfold ApplyMap. case_decide as Hm.
  - subst. exists []. by rewrite map_to_list_empty.
  - exists (map_order w (map_to_list m)). split; [apply map_order_Permutation|].
    pose proof (apply_all_count (map_order w (map_to_list m)) (environ w, 0)) as Hc.
    destruct (foldl apply_entry _ _) as [e n]. cbn in Hc |- *. split; [by rewrite Hc|].
    intros k. unfold Getenv. by rewrite environ_set.
Qed.

(** A variable outside the whitelist is never set. *)
Lemma ApplyMap_other (m : gmap gostring gostring) (w : W) k :
  k ∉ MergeableKeys → Getenv k (ApplyMap m w).1 = Getenv k w.
Proof.
  intros Hk. destruct (ApplyMap_run m w) as (l & _ & _ & ->).
  destruct (apply_all_value l (environ w, 0) k) as [->|(kv & _ & E)]; [done|].
  by apply eligible_Some in E as (_ & _ & ? & _).
Qed.

Lemma MergeFromRedis_done `{ConfigDecoder} (rdb : option (RedisClient W)) w w' n e :
  MergeFromRedis rdb w = (w', Done (n, Some e)) →
  n = 0.
Proof.
  unfold MergeFromRedis. destruct rdb as [rdb|]; [|done]. intros E.
  apply go_bind_Done in E as (w1 & val & _ & E).
  destruct val as [[val|]|err]; [|by apply go_ret_Done in E as [_ ?]|by apply go_ret_Done in E as [_ [= -> _]]].
  destruct (unmarshal_config val) as [m|err]; [|by apply go_ret_Done in E as [_ [= -> _]]].
  apply go_bind_Done in E as (w2 & a & _ & E). by apply go_ret_Done in E as [_ ?].
Qed.

(** The client of the environment has an address, a model and the timeout asked for. *)
Lemma BuildClientFromEnv_Ok recorder (w : W) c :
  BuildClientFromEnv recorder w = Ok c →
  TrimSpace (Getenv "ANTHROPIC_BASE_URL" w) ≠ [] ∧ TrimSpace (c_Model c) ≠ [] ∧
  BaseURL c = TrimRightBytes "/" (TrimSpace (Getenv "ANTHROPIC_BASE_URL" w)) ∧
  Recorder c = recorder ∧ c_Timeout c = int64 (option_of "API_TIMEOUT_MS" 300000 w * 1000000).
Proof.
  unfold BuildClientFromEnv. case_decide as H1; [done|]. cbv zeta.
  case_decide as H2; [done|]. intros [= <-]. by split_and!.
Qed.
End lemmas.

(** ** Properties *)

Section properties.
Context {W : Type} `{EN : Environ W} `{SE : !SetEnviron W} `{MO : MapOrder W}.

(** C23: pushed settings only reach whitelisted variables: after [ApplyMap], in
    whatever order the map is iterated, a variable outside [MergeableKeys] (such as
    [DATABASE_URL]) reads as before; any other reads as before or as the trimmed value
    of an entry whose trimmed key it is; the only entry of a variable does set it,
    unless its value holds a NUL byte; and the count returned is the number of
    entries that are not blank and allowed. *)
Theorem ApplyMap_whitelist (m : gmap gostring gostring) (w : W) :
  (("DATABASE_URL" ∉ MergeableKeys) ∧ ∀ k, k ∉ MergeableKeys →
     Getenv k (ApplyMap m w).1 = Getenv k w) ∧
  (∀ k, Getenv k (ApplyMap m w).1 = Getenv k w ∨
     ∃ k0 v0, m !! k0 = Some v0 ∧ TrimSpace k0 = k ∧ TrimSpace v0 = Getenv k (ApplyMap m w).1 ∧
       TrimSpace v0 ≠ []) ∧
  (∀ k0 v0, m !! k0 = Some v0 → TrimSpace k0 ∈ MergeableKeys → TrimSpace v0 ≠ [] →
     x00 ∉ TrimSpace v0 → (∀ k1, is_Some (m !! k1) → TrimSpace k1 = TrimSpace k0 → k1 = k0) →
     Getenv (TrimSpace k0) (ApplyMap m w).1 = TrimSpace v0) ∧
  (ApplyMap m w).2 = Done (len (omap eligible (map_to_list m))).
Proof.
  destruct (ApplyMap_run m w) as (l & Hl & Hn & Hg). split_and!.
  - refine (bool_decide_unpack _ _). vm_compute. exact I.
  - intros k. apply ApplyMap_other.
  - intros k. rewrite Hg. destruct (apply_all_value l (environ w, 0) k) as [->|([k0 v0] & Hin & E)]; [by left|].
    right. rewrite Hl in Hin. apply elem_of_map_to_list in Hin. exists k0, v0.
    apply eligible_Some in E as (-> & E & _ & Hne). rewrite E in Hne |- *. by split_and!.
  - intros k0 v0 Hm Hk Hv H0 Hu. rewrite Hg. apply (apply_all_set l _ (k0, v0)).
    + rewrite Hl. by apply elem_of_map_to_list.
    + unfold eligible. cbn. rewrite decide_False, decide_True; [done..|].
      intros [Hk0|?]; [|done]. rewrite Hk0 in Hk. revert Hk.
      assert (bool_decide ([] ∈ MergeableKeys) = false) as Hd by (vm_compute; reflexivity).
      by apply bool_decide_eq_false in Hd.
    + done.
    + intros [k1 v1] Hin Hk1. rewrite Hl in Hin. apply elem_of_map_to_list in Hin. cbn in Hk1.
      pose proof (Hu k1 (mk_is_Some _ _ Hin) Hk1) as ->. by simplify_eq.
  - rewrite Hn. unfold len. do 2 f_equal. apply Permutation_length. by rewrite Hl.
Qed.
End properties.

(** Two entries whose keys differ by blanks: the last one iterated wins. *)
Example blank_keys_race :
  (foldl apply_entry (∅, 0) [("PORT", "1"); (" PORT", "2")]).1 !! "PORT" = Some ("2" : gostring) ∧
  (foldl apply_entry (∅, 0) [(" PORT", "2"); ("PORT", "1")]).1 !! "PORT" = Some ("1" : gostring).
Proof. vm_compute. by split. Qed.

(** A value that cannot be set is counted as applied. *)
Example failed_setenv_counted :
  foldl apply_entry (∅, 0) [("PORT" : gostring, [x31; x00; x32])] = (∅, 1).
Proof. vm_compute. reflexivity. Qed.

(** A timeout of more than 2^63 nanoseconds is negative. *)
Example timeout_overflow : int64 (9223372036855 * 1000000) < 0.
Proof. vm_compute. reflexivity. Qed.
