(* ===== verification/Gateway.v ===== *)
(** * Package [gateway/ws]: the WebSocket gateway

    [src/internal/gateway/ws]: authentication of the upgrade request, the origin
    check, the input limits, the per-address rate limiter and the message loop
    that gives the valid messages to [ChatStream] and answers the others.  The
    JWT library, the WebSocket handshake and the JSON decoder are interfaces. *)

From S2P Require Import Prelude GoString Identity Transcript Compaction Tools Planner Llm Loop.
From S2P Require Import Memory Prompt Engine Env Adapter Session Pg Usage PgStore Skills Runtime.
Open Scope Z_scope.

(** ** The HTTP request *)

(** [r.Header.Get], [r.URL.Query().Get] and [r.RemoteAddr]; a missing value is the
    empty string. *)
Record Request := {
  r_Header : gostring → gostring;
  r_Query : gostring → gostring;
  r_RemoteAddr : gostring;
}.

(** ** [limits.go] *)

Definition maxUserIDLen : Z := 128.
Definition maxAgentIDLen : Z := 128.
Definition maxSessionIDLen : Z := 128.
Definition maxPersonaRunes : Z := 48000.
Definition maxModelLen : Z := 256.
Definition maxOperatorRoleLen : Z := 128.
Definition maxUserMessageRunes : Z := 128000.

Definition validateSessionID (id : gostring) : option goerror :=
  let id := TrimSpace id in
  if decide (id = []) then Some (ErrorString "empty session_id")
  else if maxSessionIDLen <? len id then Some (ErrorString "session_id too long")
  else if existsb (λ r, (r =? 0x1f) || (r =? 10) || (r =? 13)) (runes id)
       then Some (ErrorString "session_id contains illegal character")
       else None.

Definition validateUserMessageText (text : gostring) : option goerror :=
  if maxUserMessageRunes <? RuneCount text then Some (ErrorString "message text too long")
  else None.

Definition validateOptionalQueryField (name v : gostring) (maxBytes : Z) : option goerror :=
  if decide (v = []) then None
  else if maxBytes <? len v then Some (ErrorString (name ++ " too long"))
  else None.

(** The first error of a sequence of checks. *)
Definition first_error (e : option goerror) (k : option goerror) : option goerror :=
  match e with Some _ => e | None => k end.

Definition validateStreamConn (c : StreamConn) : option goerror :=
  first_error (validateOptionalQueryField "user_id" (sc_UserID c) maxUserIDLen)
  (first_error (validateOptionalQueryField "agent_id" (sc_AgentID c) maxAgentIDLen)
  (first_error (validateOptionalQueryField "operator_role" (sc_OperatorRole c) maxOperatorRoleLen)
  (first_error (validateOptionalQueryField "model" (sc_Model c) maxModelLen)
  (if negb (bool_decide (sc_Persona c = [])) && (maxPersonaRunes <? RuneCount (sc_Persona c))
   then Some (ErrorString "persona too long") else None)))).

(** ** [auth.go] *)

Inductive AuthMode := AuthNone | AuthBearer | AuthJWT.

#[global] Instance AuthMode_eq_decision : EqDecision AuthMode.
Proof. solve_decision. Defined.

(** [AuthMode.String]. *)
Definition AuthMode_String (m : AuthMode) : gostring :=
  match m with AuthBearer => "bearer" | AuthJWT => "jwt" | AuthNone => "none" end.

Section parse_mode.
Context `{UT : UnicodeTables}.

(** [ParseAuthMode]: the mode and the error are both results. *)
Definition ParseAuthMode (s : gostring) : AuthMode * option goerror :=
  let v := ToLower (TrimSpace s) in
  if decide (v = [] ∨ v = "none" ∨ v = "off") then (AuthNone, None)
  else if decide (v = "bearer") then (AuthBearer, None)
  else if decide (v = "jwt" ∨ v = "gva_jwt") then (AuthJWT, None)
  else (AuthNone, Some (ErrorString ("ws: unknown WS_AUTH_MODE " ++ Quote s))).
End parse_mode.

Definition bearer_prefix : gostring := "Bearer ".

(** [bearerToken]: [None] when there is no token. *)
Definition bearerToken (r : Request) : option gostring :=
  let h := TrimSpace (r_Header r "Authorization") in
  if decide (h = []) then None
  else if negb (HasPrefix h bearer_prefix) then None
  else
    let t := TrimSpace (TrimPrefix h bearer_prefix) in
    if decide (t = []) then None else Some t.

(** [subtle.ConstantTimeCompare] on slices of the same length: the or of the
    byte-wise xors is zero. *)
Definition ConstantTimeCompare (a b : gostring) : bool :=
  foldl (λ v p, Z.lor v (Z.lxor (byteZ p.1) (byteZ p.2))) 0 (zip a b) =? 0.

Definition constantTimeEqual (a b : gostring) : bool :=
  (len a =? len b) && ConstantTimeCompare a b.

Definition unauthorized : goerror := ErrorString "ws: unauthorized".

Definition authBearer (r : Request) (secret : gostring) (allowQuery : bool) : option goerror :=
  let secret := TrimSpace secret in
  if decide (secret = []) then
    Some (ErrorString "ws: WS_BEARER_TOKEN is empty while WS_AUTH_MODE=bearer")
  else
    match bearerToken r with
    | Some got => if constantTimeEqual got secret then None else Some unauthorized
    | None =>
        if allowQuery then
          let q := TrimSpace (r_Query r "bearer_token") in
          if negb (bool_decide (q = [])) && constantTimeEqual q secret then None
          else Some unauthorized
        else Some unauthorized
    end.

(** A parsed token with [jwtClaimsMinimal]. *)
Record JwtToken := {
  jt_Valid : bool;
  jt_ID : Z;
  jt_ExpiresAt : option Time;
}.

(** [jwt.ParseWithClaims]: the raw token and the key function, which is given the
    name of the signing method. *)
Class JwtLib := {
  ParseWithClaims : gostring → (gostring → result gostring) → result JwtToken;
}.

Section jwt.
Context `{JL : JwtLib}.

Definition jwt_key (signingKey method : gostring) : result gostring :=
  if decide (method = "HS256") then Ok signingKey
  else Err (ErrorString ("unexpected signing method " ++ method)).

(** [parseJWTMinimal] at time [now]: the user id of the token. *)
Definition parseJWTMinimal (now : Time) (raw signingKey : gostring) : result gostring :=
  match ParseWithClaims raw (jwt_key signingKey) with
  | Err _ => Err (ErrorString "ws: invalid token")
  | Ok tok =>
      if negb (jt_Valid tok) then Err (ErrorString "ws: invalid token")
      else if jt_ID tok =? 0 then Err (ErrorString "ws: token missing user id")
      else if match jt_ExpiresAt tok with Some e => e <? now | None => false end
           then Err (ErrorString "ws: token expired")
           else Ok (FormatInt (jt_ID tok))
  end.

Definition authJWTRequest (now : Time) (r : Request) (signingKey : gostring) (allowQuery : bool) :
    result gostring :=
  if decide (signingKey = []) then
    Err (ErrorString "ws: WS_JWT_HS256_SECRET is empty while WS_AUTH_MODE=jwt")
  else
    match bearerToken r with
    | Some raw => parseJWTMinimal now raw signingKey
    | None =>
        if allowQuery then
          let q := TrimSpace (r_Query r "access_token") in
          if decide (q = []) then Err (ErrorString "ws: missing bearer token")
          else parseJWTMinimal now q signingKey
        else Err (ErrorString "ws: missing bearer token")
    end.
End jwt.

(** ** [origin.go] *)

(** The non-empty items of the list. *)
Definition origin_list (allowedCSV : gostring) : list gostring :=
  if decide (allowedCSV = []) then []
  else filter (λ p, p ≠ []) (TrimSpace <$> SplitByte allowedCSV x2c).

Definition NewOriginChecker (allowedCSV : gostring) (strict : bool) : Request → bool :=
  let allowedCSV := TrimSpace allowedCSV in
  if decide (allowedCSV = "*" ∨ allowedCSV = "all") then λ _, true
  else
    let list := origin_list allowedCSV in
    λ r,
      let origin := TrimSpace (r_Header r "Origin") in
      if decide (origin = []) then true
      else if 0 <? len list then existsb (λ o, bool_decide (origin = o)) list
      else negb strict.

(** ** [errors_client.go] *)

(** [errors.As] to [identity.ValidationError] along the chain of wrapped errors. *)
Fixpoint as_validation (e : goerror) : option gostring :=
  match e with
  | ValidationError m => Some m
  | WrapError _ inner => as_validation inner
  | _ => None
  end.

Definition generic_failure : gostring := "Request failed. Please try again later.".

Definition clientVisibleChatError (e : option goerror) : gostring :=
  match e with
  | None => []
  | Some e =>
      match as_validation e with
      | Some m => ClientMessage m
      | None => generic_failure
      end
  end.

(** ** [ratelimit.go] *)

Definition Minute : Z := 60 * 1000000000.

(** The times of the accepted messages of each address. *)
Abbreviation PerIP := (gmap gostring (list Time)).

(** [newMessageRateLimiter]: no limiter when the bound is not positive. *)
Definition newMessageRateLimiter (maxPerMin : Z) : option Z :=
  if maxPerMin <=? 0 then None else Some maxPerMin.

(** [allow] at time [now]. *)
Definition allow (l : option Z) (now : Time) (ip : gostring) (perIP : PerIP) : PerIP * bool :=
  match l with
  | None => (perIP, true)
  | Some maxPerMin =>
      let cutoff := now - Minute in
      let ts := default [] (perIP !! ip) in
      let kept := filter (λ t, cutoff < t) ts in
      if maxPerMin <=? len kept then (<[ip := kept]> perIP, false)
      else (<[ip := kept ++ [now]]> perIP, true)
  end.

(** [net.SplitHostPort], for the host; [None] is an error. *)
Fixpoint last_colon (s : gostring) : option nat :=
  match s with
  | [] => None
  | b :: s' =>
      match last_colon s' with
      | Some i => Some (S i)
      | None => if decide (b = x3a) then Some 0%nat else None
      end
  end.

Definition SplitHost (hostport : gostring) : option gostring :=
  match last_colon hostport with
  | None => None
  | Some i =>
      if HasPrefix hostport [x5b] then
        match Index hostport [x5d] with
        | None => None
        | Some e =>
            if (e + 1 =? length hostport)%nat then None
            else if negb (e + 1 =? i)%nat then None
            else if Contains (drop 1 hostport) [x5b] || Contains (drop (e + 1) hostport) [x5d]
                 then None
                 else Some (take (e - 1) (drop 1 hostport))
        end
      else
        let host := take i hostport in
        if Contains host [x3a] then None
        else if Contains hostport [x5b] || Contains hostport [x5d] then None
        else Some host
  end.

Definition clientIP (r : Request) : gostring :=
  let xff := TrimSpace (r_Header r "X-Forwarded-For") in
  if decide (xff = []) then default (r_RemoteAddr r) (SplitHost (r_RemoteAddr r))
  else TrimSpace (default [] (head (SplitByte xff x2c))).

(** ** [server.go] and [protocol.go] *)

Record Config := {
  cf_CheckOrigin : option (Request → bool);
  cf_AuthMode : AuthMode;
  cf_BearerToken : gostring;
  cf_JWTSigningKey : gostring;
  cf_AllowQueryBearer : bool;
  cf_AllowQueryJWT : bool;
  cf_ReadLimit : Z;
  cf_MaxMsgsPerMinute : Z;
}.

(** [Server], for the fields the handlers use. *)
Record Server := {
  se_CheckOrigin : Request → bool;
  se_ReadLimit : Z;
  se_authMode : AuthMode;
  se_bearerToken : gostring;
  se_jwtKey : gostring;
  se_allowQueryBearer : bool;
  se_allowQueryJWT : bool;
  se_msgRate : option Z;
}.

Definition NewServer (cfg : Config) : Server :=
  {| se_CheckOrigin := default (λ _, true) (cf_CheckOrigin cfg);
     se_ReadLimit := if cf_ReadLimit cfg <=? 0 then Z.shiftl 1 20 else cf_ReadLimit cfg;
     se_authMode := cf_AuthMode cfg; se_bearerToken := TrimSpace (cf_BearerToken cfg);
     se_jwtKey := cf_JWTSigningKey cfg; se_allowQueryBearer := cf_AllowQueryBearer cfg;
     se_allowQueryJWT := cf_AllowQueryJWT cfg;
     se_msgRate := newMessageRateLimiter (cf_MaxMsgsPerMinute cfg) |}.

(** The frames. *)
Record UserMessage := {
  um_Type : gostring;
  um_SessionID : gostring;
  um_Text : gostring;
}.

Inductive ServerMessage :=
| AssistantTextMessage (sessionID text : gostring)
| AssistantStreamMessage (sessionID text : gostring) (isFinal : bool)
| SystemStatusMessage (sessionID text : gostring).

(** [Upgrader.Upgrade]: the handshake of the library, which calls [CheckOrigin]. *)
Class Upgrader := { ws_upgrade : (Request → bool) → Request → bool }.

(** [json.Unmarshal] into a [UserMessage]. *)
Class FrameDecoder := { unmarshal_user_message : gostring → result UserMessage }.

(** What becomes of an upgrade request. *)
Inductive Upgrade :=
| Unauthorized
| BadRequest
| UpgradeFailed
| Connected (conn : StreamConn) (ip : gostring).

Section upgrade.
Context `{JL : JwtLib} `{UP : Upgrader}.

(** The query of the request as connection overrides. *)
Definition query_conn (r : Request) : StreamConn :=
  {| sc_UserID := r_Query r "user_id"; sc_AgentID := r_Query r "agent_id";
     sc_Persona := r_Query r "persona"; sc_OperatorRole := r_Query r "operator_role";
     sc_Model := r_Query r "model" |}.

Definition with_user (c : StreamConn) (u : gostring) : StreamConn :=
  {| sc_UserID := u; sc_AgentID := sc_AgentID c; sc_Persona := sc_Persona c;
     sc_OperatorRole := sc_OperatorRole c; sc_Model := sc_Model c |}.

(** [handleWS] up to the upgrade, at time [now]. *)
Definition handle_upgrade (s : Server) (now : Time) (r : Request) : Upgrade :=
  let auth : option gostring :=
    match se_authMode s with
    | AuthBearer =>
        match authBearer r (se_bearerToken s) (se_allowQueryBearer s) with
        | Some _ => None | None => Some []
        end
    | AuthJWT =>
        match authJWTRequest now r (se_jwtKey s) (se_allowQueryJWT s) with
        | Err _ => None | Ok u => Some u
        end
    | AuthNone => Some []
    end in
  match auth with
  | None => Unauthorized
  | Some jwtUserID =>
      let conn := query_conn r in
      let conn := if bool_decide (se_authMode s = AuthJWT) && negb (bool_decide (jwtUserID = []))
                  then with_user conn jwtUserID else conn in
      match validateStreamConn conn with
      | Some _ => BadRequest
      | None =>
          if ws_upgrade (se_CheckOrigin s) r then Connected conn (clientIP r) else UpgradeFailed
      end
  end.
End upgrade.

(** The world holds the table of the rate limiter and the frames sent. *)
Class HasGateway (W : Type) := {
  per_ip : W → PerIP;
  set_per_ip : PerIP → W → W;
  write_json : ServerMessage → Go W (option goerror);
}.

Section messages.
Context `{UT : UnicodeTables} `{SS : SortSlice} `{TD : TodoDecoder} `{MC : MessageCodec}.
Context {W : Type} `{MO : MapOrder W} `{CL : Clock W} `{HS : HasSessions W} `{HO : Host W}.
Context `{EN : Environ W} {F : Type} `{SC : SkillCodec F}.
Context `{FD : FrameDecoder} `{HG : HasGateway W}.

(** [notifier]. *)
Definition ws_notifier : AssistantNotifier W :=
  {| SendSystemStatus := λ sid text, write_json (SystemStatusMessage sid text);
     SendAssistantStream := λ sid text final, write_json (AssistantStreamMessage sid text final) |}.

Definition reply (sid text : gostring) : Go W unit :=
  discard (write_json (AssistantTextMessage sid text)).

(** The frame [data], once the limiter has let it through. *)
Definition dispatch (chat : Service W) (ctx : ChatCtx) (conn : StreamConn) (data : gostring) :
    Go W unit :=
  match unmarshal_user_message data with
  | Err _ => reply [] "invalid json"
  | Ok req =>
      if decide (um_Type req ≠ "user_message" ∨ um_SessionID req = [] ∨ um_Text req = []) then
        reply (um_SessionID req) "expected {type:'user_message', session_id, text}"
      else if validateSessionID (um_SessionID req) is Some _ then
        reply (um_SessionID req) "Invalid session_id."
      else if validateUserMessageText (um_Text req) is Some _ then
        reply (um_SessionID req) "Message too long."
      else
        e ← ChatStream chat ctx (um_SessionID req) (um_Text req) ws_notifier conn;
        if (e : option goerror) is None then mret tt
        else reply (um_SessionID req) (clientVisibleChatError e)
  end.

(** One turn of the loop of [handleWS], for the frame [data].  The service may have
    been built with any context values. *)
Definition handle_message (s : Server) (chat : Service W) (ctx : ChatCtx) (conn : StreamConn)
    (ip data : gostring) : Go W unit :=
  (if se_msgRate s is None then mret true
   else now ← go_state time_Now;
        go_state (λ w, let '(p, b) := allow (se_msgRate s) now ip (per_ip w) in
                       (set_per_ip p w, b))) ≫= λ ok : bool,
  if negb ok then reply [] "Too many messages. Please wait and retry."
  else dispatch chat ctx conn data.

(** The frames of a connection, one after the other. *)
Fixpoint handle_messages (s : Server) (chat : Service W) (ctx : ChatCtx) (conn : StreamConn)
    (ip : gostring) (frames : list gostring) : Go W unit :=
  match frames with
  | [] => mret tt
  | data :: frames' =>
      handle_message s chat ctx conn ip data ;; handle_messages s chat ctx conn ip frames'
  end.
End messages.

(** ** Specification of the rate limiter *)

Abbreviation Event := (gostring * Time)%type.

(** The accepted messages of an address in the last minute. *)
Definition in_window (ip : gostring) (now : Time) (accepted : list Event) : list Event :=
  filter (λ e, e.1 = ip ∧ now - Minute < e.2) accepted.

(** The decisions and the accepted messages of a limiter that remembers all. *)
Fixpoint reference (max : Z) (accepted : list Event) (events : list Event) :
    list bool * list Event :=
  match events with
  | [] => ([], accepted)
  | (ip, now) :: es =>
      let b := len (in_window ip now accepted) <? max in
      let '(bs, acc) := reference max (if b then accepted ++ [(ip, now)] else accepted) es in
      (b :: bs, acc)
  end.

Fixpoint run_allow (l : option Z) (perIP : PerIP) (events : list Event) : list bool :=
  match events with
  | [] => []
  | (ip, now) :: es =>
      let '(perIP', b) := allow l now ip perIP in b :: run_allow l perIP' es
  end.

(** Clock readings that do not go back. *)
Definition in_order (events : list Event) : Prop :=
  StronglySorted (λ e e', e.2 ≤ e'.2) events.

(** ** Lemmas *)

(** The table of the limiter agrees with the accepted messages on the last minute
    before any time from [last] on. *)
Definition remembers (last : Time) (perIP : PerIP) (accepted : list Event) : Prop :=
  ∀ ip t, last ≤ t →
    filter (λ x, t - Minute < x) (default [] (perIP !! ip)) = (in_window ip t accepted).*2.

Lemma remembers_mono last last' p acc : last ≤ last' → remembers last p acc → remembers last' p acc.
Proof. intros H Hr ip t Ht. apply Hr. lia. Qed.

Lemma filter_filter_later (now t : Time) (ts : list Time) :
  now ≤ t →
  filter (λ x, t - Minute < x) (filter (λ x, now - Minute < x) ts) =
  filter (λ x, t - Minute < x) ts.
Proof.
  intros H. rewrite list_filter_filter. apply list_filter_iff. intros x. unfold Minute. lia.
Qed.

Lemma allow_remembers max now ip p acc :
  remembers now p acc →
  let '(p', b) := allow (Some max) now ip p in
  b = (len (in_window ip now acc) <? max) ∧
  remembers now p' (if b then acc ++ [(ip, now)] else acc).
Proof.
  intros Hr. unfold allow. set (ts := default [] (p !! ip)).
  assert (len (filter (λ t, now - Minute < t) ts) = len (in_window ip now acc)) as Hlen.
  { unfold ts, len. rewrite (Hr ip now) by lia. by rewrite length_fmap. }
  rewrite Hlen. destruct (Z.leb_spec max (len (in_window ip now acc))) as [Hle|Hlt].
  - split; [symmetry; by apply Z.ltb_ge|]. intros ip' t Ht.
    destruct (decide (ip = ip')) as [<-|Hne].
    + rewrite lookup_insert_eq. cbn [default from_option id]. rewrite filter_filter_later by done.
      by apply Hr.
    + rewrite lookup_insert_ne by done. by apply Hr.
  - split; [symmetry; by apply Z.ltb_lt|]. intros ip' t Ht.
    unfold in_window. rewrite filter_app, fmap_app.
    destruct (decide (ip = ip')) as [<-|Hne].
    + rewrite lookup_insert_eq. cbn [default from_option id]. rewrite filter_app.
      rewrite filter_filter_later by done. unfold ts. rewrite (Hr ip t Ht). f_equal.
      rewrite !filter_cons, !filter_nil. cbn.
      destruct (decide (t - Minute < now)); destruct (decide (ip = ip ∧ t - Minute < now));
        naive_solver.
    + rewrite lookup_insert_ne, (Hr ip' t Ht) by done.
      rewrite filter_cons_False by (cbn; naive_solver). by rewrite filter_nil, app_nil_r.
Qed.

Lemma run_allow_reference max last p acc events :
  remembers last p acc → in_order events → Forall (λ e, last ≤ e.2) events →
  run_allow (Some max) p events = (reference max acc events).1.
Proof.
  revert last p acc. induction events as [|[ip now] es IH]; intros last p acc Hr Ho Hl; [done|].
  apply Forall_cons in Hl as [Hl _]. cbn in Hl.
  apply StronglySorted_inv in Ho as [Ho Hle]. cbn [run_allow reference].
  pose proof (allow_remembers max now ip p acc (remembers_mono _ _ _ _ Hl Hr)) as H.
  destruct (allow (Some max) now ip p) as [p' b]. destruct H as [-> Hr'].
  rewrite (IH now p' _ Hr' Ho Hle). by destruct (reference max _ es).
Qed.

(** The accepted messages of an address in a minute. *)
Definition minute_count (ip : gostring) (t : Time) (accepted : list Event) : Z :=
  len (filter (λ e, e.1 = ip ∧ t - Minute < e.2 ≤ t) accepted).

Lemma reference_bound max last acc events :
  0 ≤ max → in_order events → Forall (λ e, last ≤ e.2) events →
  Forall (λ e, e.2 ≤ last) acc → (∀ ip t, minute_count ip t acc ≤ max) →
  ∀ ip t, minute_count ip t (reference max acc events).2 ≤ max.
Proof.
  intros Hmax. revert last acc. induction events as [|[ip0 now] es IH];
    intros last acc Ho Hl Ha Hb; [done|]. apply Forall_cons in Hl as [Hl _]. cbn in Hl.
  apply StronglySorted_inv in Ho as [Ho Hle]. cbn [reference].
  destruct (Z.ltb_spec (len (in_window ip0 now acc)) max) as [Hlt|Hge].
  - specialize (IH now (acc ++ [(ip0, now)]) Ho Hle).
    destruct (reference max (acc ++ [(ip0, now)]) es) as [bs acc']. cbn [snd] in *. apply IH.
    + apply Forall_app. split; [|by repeat constructor].
      eapply Forall_impl; [exact Ha|]. cbn. lia.
    + intros ip t. unfold minute_count. rewrite filter_app, len_app, filter_cons, filter_nil.
      case_decide as Hd; cbn in Hd; [|specialize (Hb ip t); unfold minute_count in Hb; unfold len at 2; cbn; lia].
      destruct Hd as [<- Hd]. unfold len at 2. cbn [length].
      enough (len (filter (λ e, e.1 = ip0 ∧ t - Minute < e.2 ≤ t) acc) ≤ len (in_window ip0 now acc))
        by lia.
      unfold len, in_window. apply Nat2Z.inj_le, sublist_length.
      replace (filter (λ e, e.1 = ip0 ∧ t - Minute < e.2 ≤ t) acc)
        with (filter (λ e, t - Minute < e.2 ≤ t) (filter (λ e, e.1 = ip0 ∧ now - Minute < e.2) acc));
        [apply sublist_filter|].
      rewrite list_filter_filter. apply list_filter_iff. intros e.
      split; [intros [? [? ?]]|intros [? ?]]; split_and!; done || lia.
  - specialize (IH now acc Ho Hle). destruct (reference max acc es). apply IH; [|done].
    eapply Forall_impl; [exact Ha|]. cbn. lia.
Qed.

(** What a mode is logged as parses to it. *)
Lemma ParseAuthMode_String `{UT : UnicodeTables} m :
  ParseAuthMode (AuthMode_String m) = (m, None).
Proof. destruct m; reflexivity. Qed.

(** [ConstantTimeCompare] is equality. *)
Lemma fold_lor_zero l v :
  0 ≤ v → foldl (λ v p, Z.lor v (Z.lxor (byteZ p.1) (byteZ p.2))) v l = 0 ↔
  v = 0 ∧ Forall (λ p, p.1 = p.2) l.
Proof.
  revert v. induction l as [|[a b] l IH]; intros v Hv; cbn.
  { split; [by intros ->|tauto]. }
  rewrite IH, Forall_cons; cbn.
  - rewrite Z.lor_eq_0_iff, Z.lxor_eq_0_iff. split; [intros [[? ?] ?]|intros [? [? ?]]];
      split_and!; try done; [by apply byteZ_inj|by subst].
  - apply Z.lor_nonneg. split; [done|]. apply Z.lxor_nonneg.
    pose proof (byteZ_range a). pose proof (byteZ_range b). lia.
Qed.

Lemma constantTimeEqual_spec a b : constantTimeEqual a b = true ↔ a = b.
Proof.
  unfold constantTimeEqual, ConstantTimeCompare.
  rewrite andb_true_iff, !Z.eqb_eq, fold_lor_zero by done. unfold len. split.
  - intros [Hl [_ Hf]]. apply Nat2Z.inj in Hl. revert b Hl Hf.
    induction a as [|x a IH]; intros [|y b] Hl Hf; cbn in *; try done.
    apply Forall_cons in Hf as [Hx Hf]. cbn in Hx. rewrite Hx. f_equal. apply IH; [lia|done].
  - intros ->. split_and!; [done..|]. induction b as [|x b IH]; cbn; constructor; done.
Qed.

(** ** Properties *)

Section properties.
Context `{UT : UnicodeTables} `{SS : SortSlice} `{TD : TodoDecoder} `{MC : MessageCodec}.
Context {W : Type} `{MO : MapOrder W} `{CL : Clock W} `{HS : HasSessions W} `{HO : Host W}.
Context `{EN : Environ W} {F : Type} `{SC : SkillCodec F}.
Context `{FD : FrameDecoder} `{HG : HasGateway W} `{JL : JwtLib} `{UP : Upgrader}.

(** C20: the rate limiter is a sliding window: on any sequence of messages at
    times that do not go back, the limiter, which forgets old messages, decides as
    the one that remembers every accepted message and accepts when fewer than the
    bound were accepted from the address in the last minute; so no address has
    more than the bound accepted in any minute; a bound that is not positive
    accepts everything. *)
Theorem allow_sliding_window (max : Z) (events : list Event) :
  in_order events →
  if max <=? 0 then run_allow (newMessageRateLimiter max) ∅ events = (λ _, true) <$> events
  else
    run_allow (newMessageRateLimiter max) ∅ events = (reference max [] events).1 ∧
    ∀ ip t, minute_count ip t (reference max [] events).2 ≤ max.
Proof.
  intros Ho. unfold newMessageRateLimiter. destruct (Z.leb_spec max 0).
  - generalize (∅ : PerIP). induction events as [|[ip now] es IH]; intros p; [done|]. cbn. f_equal.
    apply IH. by apply StronglySorted_inv in Ho as [? _].
  - assert (∃ last, Forall (λ e : Event, last ≤ e.2) events) as [last Hl].
    { destruct events as [|[ip t] es]; [by exists 0|]. exists t.
      apply StronglySorted_inv in Ho as [_ Ho]. by constructor. }
    split; [eapply run_allow_reference; [|done|exact Hl]
           |eapply reference_bound; [lia|done|exact Hl|constructor|]].
    + intros ip t _. by rewrite lookup_empty.
    + intros ip t. unfold minute_count, len. rewrite filter_nil. cbn. lia.
Qed.

(** The limits of a connection's fields. *)
Definition within_limits (c : StreamConn) : Prop :=
  len (sc_UserID c) ≤ 128 ∧ len (sc_AgentID c) ≤ 128 ∧ len (sc_OperatorRole c) ≤ 128 ∧
  len (sc_Model c) ≤ 256 ∧ RuneCount (sc_Persona c) ≤ 48000.

Lemma validateOptionalQueryField_spec name v m :
  0 ≤ m → validateOptionalQueryField name v m = None ↔ len v ≤ m.
Proof.
  intros Hm. unfold validateOptionalQueryField. case_decide as Hv; [by subst|].
  destruct (Z.ltb_spec m (len v)); split; done || lia.
Qed.

Lemma first_error_None e k : first_error e k = None ↔ e = None ∧ k = None.
Proof. destruct e; cbn; naive_solver. Qed.

Lemma validateStreamConn_spec c : validateStreamConn c = None ↔ within_limits c.
Proof.
  unfold validateStreamConn, within_limits.
  rewrite !first_error_None, !validateOptionalQueryField_spec by done.
  unfold maxUserIDLen, maxAgentIDLen, maxOperatorRoleLen, maxModelLen, maxPersonaRunes.
  do 4 (apply and_iff_compat_l). case_bool_decide as Hn; [by rewrite Hn|]. cbn [negb andb].
  destruct (Z.ltb_spec 48000 (RuneCount (sc_Persona c))); split; done || lia.
Qed.

(** A token of the request is the one of its header, or, when it has none and the server
    allows it, the one of the query. *)
Definition token_of (r : Request) (field : gostring) (allowQuery : bool) (raw : gostring) : Prop :=
  bearerToken r = Some raw ∨
  bearerToken r = None ∧ allowQuery = true ∧ raw = TrimSpace (r_Query r field) ∧ raw ≠ [].

Lemma authBearer_spec r secret allowQuery :
  authBearer r secret allowQuery = None ↔
  TrimSpace secret ≠ [] ∧ token_of r "bearer_token" allowQuery (TrimSpace secret).
Proof.
  unfold authBearer, token_of. cbv zeta. case_decide as Hs; [naive_solver|].
  destruct (bearerToken r) as [got|].
  - destruct (constantTimeEqual got _) eqn:Ec; [apply constantTimeEqual_spec in Ec; naive_solver|].
    split; [done|]. intros (_ & [[= ->]|[? _]]); [|done]. revert Ec.
    by rewrite (proj2 (constantTimeEqual_spec _ _)).
  - destruct allowQuery; [|naive_solver]. generalize (TrimSpace (r_Query r "bearer_token")). intros q.
    case_bool_decide as Hq; cbn [negb andb].
    { split; [done|]. intros (_ & [?|(_ & _ & ? & ?)]); congruence. }
    destruct (constantTimeEqual q _) eqn:Ec; [apply constantTimeEqual_spec in Ec; naive_solver|].
    split; [done|]. intros (_ & [?|(_ & _ & Hr & _)]); [done|]. revert Ec.
    by rewrite (proj2 (constantTimeEqual_spec _ _)).
Qed.

(** A token that the JWT library accepts for HS256 with the key, that is not expired and
    names a user. *)
Definition accepted_token (now : Time) (signingKey raw : gostring) (tok : JwtToken) : Prop :=
  ParseWithClaims raw (jwt_key signingKey) = Ok tok ∧ jt_Valid tok = true ∧ jt_ID tok ≠ 0 ∧
  ∀ e, jt_ExpiresAt tok = Some e → now ≤ e.

Lemma parseJWTMinimal_spec now raw signingKey u :
  parseJWTMinimal now raw signingKey = Ok u ↔
  ∃ tok, accepted_token now signingKey raw tok ∧ u = FormatInt (jt_ID tok).
Proof.
  unfold parseJWTMinimal, accepted_token. split.
  - destruct (ParseWithClaims raw _) as [tok|]; [|done].
    destruct (jt_Valid tok) eqn:Hv; cbn [negb]; [|done]. destruct (Z.eqb_spec (jt_ID tok) 0); [done|].
    destruct (match jt_ExpiresAt tok with Some e => e <? now | None => false end) eqn:He; [done|].
    intros [= <-]. exists tok. split_and!; try done. intros e Hx. rewrite Hx in He. by apply Z.ltb_ge.
  - intros (tok & (-> & -> & Hid & He) & ->). cbn [negb]. destruct (Z.eqb_spec (jt_ID tok) 0); [done|].
    destruct (jt_ExpiresAt tok) as [e|]; [|done]. specialize (He e eq_refl).
    by destruct (Z.ltb_spec e now); [lia|].
Qed.

Lemma authJWTRequest_spec now r signingKey allowQuery u :
  authJWTRequest now r signingKey allowQuery = Ok u ↔
  signingKey ≠ [] ∧ ∃ raw tok, token_of r "access_token" allowQuery raw ∧
    accepted_token now signingKey raw tok ∧ u = FormatInt (jt_ID tok).
Proof.
  unfold authJWTRequest, token_of. case_decide as Hk; [naive_solver|].
  destruct (bearerToken r) as [raw|]; [rewrite parseJWTMinimal_spec; naive_solver|].
  destruct allowQuery; [|naive_solver]. cbv zeta. case_decide as Hq; [naive_solver|].
  rewrite parseJWTMinimal_spec. naive_solver.
Qed.

(** The connection a request is entitled to, by the mode of the server.  In mode none
    nothing is checked, and the user is the one the query names. *)
Definition entitled (s : Server) (now : Time) (r : Request) (conn : StreamConn) : Prop :=
  match se_authMode s with
  | AuthNone => conn = query_conn r
  | AuthBearer =>
      TrimSpace (se_bearerToken s) ≠ [] ∧
      token_of r "bearer_token" (se_allowQueryBearer s) (TrimSpace (se_bearerToken s)) ∧
      conn = query_conn r
  | AuthJWT =>
      se_jwtKey s ≠ [] ∧ ∃ raw tok, token_of r "access_token" (se_allowQueryJWT s) raw ∧
        accepted_token now (se_jwtKey s) raw tok ∧
        conn = with_user (query_conn r) (FormatInt (jt_ID tok))
  end.

Lemma handle_upgrade_Connected (s : Server) (now : Time) (r : Request) (conn : StreamConn)
    (ip : gostring) :
  handle_upgrade s now r = Connected conn ip ↔
  entitled s now r conn ∧ within_limits conn ∧ ws_upgrade (se_CheckOrigin s) r = true ∧
  ip = clientIP r.
Proof.
  assert (∀ c, match validateStreamConn c with
     | Some _ => BadRequest
     | None => if ws_upgrade (se_CheckOrigin s) r then Connected c (clientIP r) else UpgradeFailed
     end = Connected conn ip ↔
     conn = c ∧ within_limits conn ∧ ws_upgrade (se_CheckOrigin s) r = true ∧ ip = clientIP r) as Hc.
  { intros c. pose proof (validateStreamConn_spec c) as Hl.
    destruct (validateStreamConn c); [naive_solver|]. destruct (ws_upgrade _ _); naive_solver. }
  unfold handle_upgrade, entitled. destruct (se_authMode s); cbv zeta.
  - rewrite bool_decide_eq_false_2 by done. cbn [andb]. by rewrite Hc.
  - pose proof (authBearer_spec r (se_bearerToken s) (se_allowQueryBearer s)) as Ha.
    destruct (authBearer _ _ _); [naive_solver|].
    rewrite bool_decide_eq_false_2 by done. cbn [andb]. rewrite Hc. tauto.
  - pose proof (λ u, authJWTRequest_spec now r (se_jwtKey s) (se_allowQueryJWT s) u) as Ha.
    destruct (authJWTRequest now r _ _) as [u|e].
    + destruct (proj1 (Ha u) eq_refl) as (Hk & raw & tok & Hr & Ht & ->).
      rewrite bool_decide_eq_true_2, bool_decide_eq_false_2 by (done || apply FormatInt_nonempty).
      cbn [negb andb]. rewrite Hc.
      split; [intros (-> & H); split; [split; [done|by exists raw, tok]|done]|].
      intros ((_ & raw' & tok' & Hr' & Ht' & ->) & H). split; [|done].
      assert (Ok (FormatInt (jt_ID tok)) = Ok (FormatInt (jt_ID tok'))) as [= ->]
        by (apply Ha; eauto 6). done.
    + split; [done|]. intros ((Hk & raw & tok & Hr & Ht & _) & _).
      assert (Err e = Ok (FormatInt (jt_ID tok))) by (apply Ha; eauto 6). done.
Qed.

(** C22: a request becomes a connection exactly when it is entitled to it by the mode of
    the server, its fields are within their limits and the handshake, with the origin
    checker, succeeds.  In mode bearer it must carry the configured token, which is not
    empty, and the connection is the one the query describes; in mode jwt, a token that
    the JWT library accepts for HS256 with the server's key, which is not empty, that is
    not expired and names a user, and the connection's user is that of the token whatever
    the query says; in both, a token of the query counts only when the server allows it
    and the header has none.  In mode none, the default of [ParseAuthMode], nothing is
    checked, and the user is whoever the query says. *)
Theorem handle_upgrade_authenticated (s : Server) (now : Time) (r : Request)
    (conn : StreamConn) (ip : gostring) :
  handle_upgrade s now r = Connected conn ip ↔
  entitled s now r conn ∧ within_limits conn ∧ ws_upgrade (se_CheckOrigin s) r = true ∧
  ip = clientIP r.
Proof. apply handle_upgrade_Connected. Qed.

(** The limiter's decision: the clock is only read when there is a bound. *)
Definition limiter_decision (s : Server) (ip : gostring) (w : W) : W * bool :=
  match se_msgRate s with
  | None => (w, true)
  | Some _ =>
      let '(w1, now) := time_Now w in
      let '(p, ok) := allow (se_msgRate s) now ip (per_ip w1) in (set_per_ip p w1, ok)
  end.

Definition complete_frame (req : UserMessage) : Prop :=
  um_Type req = "user_message" ∧ um_SessionID req ≠ [] ∧ um_Text req ≠ [].

(** A session id, up to surrounding white space. *)
Definition good_session_id (id : gostring) : Prop :=
  let id := TrimSpace id in
  id ≠ [] ∧ len id ≤ 128 ∧ Forall (λ r, r ≠ 0x1f ∧ r ≠ 10 ∧ r ≠ 13) (runes id).

Lemma validateSessionID_spec id : validateSessionID id = None ↔ good_session_id id.
Proof.
  unfold validateSessionID, good_session_id, maxSessionIDLen. cbv zeta. set (t := TrimSpace id).
  case_decide as Hn; [naive_solver|]. destruct (Z.ltb_spec 128 (len t)) as [Hl|Hl].
  { split; [done|]. intros (_ & ? & _). lia. }
  destruct (existsb _ (runes t)) eqn:E.
  - split; [done|]. intros (_ & _ & H). apply existsb_exists in E as (x & Hx & E).
    rewrite Forall_forall in H. apply list_elem_of_In, H in Hx.
    rewrite !orb_true_iff, !Z.eqb_eq in E. lia.
  - split; [|done]. intros _. split_and!; [done..|]. apply Forall_forall. intros x Hx.
    assert (¬ ((x =? 0x1f) || (x =? 10) || (x =? 13)) = true) as H.
    { intros H. assert (existsb (λ r, (r =? 0x1f) || (r =? 10) || (r =? 13)) (runes t) = true) as Ht;
        [|by rewrite Ht in E]. apply existsb_exists. exists x. split; [by apply list_elem_of_In|done]. }
    rewrite !orb_true_iff, !Z.eqb_eq in H. lia.
Qed.

(** C40: a frame is either refused or served.  After the rate limiter, a frame that is
    over the limit, is not JSON, is not a complete user message, has a bad session id or
    too long a text gets one reply, which says so, and nothing else happens: the chat
    service is not called.  Any other is given to [ChatStream] once, with its own session
    id and text; a turn that succeeds gets no further reply, and one that fails gets
    exactly one: the message of a validation error, or the same sentence for any other
    error, so that the text of an internal error is never sent. *)
Theorem handle_message_dispatch (s : Server) (chat : Service W) (ctx : ChatCtx)
    (conn : StreamConn) (ip data : gostring) (w : W) :
  let run := handle_message s chat ctx conn ip data w in
  let '(w1, ok) := limiter_decision s ip w in
  (ok = false → run = reply [] "Too many messages. Please wait and retry." w1) ∧
  (ok = true →
   match unmarshal_user_message data with
   | Err _ => run = reply [] "invalid json" w1
   | Ok req =>
       let sid := um_SessionID req in
       (¬ complete_frame req →
          run = reply sid "expected {type:'user_message', session_id, text}" w1) ∧
       (complete_frame req → ¬ good_session_id sid → run = reply sid "Invalid session_id." w1) ∧
       (complete_frame req → good_session_id sid → 128000 < RuneCount (um_Text req) →
          run = reply sid "Message too long." w1) ∧
       (complete_frame req → good_session_id sid → RuneCount (um_Text req) ≤ 128000 →
          match ChatStream chat ctx sid (um_Text req) ws_notifier conn w1 with
          | (w2, Done None) => run = (w2, Done tt)
          | (w2, Done (Some e)) =>
              match as_validation e with
              | Some m => run = reply sid (ClientMessage m) w2
              | None => run = reply sid "Request failed. Please try again later." w2
              end
          | (w2, Panicked p) => run = (w2, Panicked p)
          end)
   end).
Proof.
  intros run. destruct (limiter_decision s ip w) as [w1 ok] eqn:Ea.
  assert (run = (if negb ok then reply [] "Too many messages. Please wait and retry."
                 else dispatch chat ctx conn data) w1) as ->.
  { unfold run, handle_message. erewrite go_bind_eq; [reflexivity|]. revert Ea. unfold limiter_decision.
    destruct (se_msgRate s); [|by intros [= -> ->]]. unfold mbind, Go_bind, go_state.
    destruct (time_Now w) as [w2 now]. destruct (allow _ _ _ _). by intros [= -> ->]. }
  split; [by intros ->|]. intros ->. cbn [negb]. unfold dispatch.
  destruct (unmarshal_user_message data) as [req|]; [|done]. cbv zeta.
  pose proof (validateSessionID_spec (um_SessionID req)) as Hsid. unfold complete_frame.
  case_decide as Hf; [split_and!; [done|tauto..]|].
  assert (um_Type req = "user_message" ∧ um_SessionID req ≠ [] ∧ um_Text req ≠ []) as Hc.
  { destruct (decide (um_Type req = "user_message")); [|tauto]. tauto. }
  unfold validateUserMessageText, maxUserMessageRunes.
  destruct (validateSessionID (um_SessionID req)).
  { split_and!; [by intros []|done|..]; by intros _ ?%Hsid. }
  assert (good_session_id (um_SessionID req)) as Hg by by apply Hsid.
  destruct (Z.ltb_spec 128000 (RuneCount (um_Text req))); split_and!; try done; try lia.
  intros _ _ _. unfold mbind, Go_bind.
  destruct (ChatStream chat ctx _ _ _ conn w1) as [w2 [[e|]|p]]; [|done..].
  unfold clientVisibleChatError. by destruct (as_validation e).
Qed.
End properties.

(** ** Witnesses and concrete runs *)

#[local] Existing Instance ascii_tables.
#[local] Existing Instance merge_SortSlice.
#[local] Existing Instance sample_decoder.
#[local] Existing Instance sample_codec.
#[local] Existing Instance zero_clock.
#[local] Existing Instance sample_skill_codec.

Definition second : Z := 1000000000.

(** Two messages a minute: the third one within the minute is refused. *)
Definition five_messages : list Event :=
  [("1.2.3.4", 0); ("1.2.3.4", 10 * second); ("5.6.7.8", 20 * second);
   ("1.2.3.4", 30 * second); ("1.2.3.4", 61 * second)].

Lemma five_in_order : in_order five_messages.
Proof. unfold five_messages, second. repeat constructor; cbn; lia. Qed.

Lemma allow_sliding_window_witness :
  run_allow (newMessageRateLimiter 2) ∅ five_messages = (reference 2 [] five_messages).1 ∧
  ∀ ip t, minute_count ip t (reference 2 [] five_messages).2 ≤ 2.
Proof. apply (allow_sliding_window 2 five_messages), five_in_order. Defined.

Example five_decisions :
  run_allow (newMessageRateLimiter 2) ∅ five_messages = [true; true; true; false; true].
Proof. vm_compute. reflexivity. Qed.

(** A JWT library that accepts one token for one key, for user 7. *)
#[local] Instance sample_jwt : JwtLib :=
  {| ParseWithClaims := λ raw key,
       match key "HS256" with
       | Ok k => if decide (raw = "tok" ∧ k = "secret")
                 then Ok {| jt_Valid := true; jt_ID := 7; jt_ExpiresAt := Some 100 |}
                 else Err (ErrorString "jwt: signature is invalid")
       | Err e => Err e
       end |}.

#[local] Instance sample_upgrader : Upgrader := {| ws_upgrade := λ check r, check r |}.

Definition sample_config : Config :=
  {| cf_CheckOrigin := Some (NewOriginChecker "https://a.example, https://b.example" true);
     cf_AuthMode := AuthJWT; cf_BearerToken := []; cf_JWTSigningKey := "secret";
     cf_AllowQueryBearer := false; cf_AllowQueryJWT := false; cf_ReadLimit := 0;
     cf_MaxMsgsPerMinute := 2 |}.

(** A server without authentication. *)
Definition open_config : Config :=
  {| cf_CheckOrigin := Some (NewOriginChecker "*" false); cf_AuthMode := (ParseAuthMode []).1;
     cf_BearerToken := []; cf_JWTSigningKey := []; cf_AllowQueryBearer := false;
     cf_AllowQueryJWT := false; cf_ReadLimit := 0; cf_MaxMsgsPerMinute := 0 |}.

Definition sample_request_headers (origin : gostring) : Request :=
  {| r_Header := λ h, if decide (h = "Authorization") then "Bearer tok"
                      else if decide (h = "Origin") then origin else [];
     r_Query := λ q, if decide (q = "user_id") then "admin" else [];
     r_RemoteAddr := "[::1]:5000" |}.

(** The query asks for another user; the connection has the user of the token.  In mode
    none it has the user the query asks for. *)
Lemma handle_upgrade_authenticated_witness :
  let s := NewServer sample_config in
  let r := sample_request_headers "https://b.example" in
  let seven := {| sc_UserID := "7"; sc_AgentID := []; sc_Persona := []; sc_OperatorRole := [];
                  sc_Model := [] |} in
  entitled s 50 r seven ∧ within_limits seven ∧ ¬ entitled s 50 r (query_conn r) ∧
  handle_upgrade (NewServer open_config) 50 r = Connected (query_conn r) "::1" ∧
  sc_UserID (query_conn r) = "admin".
Proof.
  intros s r seven. assert (handle_upgrade s 50 r = Connected seven "::1") as E
    by (vm_compute; reflexivity).
  apply (handle_upgrade_authenticated s 50 r seven "::1") in E as (He & Hl & Hw & Hi).
  split_and!; [exact He|exact Hl| |vm_compute; reflexivity..]. intros Hq.
  assert (handle_upgrade s 50 r = Connected (query_conn r) "::1") as E'.
  { apply (handle_upgrade_authenticated s 50 r). split_and!; [exact Hq| |exact Hw|exact Hi].
    repeat split; vm_compute; discriminate. }
  vm_compute in E'. discriminate E'.
Defined.

Example foreign_origin :
  handle_upgrade (NewServer sample_config) 50 (sample_request_headers "https://c.example") =
  UpgradeFailed.
Proof. vm_compute. reflexivity. Qed.

(** A world with sessions, the limiter's table and the frames sent. *)
Abbreviation gateway_world := (Sessions * (PerIP * list ServerMessage))%type.

#[local] Instance gateway_sessions : HasSessions gateway_world.
Proof. by refine {| sessions := fst; set_sessions := λ m w, (m, w.2) |}. Defined.

#[local] Instance gateway_environ : Environ gateway_world := λ _, ∅.

#[local] Instance gateway_host : Host gateway_world :=
  {| GOOS := "linux"; GOARCH := "amd64"; format_RFC3339 := λ _, "now"; format_request := λ _, "0";
     go_spawn := λ _ w, w |}.

#[local] Instance gateway_state : HasGateway gateway_world :=
  {| per_ip := λ w, w.2.1; set_per_ip := λ p w, (w.1, (p, w.2.2));
     write_json := λ m w, ((w.1, (w.2.1, w.2.2 ++ [m])), Done None) |}.

(** Frames written as [type|session|text]. *)
#[local] Instance sample_frames : FrameDecoder :=
  {| unmarshal_user_message := λ s, match SplitByte s x7c with
       | [t; i; x] => Ok {| um_Type := t; um_SessionID := i; um_Text := x |}
       | _ => Err (ErrorString "json") end |}.

Definition gateway_service : Service gateway_world :=
  {| sv_Sessions := {| Redis := None; MaxMessages := 3; TTL := 0 |};
     sv_Bridge := λ _, Some {| br_LLM := Some (λ _, Some (replying "hi there")) |};
     sv_PG := Some {| ms_pool := Some empty_pool |}; sv_NATS := None;
     sv_Scope := sample_scope; sv_Todos := no_todos;
     sv_PostTurn := None; sv_Compactor := None; sv_ToolPruner := None; sv_TokenEst := None;
     sv_MaxTurns := 0; sv_MaxConsecutiveFailures := 0; sv_DefaultPersona := [];
     sv_RuntimeHint := None |}.

Definition gateway_run (frames : list gostring) : gateway_world * outcome unit :=
  handle_messages (NewServer sample_config) gateway_service no_ctx no_conn "::1" frames (∅, (∅, [])).

(** A turn, an invalid session, and a message over the limit. *)
Example gateway_frames :
  (gateway_run ["user_message|s|hello"; "user_message|a" ++ [x0a] ++ "b|hello";
                "user_message|s|again"]).1.2.2 =
  [AssistantStreamMessage "s" "hi there" false; AssistantStreamMessage "s" [] true;
   AssistantTextMessage ("a" ++ [x0a] ++ "b") "Invalid session_id.";
   AssistantTextMessage [] "Too many messages. Please wait and retry."].
Proof. vm_compute. reflexivity. Qed.

(** [validateSessionID] checks the trimmed id, and the untrimmed one is used: a line
    break or any number of spaces around an id pass. *)
Example session_id_padding :
  validateSessionID ([x0a] ++ "s" ++ [x0d; x0a]) = None ∧
  validateSessionID (repeat x20 200 ++ "s") = None.
Proof. vm_compute. split; reflexivity. Qed.
