(* ===== verification/Locks.v ===== *)
(** * The shared objects behind their mutexes

    Each object that goroutines share is an instance of [Goroutine.Locked]: its methods
    access by access, as the code writes them between [Lock] and the deferred [Unlock],
    and the operation the other files use.  The laws say that a method that runs alone
    is that operation; by [Goroutine.linearizable] it is, for its callers, also when
    goroutines interleave.

    - [session.Store] in memory ([session/store.go]);
    - [planner.MemoryStore] ([planner/store.go]), whose [List] takes the lock for
      reading;
    - [memory.MockProvider] ([memory/mock.go]), whose [Write] can panic inside;
    - [llm.MockClient] ([agent_core/llm/mock.go]);
    - the rate limiter ([gateway/ws/ratelimit.go]). *)

From S2P Require Import Prelude Goroutine GoString Identity Transcript Tools Planner Llm Memory.
From S2P Require Import Adapter Session Gateway.
Open Scope Z_scope.

(** ** [session.Store] *)

Inductive SessionOp :=
| SessionGet (sid : gostring)
| SessionAppend (sid : gostring) (msgs : list TMessage)
| SessionReplace (sid : gostring) (msgs : list TMessage).

Definition session_res (o : SessionOp) : Type :=
  match o with
  | SessionGet _ => list TMessage
  | _ => unit
  end.

Definition trim_body (max : Z) (sid : gostring) : body Sessions unit :=
  if max <=? 0 then Leave tt
  else
    Read (λ m, mem_Get m sid) (λ msgs,
      if len msgs <=? max then Leave tt
      else Update (<[sid := drop (Z.to_nat (len msgs - max)) msgs]>) (Leave tt)).

Definition session_body (max : Z) (o : SessionOp) : body Sessions (session_res o) :=
  match o with
  | SessionGet sid => Read (λ m, mem_Get m sid) (λ msgs, Leave msgs)
  | SessionAppend sid msgs =>
      Read (λ m, mem_Get m sid) (λ old, Update (<[sid := old ++ msgs]>) (trim_body max sid))
  | SessionReplace sid msgs => Update (<[sid := msgs]>) (trim_body max sid)
  end.

Definition session_spec (max : Z) (o : SessionOp) (m : Sessions) : Sessions * session_res o :=
  match o with
  | SessionGet sid => (m, mem_Get m sid)
  | SessionAppend sid msgs => (mem_Append max sid msgs m, tt)
  | SessionReplace sid msgs => (mem_Replace max sid msgs m, tt)
  end.

#[export] Instance session_store (max : Z) : Locked Sessions SessionOp session_res :=
  {| op_mode := λ _, Exclusive; op_body := session_body max; op_spec := session_spec max |}.

Lemma run_trim_body max sid m : run_body (trim_body max sid) m = (trimLocked max sid m, tt).
Proof.
  unfold trim_body, trimLocked. destruct (max <=? 0); [done|]. cbn.
  by destruct (len (mem_Get m sid) <=? max).
Qed.

#[export] Instance session_store_laws max : LockedLaws (session_store max).
Proof. split; [|done]. intros [sid|sid msgs|sid msgs] m; cbn; by rewrite ?run_trim_body. Qed.

(** ** [planner.MemoryStore] *)

Inductive TodoOp :=
| TodoReplace (sid : gostring) (tasks : list Task)
| TodoList (sid : gostring)
| TodoMarkDone (sid tid : gostring).

Definition todo_res (o : TodoOp) : Type :=
  match o with
  | TodoReplace _ _ => unit
  | TodoList _ => list Task
  | TodoMarkDone _ _ => option goerror
  end.

Section todos.
Context `{UT : UnicodeTables}.

(** The loop of [MarkDone] from index [i], with [n] tasks left; the slice it runs over
    is the one in the map, so a task is changed in place. *)
Fixpoint mark_body (sid tid : gostring) (i n : nat) : body MemoryStore (option goerror) :=
  match n with
  | O => Leave (Some (ErrorString ("planner: task " ++ Quote tid ++ " not found")))
  | S n =>
      Read (λ m, default [] (m !! sid) !! i) (λ t,
        if decide (tk_ID <$> t = Some tid) then
          Update (alter (alter (λ t, with_status t StatusDone) i) sid)
          (Update (λ m, <[sid := default [] (m !! sid)]> m) (Leave None))
        else mark_body sid tid (S i) n)
  end.

Definition todo_body (o : TodoOp) : body MemoryStore (todo_res o) :=
  match o with
  | TodoReplace sid tasks => Update (<[sid := tasks]>) (Leave tt)
  | TodoList sid => Read (λ m, default [] (m !! sid)) (λ src, Leave src)
  | TodoMarkDone sid tid =>
      Read (λ m, m !! sid) (λ tasks,
        match tasks with
        | None => Leave (Some (ErrorString "planner: no tasks for session"))
        | Some tasks => mark_body sid tid 0 (length tasks)
        end)
  end.

Definition todo_spec (o : TodoOp) (m : MemoryStore) : MemoryStore * todo_res o :=
  match o with
  | TodoReplace sid tasks => (ReplaceTasks sid tasks m, tt)
  | TodoList sid => (m, List sid m)
  | TodoMarkDone sid tid => MarkDone sid tid m
  end.

#[export] Instance todo_store : Locked MemoryStore TodoOp todo_res :=
  {| op_mode := λ o, match o with TodoList _ => Shared | _ => Exclusive end;
     op_body := todo_body; op_spec := todo_spec |}.

Lemma alter_middle {A} (f : A → A) (l : list A) i x :
  l !! i = Some x → alter f i l = take i l ++ f x :: drop (S i) l.
Proof.
  intros H. rewrite <- (take_drop_middle l i x H) at 1.
  assert (length (take i l) = i) as Hi by (apply length_take_le; apply lookup_lt_Some in H; lia).
  rewrite <- (Nat.add_0_r i) at 1. rewrite <- Hi at 1. by rewrite alter_app_r.
Qed.

Lemma run_mark_body sid tid i n tasks m :
  m !! sid = Some tasks → (i + n = length tasks)%nat →
  run_body (mark_body sid tid i n) m =
  match mark_first tid (drop i tasks) with
  | Some ts => (<[sid := take i tasks ++ ts]> m, None)
  | None => (m, Some (ErrorString ("planner: task " ++ Quote tid ++ " not found")))
  end.
Proof.
  intros Hm. revert i. induction n as [|n IH]; intros i Hn.
  { by rewrite drop_ge by lia. }
  destruct (lookup_lt_is_Some_2 tasks i) as [t Ht]; [lia|].
  cbn [mark_body]. unfold Read. cbn [run_body]. rewrite Hm. cbn [default from_option id].
  rewrite Ht, (drop_S _ _ _ Ht). cbn [fmap option_fmap option_map mark_first].
  destruct (decide (tk_ID t = tid)) as [Hid|Hid].
  - rewrite decide_True by by f_equal. unfold Update, id. cbn [run_body].
    rewrite lookup_alter_eq, Hm. cbn. f_equal. apply map_eq. intros k.
    destruct (decide (sid = k)) as [<-|Hne].
    + rewrite !lookup_insert_eq. f_equal. 
      exact (alter_middle (λ t, with_status t StatusDone) tasks i t Ht).
    + rewrite !lookup_insert_ne by done. by rewrite lookup_alter_ne.
  - rewrite decide_False by (intros [=]; done). unfold id. rewrite IH by lia.
    destruct (mark_first tid (drop (S i) tasks)) as [ts|]; [|done]. cbn. do 2 f_equal.
    by rewrite (take_S_r _ _ _ Ht), <- app_assoc.
Qed.

#[export] Instance todo_store_laws : LockedLaws todo_store.
Proof.
  split.
  - intros [sid ts|sid|sid tid] m; [done..|]. cbn. unfold MarkDone, id.
    destruct (m !! sid) as [tasks|] eqn:Hm; [|done]. by rewrite (run_mark_body _ _ 0 _ tasks).
  - intros [sid ts|sid|sid tid]; [done| |done]. intros _. cbn. by repeat constructor.
Qed.
End todos.

(** ** [memory.MockProvider] *)

(** The methods after the validation of the scope, which takes no lock, with the
    reading [now] of the clock and the key of the scope. *)
Inductive ProviderOp :=
| ProviderWrite (now : Time) (sk : gostring) (w : MemWrite)
| ProviderQuery (sk : gostring) (q : MemQuery).

Definition provider_res (o : ProviderOp) : Type :=
  match o with
  | ProviderWrite _ _ _ => outcome (option goerror)
  | ProviderQuery _ _ => list MemRecord
  end.

(** [r := &m.records[i]]: a change of a field of the record. *)
Definition edit (i : nat) (f : MemRecord → MemRecord) (m : MockProvider) : MockProvider :=
  {| records := alter f i (records m); nextID := nextID m |}.

Definition set_Category (c : Category) (r : MemRecord) : MemRecord :=
  {| r_ID := r_ID r; r_Category := c; r_Key := r_Key r; r_Content := r_Content r;
     r_Metadata := r_Metadata r; r_CreatedAt := r_CreatedAt r; r_UpdatedAt := r_UpdatedAt r |}.
Definition set_Content (c : gostring) (r : MemRecord) : MemRecord :=
  {| r_ID := r_ID r; r_Category := r_Category r; r_Key := r_Key r; r_Content := c;
     r_Metadata := r_Metadata r; r_CreatedAt := r_CreatedAt r; r_UpdatedAt := r_UpdatedAt r |}.
Definition set_Metadata (d : Metadata) (r : MemRecord) : MemRecord :=
  {| r_ID := r_ID r; r_Category := r_Category r; r_Key := r_Key r; r_Content := r_Content r;
     r_Metadata := d; r_CreatedAt := r_CreatedAt r; r_UpdatedAt := r_UpdatedAt r |}.
Definition set_UpdatedAt (t : Time) (r : MemRecord) : MemRecord :=
  {| r_ID := r_ID r; r_Category := r_Category r; r_Key := r_Key r; r_Content := r_Content r;
     r_Metadata := r_Metadata r; r_CreatedAt := r_CreatedAt r; r_UpdatedAt := t |}.

(** The loop of [Write] from index [i], with [n] records left, then the insertion. *)
Fixpoint write_body (now : Time) (sk : gostring) (w : MemWrite) (i n : nat) :
    body MockProvider (outcome (option goerror)) :=
  match n with
  | O =>
      Update (λ m, {| records := records m; nextID := int64 (nextID m + 1) |})
      (Read nextID (λ id,
        Update (λ m, {| records := records m ++ [new_record now sk w id]; nextID := nextID m |})
        (Leave (Done None))))
  | S n =>
      Read (λ m, records m !! i) (λ r,
        match r with
        | Some r =>
            if in_scope sk r && bool_decide (r_Key r = w_Key w) then
              Update (edit i (set_Category (w_Category w)))
              (Update (edit i (set_Content (w_Content w)))
              (Update (edit i (set_Metadata (cloneMeta (w_Metadata w))))
              match cloneMeta (w_Metadata w) with
              | None => Leave (Panicked "assignment to entry in nil map")
              | Some d =>
                  Update (edit i (set_Metadata (Some (<[scope_field := sk]> d))))
                  (Update (edit i (set_UpdatedAt now)) (Leave (Done None)))
              end))
            else write_body now sk w (S i) n
        | None => write_body now sk w (S i) n
        end)
  end.

Section provider.
Context `{UT : UnicodeTables}.

(** The loop of [Query], with the results so far. *)
Fixpoint query_body (sk : gostring) (q : MemQuery) (out : list MemRecord) (i n : nat) :
    body MockProvider (list MemRecord) :=
  match n with
  | O => Leave out
  | S n =>
      Read (λ m, records m !! i) (λ r,
        match r with
        | Some r =>
            if matches sk q r then
              let out := out ++ [r] in
              if (0 <? q_Limit q) && (q_Limit q <=? len out) then Leave out
              else query_body sk q out (S i) n
            else query_body sk q out (S i) n
        | None => query_body sk q out (S i) n
        end)
  end.

Definition provider_body (o : ProviderOp) : body MockProvider (provider_res o) :=
  match o with
  | ProviderWrite now sk w => Read records (λ rs, write_body now sk w 0 (length rs))
  | ProviderQuery sk q => Read records (λ rs, query_body sk q [] 0 (length rs))
  end.

Definition provider_spec (o : ProviderOp) (m : MockProvider) : MockProvider * provider_res o :=
  match o with
  | ProviderWrite now sk w =>
      match update_first now sk w (records m) with
      | Some (rs, Done _) => ({| records := rs; nextID := nextID m |}, Done None)
      | Some (rs, Panicked p) => ({| records := rs; nextID := nextID m |}, Panicked p)
      | None =>
          let id := int64 (nextID m + 1) in
          ({| records := records m ++ [new_record now sk w id]; nextID := id |}, Done None)
      end
  | ProviderQuery sk q => (m, query_loop sk q [] (records m))
  end.

#[export] Instance provider_store : Locked MockProvider ProviderOp provider_res :=
  {| op_mode := λ _, Exclusive; op_body := provider_body; op_spec := provider_spec |}.

(** The two methods are the validation and these operations. *)
Lemma provider_methods scope m :
  (∀ now w, MockProvider_Write now scope w m =
     match Validate scope with
     | Some e => (m, Done (Some e))
     | None => provider_spec (ProviderWrite now (scopeKey scope) w) m
     end) ∧
  (∀ q, MockProvider_Query scope q m =
     match Validate scope with
     | Some e => (m, Done (Err e))
     | None => let '(m', rs) := provider_spec (ProviderQuery (scopeKey scope) q) m in
               (m', Done (Ok rs))
     end).
Proof. split; intros; [unfold MockProvider_Write|unfold MockProvider_Query]; by destruct (Validate _). Qed.

Lemma run_write_body now sk w i n m :
  (i + n = length (records m))%nat →
  run_body (write_body now sk w i n) m =
  match update_first now sk w (drop i (records m)) with
  | Some (rs, Done _) => ({| records := take i (records m) ++ rs; nextID := nextID m |}, Done None)
  | Some (rs, Panicked p) =>
      ({| records := take i (records m) ++ rs; nextID := nextID m |}, Panicked p)
  | None =>
      let id := int64 (nextID m + 1) in
      ({| records := records m ++ [new_record now sk w id]; nextID := id |}, Done None)
  end.
Proof.
  revert i. induction n as [|n IH]; intros i Hn.
  { by rewrite drop_ge by lia. }
  destruct (lookup_lt_is_Some_2 (records m) i) as [r Hr]; [lia|].
  cbn [write_body]. unfold Read. cbn [run_body]. rewrite Hr, (drop_S _ _ _ Hr).
  cbn [update_first]. destruct (in_scope sk r && bool_decide (r_Key r = w_Key w)).
  - unfold update_record, Update, id, edit. destruct (cloneMeta (w_Metadata w)) as [d|];
      cbn [run_body records nextID]; do 2 f_equal; rewrite !list_alter_alter_eq;
      by rewrite (alter_middle _ _ _ r Hr).
  - unfold id. rewrite IH by lia.
    destruct (update_first now sk w (drop (S i) (records m))) as [[rs [o|p]]|]; [| |done];
      cbn; do 2 f_equal; by rewrite (take_S_r _ _ _ Hr), <- app_assoc.
Qed.

Lemma run_query_body sk q out i n m :
  (i + n = length (records m))%nat →
  run_body (query_body sk q out i n) m = (m, query_loop sk q out (drop i (records m))).
Proof.
  revert out i. induction n as [|n IH]; intros out i Hn.
  { by rewrite drop_ge by lia. }
  destruct (lookup_lt_is_Some_2 (records m) i) as [r Hr]; [lia|].
  cbn [query_body]. unfold Read, id. cbn [run_body]. rewrite Hr, (drop_S _ _ _ Hr).
  cbn [query_loop]. destruct (matches sk q r); [|by apply IH; lia].
  cbn zeta. destruct (_ && _); [done|]. by apply IH; lia.
Qed.

#[export] Instance provider_store_laws : LockedLaws provider_store.
Proof.
  split; [|done]. intros [now sk w|sk q] m; cbn.
  - unfold id. by rewrite run_write_body.
  - unfold id. by rewrite run_query_body.
Qed.
End provider.

(** ** [llm.MockClient] *)

(** [Complete], and the part of [Stream] under the lock: the script. *)
Inductive MockOp := MockComplete | MockScript.

Definition mock_res (o : MockOp) : Type :=
  match o with
  | MockComplete => result CompleteResponse
  | MockScript => list gostring * option goerror
  end.

Definition mock_body (o : MockOp) : body MockClient (mock_res o) :=
  match o with
  | MockComplete =>
      Read MockErr (λ err,
        match err with
        | Some e => Leave (Err e)
        | None =>
            Read Queue (λ q,
              match q with
              | [] => Leave (Err (ErrorString "llm.MockClient: empty Complete queue"))
              | r :: _ => Update pop_queue (Leave (Ok r))
              end)
        end)
  | MockScript => Read StreamChunks (λ chunks, Read StreamErr (λ err, Leave (chunks, err)))
  end.

Definition mock_spec (o : MockOp) (m : MockClient) : MockClient * mock_res o :=
  match o with
  | MockComplete => mock_complete m
  | MockScript => (m, (StreamChunks m, StreamErr m))
  end.

#[export] Instance mock_object : Locked MockClient MockOp mock_res :=
  {| op_mode := λ _, Exclusive; op_body := mock_body; op_spec := mock_spec |}.

#[export] Instance mock_object_laws : LockedLaws mock_object.
Proof.
  split; [|done]. intros [|] m; [|done]. cbn. unfold mock_complete, id.
  destruct (MockErr m); [done|]. cbn. unfold id. by destruct (Queue m).
Qed.

(** ** The rate limiter *)

(** A call of [allow] for an address, with the time it read before it took the lock. *)
Definition allow_body (max : Z) (e : Event) : body PerIP bool :=
  Read (λ p, default [] (p !! e.1)) (λ ts,
    let kept := filter (λ t, e.2 - Minute < t) ts in
    if max <=? len kept then Update (<[e.1 := kept]>) (Leave false)
    else Update (<[e.1 := kept ++ [e.2]]>) (Leave true)).

#[export] Instance limiter (max : Z) : Locked PerIP Event (λ _, bool) :=
  {| op_mode := λ _, Exclusive; op_body := allow_body max;
     op_spec := λ e, allow (Some max) e.2 e.1 |}.

#[export] Instance limiter_laws max : LockedLaws (limiter max).
Proof.
  split; [|done]. intros [ip now] p. cbn. unfold id. by destruct (max <=? len _).
Qed.

(** The messages a sequence of calls of [allow] accepts. *)
Fixpoint accepted (max : Z) (p : PerIP) (events : list Event) : list Event :=
  match events with
  | [] => []
  | e :: es =>
      let '(p', b) := allow (Some max) e.2 e.1 p in
      (if b : bool then [e] else []) ++ accepted max p' es
  end.

(** Every reading of the clock is at most [delay] older than those before it. *)
Definition late (delay : Z) (events : list Event) : Prop :=
  StronglySorted (λ e e', e.2 ≤ e'.2 + delay) events.

(** The accepted messages of an address in the [width] up to [t]. *)
Definition window_count (ip : gostring) (t width : Z) (es : list Event) : Z :=
  len (filter (λ e, e.1 = ip ∧ t - width < e.2 ≤ t) es).

(** The table remembers what was accepted since [horizon]. *)
Definition keeps_since (horizon : Time) (p : PerIP) (acc : list Event) : Prop :=
  ∀ ip, filter (λ t, horizon < t) (default [] (p !! ip)) =
        (filter (λ e, e.1 = ip ∧ horizon < e.2) acc).*2.

Lemma keeps_since_later h h' p acc : h ≤ h' → keeps_since h p acc → keeps_since h' p acc.
Proof.
  intros Hh Hk ip. specialize (Hk ip).
  transitivity (filter (λ t, h' < t) (filter (λ t, h < t) (default [] (p !! ip)))).
  { rewrite list_filter_filter. apply list_filter_iff. intros x. lia. }
  rewrite Hk. clear Hk.
  transitivity ((filter (λ e, h' < e.2) (filter (λ e, e.1 = ip ∧ h < e.2) acc)).*2).
  { generalize (filter (λ e : Event, e.1 = ip ∧ h < e.2) acc). intros l.
    induction l as [|[i t] l IH]; [done|]. cbn.
    destruct (decide (h' < t)); cbn; [f_equal|]; exact IH. }
  f_equal. rewrite list_filter_filter. apply list_filter_iff. intros x. cbn.
  split; [intros [? []]|intros []]; split_and!; done || lia.
Qed.

(** One call, with all the readings to come after [last - delay]: what it decides from
    is at least the window of a minute less the delay. *)
Lemma allow_keeps max horizon p acc e :
  keeps_since horizon p acc →
  let '(p', b) := allow (Some max) e.2 e.1 p in
  (b = true → len (filter (λ x, x.1 = e.1 ∧ Z.max horizon (e.2 - Minute) < x.2) acc) < max) ∧
  keeps_since (Z.max horizon (e.2 - Minute)) p' (acc ++ if b then [e] else []).
Proof.
  intros Hk. set (h := Z.max horizon (e.2 - Minute)).
  pose proof (keeps_since_later horizon h p acc ltac:(lia) Hk) as Hh. unfold allow.
  set (kept := filter (λ t, e.2 - Minute < t) (default [] (p !! e.1))).
  assert (filter (λ t, h < t) kept = (filter (λ x, x.1 = e.1 ∧ h < x.2) acc).*2) as Hkept.
  { rewrite <- Hh. unfold kept. rewrite list_filter_filter. apply list_filter_iff. intros x. lia. }
  assert (len (filter (λ x, x.1 = e.1 ∧ h < x.2) acc) ≤ len kept) as Hlen.
  { unfold len. rewrite <- (length_fmap snd (filter _ acc)), <- Hkept.
    apply Nat2Z.inj_le, sublist_length, sublist_filter. }
  destruct (Z.leb_spec max (len kept)).
  - split; [done|]. rewrite app_nil_r. intros ip. destruct (decide (e.1 = ip)) as [<-|Hne].
    + by rewrite lookup_insert_eq.
    + rewrite lookup_insert_ne by done. apply Hh.
  - split; [intros _; lia|]. intros ip. rewrite filter_app, fmap_app.
    destruct (decide (e.1 = ip)) as [<-|Hne].
    + rewrite lookup_insert_eq. cbn [default from_option id]. rewrite filter_app, Hkept. f_equal.
      rewrite !filter_cons, !filter_nil.
      destruct (decide (h < e.2)); destruct (decide (e.1 = e.1 ∧ h < e.2)); naive_solver.
    + rewrite lookup_insert_ne, Hh by done. rewrite (filter_cons_False _ e) by naive_solver.
      by rewrite filter_nil, app_nil_r.
Qed.

Lemma accepted_bound max delay width p acc horizon events :
  0 ≤ max → 0 ≤ delay → width = Minute - delay → keeps_since horizon p acc → late delay events →
  Forall (λ e, horizon ≤ e.2 - width) events →
  (∀ ip t, window_count ip t width acc ≤ max) →
  ∀ ip t, window_count ip t width (acc ++ accepted max p events) ≤ max.
Proof.
  intros Hmax Hd Hw. revert p acc horizon. induction events as [|e es IH];
    intros p acc horizon Hk Hl Hf Hb ip t; [by rewrite app_nil_r|].
  apply StronglySorted_inv in Hl as [Hl Hle]. apply Forall_cons in Hf as [He Hf].
  cbn [accepted]. pose proof (allow_keeps max horizon p acc e Hk) as Ha.
  destruct (allow (Some max) e.2 e.1 p) as [p' b]. destruct Ha as [Hlt Hk'].
  rewrite app_assoc. eapply IH; [exact Hk'|done| |].
  - apply Forall_forall. intros x Hx. rewrite Forall_forall in Hf, Hle.
    specialize (Hf x Hx). specialize (Hle x Hx). cbn in Hle. lia.
  - clear ip t. intros ip t. destruct b; [|by rewrite app_nil_r]. specialize (Hlt eq_refl).
    unfold window_count in *. rewrite filter_app, len_app, filter_cons, filter_nil.
    case_decide as Hin; [|rewrite Z.add_0_r; apply Hb]. destruct Hin as [<- Hin].
    unfold len at 2. cbn [length].
    enough (len (filter (λ x, x.1 = e.1 ∧ t - width < x.2 ≤ t) acc) ≤
            len (filter (λ x, x.1 = e.1 ∧ Z.max horizon (e.2 - Minute) < x.2) acc)) by lia.
    unfold len. apply Nat2Z.inj_le, sublist_length.
    replace (filter (λ x, x.1 = e.1 ∧ t - width < x.2 ≤ t) acc)
      with (filter (λ x, t - width < x.2 ≤ t)
              (filter (λ x, x.1 = e.1 ∧ Z.max horizon (e.2 - Minute) < x.2) acc));
      [apply sublist_filter|].
    rewrite list_filter_filter. apply list_filter_iff. intros x.
    split; [intros [? [? ?]]|intros [? ?]]; split_and!; done || lia.
Qed.

(** The table only has times of accepted messages of the address. *)
Definition table_of (p : PerIP) (acc : list Event) : Prop :=
  ∀ ip t, t ∈ default [] (p !! ip) → (ip, t) ∈ acc.

Lemma allow_table max p acc e :
  table_of p acc → let '(p', b) := allow (Some max) e.2 e.1 p in
  table_of p' (acc ++ if b then [e] else []).
Proof.
  intros Hp. unfold allow. set (kept := filter _ _).
  assert (∀ t, t ∈ kept → (e.1, t) ∈ acc) as Hk by (intros t [_ Ht]%list_elem_of_filter; by apply Hp).
  destruct (max <=? len kept); intros ip t; (destruct (decide (e.1 = ip)) as [<-|Hne];
    [rewrite lookup_insert_eq|rewrite lookup_insert_ne by done]); cbn [default from_option id];
    rewrite !elem_of_app; [by left; apply Hk|by left; apply Hp| |by left; apply Hp].
  intros [H| ->%list_elem_of_singleton]; [by left; apply Hk|right]. destruct e; by left.
Qed.

Lemma accepted_table max p acc events :
  table_of p acc →
  table_of (foldl (λ p e, (allow (Some max) e.2 e.1 p).1) p events) (acc ++ accepted max p events).
Proof.
  revert p acc. induction events as [|e es IH]; intros p acc Hp; cbn [accepted foldl];
    [by rewrite app_nil_r|].
  pose proof (allow_table max p acc e Hp) as H. destruct (allow (Some max) e.2 e.1 p) as [p' b].
  cbn [fst]. rewrite app_assoc. by apply IH.
Qed.

Lemma foldl_fmap {A B C} (f : A → B → A) (g : C → B) l a :
  foldl f a (g <$> l) = foldl (λ a c, f a (g c)) a l.
Proof. revert a. induction l as [|c l IH]; intros a; cbn; [done|apply IH]. Qed.

(** ** Properties *)

Section properties.
Context `{UT : UnicodeTables}.

(** C7: the shared objects are atomic: for the session store, the todo store, the
    memory provider, the scripted client and the rate limiter, and any goroutines that
    call them, every interleaving of the single accesses of the methods has, whenever no
    method is running, the state and the results of some sequence of whole calls of the
    modelled operations, each goroutine's in its order; no schedule goes on for ever, and
    none stops before every call has returned, a call that panics inside included. *)
Theorem shared_objects_atomic (maxMessages maxPerMin : Z) :
  atomic_object (session_store maxMessages) ∧ atomic_object todo_store ∧
  atomic_object provider_store ∧ atomic_object mock_object ∧ atomic_object (limiter maxPerMin).
Proof. split_and!; apply linearizable. Qed.

(** C21: the rate limiter under concurrency: [allow] reads the clock before it takes the
    lock, so the readings of concurrent messages may be out of order.  If each is at most
    [delay] older than the readings of the calls before it, no address has more than the
    bound accepted in any stretch of a minute less the delay, however the goroutines
    interleave; and an address of which nothing was accepted for a minute is accepted. *)
Theorem limiter_concurrent (max delay : Z) (ps : list (prog Event (λ _, bool)))
    (c : config PerIP Event (λ _, bool)) :
  0 < max → 0 ≤ delay →
  rtc (step (L := limiter max)) (start ∅ ps) c → cf_mutex c = unlocked →
  ∃ tr ps', calls (L := limiter max) (∅, ps) tr (cf_state c, ps') ∧
    let acc := accepted max ∅ tr.*2 in
    (late delay tr.*2 → ∀ ip t, window_count ip t (Minute - delay) acc ≤ max) ∧
    (∀ ip now, (∀ t, (ip, t) ∈ acc → t ≤ now - Minute) →
       (allow (Some max) now ip (cf_state c)).2 = true).
Proof.
  intros Hmax Hd H Hm. destruct (linearizable (L := limiter max) ∅ ps c H) as [Hl _].
  destruct (Hl Hm) as (ps' & tr & _ & Htr). exists tr, ps'. split; [done|].
  intros acc. split.
  - intros Hlate ip t. assert (∃ h, Forall (λ e : Event, h ≤ e.2 - (Minute - delay)) tr.*2) as [h Hh].
    { destruct (tr.*2) as [|e es]; [by exists 0|]. exists (e.2 - Minute).
      apply StronglySorted_inv in Hlate as [_ Hlate]. constructor; [lia|].
      eapply Forall_impl; [exact Hlate|]. cbn. lia. }
    refine (accepted_bound max delay (Minute - delay) ∅ [] h (tr.*2) _ Hd eq_refl _ Hlate Hh _ ip t);
      [lia| |].
    + intros ip'. by rewrite lookup_empty.
    + intros ip' t'. unfold window_count, len. rewrite filter_nil. cbn. lia.
  - intros ip now Hold. apply calls_state in Htr. cbn in Htr.
    assert (table_of (cf_state c) acc) as Ht.
    { rewrite Htr.
      change (after_calls (L := limiter max) tr ∅)
        with (foldl (λ p (l : nat * Event), (allow (Some max) l.2.2 l.2.1 p).1) ∅ tr).
      rewrite <- (foldl_fmap (λ p (e : Event), (allow (Some max) e.2 e.1 p).1) snd).
      apply (accepted_table max ∅ []). intros ip' t'. rewrite lookup_empty. cbn. set_solver. }
    unfold allow. replace (filter _ _) with (@nil Time); [change (len (@nil Time)) with 0; by rewrite (proj2 (Z.leb_gt max 0))|].
    symmetry. apply elem_of_nil_inv. intros t [Hlt Hin%Ht%Hold]%list_elem_of_filter. lia.
Qed.
End properties.

(** ** Witnesses and examples *)

#[local] Existing Instance ascii_tables.

(** Two connections of one address, the second of which read its clock first. *)
Definition second_ns : Z := 1000000000.

Definition two_clients : list (prog Event (λ _, bool)) :=
  [Call ("ip", 60 * second_ns) (λ _, Exit); Call ("ip", 59 * second_ns) (λ _, Exit)].

(** The first takes the lock; the second waits, and decides after it. *)
Definition client_schedule : list nat := [0; 1; 0; 1; 0; 0; 1; 1; 1; 1]%nat.

Lemma limiter_concurrent_witness :
  let c := run_schedule (L := limiter 1) client_schedule (start ∅ two_clients) in
  rtc (step (L := limiter 1)) (start ∅ two_clients) c ∧
  cf_state c = {["ip" := [60 * second_ns]]} ∧
  ∃ tr ps', calls (L := limiter 1) (∅, two_clients) tr (cf_state c, ps') ∧
    let acc := accepted 1 ∅ tr.*2 in
    (late second_ns tr.*2 → ∀ ip t, window_count ip t (Minute - second_ns) acc ≤ 1) ∧
    (∀ ip now, (∀ t, (ip, t) ∈ acc → t ≤ now - Minute) →
       (allow (Some 1) now ip (cf_state c)).2 = true).
Proof.
  intros c. assert (rtc (step (L := limiter 1)) (start ∅ two_clients) c) as H
    by apply run_schedule_steps.
  split; [exact H|]. split; [vm_compute; reflexivity|].
  apply (limiter_concurrent 1 second_ns two_clients c); [lia|unfold second_ns; lia|exact H|].
  vm_compute. reflexivity.
Defined.

(** With such a delay the bound of a whole minute does not hold: the message at 60.5
    seconds forgets the first three, and the one that read 59.9 is accepted as well, the
    fourth in the minute up to 59.9. *)
Example late_reading :
  let ms n : Event := ("ip", n * 1000000) in
  let events := [ms 0; ms 100; ms 200; ms 60500; ms 59900] in
  late (600 * 1000000) events ∧ accepted 3 ∅ events = events ∧
  window_count "ip" (59900 * 1000000) Minute events = 4.
Proof.
  cbv zeta. split; [repeat constructor; cbn; lia|]. vm_compute. by split.
Qed.

(** Two appends whose accesses interleave, and what happens without exclusion: the
    same methods under a lock for reading lose a message. *)
Definition shared_append : Locked Sessions SessionOp session_res :=
  {| op_mode := λ _, Shared; op_body := session_body 10; op_spec := session_spec 10 |}.

Definition two_appends : list (prog SessionOp session_res) :=
  (λ x, Call (SessionAppend "s" [say "user" x]) (λ _, Exit)) <$> ["a"; "b"].

Definition append_schedule : list nat := concat (repeat [0; 1]%nat 10).

Example appends_exclude :
  let run L := (run_schedule (L := L) append_schedule (start ∅ two_appends)).(cf_state) in
  tm_Content <$> mem_Get (run (session_store 10)) "s" = ["a"; "b"] ∧
  tm_Content <$> mem_Get (run shared_append) "s" = ["b"].
Proof. vm_compute. by split. Qed.

(** A todo list is read by two goroutines at once, and marked in between. *)
Definition todo_item (i : gostring) : Task :=
  {| tk_ID := i; tk_ParentID := []; tk_Title := i; tk_Status := StatusPending; tk_Order := 0 |}.

Definition todo_clients : list (prog TodoOp todo_res) :=
  [Call (TodoReplace "s" [todo_item "a"; todo_item "b"]) (λ _,
     Call (TodoMarkDone "s" "b") (λ _, Exit));
   Call (TodoList "s") (λ _, Exit); Call (TodoList "s") (λ _, Exit)].

Example todo_run :
  let c := run_schedule (L := todo_store) ([0; 0; 0; 1; 2; 1; 0; 2; 1; 2] ++ repeat 0 10)%nat
             (start ∅ todo_clients) in
  cf_mutex c = unlocked ∧ tk_Status <$> List "s" (cf_state c) = [StatusPending; StatusDone].
Proof. vm_compute. by split. Qed.
