(* ===== verification/Connection.v ===== *)
(** * The goroutines of a connection

    [src/internal/gateway/ws/server.go] ([handleWS] from the upgrade on) and
    [writer.go]: once the handshake is done, the handler reads frames and writes
    replies, while another goroutine sends a ping at each tick; both write through a
    [wsConnWriter], whose mutex gives the connection one writer at a time.  When the
    handler returns, by the end of the input or by a panic, its deferred calls stop the
    pings and close the connection.

    What the handler does between two writes is [Gateway.handle_message]; here it is
    any strategy that writes frames and is told how each write went.  The library's
    connection is a parameter: its two write calls are bodies of accesses to its state. *)

From S2P Require Import Prelude Goroutine GoString Gateway.

(** ** The library *)

(** [websocket.Conn]: [WriteJSON], [WriteControl] of a ping, and [Close]. *)
Class WsConn (C : Type) := {
  conn_WriteJSON : ServerMessage → body C (option goerror);
  conn_WritePing : body C (option goerror);
  conn_Close : C → C;
}.

(** Every access of the body keeps [P]. *)
Inductive keeps_state {S A} (P : S → Prop) : body S A → Prop :=
| Leave_keeps a : keeps_state P (Leave a)
| Access_keeps put next : (∀ s, P s → P (put s)) → (∀ s, keeps_state P (next s)) →
    keeps_state P (Access put next).

(** What the library documents: a closed connection stays closed, and a write to it
    fails. *)
Class ConnLaws {C} (CN : WsConn C) (closed : C → Prop) : Prop := {
  close_closed c : closed (conn_Close c);
  ping_keeps : keeps_state closed conn_WritePing;
  ping_closed c : closed c → is_Some (run_body conn_WritePing c).2;
}.

(** ** The two goroutines *)

(** The handler, up to its return. *)
Inductive handler :=
| HReturn
| HWrite (m : ServerMessage) (k : option goerror → handler).

(** [wsConnWriter]: a call of [writeJSON] or [writeControl] takes the mutex, makes the
    library's call and releases the mutex.  Where the handler is: between writes, in
    one, at the deferred [conn.Close], or gone. *)
Inductive handler_at (C : Type) :=
| HRun (h : handler)
| HIn (b : body C (option goerror)) (k : option goerror → handler)
| HClosing
| HDone.
Arguments HRun {_} _.
Arguments HIn {_} _ _.
Arguments HClosing {_}.
Arguments HDone {_}.

(** The ping goroutine: at its [select], about to write, writing, or gone. *)
Inductive pinger_at (C : Type) :=
| PSelect
| PCall
| PIn (b : body C (option goerror))
| PDone.
Arguments PSelect {_}.
Arguments PCall {_}.
Arguments PIn {_} _.
Arguments PDone {_}.

Inductive side := Handler | Pinger.

Record wsConnWriter (C : Type) := {
  wc_conn : C;
  wc_mu : option side;
}.
Arguments wc_conn {_} _.
Arguments wc_mu {_} _.

Record connection (C : Type) := {
  cn_writer : wsConnWriter C;
  cn_handler : handler_at C;
  cn_pinger : pinger_at C;
  cn_stopped : bool;
}.
Arguments cn_writer {_} _.
Arguments cn_handler {_} _.
Arguments cn_pinger {_} _.
Arguments cn_stopped {_} _.

Section steps.
Context {C : Type} `{CN : WsConn C}.

Definition lock_writer (s : side) (w : wsConnWriter C) : wsConnWriter C :=
  {| wc_conn := wc_conn w; wc_mu := Some s |}.
Definition unlock_writer (w : wsConnWriter C) : wsConnWriter C :=
  {| wc_conn := wc_conn w; wc_mu := None |}.
Definition on_conn (f : C → C) (w : wsConnWriter C) : wsConnWriter C :=
  {| wc_conn := f (wc_conn w); wc_mu := wc_mu w |}.

(** One step of the handler, on the writer, its place and [pingCtx]. *)
Inductive handler_step : wsConnWriter C * handler_at C * bool →
    wsConnWriter C * handler_at C * bool → Prop :=
| handler_lock w m k stop : wc_mu w = None →
    handler_step (w, HRun (HWrite m k), stop)
                 (lock_writer Handler w, HIn (conn_WriteJSON m) k, stop)
| handler_access w put next k stop :
    handler_step (w, HIn (Access put next) k, stop)
                 (on_conn put w, HIn (next (wc_conn w)) k, stop)
| handler_unlock w e k stop :
    handler_step (w, HIn (Leave e) k, stop) (unlock_writer w, HRun (k e), stop)
| handler_stop_ping w stop :
    handler_step (w, HRun HReturn, stop) (w, HClosing, true)
| handler_close w stop :
    handler_step (w, HClosing, stop) (on_conn conn_Close w, HDone, stop).

(** One step of the ping goroutine; the ticker may fire whenever it is at its
    [select]. *)
Inductive ping_step (stop : bool) : wsConnWriter C * pinger_at C →
    wsConnWriter C * pinger_at C → Prop :=
| ping_done w : stop = true → ping_step stop (w, PSelect) (w, PDone)
| ping_tick w : ping_step stop (w, PSelect) (w, PCall)
| ping_lock w : wc_mu w = None →
    ping_step stop (w, PCall) (lock_writer Pinger w, PIn conn_WritePing)
| ping_access w put next :
    ping_step stop (w, PIn (Access put next)) (on_conn put w, PIn (next (wc_conn w)))
| ping_unlock w e :
    ping_step stop (w, PIn (Leave e))
      (unlock_writer w, if e is Some _ then PDone else PSelect).

(** One step of one of them. *)
Inductive conn_step : connection C → connection C → Prop :=
| step_handler c w h stop :
    handler_step (cn_writer c, cn_handler c, cn_stopped c) (w, h, stop) →
    conn_step c {| cn_writer := w; cn_handler := h; cn_pinger := cn_pinger c; cn_stopped := stop |}
| step_pinger c w p :
    ping_step (cn_stopped c) (cn_writer c, cn_pinger c) (w, p) →
    conn_step c {| cn_writer := w; cn_handler := cn_handler c; cn_pinger := p;
                   cn_stopped := cn_stopped c |}.

(** After the upgrade. *)
Definition opened (h : handler) (c : C) : connection C :=
  {| cn_writer := {| wc_conn := c; wc_mu := None |}; cn_handler := HRun h;
     cn_pinger := PSelect; cn_stopped := false |}.

(** ** Specification: whole writes, one at a time *)

(** The handler and the connection after a sequence of writes, each of the next frame
    of the handler or of a ping. *)
Fixpoint replay (h : handler) (c : C) (writers : list side) : option (handler * C) :=
  match writers with
  | [] => Some (h, c)
  | Pinger :: ws => replay h (run_body conn_WritePing c).1 ws
  | Handler :: ws =>
      match h with
      | HReturn => None
      | HWrite m k => let '(c', e) := run_body (conn_WriteJSON m) c in replay (k e) c' ws
      end
  end.

(** What is left of the handler, and the connection, once the write in progress is
    done; [None] when the handler has returned. *)
Definition handler_rest (c : connection C) : option handler :=
  match cn_handler c with
  | HRun h => Some h
  | HIn b k => Some (k (run_body b (wc_conn (cn_writer c))).2)
  | _ => None
  end.

Definition conn_settled (c : connection C) : C :=
  let s := wc_conn (cn_writer c) in
  match cn_handler c, cn_pinger c with
  | HIn b _, _ => (run_body b s).1
  | _, PIn b => (run_body b s).1
  | _, _ => s
  end.

(** ** Lemmas *)

Definition handler_in (h : handler_at C) : bool := if h is HIn _ _ then true else false.
Definition pinger_in (p : pinger_at C) : bool := if p is PIn _ then true else false.
Definition returned (h : handler_at C) : bool :=
  match h with HClosing | HDone => true | _ => false end.

(** The mutex is held by the goroutine that writes, and the pings are stopped once the
    handler has returned. *)
Definition held_by (mu : option side) (s : side) : bool :=
  match mu, s with
  | Some Handler, Handler | Some Pinger, Pinger => true
  | _, _ => false
  end.

Definition exclusive (c : connection C) : Prop :=
  handler_in (cn_handler c) = held_by (wc_mu (cn_writer c)) Handler ∧
  pinger_in (cn_pinger c) = held_by (wc_mu (cn_writer c)) Pinger ∧
  (returned (cn_handler c) = true → cn_stopped c = true).

Lemma step_exclusive c c' : exclusive c → conn_step c c' → exclusive c'.
Proof.
  intros (H1 & H2 & H3) Hs. destruct c as [[s mu] h p stop]. cbn in *.
  inversion Hs as [? w' h' stop' Hh|? w' p' Hp]; subst; cbn in *.
  - inversion Hh; subst; unfold exclusive; cbn in *; simplify_eq; cbn in *;
      try (destruct mu as [[]|]; cbn in *); split_and!; done.
  - inversion Hp; subst; unfold exclusive; cbn in *; simplify_eq; cbn in *;
      try (destruct mu as [[]|]; cbn in *); split_and!; try done; by destruct e.
Qed.

Lemma steps_exclusive h c0 c : rtc conn_step (opened h c0) c → exclusive c.
Proof.
  intros Hr. assert (exclusive (opened h c0)) as H0 by (done).
  revert H0. induction Hr as [|c1 c2 c3 H12 _ IH]; [done|]. intros H1. by eapply IH, step_exclusive.
Qed.

Lemma replay_app h c ws ws' :
  replay h c (ws ++ ws') = match replay h c ws with
                           | Some (h', c') => replay h' c' ws' | None => None end.
Proof.
  revert h c. induction ws as [|[] ws IH]; intros h c; cbn; [done| |apply IH].
  destruct h as [|m k]; [done|]. destruct (run_body _ c). apply IH.
Qed.

(** Each step is a whole write of the specification, or none. *)
Lemma step_replay c c' h' :
  exclusive c → conn_step c c' → handler_rest c' = Some h' →
  ∃ h ws, handler_rest c = Some h ∧ replay h (conn_settled c) ws = Some (h', conn_settled c').
Proof.
  intros (H1 & H2 & _) Hs Hr. destruct c as [[s mu] h p stop]. cbn in *.
  inversion Hs as [? w' hh stop' Hh|? w' p' Hp]; subst; cbn in *.
  - inversion Hh; subst; unfold handler_rest, conn_settled in *; cbn in *; simplify_eq; cbn in *.
    + exists (HWrite m k), [Handler]. split; [done|]. cbn.
      destruct p; try done; by destruct (run_body (conn_WriteJSON m) s).
    + by eexists _, [].
    + exists (k e), []. split; [done|]. destruct mu as [[]|]; [|done..]. by destruct p.
  - inversion Hp; subst; unfold handler_rest, conn_settled in *; cbn in *; simplify_eq; cbn in *.
    + exists h', []. split; [done|]. by destruct h.
    + exists h', []. split; [done|]. by destruct h.
    + exists h', [Pinger]. split; [done|]. by destruct h.
    + exists h', []. destruct mu as [[]|]; [done| |done]. by destruct h.
    + exists h', []. destruct mu as [[]|]; [done| |done]. destruct h; try done; by destruct e.
Qed.

(** ** The end of a connection *)

Context (closed : C → Prop) {LW : ConnLaws CN closed}.

(** The connection is closed when the handler is gone, and the ping in progress keeps it
    closed. *)
Definition closing (c : connection C) : Prop :=
  exclusive c ∧ (cn_handler c = HDone → closed (wc_conn (cn_writer c))) ∧
  match cn_pinger c with PIn b => keeps_state closed b | _ => True end.

Lemma step_closing c c' : closing c → conn_step c c' → closing c'.
Proof.
  intros (He & Hc & Hk) Hs. split; [by eapply step_exclusive|].
  destruct c as [w h p stop]. cbn in *.
  inversion Hs as [? w' h' stop' Hh|? w' p' Hp]; subst; cbn in *.
  - inversion Hh; subst; cbn in *; split; try done. intros _. apply close_closed.
  - inversion Hp; subst; cbn in *; split; try done.
    + apply ping_keeps.
    + intros Hd. specialize (Hc Hd). inversion Hk; auto.
    + inversion Hk; auto.
    + by destruct e.
Qed.

Lemma steps_closing h c0 c : rtc conn_step (opened h c0) c → closing c.
Proof.
  intros Hr. assert (closing (opened h c0)) as H0 by done.
  revert H0. induction Hr as [|c1 c2 c3 H12 _ IH]; [done|]. intros H1. by eapply IH, step_closing.
Qed.

(** Only the ping goroutine is left. *)
Lemma step_done c c' :
  cn_handler c = HDone → conn_step c c' →
  cn_handler c' = HDone ∧ cn_stopped c' = cn_stopped c ∧
  ping_step (cn_stopped c) (cn_writer c, cn_pinger c) (cn_writer c', cn_pinger c').
Proof.
  intros Hd Hs. destruct c as [w h p stop]. cbn in *. subst.
  inversion Hs as [? w' h' stop' Hh|? w' p' Hp]; subst; [inversion Hh|by split_and!].
Qed.

Abbreviation done_with w p := {| cn_writer := w; cn_handler := HDone; cn_pinger := p; cn_stopped := true |}.

Lemma sn_done w p :
  (∀ w' p', ping_step true (w, p) (w', p') → sn conn_step (done_with w' p')) →
  sn conn_step (done_with w p).
Proof.
  intros H. constructor. intros c' Hs. destruct (step_done (done_with w p) c' eq_refl Hs) as (Hd & Hst & Hp).
  destruct c' as [w' h' p' stop']. cbn in *. subst. by apply H.
Qed.

(** A ping in progress, when the state after it is good for what follows. *)
Lemma sn_ping b s mu :
  (let '(s', e) := run_body b s in
   sn conn_step (done_with {| wc_conn := s'; wc_mu := None |} (if e is Some _ then PDone else PSelect))) →
  sn conn_step (done_with {| wc_conn := s; wc_mu := mu |} (PIn b)).
Proof.
  revert s. induction b as [e|put next IH]; intros s H; apply sn_done; intros w' p' Hp;
    inversion Hp; subst; [exact H|]. apply IH, H.
Qed.

Lemma keeps_run {A} (b : body C A) s : keeps_state closed b → closed s → closed (run_body b s).1.
Proof. intros Hb. revert s. induction Hb as [|put next Hput _ IH]; intros s Hs; cbn; eauto. Qed.

Lemma sn_select s : closed s → sn conn_step (done_with {| wc_conn := s; wc_mu := None |} PSelect).
Proof.
  intros Hs. assert (∀ w, sn conn_step (done_with w PDone)) as Hd.
  { intros w. apply sn_done. intros w' p' Hp. inversion Hp. }
  assert (sn conn_step (done_with {| wc_conn := s; wc_mu := None |} PCall)) as Hcall.
  { apply sn_done. intros w' p' Hp. inversion Hp; subst. apply sn_ping. cbn.
    destruct (ping_closed s Hs) as [e He]. destruct (run_body conn_WritePing s) as [s' e'].
    cbn in He. subst. apply Hd. }
  apply sn_done. intros w' p' Hp. inversion Hp; subst; [apply Hd|exact Hcall].
Qed.

Lemma closing_sn c : closing c → cn_handler c = HDone → sn conn_step c.
Proof.
  intros ((H1 & H2 & H3) & Hc & Hk) Hd. destruct c as [[s mu] h p stop]. cbn in *. subst.
  rewrite (H3 eq_refl). specialize (Hc eq_refl).
  destruct p as [| |b|].
  - destruct mu as [[]|]; [done..|]. by apply sn_select.
  - destruct mu as [[]|]; [done..|]. eapply sn_step; [by apply sn_select|]. apply step_pinger.
    constructor.
  - apply sn_ping. pose proof (keeps_run b s Hk Hc). destruct (run_body b s) as [s' [e|]].
    + apply sn_done. intros w' p' Hp. inversion Hp.
    + by apply sn_select.
  - apply sn_done. intros w' p' Hp. inversion Hp.
Qed.

(** With the handler gone, the ping goroutine can move until it is gone too. *)
Lemma closing_nf c : closing c → cn_handler c = HDone → nf conn_step c → cn_pinger c = PDone.
Proof.
  intros ((H1 & H2 & H3) & _) Hd Hnf. destruct c as [[s mu] h p stop]. cbn in *. subst.
  assert (∀ w' p', ¬ ping_step stop ({| wc_conn := s; wc_mu := mu |}, p) (w', p')) as Hs.
  { intros w' p' Hp. apply Hnf. eexists. by apply (step_pinger _ w' p'). }
  destruct p as [| |[e|put next]|]; [..|done]; exfalso.
  - eapply Hs, ping_tick.
  - destruct mu as [[]|]; [done..|]. eapply Hs. by constructor.
  - eapply Hs, ping_unlock.
  - eapply Hs, ping_access.
Qed.

(** Left alone, a ping in progress ends, and then the handler, whatever the results of
    its writes, gets to its end. *)
Lemma pinger_leaves c :
  exclusive c → ∃ c', rtc conn_step c c' ∧ pinger_in (cn_pinger c') = false ∧
    cn_handler c' = cn_handler c.
Proof.
  destruct c as [[s mu] h p stop]. intros (H1 & H2 & _). cbn in *.
  destruct p as [| |b|]; [by eexists..| |by eexists].
  destruct mu as [[]|]; [done| |done]. clear H2. revert s.
  induction b as [e|put next IH]; intros s.
  - eexists. split; [apply rtc_once, step_pinger, ping_unlock|]. by destruct e.
  - destruct (IH s (put s)) as (c' & Hr & Hc'). exists c'. split; [|done].
    eapply rtc_l; [|exact Hr]. apply step_pinger. cbn. constructor.
Qed.

Abbreviation run_to w h p stop :=
  {| cn_writer := w; cn_handler := h; cn_pinger := p; cn_stopped := stop |}.
Abbreviation can_end c := (∃ c', rtc conn_step c c' ∧ cn_handler c' = HDone).

Lemma can_end_step c c1 : conn_step c c1 → can_end c1 → can_end c.
Proof. intros Hs (c' & Hr & Hd). exists c'. split; [by eapply rtc_l|done]. Qed.

Lemma write_leaves b k w p stop :
  (∀ e w, wc_mu w = None → can_end (run_to w (HRun (k e)) p stop)) →
  can_end (run_to w (HIn b k) p stop).
Proof.
  intros Hk. revert w. induction b as [e|put next IH]; intros w.
  - eapply can_end_step; [apply step_handler, handler_unlock|]. by apply Hk.
  - eapply can_end_step; [apply step_handler, handler_access|]. apply IH.
Qed.

Lemma handler_leaves h w p stop : wc_mu w = None → can_end (run_to w (HRun h) p stop).
Proof.
  revert w stop. induction h as [|m k IH]; intros w stop Hm.
  - eapply can_end_step; [apply step_handler, handler_stop_ping|].
    eapply can_end_step; [apply step_handler, handler_close|]. by eexists.
  - eapply can_end_step; [by apply step_handler, handler_lock|]. apply write_leaves.
    intros e w' Hw'. by apply IH.
Qed.
End steps.

(** ** Properties *)

Section properties.
Context {C : Type} `{CN : WsConn C}.

(** C17: the writes of a connection do not overlap: for any handler and however its
    writes, the pings and their accesses to the connection interleave, the two goroutines
    are never both inside a write of the library, and as long as the handler has not
    returned, what it has been told and what the connection has become are those of
    whole writes made one at a time: the handler's frames in its order, with whole pings
    in between. *)
Theorem connection_serialized (h : handler) (c0 : C) (c : connection C) :
  rtc conn_step (opened h c0) c →
  ¬ (handler_in (cn_handler c) = true ∧ pinger_in (cn_pinger c) = true) ∧
  ∀ h', handler_rest c = Some h' →
    ∃ writers, replay h c0 writers = Some (h', conn_settled c).
Proof.
  intros Hr. split.
  - destruct (steps_exclusive h c0 c Hr) as (-> & -> & _). by destruct (wc_mu _) as [[]|]; intros [].
  - assert (∃ writers, replay h c0 writers = Some (h, conn_settled (opened h c0))) as H0 by by exists [].
    assert (exclusive (opened h c0)) as He by done.
    assert (∀ h', handler_rest (opened h c0) = Some h' →
      ∃ writers, replay h c0 writers = Some (h', conn_settled (opened h c0))) as H1
      by (intros h' [= <-]; exact H0). clear H0.
    revert He H1. generalize (opened h c0) as c1, Hr. clear Hr. intros c1 Hr.
    induction Hr as [|c1 c2 c3 H12 _ IH]; intros He H1; [done|]. apply IH; [by eapply step_exclusive|].
    intros h' Hh'. destruct (step_replay _ _ _ He H12 Hh') as (h1 & ws & Hh1 & Hws).
    destruct (H1 h1 Hh1) as [ws1 Hws1]. exists (ws1 ++ ws). by rewrite replay_app, Hws1.
Qed.

(** C18: a connection leaves nothing behind: from any moment the handler and the ping in
    progress can run to the handler's end; and once the handler is gone, however often
    the ticker fires, the ping goroutine makes finitely many more steps and is gone when
    none is left, because the connection is closed and a ping to it fails. *)
Theorem connection_ends (closed : C → Prop) (h : handler) (c0 : C) (c : connection C) :
  ConnLaws CN closed → rtc conn_step (opened h c0) c →
  (∃ c', rtc conn_step c c' ∧ cn_handler c' = HDone) ∧
  (cn_handler c = HDone → sn conn_step c ∧
     ∀ c', rtc conn_step c c' → nf conn_step c' →
       cn_pinger c' = PDone ∧ closed (wc_conn (cn_writer c'))).
Proof.
  intros LW Hr. split.
  - destruct (pinger_leaves c (steps_exclusive h c0 c Hr)) as (c1 & H1 & Hp & _).
    pose proof (steps_exclusive h c0 c1 ltac:(by etrans)) as (He & Hq & _).
    enough (∃ c', rtc conn_step c1 c' ∧ cn_handler c' = HDone) as (c' & Hc' & Hd)
      by (exists c'; split; [by etrans|done]).
    destruct c1 as [w hh p stop]. cbn in *. destruct hh as [h1|b k| |].
    + apply handler_leaves. rewrite Hp in Hq. by destruct (wc_mu w) as [[]|].
    + apply write_leaves. intros e w' Hw'. by apply handler_leaves.
    + eexists. split; [apply rtc_once, step_handler, handler_close|done].
    + by eexists.
  - intros Hd. split; [exact (closing_sn closed c (steps_closing closed h c0 c Hr) Hd)|].
    intros c' Hc' Hnf.
    assert (closing closed c') as Hcl 
      by exact (steps_closing closed h c0 c' ltac:(by etrans)).
    assert (cn_handler c' = HDone) as Hd'.
    { clear -Hd Hc'. induction Hc' as [|c c1 c2 H12 _ IH]; [done|].
      by apply IH, (step_done _ _ Hd H12). }
    split; [by exact (closing_nf closed c' Hcl Hd' Hnf)|].
    by destruct Hcl as (_ & Hcl & _); apply Hcl.
Qed.
End properties.

(** ** Witnesses and examples *)

(** A connection that fails a write when it is closed, and takes two accesses for each
    frame: a header, then the payload. *)
Inductive wire_item := Header | Payload (m : ServerMessage) | Ping.

Abbreviation sample_conn := (bool * list wire_item)%type.

Definition send (x : wire_item) (k : body sample_conn (option goerror)) :
    body sample_conn (option goerror) := Update (λ c, (c.1, c.2 ++ [x])) k.

Definition if_open (k : body sample_conn (option goerror)) : body sample_conn (option goerror) :=
  Read fst (λ closed : bool,
    if closed then Leave (Some (ErrorString "websocket: close sent")) else k).

#[local] Instance sample_ws : WsConn sample_conn :=
  {| conn_WriteJSON := λ m, if_open (send Header (send (Payload m) (Leave None)));
     conn_WritePing := if_open (send Header (send Ping (Leave None)));
     conn_Close := λ c, (true, c.2) |}.

Lemma sample_ws_laws : ConnLaws sample_ws (λ c, c.1 = true).
Proof.
  split; [done| |].
  - repeat (constructor; [done|intros]). destruct (s.1); repeat constructor; done.
  - intros [closed l] H. cbn in *. subst. eexists. reflexivity.
Qed.

(** A handler that sends "a", and "b" if that went well. *)
Definition sample_handler : handler :=
  HWrite (AssistantTextMessage "s" "a") (λ e,
    if e is Some _ then HReturn else HWrite (AssistantTextMessage "s" "b") (λ _, HReturn)).

Ltac handler_moves := eapply rtc_l; [apply step_handler; constructor; done|cbn].
Ltac ping_moves r := eapply rtc_l; [apply step_pinger, r; done|cbn].

(** The ping goroutine waits for the frame in progress; then it writes a whole ping. *)
Lemma connection_serialized_witness :
  ∃ c, rtc conn_step (opened sample_handler (false, [])) c ∧
  handler_in (cn_handler c) = false ∧ pinger_in (cn_pinger c) = true ∧
  conn_settled c = (false, [Header; Payload (AssistantTextMessage "s" "a"); Header; Ping]) ∧
  ∀ h', handler_rest c = Some h' →
    ∃ writers, replay sample_handler (false, []) writers = Some (h', conn_settled c).
Proof.
  eassert (rtc conn_step (opened sample_handler (false, [])) _) as Hr.
  { unfold sample_handler, opened. handler_moves. ping_moves ping_tick. do 4 handler_moves.
    ping_moves ping_lock. ping_moves ping_access. apply rtc_refl. }
  eexists. split; [exact Hr|]. split; [reflexivity|]. split; [reflexivity|]. split; [reflexivity|].
  exact (proj2 (connection_serialized sample_handler (false, []) _ Hr)).
Defined.

(** The handler returns while the ping goroutine is about to write. *)
Lemma connection_ends_witness :
  ∃ c, rtc conn_step (opened HReturn (false, [])) c ∧ cn_pinger c = PCall ∧
  (∃ c', rtc conn_step c c' ∧ cn_handler c' = HDone) ∧
  (cn_handler c = HDone → sn conn_step c ∧
     ∀ c', rtc conn_step c c' → nf conn_step c' →
       cn_pinger c' = PDone ∧ (wc_conn (cn_writer c')).1 = true).
Proof.
  eassert (rtc conn_step (opened HReturn (false, [])) _) as Hr.
  { unfold opened. ping_moves ping_tick. do 2 handler_moves. apply rtc_refl. }
  eexists. split; [exact Hr|]. split; [reflexivity|].
  exact (connection_ends (λ c, c.1 = true) HReturn (false, []) _ sample_ws_laws Hr).
Defined.
