(* ===== verification/Main.v ===== *)
(** * The process

    [src/cmd/ascentia-core]: [main] loads the configuration, opens what is configured
    (NATS, PostgreSQL, Redis), builds the model client, the chat service and the
    gateway, subscribes to configuration updates and starts the periodic consolidation.
    The drivers are parameters ([Drivers]); closing them at the end of the process is in
    [Shutdown]. *)

From Stdlib Require Import QArith.QArith_base.
From S2P Require Import Prelude GoString Identity Transcript Compaction Tools Planner Llm Loop.
From S2P Require Import Memory Prompt Engine Env Adapter Session Pg Usage PgStore Skills Client.
From S2P Require Import Memorywork Config Runtime Gateway.
Open Scope Z_scope.

(** ** The drivers *)

(** [redis.Options]: those of a URL, or given one by one. *)
Inductive RedisOptions :=
| URLOptions (url : gostring)
| AddrOptions (addr password : gostring) (db : Z).

(** [godotenv.Load] (its error is dropped), [pgxpool.New], [redis.ParseURL] (its
    error), [redis.NewClient] and [nats.Connect]. *)
Class Drivers (W : Type) := {
  dotenv_Load : option gostring → W → W;
  pgxpool_New : gostring → Go W (result (Pool W));
  redis_ParseURL : gostring → option goerror;
  redis_NewClient : RedisOptions → RedisClient W;
  nats_Connect : gostring → Go W (result (NatsConn W));
}.

(** ** Options *)

Section options.
Context `{UT : UnicodeTables} {W : Type} `{EN : Environ W}.

Definition envDisabled (key : gostring) (w : W) : bool :=
  bool_decide (ToLower (TrimSpace (Getenv key w)) ∈ (["0"; "false"; "off"; "no"] : list gostring)).

Definition envEnabled (key : gostring) (w : W) : bool := env_on (Getenv key w).

(** An option, or the default when it is empty. *)
Definition env_or (key dflt : gostring) (w : W) : gostring :=
  let v := Getenv key w in if decide (v = []) then dflt else v.

(** The value of a positive option. *)
Definition positive_value (v : gostring) : option Z :=
  if decide (v = []) then None
  else match Atoi v with Some n => if 0 <? n then Some n else None | None => None end.

(** [raw == "0" || EqualFold(raw, "off") || EqualFold(raw, "false")]. *)
Definition switched_off (raw : gostring) : bool :=
  bool_decide (raw = "0") || EqualFold raw "off" || EqualFold raw "false".

Definition jwtHS256SecretFromEnv (w : W) : gostring :=
  let s := TrimSpace (Getenv "WS_JWT_HS256_SECRET" w) in
  if decide (s = []) then TrimSpace (Getenv "GVA_JWT_SIGNING_KEY" w) else s.

Definition default_scope (w : W) : TenantScope :=
  {| UserID := env_or "DEFAULT_USER_ID" "default-user" w;
     AgentID := env_or "DEFAULT_AGENT_ID" "overseer" w |}.

(** The compactor, with the estimator that goes with it. *)
Definition compaction_from_env (w : W) : Compactor * option TokenEstimator :=
  let raw := TrimSpace (Getenv "CONTEXT_TOKEN_BUDGET" w) in
  if switched_off raw then (NoopCompactor, None)
  else
    let budget := positive_option raw 48000 in
    let minTail := positive_option (TrimSpace (Getenv "CONTEXT_COMPACT_MIN_TAIL" w)) 8 in
    (ThresholdCompactor_iface (NewThresholdCompactor budget minTail), Some RoughTokenEstimator).

Definition pruner_from_env (w : W) : ToolResultPruner :=
  let raw := TrimSpace (Getenv "TOOL_RESULT_MAX_RUNES" w) in
  if switched_off raw then NoopToolPruner
  else Prune {| MaxRunes := positive_option raw 0; Ellipsis := [] |}.

Definition ws_config (mode : AuthMode) (w : W) : Gateway.Config :=
  {| cf_CheckOrigin := Some (NewOriginChecker (TrimSpace (Getenv "WS_ALLOWED_ORIGINS" w))
                               (envEnabled "WS_STRICT_ORIGIN" w));
     cf_AuthMode := mode; cf_BearerToken := TrimSpace (Getenv "WS_BEARER_TOKEN" w);
     cf_JWTSigningKey := jwtHS256SecretFromEnv w;
     cf_AllowQueryBearer := envEnabled "WS_ALLOW_QUERY_BEARER" w;
     cf_AllowQueryJWT := envEnabled "WS_ALLOW_QUERY_JWT" w; cf_ReadLimit := 0;
     cf_MaxMsgsPerMinute :=
       positive_option (TrimSpace (Getenv "WS_MAX_MESSAGES_PER_MINUTE" w)) 0 |}.

(** Minutes between two consolidations; 0 is never. *)
Definition dream_minutes (w : W) : Z :=
  let v := TrimSpace (Getenv "MEMORY_DREAM_INTERVAL_MINUTES" w) in
  if decide (v = []) then 30 else default 0 (positive_value v).
End options.

(** ** Starting *)

(** What [main] has built when the server starts. *)
Record App (W : Type) := {
  ap_Addr : gostring;
  ap_Path : gostring;
  ap_Chat : Service W;
  ap_Server : Server;
  ap_Usage : option (TokenUsageStore W);
  ap_Dream : option (Z * Go W unit);
}.
Arguments ap_Addr {_} _.
Arguments ap_Path {_} _.
Arguments ap_Chat {_} _.
Arguments ap_Server {_} _.
Arguments ap_Usage {_} _.
Arguments ap_Dream {_} _.

Section main.
Context `{UT : UnicodeTables} `{SS : SortSlice} `{TD : TodoDecoder} `{MC : MessageCodec}.
Context {W : Type} `{MO : MapOrder W} `{CL : Clock W} `{HS : HasSessions W} `{HO : Host W}.
Context `{EN : Environ W} `{SE : !SetEnviron W} {F : Type} `{SC : SkillCodec F}.
Context `{HL : HttpLib W} `{HH : HasHolder W} `{ID : ItemDecoder} `{CD : ConfigDecoder}.
Context `{DR : Drivers W}.

Definition config_from_pg : Go W unit :=
  dbURL ← go_gets (Getenv "DATABASE_URL");
  flag ← go_gets (Getenv "CORE_CONFIG_FROM_PG");
  if negb (bool_decide (dbURL = [])) && bool_decide (TrimSpace flag = "1") then
    pool ← pgxpool_New dbURL;
    match pool with
    | Err _ => mret tt
    | Ok pool => discard (MergeCoreSettingsEnv (Some pool))
    end
  else mret tt.

Definition bus_enabled (w : W) : bool := bool_decide (TrimSpace (Getenv "CORE_CONFIG_BUS" w) = "1").

Definition bus_bootstrap : Go W unit :=
  bus ← go_gets bus_enabled;
  url ← go_gets (λ w, TrimSpace (Getenv "REDIS_URL" w));
  if bus && negb (bool_decide (url = [])) then
    match redis_ParseURL url with
    | Some _ => mret tt
    | None => discard (MergeFromRedis (Some (redis_NewClient (URLOptions url))))
    end
  else mret tt.

(** The environment files, the shared table, the snapshot of the bus. *)
Definition load_config : Go W unit :=
  go_state (λ w, (dotenv_Load (Some "../.env") (dotenv_Load None w), tt)) ;;
  config_from_pg ;; bus_bootstrap.

Definition connect_nats : Go W (option (NatsConn W)) :=
  url ← go_gets (Getenv "NATS_URL");
  if decide (url = []) then mret None
  else
    conn ← nats_Connect url;
    mret match conn with Err _ => None | Ok conn => Some conn end.

Definition publisher_of (conn : option (NatsConn W)) : option (NATSPublisher W) :=
  match conn with
  | None => None
  | Some conn => Some (ConnPublisher_Publish (NewConnPublisher (Some conn)))
  end.

(** The memory store and the ledger, each only if its schema could be set up. *)
Definition open_database : Go W (option (Pg.MemoryStore W) * option (TokenUsageStore W)) :=
  dbURL ← go_gets (Getenv "DATABASE_URL");
  if decide (dbURL = []) then mret (None, None)
  else
    pool ← pgxpool_New dbURL;
    match pool with
    | Err _ => mret (None, None)
    | Ok pool =>
        let tu := NewTokenUsageStore (Some pool) in
        e ← Usage_EnsureSchema tu;
        let store := PgStore.NewMemoryStore (Some pool) in
        e' ← EnsureSchema store;
        mret (match e' with None => store | Some _ => None end,
              match e with None => tu | Some _ => None end)
    end.

Definition with_redis (opt : RedisOptions) (maxMessages ttl : Z) : Session.Store W :=
  {| Redis := Some (redis_NewClient opt); MaxMessages := maxMessages; TTL := ttl |}.

(** The session store; the two bounds are only read with [REDIS_ADDR]. *)
Definition sessions_from_env (w : W) : Session.Store W :=
  let st : Session.Store W := NewStore in
  let redisURL := Getenv "REDIS_URL" w in
  let redisAddr := Getenv "REDIS_ADDR" w in
  if decide (redisURL = []) then
    if decide (redisAddr = []) then st
    else
      let db := match Atoi (Getenv "REDIS_DB" w) with
                | Some n => if 0 <=? n then n else 0
                | None => 0
                end in
      with_redis (AddrOptions redisAddr (Getenv "REDIS_PASSWORD" w) db)
        (option_of "SESSION_MAX_MESSAGES" (MaxMessages st) w)
        match positive_value (Getenv "SESSION_TTL_SECONDS" w) with
        | Some n => int64 (n * 1000000000)
        | None => TTL st
        end
  else
    match redis_ParseURL redisURL with
    | Some _ => st
    | None => with_redis (URLOptions redisURL) (MaxMessages st) (TTL st)
    end.

(** The ledger is given to [BuildClientFromEnv] as an interface around a pointer: it is
    never nil, even when the pointer is. *)
Definition build_client (w : W) : result Client := BuildClientFromEnv true w.

(** The handler of a configuration update. *)
Definition hot_reload (rdb : option (RedisClient W)) : Go W unit :=
  r ← MergeFromRedis rdb;
  match r with
  | (_, Some _) => mret tt
  | (_, None) =>
      disabled ← go_gets (envDisabled "CORE_CONFIG_HOT_LLM");
      if disabled : bool then mret tt
      else
        c ← go_gets build_client;
        match c with
        | Err _ => mret tt
        | Ok c => go_state (λ w, (Holder_Store (Some c) w, tt))
        end
  end.

Definition subscribe (conn : option (NatsConn W)) (sessions : Session.Store W) : Go W unit :=
  bus ← go_gets bus_enabled;
  match conn, Redis sessions with
  | Some conn, Some rdb =>
      if bus : bool then
        discard (nc_Subscribe conn NATSSubjectCoreConfigUpdated (hot_reload (Some rdb)))
      else mret tt
  | _, _ => mret tt
  end.

(** The extractor, if there is a store and it is not disabled. *)
Definition post_turn (usage : option (TokenUsageStore W)) (mem : option (Pg.MemoryStore W)) (w : W) :
    ChatCtx → PostTurnExtractor W :=
  if negb (bool_decide (mem = None)) && negb (envDisabled "MEMORY_AUTO_EXTRACT" w) then
    let ext := NewLLMExtractor (Some Holder_Load) mem in
    AfterTurn (LG := RecordAsync usage)
      (Some {| ex_LLM := ex_LLM ext; ex_PG := ex_PG ext;
               ex_MaxTokens := option_of "MEMORY_EXTRACT_MAX_TOKENS" (ex_MaxTokens ext) w;
               ex_MinTurnLen := ex_MinTurnLen ext |})
  else λ _, NoopPostTurn.

Definition no_values : ChatCtx := {| ctx_Attribution := None; ctx_ChatModel := None |}.

(** The periodic consolidation: its interval and what a tick does. *)
Definition dream (usage : option (TokenUsageStore W)) (mem : option (Pg.MemoryStore W))
    (scope : TenantScope) (w : W) : option (Z * Go W unit) :=
  if negb (bool_decide (mem = None)) && negb (envDisabled "MEMORY_DREAM" w) then
    let minutes := dream_minutes w in
    if 0 <? minutes then
      let d := NewDreamConsolidator (Some Holder_Load) mem in
      let d := {| dc_LLM := dc_LLM d; dc_PG := dc_PG d;
                  dc_MaxTokens := option_of "MEMORY_DREAM_MAX_TOKENS" (dc_MaxTokens d) w;
                  MaxRowsLoad := MaxRowsLoad d; MinRowsToRun := MinRowsToRun d;
                  MaxRowsOutput := MaxRowsOutput d |} in
      Some (int64 (minutes * Minute),
            discard (Consolidate (LG := RecordAsync usage) (Some d) no_values scope
                       {| co_Label := []; co_SessionID := [] |}))
    else None
  else None.

(** The goroutine of the consolidation, until the process stops after [ticks] ticks. *)
Definition dream_loop (interval : Z) (tick : Go W unit) (ticks : nat) : Go W unit :=
  if interval <=? 0 then go_panic "non-positive interval for NewTicker"
  else Nat.iter ticks (λ m, m ;; tick) (mret tt).

Definition chat_service (scope : TenantScope) (conn : option (NatsConn W))
    (mem : option (Pg.MemoryStore W)) (usage : option (TokenUsageStore W))
    (sessions : Session.Store W) (todos : Planner.Store W) (maxTurns maxBreaker : Z) (w : W) :
    Service W :=
  let '(comp, est) := compaction_from_env w in
  let hint := TrimSpace (Getenv "RUNTIME_HINT" w) in
  {| sv_Sessions := sessions;
     sv_Bridge := λ ctx, Some (HolderBridge (LG := RecordAsync usage) ctx);
     sv_PG := mem; sv_NATS := publisher_of conn; sv_Scope := scope; sv_Todos := todos;
     sv_PostTurn := Some (post_turn usage mem w); sv_Compactor := Some comp;
     sv_ToolPruner := Some (pruner_from_env w); sv_TokenEst := est;
     sv_MaxTurns := maxTurns; sv_MaxConsecutiveFailures := maxBreaker;
     sv_DefaultPersona := TrimSpace (Getenv "AGENT_PERSONA" w);
     sv_RuntimeHint := if decide (hint = []) then None else Some (mret hint) |}.

(** [main] after the configuration; [Err] is [log.Fatalf]. *)
Definition boot (todos : Planner.Store W) : Go W (result (App W)) :=
  port ← go_gets (env_or "PORT" "8080");
  path ← go_gets (env_or "WS_PATH" "/ws");
  maxTurns ← go_gets (option_of "MAX_TURNS" 8);
  maxBreaker ← go_gets (option_of "MAX_TOOL_FAILURE_STREAK" 3);
  scope ← go_gets default_scope;
  match Validate scope with
  | Some e => mret (Err e)
  | None =>
      conn ← connect_nats;
      db ← open_database;
      let '(mem, usage) := db in
      client ← go_gets build_client;
      match (client : result Client) with
      | Err e => mret (Err e)
      | Ok client =>
          go_state (λ w, (NewHolder (Some client) w, tt)) ;;
          sessions ← go_gets sessions_from_env;
          subscribe conn sessions ;;
          chat ← go_gets (chat_service scope conn mem usage sessions todos maxTurns maxBreaker);
          mode ← go_gets (λ w, ParseAuthMode (Getenv "WS_AUTH_MODE" w));
          match (mode : AuthMode * option goerror) with
          | (_, Some e) => mret (Err e)
          | (mode, None) =>
              go_gets (λ w, Ok
                {| ap_Addr := ":" ++ port; ap_Path := path; ap_Chat := chat;
                   ap_Server := NewServer (ws_config mode w); ap_Usage := usage;
                   ap_Dream := dream usage mem scope w |})
          end
      end
  end.

Definition main (todos : Planner.Store W) : Go W (result (App W)) := load_config ;; boot todos.
End main.

(** ** Lemmas *)

Section lemmas.
Context `{UT : UnicodeTables} `{SS : SortSlice} `{TD : TodoDecoder} `{MC : MessageCodec}.
Context {W : Type} `{MO : MapOrder W} `{CL : Clock W} `{HS : HasSessions W} `{HO : Host W}.
Context `{EN : Environ W} `{SE : !SetEnviron W} {F : Type} `{SC : SkillCodec F}.
Context `{HL : HttpLib W} `{HH : HasHolder W} `{ID : ItemDecoder} `{CD : ConfigDecoder}.
Context `{DR : Drivers W}.

(** The runs of [boot] that reach the end, with the worlds at which it read. *)
Lemma boot_Ok todos (w w' : W) app :
  boot todos w = (w', Done (Ok app)) →
  ∃ w1 w2 w3 conn mem usage client mode,
    connect_nats w = (w1, Done conn) ∧ open_database w1 = (w2, Done (mem, usage)) ∧
    build_client w2 = Ok client ∧
    subscribe conn (sessions_from_env (NewHolder (Some client) w2)) (NewHolder (Some client) w2) =
      (w3, Done tt) ∧
    w' = w3 ∧ ParseAuthMode (Getenv "WS_AUTH_MODE" w3) = (mode, None) ∧
    Validate (default_scope w) = None ∧
    app = {| ap_Addr := ":" ++ env_or "PORT" "8080" w; ap_Path := env_or "WS_PATH" "/ws" w;
             ap_Chat := chat_service (default_scope w) conn mem usage
               (sessions_from_env (NewHolder (Some client) w2)) todos (option_of "MAX_TURNS" 8 w)
               (option_of "MAX_TOOL_FAILURE_STREAK" 3 w) w3;
             ap_Server := NewServer (ws_config mode w3); ap_Usage := usage;
             ap_Dream := dream usage mem (default_scope w) w3 |}.
Proof.
  intros E. unfold boot in E. unfold go_gets, go_state in E.
  do 5 (unfold mbind at 1, Go_bind at 1 in E).
  destruct (Validate (default_scope w)) eqn:Hv; [done|].
  apply go_bind_Done in E as (w1 & conn & E1 & E).
  apply go_bind_Done in E as (w2 & [mem usage] & E2 & E).
  apply go_bind_Done in E as (w2' & client & [= <- <-] & E).
  destruct (build_client w2) as [client|] eqn:E3; [|done].
  apply go_bind_Done in E as (w3 & [] & [= <-] & E).
  apply go_bind_Done in E as (w4 & st & [= <- <-] & E).
  apply go_bind_Done in E as (w5 & [] & E4 & E).
  apply go_bind_Done in E as (w6 & chat & [= <- <-] & E).
  apply go_bind_Done in E as (w7 & [mode [e|]] & [= <- Em] & E); [done|].
  injection E as <- <-. by exists w1, w2, w5, conn, mem, usage, client, mode.
Qed.

Lemma chat_service_fields scope conn mem usage st todos t b (w : W) :
  let s := chat_service scope conn mem usage st todos t b w in
  sv_Scope s = scope ∧ sv_PG s = mem ∧ sv_Sessions s = st ∧ sv_MaxTurns s = t ∧
  sv_MaxConsecutiveFailures s = b ∧
  (sv_TokenEst s = None ∧ sv_Compactor s = Some NoopCompactor ∨
   sv_TokenEst s = Some RoughTokenEstimator ∧
   ∃ budget tail, 0 < budget ∧ 0 < tail ∧
     sv_Compactor s = Some (ThresholdCompactor_iface (NewThresholdCompactor budget tail))) ∧
  ∀ h, sv_RuntimeHint s = Some h → ∃ t, h = mret t.
Proof.
  unfold chat_service, compaction_from_env. destruct (switched_off _); cbn;
    (split_and!; [done..| |intros h; case_decide; [done|]; intros [= <-]; by eexists]).
  - by left.
  - right. split; [done|]. eexists _, _. split_and!; [| |done]; by apply positive_option_pos.
Qed.

Lemma sessions_from_env_max (w : W) : 0 < MaxMessages (sessions_from_env w).
Proof.
  unfold sessions_from_env. cbv zeta. case_decide; [case_decide; [done|]|].
  - cbn [MaxMessages with_redis]. unfold option_of. by apply positive_option_pos.
  - by destruct (redis_ParseURL _).
Qed.

(** The run of [boot] whose steps succeed. *)
Lemma boot_returns todos (w w1 w3 : W) conn mem usage client mode :
  let w2 := NewHolder (Some client) w1 in
  connect_nats w = (w1, Done conn) → open_database w1 = (w1, Done (mem, usage)) →
  build_client w1 = Ok client →
  subscribe conn (sessions_from_env w2) w2 = (w3, Done tt) →
  ParseAuthMode (Getenv "WS_AUTH_MODE" w3) = (mode, None) → Validate (default_scope w) = None →
  boot todos w = (w3, Done (Ok
    {| ap_Addr := ":" ++ env_or "PORT" "8080" w; ap_Path := env_or "WS_PATH" "/ws" w;
       ap_Chat := chat_service (default_scope w) conn mem usage (sessions_from_env w2) todos
         (option_of "MAX_TURNS" 8 w) (option_of "MAX_TOOL_FAILURE_STREAK" 3 w) w3;
       ap_Server := NewServer (ws_config mode w3); ap_Usage := usage;
       ap_Dream := dream usage mem (default_scope w) w3 |})).
Proof.
  intros w2 E1 E2 E3 E4 Em Hv. unfold boot, go_gets, go_state.
  do 5 (unfold mbind at 1, Go_bind at 1). rewrite Hv.
  rewrite (go_bind_eq _ _ _ _ _ E1), (go_bind_eq _ _ _ _ _ E2).
  unfold mbind at 1, Go_bind at 1. rewrite E3. do 2 (unfold mbind at 1, Go_bind at 1).
  rewrite (go_bind_eq _ _ _ _ _ E4). do 2 (unfold mbind at 1, Go_bind at 1). by rewrite Em.
Qed.

Lemma dream_Some usage mem scope (w : W) d tick :
  dream usage mem scope w = Some (d, tick) →
  mem ≠ None ∧ 0 < dream_minutes w ∧ d = int64 (dream_minutes w * Minute).
Proof.
  unfold dream. case_bool_decide as Hm; [done|]. cbn. destruct (negb _); [|done].
  destruct (Z.ltb_spec 0 (dream_minutes w)); [|done]. intros [= <- _]. done.
Qed.
End lemmas.

(** ** Properties *)

Section properties.
Context `{UT : UnicodeTables} `{SS : SortSlice} `{TD : TodoDecoder} `{MC : MessageCodec}.
Context {W : Type} `{MO : MapOrder W} `{CL : Clock W} `{HS : HasSessions W} `{HO : Host W}.
Context `{EN : Environ W} `{SE : !SetEnviron W} {F : Type} `{SC : SkillCodec F}.
Context `{HL : HttpLib W} `{HH : HasHolder W} `{ID : ItemDecoder} `{CD : ConfigDecoder}.
Context `{DR : Drivers W}.

(** C34: a process that starts is usable: when [main] reaches the server, the default
    tenant is valid; the loop, the breaker and the session window have positive
    limits; there is a compactor, with a budget and a tail that are positive, or none
    and then no estimator; consolidation is only scheduled with a store, at an
    interval that is positive unless it is more than 153722867 minutes; and the
    holder holds a client with a model, if subscribing does not change it. *)
Theorem boot_usable (todos : Planner.Store W) (w w' : W) (app : App W) :
  (∀ url w conn, (nats_Connect url w).2 = Done (Ok conn) → ∀ s h,
     go_rel (λ w w', held w' = held w) (nc_Subscribe conn s h)) →
  boot todos w = (w', Done (Ok app)) →
  let s := ap_Chat app in
  Validate (sv_Scope s) = None ∧
  0 < sv_MaxTurns s ∧ 0 < maxBreaker s ∧ 0 < MaxMessages (sv_Sessions s) ∧
  (sv_TokenEst s = None ∧ sv_Compactor s = Some NoopCompactor ∨
   sv_TokenEst s = Some RoughTokenEstimator ∧
   ∃ budget tail, 0 < budget ∧ 0 < tail ∧
     sv_Compactor s = Some (ThresholdCompactor_iface (NewThresholdCompactor budget tail))) ∧
  (∀ d tick, ap_Dream app = Some (d, tick) →
     sv_PG s ≠ None ∧ (dream_minutes w' ≤ 153722867 → 0 < d)) ∧
  ∃ c, held w' = Some c ∧ TrimSpace (c_Model c) ≠ [].
Proof.
  intros Hsub E s. apply boot_Ok in E
    as (w1 & w2 & w3 & conn & mem & usage & client & mode & E1 & _ & Ec & E4 & -> & _ & Hv & ->).
  subst s. cbn [ap_Chat ap_Dream].
  destruct (chat_service_fields (default_scope w) conn mem usage
    (sessions_from_env (NewHolder (Some client) w2)) todos (option_of "MAX_TURNS" 8 w)
    (option_of "MAX_TOOL_FAILURE_STREAK" 3 w) w3) as (H1 & H2 & H3 & H4 & H5 & H6 & _).
  assert (0 < option_of "MAX_TURNS" 8 w ∧ 0 < option_of "MAX_TOOL_FAILURE_STREAK" 3 w) as [Hp1 Hp2]
    by (split; by apply positive_option_pos).
  split_and!; [by rewrite H1|by rewrite H4| |rewrite H3; apply sessions_from_env_max|done| |].
  - unfold maxBreaker. rewrite H5. by destruct (Z.ltb_spec 0 (option_of "MAX_TOOL_FAILURE_STREAK" 3 w)).
  - intros d tick (Hm & Hd & ->)%dream_Some. rewrite H2. split; [done|]. intros Hmax.
    unfold int64, Minute. rewrite Z.mod_small; lia.
  - exists client. apply BuildClientFromEnv_Ok in Ec as (_ & Hmodel & _). split; [|done].
    assert (held w3 = held (NewHolder (Some client) w2)) as ->; [|by unfold NewHolder; cbn; rewrite held_set].
    unfold subscribe, go_gets in E4. unfold mbind at 1, Go_bind at 1 in E4.
    destruct conn as [conn|]; [|by injection E4 as <-].
    destruct (Redis _) as [rdb|]; [|by injection E4 as <-].
    destruct (bus_enabled _); [|by injection E4 as <-].
    assert (∃ url v, (nats_Connect url v).2 = Done (Ok conn)) as (url & v & Hconn).
    { unfold connect_nats, go_gets in E1. unfold mbind at 1, Go_bind at 1 in E1.
      case_decide; [done|]. apply go_bind_Done in E1 as (v & [c|e] & E1 & E1').
      - injection E1' as _ ->. eexists _, w. by rewrite E1.
      - done. }
    unfold discard in E4. apply go_bind_Done in E4 as (w4 & r & E4 & E5).
    apply go_ret_Done in E5 as [-> _]. exact (go_rel_run _ _ _ _ _ (Hsub _ _ _ Hconn _ _) E4).
Qed.

(** C24: a configuration update that describes a client takes effect, and no update
    takes the client away: when the snapshot can be read and decoded, rebuilding is not
    disabled and the merged environment describes a client, the handler returns and
    the holder holds that client, for the next call of the chat, the extractor and the
    consolidator; after any other run the holder holds what it held, or a client with
    a model. *)
Theorem hot_reload_client (rdb : RedisClient W) (w w' : W) (o : outcome unit) :
  (∀ k, go_rel (λ w w', held w' = held w) (rc_Get rdb k)) →
  (∀ e w, held (set_environ e w) = held w) →
  hot_reload (Some rdb) w = (w', o) →
  (held w' = held w ∨ ∃ c, held w' = Some c ∧ TrimSpace (c_Model c) ≠ []) ∧
  ∀ w1 val m c,
    rc_Get rdb RedisKeyCoreConfig w = (w1, Done (Ok (Some val))) → unmarshal_config val = Ok m →
    let w2 := (ApplyMap m w1).1 in
    envDisabled "CORE_CONFIG_HOT_LLM" w2 = false → build_client w2 = Ok c →
    o = Done tt ∧ held w' = Some c.
Proof.
  intros Hget Hset E.
  assert (∀ m v, held (ApplyMap m v).1 = held v) as Happ.
  { intros m v. unfold ApplyMap. case_decide; [done|]. destruct (foldl _ _ _). apply Hset. }
  split.
  - unfold hot_reload in E. unfold mbind at 1, Go_bind at 1 in E.
    destruct (MergeFromRedis (Some rdb) w) as [w1 r] eqn:E1.
    assert (held w1 = held w) as H1.
    { cbn in E1. unfold mbind, Go_bind in E1. specialize (Hget RedisKeyCoreConfig w).
      destruct (rc_Get rdb RedisKeyCoreConfig w) as [w2 [[[val|]|e]|p]]; cbn in Hget;
        [|by injection E1 as <- _..].
      destruct (unmarshal_config val) as [m|e]; [|by injection E1 as <- _].
      specialize (Happ m w2). destruct (ApplyMap m w2) as [w3 [a|p]]; injection E1 as <- _;
        cbn in Happ; congruence. }
    destruct r as [[n [e|]]|p]; [left; by injection E as <- _| |left; by injection E as <- _].
    unfold go_gets in E. unfold mbind at 1, Go_bind at 1 in E.
    destruct (envDisabled _ w1); [left; by injection E as <- _|].
    unfold mbind at 1, Go_bind at 1 in E.
    destruct (build_client w1) as [c|e] eqn:Ec; [|left; by injection E as <- _].
    injection E as <- _. right. exists c. cbn. rewrite held_set. split; [done|].
    by apply BuildClientFromEnv_Ok in Ec as (_ & ? & _).
  - intros w1 val m c E1 Em w2 Hd Hc.
    assert (MergeFromRedis (Some rdb) w = (w2, Done (len (omap eligible (map_to_list m)), None))) as Er.
    { cbn. rewrite (go_bind_eq _ _ _ _ _ E1), Em.
      destruct (ApplyMap_run m w1) as (l & Hl & Hn & _). subst w2.
      assert (len (omap eligible l) = len (omap eligible (map_to_list m))) as Hll
        by (unfold len; f_equal; apply Permutation_length; by rewrite Hl).
      unfold mbind, Go_bind. destruct (ApplyMap m w1) as [w3 a]. cbn in Hn. by rewrite Hn, Hll. }
    unfold hot_reload in E. rewrite (go_bind_eq _ _ _ _ _ Er) in E. unfold go_gets, go_state in E.
    unfold mbind, Go_bind in E. rewrite Hd, Hc in E. injection E as <- <-. cbn.
    by rewrite held_set.
Qed.

(** C33: a process without a database starts, and cannot chat: when, once the
    configuration is loaded, [DATABASE_URL], [REDIS_URL] and [REDIS_ADDR] are empty (so
    that the sessions are in the memory of the process), the default tenant is valid, the
    environment describes a model client and [WS_AUTH_MODE] is a mode, and connecting to
    NATS returns (a connection or an error) and sets no variable, then [main] reaches the
    server without an error, serving the default tenant; and every turn of every valid
    tenant panics there with a nil dereference. *)
Theorem main_without_database (todos : Planner.Store W) (w0 w : W) (client : Client)
    (mode : AuthMode) :
  (∀ url v, ∃ v' r, nats_Connect url v = (v', Done r) ∧ environ v' = environ v) →
  (∀ c v, environ (set_held c v) = environ v) →
  load_config w0 = (w, Done tt) →
  Getenv "DATABASE_URL" w = [] → Getenv "REDIS_URL" w = [] → Getenv "REDIS_ADDR" w = [] →
  Validate (default_scope w) = None → build_client w = Ok client →
  ParseAuthMode (Getenv "WS_AUTH_MODE" w) = (mode, None) →
  ∃ w' app, main todos w0 = (w', Done (Ok app)) ∧
    sv_Scope (ap_Chat app) = default_scope w ∧ se_authMode (ap_Server app) = mode ∧
    ∀ ctx sessionID text n conn v, Validate (conn_scope (default_scope w) conn) = None →
      ∃ v', ChatStream (ap_Chat app) ctx sessionID text n conn v =
        (v', Panicked "invalid memory address or nil pointer dereference").
Proof.
  intros Hnats Hheld Hload Hdb Hurl Haddr Hscope Hclient Hmode.
  assert (∃ w1 nc, connect_nats w = (w1, Done nc) ∧ environ w1 = environ w) as (w1 & nc & E1 & He).
  { unfold connect_nats, go_gets. unfold mbind at 1, Go_bind at 1.
    case_decide; [by exists w, None|]. destruct (Hnats (Getenv "NATS_URL" w) w) as (v & r & E & Hv).
    eexists v, _. by rewrite (go_bind_eq _ _ _ _ _ E). }
  assert (∀ k, Getenv k w1 = Getenv k w) as Hg by (intros k; unfold Getenv; by rewrite He).
  assert (build_client w1 = Ok client) as Hc1.
  { rewrite <- Hclient. unfold build_client, BuildClientFromEnv, option_of, positive_option.
    by rewrite !Hg. }
  set (w2 := NewHolder (Some client) w1).
  assert (∀ k, Getenv k w2 = Getenv k w) as Hg2.
  { intros k. rewrite <- Hg. unfold w2, NewHolder, Getenv. cbn. by rewrite !Hheld. }
  assert (sessions_from_env w2 = NewStore) as Hs
    by (unfold sessions_from_env; by rewrite !Hg2, Hurl, Haddr).
  assert (open_database w1 = (w1, Done (None, None))) as E2.
  { unfold open_database, go_gets. unfold mbind at 1, Go_bind at 1. by rewrite Hg, Hdb. }
  assert (subscribe nc (sessions_from_env w2) w2 = (w2, Done tt)) as E3
    by (rewrite Hs; unfold subscribe; by destruct nc).
  eexists w2, _. split.
  - unfold main. rewrite (go_bind_eq _ _ _ _ _ Hload).
    apply (boot_returns todos w w1 w2 nc None None client mode); try done.
    by rewrite Hg2.
  - cbn [ap_Chat ap_Server]. fold w2. destruct (chat_service_fields (default_scope w) nc None None
      (sessions_from_env w2) todos (option_of "MAX_TURNS" 8 w)
      (option_of "MAX_TOOL_FAILURE_STREAK" 3 w) w2) as (H1 & H2 & H3 & _ & _ & _ & H7).
    split; [exact H1|]. split; [done|]. intros ctx sessionID text n conn v Hv.
    apply ChatStream_without_database; [done|by rewrite H3, Hs| |by rewrite H1].
    intros h Hh. destruct (H7 h Hh) as [t ->]. intros u. by eexists _, _.
Qed.
End properties.

(** ** Witnesses and examples *)

#[local] Existing Instance ascii_tables.
#[local] Existing Instance merge_SortSlice.
#[local] Existing Instance sample_decoder.
#[local] Existing Instance sample_codec.
#[local] Existing Instance zero_clock.
#[local] Existing Instance sample_skill_codec.
#[local] Existing Instance sample_items.

(** A machine: the process, its sessions and the client it holds. *)
Record Machine := {
  mc_process : Process;
  mc_sessions : Sessions;
  mc_held : option Client;
}.

#[local] Instance Machine_sessions : HasSessions Machine.
Proof.
  by refine {| sessions := mc_sessions;
    set_sessions s w := {| mc_process := mc_process w; mc_sessions := s; mc_held := mc_held w |} |}.
Defined.

#[local] Instance Machine_holder : HasHolder Machine.
Proof.
  by refine {| held := mc_held;
    set_held c w := {| mc_process := mc_process w; mc_sessions := mc_sessions w; mc_held := c |} |}.
Defined.

#[local] Instance Machine_environ : Environ Machine := λ w, pr_env (mc_process w).

#[local] Instance Machine_set_environ : SetEnviron Machine.
Proof.
  by refine {| set_environ e w := {| mc_process := set_environ e (mc_process w);
    mc_sessions := mc_sessions w; mc_held := mc_held w |} |}.
Defined.

#[local] Instance Machine_host : Host Machine :=
  {| GOOS := "linux"; GOARCH := "amd64"; format_RFC3339 := FormatInt; format_request := FormatInt;
     go_spawn := λ m w, (m w).1 |}.

#[local] Instance Machine_http : HttpLib Machine :=
  {| json_Payload := λ p, Ok (py_Model p); http_NewRequest := λ _, None;
     http_Do := λ _ _, mret (Ok {| hp_Status := 500; hp_Chunks := []; hp_End := None |});
     json_Completion := λ _ _, Err (ErrorString "json"); json_Chunk := λ _, None;
     json_Object := λ _, None |}.

(** Snapshots written as [KEY=value;...]. *)
#[local] Instance sample_config_decoder : ConfigDecoder := λ s,
  Ok (list_to_map (omap (λ p, match SplitByte p x3d with [k; v] => Some (k, v) | _ => None end)
                     (SplitByte s x3b))).

Definition snapshot : gostring := "ANTHROPIC_MODEL=new ;DATABASE_URL=evil; PORT = 9".

Definition snapshot_map : environment :=
  match unmarshal_config snapshot with Ok m => m | Err _ => ∅ end.

Definition sample_redis : RedisClient Machine :=
  {| rc_Get := λ _, mret (Ok (Some snapshot)); rc_LRangeAll := λ _, mret (Ok []);
     rc_Exec := λ _, mret None |}.

Definition sample_nats : NatsConn Machine :=
  {| nc_Publish := λ _ _, mret None; nc_Subscribe := λ _ _, mret None |}.

#[local] Instance sample_drivers : Drivers Machine :=
  {| dotenv_Load := λ _ w, w; pgxpool_New := λ _, mret (Ok empty_pool);
     redis_ParseURL := λ _, None; redis_NewClient := λ _, sample_redis;
     nats_Connect := λ _, mret (Ok sample_nats) |}.

Definition machine (env : environment) : Machine :=
  {| mc_process := {| pr_db := sample_db; pr_env := env; pr_sent := [] |};
     mc_sessions := ∅; mc_held := None |}.

Definition minimal_env : environment :=
  {[ "ANTHROPIC_BASE_URL" := "http://x/"; "ANTHROPIC_MODEL" := "m" ]}.

Definition full_env : environment :=
  <["DATABASE_URL" := "db"]> (<["REDIS_URL" := "redis"]> (<["NATS_URL" := "nats"]>
  (<["CORE_CONFIG_BUS" := "1"]> (<["MAX_TURNS" := "-4"]>
  (<["MEMORY_DREAM_INTERVAL_MINUTES" := "5"]> minimal_env))))).

(** What a boot leads to, without the closures. *)
Definition boot_shape (r : Machine * outcome (result (App Machine))) :
    option (gostring * option Client * Z * bool * option Z) :=
  match r.2 with
  | Done (Ok app) =>
      Some (ap_Addr app, held r.1, sv_MaxTurns (ap_Chat app),
            bool_decide (sv_PG (ap_Chat app) = None), fst <$> ap_Dream app)
  | _ => None
  end.

Definition built (model : gostring) : Client :=
  {| BaseURL := "http://x"; AuthToken := []; APIKey := []; c_Model := model;
     c_Timeout := 300000000000; Recorder := true |}.

(** The snapshot of the bus is merged before anything is read; the database address
    is not in the whitelist. *)
Example boot_run :
  boot_shape (main no_todos (machine full_env)) =
  Some (":9", Some (built "new"), 8, false, Some 300000000000).
Proof. vm_compute. reflexivity. Qed.

Lemma boot_usable_witness :
  ∃ w' app, boot no_todos (machine full_env) = (w', Done (Ok app)) ∧
    ap_Addr app = ":8080" ∧
    ∃ c, held w' = Some c ∧ TrimSpace (c_Model c) ≠ [].
Proof.
  assert (boot_shape (boot no_todos (machine full_env)) =
    Some (":8080", Some (built "m"), 8, false, Some 300000000000)) as Hs by (vm_compute; reflexivity).
  destruct (boot no_todos (machine full_env)) as [w' o] eqn:E. unfold boot_shape in Hs. cbn [snd] in Hs.
  destruct o as [[app|e]|p]; [|discriminate Hs..]. exists w', app.
  split; [reflexivity|]. split; [by injection Hs|].
  assert (∀ url w conn, (nats_Connect url w).2 = Done (Ok conn) → ∀ s h,
    go_rel (λ w w' : Machine, held w' = held w) (nc_Subscribe conn s h)) as Hsub
    by (intros url v conn [= <-] s h u; reflexivity).
  pose proof (boot_usable no_todos (machine full_env) w' app Hsub E) as H. cbv zeta in H.
  destruct H as (_ & _ & _ & _ & _ & _ & H). exact H.
Defined.

Lemma hot_reload_client_witness :
  let w := {| mc_process := mc_process (machine minimal_env); mc_sessions := ∅;
              mc_held := Some (built "m") |} in
  let r := hot_reload (Some sample_redis) w in
  r.2 = Done tt ∧ held r.1 = Some (built "new").
Proof.
  intros w r. pose proof (surjective_pairing r) as E. unfold r at 1 in E.
  assert (unmarshal_config snapshot = Ok snapshot_map) as Em by reflexivity.
  assert (envDisabled "CORE_CONFIG_HOT_LLM" (ApplyMap snapshot_map w).1 = false) as Hd
    by (vm_compute; reflexivity).
  assert (build_client (ApplyMap snapshot_map w).1 = Ok (built "new")) as Hc
    by (vm_compute; reflexivity).
  assert (rc_Get sample_redis RedisKeyCoreConfig w = (w, Done (Ok (Some snapshot)))) as Hg
    by reflexivity.
  assert (∀ k, go_rel (λ w w' : Machine, held w' = held w) (rc_Get sample_redis k)) as H1
    by (intros k v; reflexivity).
  assert (∀ e (v : Machine), held (set_environ e v) = held v) as H2 by (intros e v; reflexivity).
  pose proof (proj2 (hot_reload_client sample_redis w r.1 r.2 H1 H2 E)) as H.
  exact (H w snapshot snapshot_map (built "new") Hg Em Hd Hc).
Defined.

Lemma main_without_database_witness :
  ∃ w' app, main no_todos (machine minimal_env) = (w', Done (Ok app)) ∧
  ∃ v', ChatStream (ap_Chat app) no_ctx "s" "hello"
      {| SendSystemStatus := λ _ _, mret None; SendAssistantStream := λ _ _ _, mret None |}
      no_conn w' =
    (v', Panicked "invalid memory address or nil pointer dereference").
Proof.
  destruct (main_without_database no_todos (machine minimal_env) (machine minimal_env) (built "m")
    AuthNone) as (w' & app & E & _ & _ & H);
    [intros url v; by eexists _, _|reflexivity|vm_compute; reflexivity..|].
  exists w', app. split; [exact E|]. apply H. vm_compute. reflexivity.
Defined.

(** An interval of more minutes than fit in 64 bits of nanoseconds makes the goroutine
    of the consolidation panic. *)
Example dream_interval_overflow :
  match dream (HL := Machine_http) None (Some {| ms_pool := None |}) sample_scope
    (machine (<["MEMORY_DREAM_INTERVAL_MINUTES" := "153722868"]> minimal_env)) with
  | Some (d, tick) => d < 0 ∧ (dream_loop d tick 0 (machine ∅)).2 =
      Panicked "non-positive interval for NewTicker"
  | None => False
  end.
Proof. vm_compute. by split. Qed.

(** With [REDIS_URL] the bounds of the session window are not read. *)
Example redis_url_ignores_bounds :
  let env := <["SESSION_MAX_MESSAGES" := "5"]> minimal_env in
  MaxMessages (sessions_from_env (machine (<["REDIS_URL" := "r"]> env))) = 60 ∧
  MaxMessages (sessions_from_env (machine (<["REDIS_ADDR" := "r"]> env))) = 5.
Proof. vm_compute. by split. Qed.
