(* ===== verification/Tenancy.v ===== *)
(** * Tenants, end to end

    What a whole connection can change in the process, through the gateway, the runtime,
    the engine, the loop, the tools and the model client together.  The first part
    carries a state relation ([Prelude.go_rel]) through the engine: a turn changes the
    world only as its tools, its model and its stores do.  The second part instantiates
    it with the sessions and the memories of one tenant, for the service that
    [Main.chat_service] builds. *)

From S2P Require Import Prelude GoString Identity Transcript Compaction Tools Planner Llm Loop.
From S2P Require Import Memory Prompt Engine Env Adapter Session Pg Usage PgStore Skills Client.
From S2P Require Import Memorywork Config Runtime Gateway Main.
Open Scope Z_scope.

(** ** A relation through the engine *)

Section engine_rel.
Context `{UT : UnicodeTables} `{SS : SortSlice} `{TD : TodoDecoder}.
Context {W : Type} `{MO : MapOrder W} `{CL : Clock W}.
Context (R : relation W) `{!PreOrder R}.

(** A bind whose second part is only reached by the successful runs of the first. *)
Lemma go_rel_bind_run {A B} (m : Go W A) (f : A → Go W B) :
  go_rel R m → (∀ w w' a, m w = (w', Done a) → go_rel R (f a)) → go_rel R (m ≫= f).
Proof.
  intros Hm Hf w. unfold mbind, Go_bind. specialize (Hm w).
  destruct (m w) as [w' [a|p]] eqn:E; cbn in *; [|done]. etrans; [exact Hm|by eapply Hf].
Qed.

Lemma go_rel_discard {A} (m : Go W A) : go_rel R m → go_rel R (discard m).
Proof. intros Hm. apply go_rel_bind; [done|done|intros; apply go_rel_ret, _]. Qed.

Lemma go_rel_state {A} (f : W → W * A) : (∀ w, R w (f w).1) → go_rel R (go_state f).
Proof. intros Hf w. unfold go_state. specialize (Hf w). by destruct (f w). Qed.

(** The work of a streamed turn. *)
Fixpoint turn_rel {A} (t : StreamTurn W A) : Prop :=
  match t with
  | TurnReturn _ | TurnPanic _ => True
  | TurnWork upd next => ∀ w, R w (upd w) ∧ turn_rel (next w)
  | TurnDelta _ next => turn_rel next
  end.

Lemma run_turn_rel {A S} (cb : option (gostring → S → Go W S)) (t : StreamTurn W A) s :
  turn_rel t → (∀ f d s, cb = Some f → go_rel R (f d s)) → go_rel R (run_turn cb t s).
Proof.
  intros Ht Hcb. revert s. induction t as [r|p|upd next IH|d next IH]; intros s; cbn in *.
  - apply go_rel_ret, _.
  - apply go_rel_panic, _.
  - intros w. destruct (Ht w) as [Hu Hn]. etrans; [exact Hu|]. by apply IH.
  - destruct cb as [f|]; [|apply go_rel_panic, _]. apply go_rel_bind; [done|by apply Hcb|].
    intros s'. by apply IH.
Qed.

Lemma turn_rel_map {A B} (f : result A → result B) (t : StreamTurn W A) :
  turn_rel t → turn_rel (turn_map f t).
Proof. induction t; cbn in *; naive_solver. Qed.

Lemma turn_rel_go {A B} (m : Go W B) (k : B → StreamTurn W A) :
  go_rel R m → (∀ b, turn_rel (k b)) → turn_rel (TurnGo m k).
Proof. intros Hm Hk w. split; [apply Hm|]. by destruct (m w).2. Qed.

(** The hooks that are not nil. *)
Record hooks_rel (h : StreamHooks W) : Prop := {
  delta_rel f d : OnTextDelta h = Some f → go_rel R (f d);
  after_rel m : AfterAssistantComplete h = Some m → go_rel R m;
  before_batch_rel f ns : BeforeToolBatch h = Some f → go_rel R (f ns);
  after_batch_rel f ns : AfterToolBatch h = Some f → go_rel R (f ns);
}.

Section loop_rel.
Context (reg : Registry W) (tcx : Context) (opt : Options) (streamer : StreamTurnCompleter W)
  (hooks : StreamHooks W).
Hypothesis Htools : ∀ n t input, byName reg !! n = Some t → go_rel R (t_Execute t tcx input).
Hypothesis Hstreamer : ∀ req has, turn_rel (streamer req has).
Hypothesis Hhooks : hooks_rel hooks.

Lemma Execute_rel name input : go_rel R (Execute reg tcx name input).
Proof.
  unfold Execute. destruct (ensureAllowed tcx name); [apply go_rel_ret, _|].
  destruct (byName reg !! name) eqn:E; [by eapply Htools|apply go_rel_ret, _].
Qed.

Lemma run_batch_rel calls failed out : go_rel R (run_batch reg tcx opt calls failed out).
Proof.
  revert failed out. induction calls as [|tc calls IH]; intros failed out; [apply go_rel_ret, _|].
  cbn. apply go_rel_bind; [done|apply Execute_rel|]. intros r. apply IH.
Qed.

Lemma stream_call_rel req : go_rel R (stream_call streamer hooks req).
Proof.
  unfold stream_call. apply go_rel_bind; [done| |].
  - apply run_turn_rel; [done|]. intros f d s. unfold wrapDelta.
    destruct (OnTextDelta hooks) as [g|] eqn:E; [|done]. intros [= <-].
    apply go_rel_bind; [done|by eapply delta_rel|intros; apply go_rel_ret, _].
  - intros [got [resp|e]]; [|apply go_rel_ret, _]. apply go_rel_bind; [done| |intros _].
    + destruct (_ && _); [|apply go_rel_ret, _].
      destruct (OnTextDelta hooks) eqn:E; [by eapply delta_rel|apply go_rel_ret, _].
    + apply go_rel_bind; [done| |intros; apply go_rel_ret, _]. unfold call_hook.
      destruct (AfterAssistantComplete hooks) eqn:E; [by eapply after_rel|apply go_rel_ret, _].
Qed.

Lemma batch_hook_rel h ns :
  (∀ f ns, h = Some f → go_rel R (f ns)) → go_rel R (batch_hook h ns).
Proof.
  intros H. unfold batch_hook. destruct h as [f|]; [|apply go_rel_ret, _].
  case_decide; [apply go_rel_ret, _|by apply H].
Qed.

Lemma streamed_loop_rel n out failures :
  go_rel R (streamed_loop reg tcx opt streamer hooks n out failures).
Proof.
  revert out failures. induction n as [|n IH]; intros out failures; [apply go_rel_ret, _|].
  cbn. apply go_rel_bind; [done|apply go_rel_gets, _|intros defs].
  apply go_rel_bind; [done|apply stream_call_rel|intros [am|e]]; [|apply go_rel_ret, _].
  case_decide; [apply go_rel_ret, _|].
  apply go_rel_bind; [done|apply batch_hook_rel; intros; by eapply before_batch_rel|intros _].
  apply go_rel_bind; [done|apply run_batch_rel|intros [bf out']].
  apply go_rel_bind; [done|apply batch_hook_rel; intros; by eapply after_batch_rel|intros _].
  destruct bf; [|apply IH]. destruct (_ <=? _); [apply go_rel_ret, _|apply IH].
Qed.
End loop_rel.

(** Reading the clock for the hints of the recalled memories. *)
Lemma formatMemoryRecall_rel recs :
  (∀ w, R w (time_Now w).1) → go_rel R (formatMemoryRecall recs).
Proof.
  intros Hc. assert (∀ h t, go_rel R (hint_now (W := W) h t)) as Hh.
  { intros h t. unfold hint_now. destruct (IsZero t); [apply go_rel_ret, _|].
    apply go_rel_bind; [done|by apply go_rel_state|intros; apply go_rel_ret, _]. }
  unfold formatMemoryRecall. case_decide; [apply go_rel_ret, _|].
  apply go_rel_bind; [done| |intros; apply go_rel_ret, _]. generalize recall_header.
  induction recs as [|r recs IH]; intros b; [apply go_rel_ret, _|]. cbn.
  apply go_rel_bind; [done| |intros b'].
  - unfold recall_entry. do 2 (apply go_rel_bind; [done|apply Hh|intros ?]). apply go_rel_ret, _.
  - destruct recs; [apply go_rel_ret, _|]. by apply IH.
Qed.

(** A request whose parts respect the relation, in the session and tenant of the
    request. *)
Record request_rel (req : RunRequest W) : Prop := {
  profile_rel f sc : rq_Profile req = Some f → go_rel R (f sc);
  side_rel f sc q ns n : rq_SideQuery req = Some f → go_rel R (f sc q ns n);
  assembler_rel i : go_rel R (assembler_of req i);
  catalog_rel cat w ts t tcx input : rq_Catalog req = Some cat →
    cat (rq_AllowedSkillIDs req) w = Ok ts → t ∈ ts →
    cx_Scope tcx = rq_Scope req → cx_SessionID tcx = rq_SessionID req →
    go_rel R (t_Execute t tcx input);
  todo_rel st t tcx input : rq_TodoStore req = Some st → t ∈ BuiltinTools (Some st) →
    go_rel R (t_Execute t tcx input);
}.

Lemma PrepareLoop_rel req :
  request_rel req → (∀ w, R w (time_Now w).1) → go_rel R (PrepareLoop req).
Proof.
  intros Hr Hc. assert (go_rel R (fill_prompt req)) as Hfill.
  { unfold fill_prompt. apply go_rel_try; [done| |intros i].
    { destruct (rq_Profile req) eqn:E; [|apply go_rel_ret, _].
      apply go_rel_try; [done|by eapply profile_rel|intros; apply go_rel_ret, _]. }
    apply go_rel_try; [done| |intros i'].
    { destruct (rq_SideQuery req) eqn:E; [|apply go_rel_ret, _].
      apply go_rel_try; [done|by eapply side_rel|intros rec].
      apply go_rel_bind; [done|by apply formatMemoryRecall_rel|intros; apply go_rel_ret, _]. }
    destruct (rq_TodoStore req); [|apply go_rel_ret, _].
    apply go_rel_bind; [done|apply go_rel_gets, _|intros; apply go_rel_ret, _]. }
  unfold PrepareLoop. destruct (Validate _); [apply go_rel_ret, _|].
  destruct (rq_Catalog req); [|apply go_rel_ret, _].
  apply go_rel_try; [done..|intros i]. apply go_rel_try; [done|by apply assembler_rel|intros sys].
  destruct (default NoopCompactor _ _ _ _ _) as [[msgs rep]|e]; [|apply go_rel_ret, _].
  apply go_rel_bind; [done|apply go_rel_gets, _|intros sk]. repeat case_match; apply go_rel_ret, _.
Qed.

Lemma RunStreamedToolLoop_rel req streamer hooks :
  request_rel req → (∀ w, R w (time_Now w).1) → (∀ q has, turn_rel (streamer q has)) →
  hooks_rel hooks → go_rel R (RunStreamedToolLoop req streamer hooks).
Proof.
  intros Hr Hc Hs Hh. unfold RunStreamedToolLoop. apply go_rel_bind_run; [by apply PrepareLoop_rel|].
  intros w w' [prep|e] Ep; [|apply go_rel_ret, _].
  apply PrepareLoop_prepared in Ep as
    (cat & i & sys & tools & rep & w1 & _ & Hcat & _ & _ & _ & Ht & Hreg & _ & _ & Hsc & Hsid).
  apply go_rel_bind; [done| |intros r; destruct (lo_err r); apply go_rel_ret, _].
  apply streamed_loop_rel; [|done..]. intros n t input [Hin _]%(NewRegistry_lookup _ _ n t Hreg).
  apply elem_of_app in Hin as [Hin|Hin]; [by eapply catalog_rel|].
  destruct (rq_TodoStore req) as [st|] eqn:E; [by eapply todo_rel|].
  by apply not_elem_of_nil in Hin.
Qed.
End engine_rel.

(** A finer relation. *)
Section mono.
Context {W : Type} (R R' : relation W) (HR : ∀ w w', R w w' → R' w w').

Lemma go_rel_mono {A} (m : Go W A) : go_rel R m → go_rel R' m.
Proof. intros Hm w. apply HR, Hm. Qed.

Lemma turn_rel_mono {A} (t : StreamTurn W A) : turn_rel R t → turn_rel R' t.
Proof.
  induction t as [r|p|upd next IH|d next IH]; cbn; [done..| |done]. intros H w.
  destruct (H w). split; [by apply HR|by apply IH].
Qed.

Lemma hooks_rel_mono (h : StreamHooks W) : hooks_rel R h → hooks_rel R' h.
Proof. intros []. split; intros; apply go_rel_mono; eauto. Qed.
End mono.

(** ** The stores of a tenant *)

Section tenant.
Context `{UT : UnicodeTables} `{SS : SortSlice} `{TD : TodoDecoder} `{MC : MessageCodec}.
Context {W : Type} `{MO : MapOrder W} `{CL : Clock W} `{HS : HasSessions W} `{HO : Host W}.
Context `{EN : Environ W} {F : Type} `{SC : SkillCodec F}.
Context `{HL : HttpLib W} `{HH : HasHolder W} `{ID : ItemDecoder}.
Context `{FD : FrameDecoder} `{HG : HasGateway W} `{JL : JwtLib} `{UP : Upgrader}.
Context (pool : Pool W) (table view : W → list MemoryRecord) (like : gostring → gostring → bool).
Context (redis : W → RedisData).

(** The sessions, those of the process and those of the Redis server, are as they were. *)
Definition same_sessions (w w' : W) : Prop := sessions w' = sessions w ∧ redis w' = redis w.

(** And the memories. *)
Definition same_stores (w w' : W) : Prop := same_sessions w w' ∧ table w' = table w.

(** Only the sessions of the user and agent, whatever the client calls them, and only
    the memories of that tenant may have changed; well-formed memories stay so. *)
Definition stays_in (u a : gostring) (w w' : W) : Prop :=
  (∀ k, (∀ sid, k ≠ ScopedChatSessionKey u a sid) → sessions w' !! k = sessions w !! k) ∧
  (∀ k, (∀ sid, k ≠ key (ScopedChatSessionKey u a sid)) → redis w' !! k = redis w !! k) ∧
  keeps_outside (of_tenant u a) (table w) (table w') ∧
  (memory_wf (table w) → memory_wf (table w')).

#[local] Instance same_sessions_preorder : PreOrder same_sessions.
Proof. split; [by split|]. intros w1 w2 w3 [H1 H2] [H3 H4]. by split; etrans. Qed.

#[local] Instance same_stores_preorder : PreOrder same_stores.
Proof. split; [by split|]. intros w1 w2 w3 [H1 H2] [H3 H4]. by split; etrans. Qed.

#[local] Instance stays_in_preorder u a : PreOrder (stays_in u a).
Proof.
  split; [intros w; by split_and!|]. intros w1 w2 w3 (H1 & H1' & H2 & H3) (H4 & H4' & H5 & H6).
  split_and!; [intros k Hk; by rewrite H4, H1|intros k Hk; by rewrite H4', H1'|by etrans|auto].
Qed.

Lemma same_stays u a w w' : same_stores w w' → stays_in u a w w'.
Proof. intros [[H1 H2] H3]. unfold stays_in. by rewrite H1, H2, H3. Qed.

Lemma go_rel_same_stays {A} u a (m : Go W A) : go_rel same_stores m → go_rel (stays_in u a) m.
Proof. apply go_rel_mono. intros w w'. apply same_stays. Qed.

Lemma confined_stays {A} u a sid (m : Go W A) :
  go_rel same_sessions m →
  go_rel (λ w w', confined sid u a (table w) (table w')) m → go_rel (stays_in u a) m.
Proof.
  intros Hs Ht w. destruct (Ht w) as [H1 H2], (Hs w) as [Hs1 Hs2]. unfold stays_in.
  rewrite Hs1, Hs2. split_and!; [done..| |done]. eapply keeps_outside_mono; [|exact H1].
  intros r Hr. by apply andb_true_iff in Hr as [_ ?].
Qed.

(** What is outside the process's stores leaves them alone: the transport, the clock,
    the frames, the limiter's table, NATS, the todo store; the statements of the pool do
    not reach the sessions, which are in the process or on the Redis server, and those of
    the ledger not the memories either; a goroutine does what its body does. *)
Class Surroundings (usage : option (TokenUsageStore W)) (conn : option (NatsConn W))
    (todos : Planner.Store W) : Prop := {
  out_http t req : go_rel same_stores (http_Do t req);
  out_clock w : same_stores w (time_Now w).1;
  out_frame m : go_rel same_stores (write_json m);
  out_limiter p w : same_stores w (set_per_ip p w);
  out_nats c subj b : conn = Some c → go_rel same_stores (nc_Publish c subj b);
  out_replace sid ts w : same_stores w (st_ReplaceTasks todos sid ts w);
  out_mark sid i w : same_stores w (st_MarkDone todos sid i w).1;
  out_query sql args : go_rel same_sessions (pool_Query pool sql args);
  out_exec sql args : go_rel same_sessions (pool_Exec pool sql args);
  out_usage_pool p : usage_pool usage = Some p → p = pool;
  out_usage row :
    go_rel (λ w w', table w' = table w) (pool_Exec pool sql_usage_insert (row_args row));
  out_sessions m w : table (set_sessions m w) = table w ∧ redis (set_sessions m w) = redis w;
  out_spawn (Q : relation W) m w : PreOrder Q → go_rel Q m → Q w (go_spawn m w);
}.

(** A Redis client leaves the process and the database alone: a read changes nothing, and
    a pipeline, whether it succeeds or not, changes no other keys than those its commands
    name. *)
Class RedisApart (c : RedisClient W) : Prop := {
  apart_read k : go_rel same_stores (rc_LRangeAll c k);
  apart_exec cmds : go_rel (λ w w', sessions w' = sessions w ∧ table w' = table w ∧
    ∀ k, k ∉ cmd_key <$> cmds → redis w' !! k = redis w !! k) (rc_Exec c cmds);
}.

Context (usage : option (TokenUsageStore W)) (conn : option (NatsConn W))
  (todos : Planner.Store W) `{OU : !Surroundings usage conn todos}
  `{L : !PostgresLaws pool table view like}.

#[local] Instance process_ledger : Ledger W := RecordAsync usage.

Lemma record_same row w : same_stores w (record_usage row w).
Proof.
  unfold record_usage, process_ledger, RecordAsync.
  destruct (usage_pool usage) as [p|] eqn:E; [|done]. rewrite (out_usage_pool p E).
  apply out_spawn; [apply _|]. apply go_rel_discard; [apply _|].
  intros v. split; [apply out_exec|apply out_usage].
Qed.

Lemma send_same c p : go_rel same_stores (send c p).
Proof.
  unfold send. destruct (json_Payload p); [|apply go_rel_ret, _].
  destruct (http_NewRequest _); [apply go_rel_ret, _|apply out_http].
Qed.

Lemma emitUsage_same c ctx ch i m u w : same_stores w (emitUsage c ctx ch i m u w).
Proof. unfold emitUsage. destruct (usage_row _ _ _ _ _ _); [apply record_same|done]. Qed.

Lemma ChatTextOnly_same c ctx msgs n : go_rel same_stores (ChatTextOnly c ctx msgs n).
Proof.
  apply go_rel_try; [apply _|apply send_same|]. intros resp. cbv zeta.
  destruct (negb _); [apply go_rel_ret, _|].
  destruct (json_Completion _ _) as [res|e]; [|apply go_rel_ret, _].
  destruct (cc_Choices res); [apply go_rel_ret, _|]. intros w. apply emitUsage_same.
Qed.

Lemma read_loop_same c ctx fuel r st :
  turn_rel same_stores (read_loop (finish_stream c ctx) fuel r st).
Proof.
  revert r st. induction fuel as [|fuel IH]; intros r st; [done|]. cbn.
  destruct (ReadString r) as [[line r'] rerr].
  destruct (stream_line _ st) as [[v st'] d].
  assert (turn_rel same_stores (finish_stream c ctx st')) as Hf
    by (intros w; split; [apply emitUsage_same|done]).
  destruct rerr; destruct v, d; cbn; done || apply IH.
Qed.

Lemma bridge_same ctx req has :
  turn_rel same_stores (Bridge_CompleteStreamTurn (Some (HolderBridge ctx)) req has).
Proof.
  intros w. split; [done|]. unfold inner, HolderBridge. cbn [br_LLM].
  destruct (Holder_Load w) as [c|]; [|exact I]. cbn [fmap option_fmap option_map].
  do 2 apply (turn_rel_map same_stores).
  apply (turn_rel_go same_stores); [apply send_same|]. intros [resp|e]; [|exact I].
  destruct (negb _); [exact I|]. apply read_loop_same.
Qed.

(** ** The parts of a turn *)

Lemma pool_Query_same sql args : go_rel same_stores (pool_Query pool sql args).
Proof. intros w. split; [apply out_query|apply pg_Query_keeps]. Qed.

Lemma ReadForTenant_same pg u a q n :
  store_on pool pg → go_rel same_stores (ReadForTenant pg u a q n).
Proof.
  intros Hpg. unfold ReadForTenant. destruct (pool_of pg) as [p|] eqn:Ep; [|apply go_rel_ret, _].
  rewrite (Hpg p Ep). apply pool_Query_same.
Qed.

Lemma ListRecentForTenant_same pg u a n :
  store_on pool pg → go_rel same_stores (ListRecentForTenant pg u a n).
Proof.
  intros Hpg. unfold ListRecentForTenant.
  destruct (pool_of pg) as [p|] eqn:Ep; [|apply go_rel_ret, _].
  rewrite (Hpg p Ep). apply pool_Query_same.
Qed.

Lemma WriteScoped_sessions pg s u a c k x :
  store_on pool pg → go_rel same_sessions (WriteScoped pg s u a c k x).
Proof.
  intros Hpg. unfold WriteScoped. destruct (pool_of pg) as [p|] eqn:Ep; [|apply go_rel_ret, _].
  rewrite (Hpg p Ep). apply out_exec.
Qed.

Lemma WriteScoped_stays pg s u a c k x :
  store_on pool pg → cols_wf c k x → go_rel (stays_in u a) (WriteScoped pg s u a c k x).
Proof.
  intros Hpg Hc. apply (confined_stays u a s).
  - by apply WriteScoped_sessions.
  - by apply (WriteScoped_confined pool table view like).
Qed.

(** The extraction changes the world as the writes of its items do. *)
Section extraction.
Context (R : relation W) `{!PreOrder R} (HR : ∀ w w', same_stores w w' → R w w').
Context (pg : option (Pg.MemoryStore W)) (scope : TenantScope) (sid : gostring).
Hypothesis Hwrite : ∀ c k x, cols_wf c k x →
  go_rel R (WriteScoped pg sid (UserID scope) (AgentID scope) c k x).

Lemma write_items_rel items : go_rel R (write_items pg scope sid items).
Proof.
  induction items as [|it items IH]; [apply go_rel_ret, _|]. cbn.
  destruct (clean_item it) as [n|] eqn:E; [|done].
  apply go_rel_bind; [done| |intros [e|]; [apply go_rel_ret, _|done]].
  by eapply Hwrite, clean_item_wf.
Qed.

Lemma AfterTurn_rel e ctx turn : ex_PG e = pg → go_rel R (AfterTurn (Some e) ctx scope sid turn).
Proof.
  intros Hpg. unfold AfterTurn. case_decide; [apply go_rel_ret, _|].
  apply go_rel_bind; [done|apply go_rel_gets, _|]. intros [c|]; [|apply go_rel_ret, _].
  destruct (Validate scope); [apply go_rel_ret, _|]. cbv zeta.
  destruct (_ <? _); [apply go_rel_ret, _|].
  apply go_rel_bind; [done|by eapply go_rel_mono, ChatTextOnly_same|].
  intros [resp|err]; [|apply go_rel_ret, _].
  destruct (parseMemoryItems _); [rewrite Hpg; apply write_items_rel|apply go_rel_ret, _].
Qed.

Lemma post_turn_rel w0 ctx turn : go_rel R (post_turn usage pg w0 ctx scope sid turn).
Proof.
  unfold post_turn. destruct (_ && _); [|apply go_rel_ret, _]. by apply AfterTurn_rel.
Qed.
End extraction.

Lemma publisher_same publish subj b :
  publisher_of conn = Some publish → go_rel same_stores (publish subj b).
Proof.
  unfold publisher_of. destruct conn as [c|] eqn:Ec; [|done]. intros [= <-]. cbn.
  apply go_rel_bind; [apply _| |intros; apply go_rel_ret, _].
  apply go_rel_discard; [apply _|]. by eapply out_nats.
Qed.

Lemma catalog_same (R : relation W) `{!PreOrder R} mem ids w0 ts t tcx input :
  (∀ w w', same_stores w w' → R w w') → store_on pool mem →
  (∀ cat k x, cols_wf cat k x →
     go_rel R (WriteScoped mem (cx_SessionID tcx) (UserID (cx_Scope tcx)) (AgentID (cx_Scope tcx))
                 cat k x)) →
  ToolsForSkills {| ca_PG := mem; ca_NATS := publisher_of conn |} ids w0 = Ok ts → t ∈ ts →
  go_rel R (t_Execute t tcx input).
Proof.
  intros HR Hpg Hw Hts%ToolsForSkills_core Ht. rewrite Hts in Ht.
  refine (coreTools_rel R _ w0 t tcx input _ _ _ Ht); cbn; [| |exact Hw].
  - intros publish Hp subj b. by eapply go_rel_mono, publisher_same.
  - intros q n. by eapply go_rel_mono, ReadForTenant_same.
Qed.

Lemma todo_same t tcx input :
  t ∈ BuiltinTools (Some todos) → go_rel same_stores (t_Execute t tcx input).
Proof.
  intros [->|[->|[]%not_elem_of_nil]%elem_of_cons]%elem_of_cons w; cbn.
  - unfold updateTodo_Execute. destruct (unmarshal_tasks input); [apply out_replace|done].
  - unfold markDone_Execute. destruct (unmarshal_id input) as [id|]; [|done].
    pose proof (out_mark (cx_SessionID tcx) id w) as H.
    by destruct (st_MarkDone todos (cx_SessionID tcx) id w) as [w' [e|]].
Qed.

Lemma SelectForTurn_same pg sid extra scope q names n :
  store_on pool pg →
  go_rel same_stores (SelectForTurn (Some {| sq_PG := pg; sq_SessionID := sid; RecentExtra := extra |})
    scope q names n).
Proof.
  intros Hpg. unfold SelectForTurn. cbn [sq_PG]. destruct pg as [st|]; [|apply go_rel_ret, _].
  cbv zeta. apply go_rel_try; [apply _| |intros m].
  - case_decide; [apply go_rel_ret, _|]. apply go_rel_try; [apply _|by apply ReadForTenant_same|].
    intros; apply go_rel_ret, _.
  - apply go_rel_try; [apply _|by apply ListRecentForTenant_same|intros recent].
    apply go_rel_bind; [apply _|apply go_rel_gets, _|intros; apply go_rel_ret, _].
Qed.

Lemma chat_hooks_same sid : hooks_rel same_stores (chat_hooks sid ws_notifier).
Proof.
  split; cbn.
  - intros f d [= <-]. destruct (assistantDeltaIsInvisible d); [apply go_rel_ret, _|].
    apply go_rel_discard, out_frame. apply _.
  - intros m [= <-]. apply go_rel_discard, out_frame. apply _.
  - intros f ns [= <-]. case_decide; [apply go_rel_ret, _|]. apply go_rel_discard, out_frame. apply _.
  - intros f ns [= <-]. case_decide; [apply go_rel_ret, _|]. apply go_rel_discard, out_frame. apply _.
Qed.

(** ** Turns and connections *)

Section turns.
Context (mem : option (Pg.MemoryStore W)) (Hmem : store_on pool mem).
Context (dflt : TenantScope) (ss : Session.Store W) (Hss : ∀ c, Redis ss = Some c → RedisApart c).
Context (maxTurns maxBreaker : Z) (w0 : W).

Let chat : Service W := chat_service dflt conn mem usage ss todos maxTurns maxBreaker w0.

Lemma Append_stays u a sid msgs :
  go_rel (stays_in u a) (Append ss (ScopedChatSessionKey u a sid) msgs).
Proof.
  unfold Append. destruct (Redis ss) as [c|] eqn:Ec.
  - apply go_rel_bind; [apply _| |intros; apply go_rel_ret, _]. intros w.
    destruct (apart_exec (RedisApart := Hss c eq_refl)
      (push_all (key (ScopedChatSessionKey u a sid)) msgs ++
       bound_cmds ss (key (ScopedChatSessionKey u a sid))) w) as (H1 & H2 & H3).
    unfold appendRedis, stays_in. rewrite H1, H2. split_and!; [done| |done..].
    intros k Hk. apply H3, (write_cmds_key ss false), Hk.
  - intros w. cbn. unfold stays_in. rewrite sessions_set, (proj1 (out_sessions _ w)),
      (proj2 (out_sessions _ w)). split_and!; [|done|reflexivity|done].
    intros k Hk. rewrite mem_Append_other; [done|]. intros <-. by apply (Hk sid).
Qed.

Lemma Get_stays u a sid : go_rel (stays_in u a) (Get ss sid).
Proof.
  unfold Get. destruct (Redis ss) as [c|] eqn:Ec; [|apply go_rel_gets, _].
  apply go_rel_bind; [apply _|apply go_rel_same_stays, (apart_read (RedisApart := Hss c eq_refl))|].
  intros [raw|e]; apply go_rel_ret, _.
Qed.

Lemma clock_stays u a : go_rel (stays_in u a) (go_state time_Now).
Proof. apply go_rel_state. intros w. apply same_stays, out_clock. Qed.

Lemma service_parts :
  sv_PG chat = mem ∧ sv_NATS chat = publisher_of conn ∧ sv_Todos chat = todos ∧
  sv_Scope chat = dflt ∧ sv_Sessions chat = ss ∧ sv_PostTurn chat = Some (post_turn usage mem w0) ∧
  (∀ ctx, sv_Bridge chat ctx = Some (HolderBridge (LG := RecordAsync usage) ctx)) ∧
  (∀ h, sv_RuntimeHint chat = Some h → ∃ t, h = mret t).
Proof.
  unfold chat, chat_service. destruct (compaction_from_env w0). split_and!; [done..|].
  cbn. intros h. case_decide; [done|]. intros [= <-]. by eexists.
Qed.

(** The engine's part of a turn: a relation that holds when nothing happened to the
    stores, and of the writes of the tools. *)
Lemma engine_same (R : relation W) `{!PreOrder R} scope key requestID rules persona ctx history tail
    sid :
  (∀ w w', same_stores w w' → R w w') →
  (∀ cat k x, cols_wf cat k x →
     go_rel R (WriteScoped mem key (UserID scope) (AgentID scope) cat k x)) →
  go_rel R (RunStreamedToolLoop
    (chat_request chat scope key requestID rules persona (sv_Bridge chat ctx) history tail)
    (Bridge_CompleteStreamTurn (sv_Bridge chat ctx)) (chat_hooks sid ws_notifier)).
Proof.
  intros HR Hw. destruct service_parts as (Hp & Hn & Ht & _ & _ & _ & Hb & _).
  rewrite Hb. apply RunStreamedToolLoop_rel; [done| | | |].
  - split; cbn; rewrite ?Hp, ?Hn, ?Ht.
    + done.
    + intros f sc q ns n [= <-]. apply (go_rel_mono same_stores); [done|].
      destruct mem as [st|]; [by apply SelectForTurn_same|apply go_rel_panic, _].
    + intros i. apply go_rel_ret, _.
    + intros cat w ts t tcx input [= <-] Hts Hin Hsc Hsid.
      eapply catalog_same; [done..| | exact Hts|exact Hin]. by rewrite Hsc, Hsid.
    + intros st t tcx input [= <-] Hin. by eapply go_rel_mono, todo_same.
  - intros w. apply HR, out_clock.
  - intros q has. by eapply turn_rel_mono, bridge_same.
  - by eapply hooks_rel_mono, chat_hooks_same.
Qed.

Lemma finish_turn_stays scope sid requestID delta final :
  go_rel (stays_in (UserID scope) (AgentID scope))
    (finish_turn chat scope sid (ScopedChatSessionKey (UserID scope) (AgentID scope) sid)
       requestID ws_notifier delta final).
Proof.
  destruct service_parts as (_ & _ & _ & _ & Hs & Hp & _).
  unfold finish_turn. rewrite Hs, Hp.
  apply go_rel_bind; [apply _| |intros _].
  { destruct (wroteAssistant final delta); [apply go_rel_ret, _|].
    apply go_rel_discard; [apply _|]. apply go_rel_same_stays, out_frame. }
  apply go_rel_bind; [apply _| |intros _].
  { destruct (0 <? len delta); [apply Append_stays|apply go_rel_ret, _]. }
  apply go_rel_bind; [apply _| |intros _; apply go_rel_ret, _].
  destruct (0 <? len delta); [|apply go_rel_ret, _]. intros w. unfold go_stmt. cbn.
  apply out_spawn; [apply _|].
  apply go_rel_discard; [apply _|]. apply post_turn_rel; [apply _|intros; by apply same_stays|].
  intros c k x. by apply WriteScoped_stays.
Qed.

Lemma ChatStream_stays ctx sid text sc :
  let scope := conn_scope dflt sc in
  go_rel (stays_in (UserID scope) (AgentID scope)) (ChatStream chat ctx sid text ws_notifier sc).
Proof.
  intros scope.
  destruct service_parts as (_ & _ & _ & Hd & Hs & _ & _ & Hh).
  unfold ChatStream. cbv zeta. rewrite Hd, Hs. fold scope.
  destruct (Validate scope); [apply go_rel_ret, _|].
  apply go_rel_bind; [apply _|apply Append_stays|intros _].
  apply go_rel_bind; [apply _|apply Get_stays|intros full].
  destruct (last full) as [tail|]; [|apply go_rel_ret, _].
  apply go_rel_bind; [apply _| |intros hint].
  { destruct (sv_RuntimeHint chat) as [h|]; [|apply go_rel_ret, _].
    destruct (Hh h eq_refl) as [t ->]. apply go_rel_bind; [apply _|apply go_rel_ret, _|].
    intros; apply go_rel_ret, _. }
  do 2 (apply go_rel_bind; [apply _|apply clock_stays|intros ?]).
  apply go_rel_bind; [apply _| |intros [[[out pre] final] [e|]]; [apply go_rel_ret, _|]].
  - apply engine_same; [apply _|intros; by apply same_stays|].
    intros cat k x. by apply WriteScoped_stays.
  - apply go_rel_bind; [apply _| |intros delta; apply finish_turn_stays].
    unfold slice_from. destruct (_ && _); [apply go_rel_ret, _|apply go_rel_panic, _].
Qed.

Lemma handle_message_stays s ctx sc ip data :
  let scope := conn_scope dflt sc in
  go_rel (stays_in (UserID scope) (AgentID scope)) (handle_message s chat ctx sc ip data).
Proof.
  intros scope. unfold handle_message.
  assert (∀ sid t, go_rel (stays_in (UserID scope) (AgentID scope)) (reply sid t)) as Hreply.
  { intros sid t. apply go_rel_discard; [apply _|]. apply go_rel_same_stays, out_frame. }
  apply go_rel_bind; [apply _| |intros ok].
  { destruct (se_msgRate s) as [max|]; [|apply go_rel_ret, _].
    apply go_rel_bind; [apply _|apply clock_stays|intros now].
    apply go_rel_state; intros w. destruct (allow _ _ _ _). apply same_stays, out_limiter. }
  destruct (negb ok); [done|]. unfold dispatch. destruct (unmarshal_user_message data); [|done].
  repeat case_match; try done.
  apply go_rel_bind; [apply _|apply ChatStream_stays|].
  intros [e|]; [done|apply go_rel_ret, _].
Qed.

Lemma handle_messages_stays s ctx sc ip frames :
  let scope := conn_scope dflt sc in
  go_rel (stays_in (UserID scope) (AgentID scope)) (handle_messages s chat ctx sc ip frames).
Proof.
  intros scope. induction frames as [|data frames IH]; [apply go_rel_ret, _|]. cbn.
  apply go_rel_bind; [apply _|apply handle_message_stays|intros _; exact IH].
Qed.
End turns.
End tenant.

(** ** Properties *)

Section properties.
Context `{UT : UnicodeTables} `{SS : SortSlice} `{TD : TodoDecoder} `{MC : MessageCodec}.
Context {W : Type} `{MO : MapOrder W} `{CL : Clock W} `{HS : HasSessions W} `{HO : Host W}.
Context `{EN : Environ W} {F : Type} `{SC : SkillCodec F}.
Context `{HL : HttpLib W} `{HH : HasHolder W} `{ID : ItemDecoder}.
Context `{FD : FrameDecoder} `{HG : HasGateway W} `{JL : JwtLib} `{UP : Upgrader}.

(** The memories of a user, with any agent. *)
Definition of_user (u : gostring) (tbl : list MemoryRecord) : list MemoryRecord :=
  filter (λ r, mr_UserID r = u) tbl.

(** The user of a connection that was authenticated with a token. *)
Lemma conn_scope_jwt dflt c n :
  sc_UserID c = FormatInt n → UserID (conn_scope dflt c) = FormatInt n.
Proof.
  intros H. unfold conn_scope, override. cbn. rewrite H, TrimSpace_FormatInt.
  by rewrite decide_False by apply FormatInt_nonempty.
Qed.

(** No session of another user is one of the user's, when the ids hold no separator. *)
Lemma session_key_user u a v b sid sid' :
  x1f ∉ u → x1f ∉ v → v ≠ u → ScopedChatSessionKey v b sid ≠ ScopedChatSessionKey u a sid'.
Proof.
  intros Hu Hv Hne E. apply Hne. unfold ScopedChatSessionKey in E. cbn in E.
  by destruct (cut_inj _ _ _ _ _ Hv Hu E).
Qed.

Lemma stays_in_sessions table redis u a (w w' : W) v b sid :
  x1f ∉ u → x1f ∉ v → v ≠ u → stays_in table redis u a w w' →
  mem_Get (sessions w') (ScopedChatSessionKey v b sid) =
    mem_Get (sessions w) (ScopedChatSessionKey v b sid) ∧
  redis w' !! key (ScopedChatSessionKey v b sid) = redis w !! key (ScopedChatSessionKey v b sid).
Proof.
  intros Hu Hv Hne (H & Hr & _). unfold mem_Get. rewrite H, Hr; [done|..].
  - intros sid' E%key_inj. by apply (session_key_user u a v b sid sid').
  - intros sid'. by apply session_key_user.
Qed.

Lemma stays_in_memories table redis u a (w w' : W) v :
  v ≠ u → stays_in table redis u a w w' → of_user v (table w') ≡ₚ of_user v (table w).
Proof.
  intros Hne (_ & _ & H & _). unfold keeps_outside in H.
  assert (∀ t, of_user v t = of_user v (filter (λ r, of_tenant u a r = false) t)) as He.
  { intros t. symmetry. apply list_filter_filter_l. intros r Hr. unfold of_tenant.
    by rewrite bool_decide_eq_false_2 by congruence. }
  rewrite (He (table w')), (He (table w)). unfold of_user. by rewrite H.
Qed.

(** C6: a connection opened with a token acts for the user of the token, and for no
    other: in JWT mode, whatever the query of the upgrade says, whatever frames the
    client sends, whatever the model answers and the tools are asked, and however the
    connection ends, panics included, the rows of every other user in the long-term memory
    are as they were, and a well-formed memory stays so; and so is the short-term memory,
    in the process or on the Redis server, of every other user (with any agent and
    session) whose id holds no separator (byte 0x1f): every user a token can name is one,
    its id being a number, and without the condition another user's session can have the
    same key ([session_key_collision]).  This goes through the gateway, the turn, the
    engine, the tools, the model client, the ledger and the extraction after the turn. *)
Theorem jwt_connection_confined (pool : Pool W) (table view : W → list MemoryRecord)
    (like : gostring → gostring → bool) (redis : W → RedisData)
    (usage : option (TokenUsageStore W)) (conn : option (NatsConn W)) (todos : Planner.Store W)
    (OU : Surroundings pool table redis usage conn todos) (L : PostgresLaws pool table view like)
    (mem : option (Pg.MemoryStore W)) (dflt : TenantScope) (ss : Session.Store W)
    (maxTurns maxBreaker : Z) (w0 : W) (srv : Server) (now : Time) (r : Request)
    (sc : StreamConn) (ip : gostring) (ctx : ChatCtx) (frames : list gostring)
    (w w' : W) (o : outcome unit) :
  store_on pool mem → (∀ c, Redis ss = Some c → RedisApart table redis c) →
  se_authMode srv = AuthJWT → handle_upgrade srv now r = Connected sc ip →
  handle_messages srv (chat_service dflt conn mem usage ss todos maxTurns maxBreaker w0)
    ctx sc ip frames w = (w', o) →
  ∃ raw tok,
    accepted_token now (se_jwtKey srv) raw tok ∧
    let u := FormatInt (jt_ID tok) in
    (∀ v, v ≠ u → of_user v (table w') ≡ₚ of_user v (table w)) ∧
    (memory_wf (table w) → memory_wf (table w')) ∧
    (∀ v b sid, v ≠ u → x1f ∉ v →
       let k := ScopedChatSessionKey v b sid in
       mem_Get (sessions w') k = mem_Get (sessions w) k ∧
       redis w' !! key k = redis w !! key k) ∧
    (∀ n, x1f ∉ FormatInt n).
Proof.
  intros Hmem Hss Hjwt Hup E. apply handle_upgrade_Connected in Hup as (Ha & _).
  unfold entitled in Ha. rewrite Hjwt in Ha. destruct Ha as (_ & raw & tok & _ & Ht & Hu).
  exists raw, tok. split; [done|]. intros u.
  pose proof (handle_messages_stays pool table view like redis usage conn todos mem Hmem dflt ss Hss
    maxTurns maxBreaker w0 srv ctx sc ip frames w) as H.
  rewrite E, (conn_scope_jwt dflt sc (jt_ID tok)) in H by by rewrite Hu.
  split_and!; [|apply H| |intros n; apply FormatInt_no_separator].
  - intros v Hne. by eapply stays_in_memories.
  - intros v b sid Hne Hsep. eapply stays_in_sessions; [apply FormatInt_no_separator|done..].
Qed.
End properties.

(** ** Witnesses and examples *)

#[local] Existing Instance ascii_tables.
#[local] Existing Instance merge_SortSlice.
#[local] Existing Instance sample_decoder.
#[local] Existing Instance sample_codec.
#[local] Existing Instance zero_clock.
#[local] Existing Instance sample_skill_codec.
#[local] Existing Instance sample_items.
#[local] Existing Instance sample_jwt.
#[local] Existing Instance sample_upgrader.
#[local] Existing Instance sample_frames.

(** A process with a database, sessions, a Redis server, a limiter and the frames it
    sent. *)
Record Office := {
  of_db : DbState;
  of_sessions : Sessions;
  of_redis : RedisData;
  of_held : option Client;
  of_ips : PerIP;
  of_frames : list ServerMessage;
}.

#[local] Instance Office_db : HasDb Office.
Proof.
  by refine {| get_db := of_db; set_db d w := {| of_db := d; of_sessions := of_sessions w;
    of_redis := of_redis w; of_held := of_held w; of_ips := of_ips w; of_frames := of_frames w |} |}.
Defined.

#[local] Instance Office_sessions : HasSessions Office.
Proof.
  by refine {| sessions := of_sessions; set_sessions s w := {| of_db := of_db w; of_sessions := s;
    of_redis := of_redis w; of_held := of_held w; of_ips := of_ips w; of_frames := of_frames w |} |}.
Defined.

Definition set_redis (d : RedisData) (w : Office) : Office :=
  {| of_db := of_db w; of_sessions := of_sessions w; of_redis := d; of_held := of_held w;
     of_ips := of_ips w; of_frames := of_frames w |}.

#[local] Instance Office_holder : HasHolder Office.
Proof.
  by refine {| held := of_held; set_held c w := {| of_db := of_db w; of_sessions := of_sessions w;
    of_redis := of_redis w; of_held := c; of_ips := of_ips w; of_frames := of_frames w |} |}.
Defined.

#[local] Instance Office_gateway : HasGateway Office :=
  {| per_ip := of_ips;
     set_per_ip p w := {| of_db := of_db w; of_sessions := of_sessions w; of_redis := of_redis w;
       of_held := of_held w; of_ips := p; of_frames := of_frames w |};
     write_json m w := ({| of_db := of_db w; of_sessions := of_sessions w; of_redis := of_redis w;
       of_held := of_held w; of_ips := of_ips w; of_frames := of_frames w ++ [m] |}, Done None) |}.

#[local] Instance Office_environ : Environ Office := λ _, ∅.

#[local] Instance Office_host : Host Office :=
  {| GOOS := "linux"; GOARCH := "amd64"; format_RFC3339 := FormatInt; format_request := FormatInt;
     go_spawn := λ m w, (m w).1 |}.

(** A model that streams one sentence, and finds one fact worth keeping. *)
#[local] Instance Office_http : HttpLib Office :=
  {| json_Payload := λ p, Ok (py_Model p); http_NewRequest := λ _, None;
     http_Do := λ _ _, mret (Ok {| hp_Status := 200; hp_End := None;
       hp_Chunks := ["data: Noted: you live in Paris now, and I call you Ada from now on, as you asked."] |});
     json_Completion := λ _ _, Ok {| cc_ID := "id"; cc_Model := [];
       cc_Choices := [plain_message RoleAssistant "[user/city/Paris]"]; cc_Usage := None |};
     json_Chunk := λ s, Some (text_event s); json_Object := λ _, None |}.

(** A session of user 8, in the process and on the server. *)
Definition office : Office :=
  {| of_db := sample_db;
     of_sessions := {[ ScopedChatSessionKey "8" "a" "s" := [user_message "secret"] ]};
     of_redis := {[ key (ScopedChatSessionKey "8" "a" "s") := ["secret"] ]};
     of_held := Some sample_client; of_ips := ∅; of_frames := [] |}.

(** The server runs every command. *)
Definition office_redis : RedisClient Office :=
  {| rc_Get := λ _, mret (Ok None);
     rc_LRangeAll := λ k w, (w, Done (Ok (default [] (of_redis w !! k))));
     rc_Exec := λ cmds w, (set_redis (foldl redis_step (of_redis w) cmds) w, Done None) |}.

Definition office_scope : TenantScope := {| UserID := "u"; AgentID := "a" |}.

Definition office_usage : option (TokenUsageStore Office) := NewTokenUsageStore (Some db_pool).

#[local] Instance office_outside :
  Surroundings db_pool db_table of_redis office_usage None (no_todos (W := Office)).
Proof.
  split; try (intros; done).
  - intros sql args w. cbn. by destruct (exec_rows _ _ _ _).
  - by intros p [= <-].
Qed.

Lemma redis_step_other c d k : k ≠ cmd_key c → redis_step d c !! k = d !! k.
Proof.
  intros Hk. assert (∀ l k', k ≠ k' → put_list k' l d !! k = d !! k) as Hp.
  { intros l k' Hne. unfold put_list. case_decide; [by rewrite lookup_delete_ne|].
    by rewrite lookup_insert_ne. }
  destruct c; cbn in *; [by rewrite lookup_delete_ne|by apply Hp..|done].
Qed.

Lemma office_redis_apart : RedisApart (db_table (W := Office)) of_redis office_redis.
Proof.
  split; [by intros k w|]. intros cmds w. split_and!; [done..|]. cbn. intros k.
  generalize (of_redis w). induction cmds as [|c cmds IH]; intros d Hk; [done|].
  cbn in *. apply not_elem_of_cons in Hk as [Hk Hks]. rewrite IH by done. by apply redis_step_other.
Qed.

(** User 7 asks to be user 8, with the sessions in the process and with the sessions on
    the server: the chat of user 8 and the rows of user [u] stay as they were, while the
    turn and the fact it contained are stored for user 7. *)
Lemma jwt_connection_confined_witness :
  let srv := NewServer sample_config in
  let r := {| r_Header := r_Header (sample_request_headers "https://b.example");
              r_Query := λ q, if decide (q = "user_id") then "8" else [];
              r_RemoteAddr := "[::1]:5000" |} in
  let sc := {| sc_UserID := "7"; sc_AgentID := []; sc_Persona := []; sc_OperatorRole := [];
               sc_Model := [] |} in
  let frames := ["user_message|s|I moved to Paris last week, and you can call me Ada from now on"] in
  let run c := (handle_messages srv (chat_service office_scope None db_store office_usage
                {| Redis := c; MaxMessages := 60; TTL := 0 |} no_todos 8 3 office)
                no_ctx sc "::1" frames office).1 in
  columns (of_db (run None)) =
    columns (of_db office) ++ [(ScopedChatSessionKey "7" "a" "s", "user", "city", "Paris")] ∧
  tm_Role <$> mem_Get (of_sessions (run None)) (ScopedChatSessionKey "7" "a" "s") =
    [RoleUser; RoleAssistant] ∧
  mem_Get (of_sessions (run None)) (ScopedChatSessionKey "8" "a" "s") = [user_message "secret"] ∧
  of_user "u" (d_rows (of_db (run None))) ≡ₚ of_user "u" (d_rows (of_db office)) ∧
  length <$> (of_redis (run (Some office_redis)) !! key (ScopedChatSessionKey "7" "a" "s")) =
    Some 2%nat ∧
  of_redis (run (Some office_redis)) !! key (ScopedChatSessionKey "8" "a" "s") = Some ["secret"].
Proof.
  intros srv r sc frames run. split; [vm_compute; reflexivity|].
  split; [vm_compute; reflexivity|].
  assert (handle_upgrade srv 50 r = Connected sc "::1") as Hup by (vm_compute; reflexivity).
  assert (store_on (W := Office) db_pool db_store) as Hst by by intros p [= <-].
  pose proof (λ c Hc, jwt_connection_confined db_pool db_table db_view Contains of_redis office_usage
    None no_todos office_outside db_pool_laws db_store office_scope
    {| Redis := c; MaxMessages := 60; TTL := 0 |} 8 3 office srv 50 r sc "::1" no_ctx frames office
    _ _ Hst Hc eq_refl Hup (surjective_pairing _)) as H.
  assert (∀ tok raw, accepted_token 50 (se_jwtKey srv) raw tok → FormatInt (jt_ID tok) = "7") as Hu.
  { intros tok raw [Hp _]. cbn in Hp. case_decide; [|done]. by injection Hp as <-. }
  destruct (H None) as (raw & tok & Ht & Hm & _ & Hs & _); [by intros c [=]|].
  destruct (H (Some office_redis)) as (raw' & tok' & Ht' & _ & _ & Hs' & _);
    [intros c [= <-]; exact office_redis_apart|].
  rewrite (Hu _ _ Ht) in Hs, Hm. rewrite (Hu _ _ Ht') in Hs'. split_and!.
  - refine (proj1 (Hs "8" "a" "s" _ _)); refine (bool_decide_unpack _ _); exact I.
  - refine (Hm "u" _). done.
  - vm_compute. reflexivity.
  - refine (proj2 (Hs' "8" "a" "s" _ _)); refine (bool_decide_unpack _ _); exact I.
Defined.
