(* ===== verification/Turns.v ===== *)
(** * Concurrent turns

    Every connection runs its turns in a goroutine of its own, and all share the session
    store, whose methods are atomic ([Locks]) but which a turn calls three times: it
    appends the user's message, reads the history back, and appends the messages of the
    engine ([ChatStream] in [runtime/service.go]).  Here a turn is a program of such
    calls ([turns]); [turn_refines] says that this is what [ChatStream] does, and the other
    theorems say what any number of concurrent connections do to the histories. *)

From S2P Require Import Prelude Goroutine GoString Identity Transcript Compaction Tools Planner.
From S2P Require Import Llm Loop Memory Prompt Engine Env Adapter Session Pg Usage PgStore Skills.
From S2P Require Import Client Memorywork Config Runtime Gateway Locks Main Tenancy.
Open Scope Z_scope.

(** ** A conversation *)

(** The user, the agent and the client's session of a chat. *)
Definition chat_id : Type := gostring * gostring * gostring.

Definition chat_key (x : chat_id) : gostring := ScopedChatSessionKey x.1.1 x.1.2 x.2.

(** The turns of a connection: the chat and the text of each, what the engine makes of
    the history it is given (nothing when it fails), and the turns after it. *)
Inductive conversation :=
| Hangup
| Turn (x : chat_id) (text : gostring) (engine : list TMessage → option (list TMessage))
    (next : list TMessage → conversation).

(** What [ChatStream] asks of the session store. *)
Fixpoint turns (c : conversation) : prog SessionOp session_res :=
  match c with
  | Hangup => Exit
  | Turn x text engine next =>
      Call (SessionAppend (chat_key x) [user_message text]) (λ _,
      Call (SessionGet (chat_key x)) (λ full,
        match engine full with
        | None => turns (next full)
        | Some delta =>
            if 0 <? len delta then
              Call (SessionAppend (chat_key x) delta) (λ _, turns (next full))
            else turns (next full)
        end))
  end.

(** The chats of a conversation. *)
Fixpoint chats_in (X : gset chat_id) (c : conversation) : Prop :=
  match c with
  | Hangup => True
  | Turn x _ _ next => x ∈ X ∧ ∀ full, chats_in X (next full)
  end.

(** The messages the calls append to a session. *)
Definition appended (k : gostring) (tr : list (nat * SessionOp)) : list TMessage :=
  mjoin ((λ l, match l.2 with
               | SessionAppend k' msgs => if decide (k' = k) then msgs else []
               | _ => []
               end) <$> tr).

(** ** Lemmas *)

Definition op_key (o : SessionOp) : gostring :=
  match o with SessionGet k | SessionAppend k _ | SessionReplace k _ => k end.

(** Every call of a program is on one of the keys and is not a [Replace]. *)
Fixpoint calls_on (K : gostring → Prop) (p : prog SessionOp session_res) : Prop :=
  match p with
  | Exit => True
  | Call o k => K (op_key o) ∧ (∀ sid msgs, o ≠ SessionReplace sid msgs) ∧ ∀ a, calls_on K (k a)
  end.

Lemma turns_on X c : chats_in X c → calls_on (λ k, ∃ x, x ∈ X ∧ k = chat_key x) (turns c).
Proof.
  induction c as [|x text engine next IH]; [done|]. intros [Hx Hn]. cbn.
  assert (∃ x', x' ∈ X ∧ chat_key x = chat_key x') as Hk by eauto.
  split_and!; [exact Hk|done|]. intros _. split_and!; [exact Hk|done|]. intros full.
  destruct (engine full) as [delta|]; [|by apply IH].
  destruct (0 <? len delta); [|by apply IH]. split_and!; [exact Hk|done|]. intros _. by apply IH.
Qed.

Section store.
Context (max : Z).
Let L : Locked Sessions SessionOp session_res := session_store max.

(** The two states agree on the keys. *)
Definition agree (K : gostring → Prop) (m m' : Sessions) : Prop := ∀ k, K k → m !! k = m' !! k.

Lemma trimLocked_agree k m m' :
  m !! k = m' !! k → trimLocked max k m !! k = trimLocked max k m' !! k.
Proof.
  intros H. unfold trimLocked. cbn zeta. assert (mem_Get m k = mem_Get m' k) as ->
    by (unfold mem_Get; by rewrite H).
  destruct (max <=? 0); [done|]. destruct (_ <=? max); [done|]. by rewrite !lookup_insert_eq.
Qed.

Lemma spec_agree o m m' :
  m !! op_key o = m' !! op_key o →
  (session_spec max o m).1 !! op_key o = (session_spec max o m').1 !! op_key o ∧
  (session_spec max o m).2 = (session_spec max o m').2.
Proof.
  intros H. assert (mem_Get m (op_key o) = mem_Get m' (op_key o)) as Hg
    by (unfold mem_Get; by rewrite H).
  destruct o as [k|k msgs|k msgs]; cbn in *; [done|..]; (split; [|done]).
  - unfold mem_Append. rewrite Hg. apply trimLocked_agree. by rewrite !lookup_insert_eq.
  - apply trimLocked_agree. by rewrite !lookup_insert_eq.
Qed.

Lemma spec_other o m k : k ≠ op_key o → (session_spec max o m).1 !! k = m !! k.
Proof.
  intros H. destruct o as [k'|k' msgs|k' msgs]; cbn in *; [done|by rewrite mem_Append_other|].
  unfold mem_Replace, trimLocked. cbn zeta. repeat case_match; by rewrite ?lookup_insert_ne.
Qed.

Lemma spec_agree_on (K : gostring → Prop) o m m' :
  K (op_key o) → agree K m m' → agree K (session_spec max o m).1 (session_spec max o m').1.
Proof.
  intros Ho H k Hk. destruct (decide (k = op_key o)) as [->|Hne].
  - by apply spec_agree, H.
  - rewrite !spec_other by done. by apply H.
Qed.

(** A program on the keys only depends on them. *)
Lemma alone_agree K p m m' :
  calls_on K p → agree K m m' → agree K (alone (L := L) p m) (alone (L := L) p m').
Proof.
  revert m m'. induction p as [|o k IH]; intros m m' Hp H; [done|]. destruct Hp as (Ho & _ & Hk).
  cbn. destruct (spec_agree o m m') as [_ <-]; [by apply H|]. apply IH; [done|].
  by apply spec_agree_on.
Qed.

(** While other goroutines call on other keys, what a goroutine will do alone is the
    same. *)
Lemma calls_agree (K : nat → gostring → Prop) x tr x' :
  calls (L := L) x tr x' → (∀ i j k, K i k → K j k → i = j) →
  (∀ i p, x.2 !! i = Some p → calls_on (K i) p) →
  ∀ i p, x.2 !! i = Some p → ∃ p', x'.2 !! i = Some p' ∧
    agree (K i) (alone (L := L) p x.1) (alone (L := L) p' x'.1).
Proof.
  intros H Hd. induction H as [x|[j o] tr x x1 x' (k & Hj & E) _ IH]; intros Hon i p Hp.
  { by exists p. }
  cbn [fst snd] in Hj, E. destruct (Hon _ _ Hj) as (Ho & _ & Hk).
  assert (x1 = ((session_spec max o x.1).1, <[j := k (session_spec max o x.1).2]> x.2)) as ->.
  { change (op_spec o x.1) with (session_spec max o x.1) in E.
    by destruct (session_spec max o x.1). }
  clear E. cbn [fst snd] in IH. destruct (IH) with (i := i)
    (p := if decide (j = i) then k (session_spec max o x.1).2 else p) as (p' & Hp' & Ha).
  - intros i' q Hi. destruct (decide (j = i')) as [<-|Hne].
    + rewrite list_lookup_insert_eq in Hi by by eapply lookup_lt_Some. injection Hi as <-.
      apply Hk.
    + rewrite list_lookup_insert_ne in Hi by done. by apply Hon.
  - case_decide as Hji; [|by rewrite list_lookup_insert_ne]. subst.
    apply list_lookup_insert_eq. by eapply lookup_lt_Some.
  - exists p'. split; [done|]. case_decide as Hji.
    + subst. simplify_eq. exact Ha.
    + intros κ Hκ. rewrite <- Ha by done. symmetry. apply alone_agree with (K := K i); [by apply Hon| |done].
      intros κ' Hκ'. apply spec_other. intros ->. destruct Hji. by eapply Hd.
Qed.
End store.

(** ** The history of a chat *)

Lemma bounded_bounded {A} max (l k : list A) : bounded max (bounded max l ++ k) = bounded max (l ++ k).
Proof.
  unfold bounded. destruct (Z.leb_spec max 0); [done|].
  set (n := Z.to_nat (len l - max)). assert (n ≤ length l)%nat as Hn by (unfold n, len; lia).
  rewrite <- (drop_app_le l k n Hn), drop_drop. f_equal.
  unfold len. rewrite length_drop, !length_app. unfold n, len in *. lia.
Qed.

Lemma spec_bounded max o m k :
  (∀ sid msgs, o ≠ SessionReplace sid msgs) → bounded max (mem_Get m k) = mem_Get m k →
  mem_Get (session_spec max o m).1 k = bounded max (mem_Get m k ++ appended k [(0%nat, o)]).
Proof.
  intros Hr Hb. unfold appended. destruct o as [k'|k' msgs|k' msgs]; cbn; [|case_decide as Hk|by destruct (Hr k' msgs)].
  - by rewrite app_nil_r.
  - subst. by rewrite mem_Append_lookup, app_nil_r.
  - rewrite !app_nil_r, Hb. unfold mem_Get. by rewrite mem_Append_other.
Qed.

Lemma appended_cons k l tr : appended k (l :: tr) = appended k [(0%nat, l.2)] ++ appended k tr.
Proof. unfold appended. cbn. by rewrite app_nil_r. Qed.

(** No call is lost: the history is the window on everything that was appended. *)
Lemma calls_log max x tr x' k :
  calls (L := session_store max) x tr x' →
  (∀ i p, x.2 !! i = Some p → ∃ K, calls_on K p) →
  bounded max (mem_Get x.1 k) = mem_Get x.1 k →
  mem_Get x'.1 k = bounded max (mem_Get x.1 k ++ appended k tr).
Proof.
  induction 1 as [x|[j o] tr x x1 x' (q & Hj & E) _ IH]; intros Hon Hb; [by rewrite app_nil_r|].
  cbn [fst snd] in Hj, E. destruct (Hon _ _ Hj) as (K & Ho & Hr & Hk).
  assert (x1 = ((session_spec max o x.1).1, <[j := q (session_spec max o x.1).2]> x.2)) as ->.
  { change (op_spec o x.1) with (session_spec max o x.1) in E.
    by destruct (session_spec max o x.1). }
  cbn [fst snd] in IH. rewrite IH; [|intros i p Hi|]; rewrite ?(spec_bounded max o x.1 k Hr Hb).
  - by rewrite bounded_bounded, (appended_cons k (j, o) tr), app_assoc.
  - destruct (decide (j = i)) as [<-|Hne].
    + rewrite list_lookup_insert_eq in Hi by by eapply lookup_lt_Some. injection Hi as <-.
      exists K. apply Hk.
    + rewrite list_lookup_insert_ne in Hi by done. by eapply Hon.
  - pose proof (bounded_bounded max (mem_Get x.1 k ++ appended k [(0%nat, o)]) []) as Hbb.
    by rewrite !app_nil_r in Hbb.
Qed.

(** A chat whose user and agent ids hold no separator.  Such chats, when they differ, have
    different keys. *)
Definition plain (x : chat_id) : Prop := (x1f ∉ x.1.1) ∧ (x1f ∉ x.1.2).

Lemma chat_key_inj x y : plain x → plain y → chat_key x = chat_key y → x = y.
Proof.
  destruct x as [[u a] s], y as [[u' a'] s']. cbn. intros [? ?] [? ?] E.
  apply ScopedChatSessionKey_inj in E as (-> & -> & ->); done.
Qed.

(** ** Properties *)

Section properties.
Context `{UT : UnicodeTables} `{SS : SortSlice} `{TD : TodoDecoder} `{MC : MessageCodec}.
Context {W : Type} `{MO : MapOrder W} `{CL : Clock W} `{HS : HasSessions W} `{HO : Host W}.
Context `{EN : Environ W} {F : Type} `{SC : SkillCodec F}.
Context `{HL : HttpLib W} `{HH : HasHolder W} `{ID : ItemDecoder}.
Context `{HG : HasGateway W}.

Lemma sessions_preorder : PreOrder (λ w w' : W, sessions w' = sessions w).
Proof. split; [done|]. intros w1 w2 w3 H1 H2. by rewrite H2. Qed.

(** C8: chats do not disturb each other: any number of connections, each running its
    turns one after the other, share the session store, and no two use the same chat (user,
    agent, session); the ids of the users and agents hold no separator, byte 0x1f, or else
    the session keys are different (ids with a separator are accepted by the gateway, and
    may collide, [session_key_collision]).  However the accesses of their calls interleave,
    when all have ended every chat has the history it would have had if its connection had
    been the only one. *)
Theorem turns_isolated (max : Z) (m : Sessions) (cs : list conversation)
    (X : nat → gset chat_id) (c : config Sessions SessionOp session_res) :
  (∀ i cv, cs !! i = Some cv → chats_in (X i) cv) →
  (∀ i j x y, i ≠ j → x ∈ X i → y ∈ X j →
     x ≠ y ∧ plain x ∧ plain y ∨ chat_key x ≠ chat_key y) →
  rtc (step (L := session_store max)) (start m (turns <$> cs)) c →
  nf (step (L := session_store max)) c →
  ∀ i cv x, cs !! i = Some cv → x ∈ X i →
    mem_Get (cf_state c) (chat_key x) =
    mem_Get (alone (L := session_store max) (turns cv) m) (chat_key x).
Proof.
  intros Hcs Hd Hc Hnf i cv x Hi Hx.
  destruct (linearizable m (turns <$> cs) c Hc) as (_ & _ & Hend).
  destruct (Hend Hnf) as [_ (tr & Htr)].
  set (K i k := (∃ x, x ∈ X i ∧ k = chat_key x)).
  assert (∀ i j k, K i k → K j k → i = j) as HK.
  { intros i' j' k (y & Hy & ->) (z & Hz & E). destruct (decide (i' = j')) as [|Hne]; [done|].
    destruct (Hd _ _ _ _ Hne Hy Hz) as [(Hyz & Hpy & Hpz)|]; [|done].
    destruct Hyz. by apply chat_key_inj. }
  destruct (calls_agree max K _ tr _ Htr HK) with (i := i) (p := turns cv) as (p' & Hp' & Ha).
  - intros i' p. cbn. intros (cv' & -> & Hcv')%list_lookup_fmap_Some. by apply turns_on, Hcs.
  - cbn. by rewrite list_lookup_fmap, Hi.
  - cbn [fst snd] in Hp'. apply list_lookup_fmap_Some in Hp' as (? & -> & _). cbn [fst alone] in Ha.
    unfold mem_Get. rewrite Ha; [done|]. by exists x.
Qed.

(** C28: no message is lost, and nothing else is stored: whenever no method of the store is
    running, the turns of any connections, on the same chats or not, have made some
    sequence of whole calls, and every history is the window of the last [max] messages of
    what it was and of all that those calls appended to it, in their order. *)
Theorem turns_log (max : Z) (m : Sessions) (cs : list conversation)
    (c : config Sessions SessionOp session_res) :
  (∀ k, bounded max (mem_Get m k) = mem_Get m k) →
  rtc (step (L := session_store max)) (start m (turns <$> cs)) c → cf_mutex c = unlocked →
  ∃ tr ps, cf_pool c = Outside <$> ps ∧
    calls (L := session_store max) (m, turns <$> cs) tr (cf_state c, ps) ∧
    ∀ k, mem_Get (cf_state c) k = bounded max (mem_Get m k ++ appended k tr).
Proof.
  intros Hb Hc Hm. destruct (linearizable m (turns <$> cs) c Hc) as [Hl _].
  destruct (Hl Hm) as (ps & tr & Hps & Htr). exists tr, ps. split_and!; [done..|]. intros k.
  refine (calls_log max _ _ _ k Htr _ (Hb k)). intros i p. cbn.
  intros (cv & -> & _)%list_lookup_fmap_Some. exists (λ _, True).
  clear. induction cv as [|x text engine next IH]; [done|]. cbn. split_and!; [done..|]. intros _.
  split_and!; [done..|]. intros full. destruct (engine full); [|done].
  destruct (0 <? _); [|done]. by split_and!.
Qed.

(** C9: a turn of the service is such a program: a turn of [main]'s service with its
    sessions in memory that returns changes the session store by the calls of a
    conversation of one turn and by nothing else (the engine, its tools, the model
    client, the ledger and the extraction after the turn do not touch it); the engine is
    run on the history that was read, for the session key and tenant of the chat, and
    answers for the conversation. *)
Theorem turn_refines (pool : Pool W) (table view : W → list MemoryRecord)
    (like : gostring → gostring → bool) (redis : W → RedisData)
    (usage : option (TokenUsageStore W)) (conn : option (NatsConn W)) (todos : Planner.Store W)
    (OU : Surroundings pool table redis usage conn todos) (L : PostgresLaws pool table view like)
    (mem : option (Pg.MemoryStore W)) (dflt : TenantScope) (ss : Session.Store W)
    (maxTurns maxBreaker : Z) (w0 : W) (ctx : ChatCtx) (sid text : gostring) (sc : StreamConn)
    (w w' : W) (r : option goerror) :
  store_on pool mem → Redis ss = None →
  ChatStream (chat_service dflt conn mem usage ss todos maxTurns maxBreaker w0)
    ctx sid text ws_notifier sc w = (w', Done r) →
  let scope := conn_scope dflt sc in
  let x := (UserID scope, AgentID scope, sid) in
  let full := mem_Get (mem_Append (MaxMessages ss) (chat_key x) [user_message text] (sessions w))
                (chat_key x) in
  match Validate scope with
  | Some e => w' = w ∧ r = Some e
  | None =>
      ∃ engine req streamer w1 w2 out pre final,
        rq_Scope req = scope ∧ rq_SessionID req = chat_key x ∧
        rq_History req ++ [rq_UserMessage req] = MessagesFromTypes full ∧
        RunStreamedToolLoop req streamer (chat_hooks sid ws_notifier) w1 =
          (w2, Done (out, pre, final, r)) ∧
        engine full = match r with
                      | None => Some (MessagesToTypes (drop (Z.to_nat pre) out))
                      | Some _ => None
                      end ∧
        sessions w' = alone (L := session_store (MaxMessages ss))
                        (turns (Turn x text engine (λ _, Hangup))) (sessions w)
  end.
Proof.
  intros Hmem Hss E scope x full.
  destruct (service_parts usage conn todos mem dflt ss maxTurns maxBreaker w0)
    as (_ & _ & _ & Hd & Hs & Hpt & _ & Hh).
  apply ChatStream_run in E; rewrite ?Hs in *; [|done|..].
  - rewrite Hd in E. cbv zeta in E. fold scope in E. destruct (Validate scope); [done|].
    destruct E as (rid & rules & persona & ctx' & history & tail & w1 & w2 & out & pre & final &
      H1 & Hg & Er & H2).
    exists (λ _, match r with None => Some (MessagesToTypes (drop (Z.to_nat pre) out)) | Some _ => None end).
    eexists _, _, w1, w2, out, pre, final. split; [|split; [|split; [|split; [exact Er|split; [done|]]]]].
    1, 2: reflexivity.
    + unfold full. change (chat_key x) with (ScopedChatSessionKey (UserID scope) (AgentID scope) sid).
      rewrite <- H1, Hg. unfold MessagesFromTypes. by rewrite fmap_app.
    + assert (sessions w2 = sessions w1) as H12.
      { refine (go_rel_run (λ w w', sessions w' = sessions w) _ _ _ _ _ Er).
        eapply engine_same; [exact OU|exact L|exact Hmem|apply sessions_preorder|..].
        - by intros v v' [[? _] _].
        - intros cat k y _. eapply go_rel_mono, WriteScoped_sessions; [by intros v v' [? _]|..]; done. }
      cbn [turns alone]. cbn [op_spec session_store session_spec fst snd].
      destruct r as [e|]; rewrite H2, H12, H1; [done|]. cbv zeta.
      set (delta := drop (Z.to_nat pre) out).
      assert (len (MessagesToTypes delta) = len delta) as ->
        by (unfold MessagesToTypes, len; by rewrite length_fmap).
      by destruct (0 <? len delta).
  - intros v. apply (out_clock pool table redis (Surroundings := OU)).
  - intros h Hh'. by destruct (Hh h Hh') as [t ->].
  - intros sid' t v. apply (out_frame pool table redis (Surroundings := OU) (SystemStatusMessage sid' t)).
  - intros pt ctx' scope' sid' delta v. rewrite Hpt. intros [= <-].
    refine (out_spawn pool table redis (Surroundings := OU) (λ w w', sessions w' = sessions w) _ v _ _);
      [apply sessions_preorder|]. apply go_rel_discard; [apply sessions_preorder|].
    eapply post_turn_rel; [exact OU|apply sessions_preorder|by intros u u' [[? _] _]|].
    intros cat k y _. eapply go_rel_mono, WriteScoped_sessions; [by intros u u' [? _]|..]; done.
Qed.
End properties.

(** ** Witnesses and examples *)

#[local] Existing Instance ascii_tables.
#[local] Existing Instance merge_SortSlice.
#[local] Existing Instance sample_decoder.
#[local] Existing Instance sample_codec.
#[local] Existing Instance zero_clock.
#[local] Existing Instance sample_skill_codec.
#[local] Existing Instance sample_items.
#[local] Existing Instance Office_db.
#[local] Existing Instance Office_sessions.
#[local] Existing Instance Office_holder.
#[local] Existing Instance Office_gateway.
#[local] Existing Instance Office_environ.
#[local] Existing Instance Office_host.
#[local] Existing Instance Office_http.
#[local] Existing Instance office_outside.

(** An engine that answers the last message. *)
Definition answers (full : list TMessage) : option (list TMessage) :=
  match last full with
  | Some m => Some [plain_message RoleAssistant ("re " ++ tm_Content m)]
  | None => None
  end.

Definition one_turn (x : chat_id) (text : gostring) : conversation :=
  Turn x text answers (λ _, Hangup).

Definition two_chats : list conversation :=
  [one_turn ("7", "a", "s") "one"; one_turn ("8", "a", "s") "two"].

Definition turn_schedule : list nat := concat (repeat [0; 1]%nat 30).

Definition turns_run (cs : list conversation) : config Sessions SessionOp session_res :=
  run_schedule (L := session_store 60) turn_schedule (start ∅ (turns <$> cs)).

Lemma turns_isolated_witness :
  let c := turns_run two_chats in
  mem_Get (cf_state c) (chat_key ("7", "a", "s")) =
    mem_Get (alone (L := session_store 60) (turns (one_turn ("7", "a", "s") "one")) ∅)
      (chat_key ("7", "a", "s")) ∧
  tm_Content <$> mem_Get (cf_state c) (chat_key ("7", "a", "s")) = ["one"; "re one"].
Proof.
  intros c. split; [|vm_compute; reflexivity].
  refine (turns_isolated 60 ∅ two_chats
    (λ i, match i with O => {[("7", "a", "s")]} | 1%nat => {[("8", "a", "s")]} | _ => ∅ end) c
    _ _ (run_schedule_steps turn_schedule _) _ 0 _ _ eq_refl _).
  - intros [|[|i]] cv; intros [= <-]; cbn; (split; [|done]); by apply elem_of_singleton.
  - intros [|[|i]] [|[|j]] x y Hne; try done; try (by intros []%not_elem_of_empty);
      try (by intros _ []%not_elem_of_empty); intros ->%elem_of_singleton ->%elem_of_singleton;
      left; split; [done| |done|]; split; split; refine (bool_decide_unpack _ _); exact I.
  - apply exited_nf. vm_compute. by repeat constructor.
  - by apply elem_of_singleton.
Defined.

(** Two connections of one chat: both messages are stored before either is read, so both
    turns answer the second message and nobody answers the first. *)
Definition same_chat : list conversation :=
  [one_turn ("7", "a", "s") "one"; one_turn ("7", "a", "s") "two"].

Example turns_race :
  let c := turns_run same_chat in
  tm_Content <$> mem_Get (cf_state c) (chat_key ("7", "a", "s")) = ["one"; "two"; "re two"; "re two"] ∧
  tm_Content <$> mem_Get (alone (L := session_store 60) (turns (one_turn ("7", "a", "s") "one")) ∅)
    (chat_key ("7", "a", "s")) = ["one"; "re one"].
Proof. vm_compute. by split. Qed.

Lemma turns_log_witness :
  let c := turns_run same_chat in
  ∃ tr ps, cf_pool c = Outside <$> ps ∧
    calls (L := session_store 60) (∅, turns <$> same_chat) tr (cf_state c, ps) ∧
    ∀ k, mem_Get (cf_state c) k = bounded 60 (mem_Get ∅ k ++ appended k tr).
Proof.
  intros c. refine (turns_log 60 ∅ same_chat c _ (run_schedule_steps turn_schedule _) _).
  - intros k. unfold mem_Get. by rewrite lookup_empty.
  - vm_compute. reflexivity.
Defined.

Lemma turn_refines_witness :
  let ss := {| Redis := None; MaxMessages := 60; TTL := 0 |} in
  let sc := {| sc_UserID := "7"; sc_AgentID := []; sc_Persona := []; sc_OperatorRole := [];
               sc_Model := [] |} in
  let r := ChatStream (chat_service office_scope None db_store office_usage ss no_todos 8 3 office)
             no_ctx "s" "hello" ws_notifier sc office in
  let x := ("7", "a", "s") in
  r.2 = Done None ∧
  ∃ engine, sessions r.1 =
    alone (L := session_store 60) (turns (Turn x "hello" engine (λ _, Hangup))) (sessions office).
Proof.
  intros ss sc r x. assert (r.2 = Done None) as Hr by (vm_compute; reflexivity).
  split; [exact Hr|].
  assert (store_on (W := Office) db_pool db_store) as Hst by by intros p [= <-].
  pose proof (turn_refines db_pool db_table db_view Contains of_redis office_usage None no_todos
    office_outside db_pool_laws db_store office_scope ss 8 3 office no_ctx "s" "hello" sc office
    r.1 None Hst eq_refl) as H. cbv zeta in H.
  assert (Validate (conn_scope office_scope sc) = None) as Hv by (vm_compute; reflexivity).
  rewrite Hv in H. destruct H as (engine & _ & _ & _ & _ & _ & _ & _ & _ & _ & _ & _ & _ & H).
  { rewrite <- Hr. apply surjective_pairing. }
  exists engine. exact H.
Defined.
