(* ===== verification/Shutdown.v ===== *)
(** * The end of the process

    The last lines of [main] ([cmd/ascentia-core/main.go]) and [Server.Run]
    ([gateway/ws/server.go]): a goroutine waits for a signal and cancels the context of
    the process; another waits for that and calls [srv.Shutdown]; [main] is in
    [ListenAndServe], which returns when the listener is closed, and then runs its
    deferred calls, the last one first: [cancel], [pool.Close], [natsConn.Close].  The
    goroutines of the connections go on until [main] returns, and end with it, and so do
    the jobs in the background: the consolidation, and what a turn leaves behind (the
    extraction, the rows of the ledger).

    From [net/http]: [Shutdown] closes the listener at once, so [ListenAndServe] returns,
    and then waits for the requests that are not hijacked; an upgraded connection is
    hijacked.  From the documentation of [pgxpool]: [Close] rejects new acquisitions and
    waits until every connection is back in the pool. *)

From S2P Require Import Prelude.

(** ** The state *)

Inductive closer := CancelContext | ClosePool | CloseNats.

#[global] Instance closer_eq_decision : EqDecision closer.
Proof. solve_decision. Defined.

(** The deferred calls of [main], in the order they run: NATS is connected first, then
    the pool is opened, and the context of the process is made last. *)
Definition closers (nats pool : bool) : list closer :=
  [CancelContext] ++ (if pool then [ClosePool] else []) ++ (if nats then [CloseNats] else []).

#[local] Arguments closers : simpl never.

(** A request: in [handleWS] before the upgrade; upgraded and waiting for a frame; in a
    turn, with or without a connection of the pool; ended. *)
Inductive request := Opening | Waiting | InTurn (querying : bool) | Gone.

#[global] Instance request_eq_decision : EqDecision request.
Proof. solve_decision. Defined.

(** The goroutine of [Run]: waiting for the context, in [Shutdown], ended. *)
Inductive stopper := StopWaiting | StopDraining | StopDone.

Inductive pool_state := PoolOpen | PoolClosing | PoolClosed.

(** [main]: in [ListenAndServe], at its deferred calls, in [pool.Close], returned. *)
Inductive main_at := Serving | Deferred (ds : list closer) | ClosingPool (ds : list closer) | Exited.

Record life := {
  lf_signal : bool;
  lf_watching : bool;
  lf_cancelled : bool;
  lf_stopper : stopper;
  lf_listening : bool;
  lf_main : main_at;
  lf_pool : pool_state;
  lf_requests : list request;
  lf_jobs : list bool;
  lf_closed : list closer;
}.

Section process.
Context (nats pool : bool).

(** The server has started. *)
Definition served : life :=
  {| lf_signal := false; lf_watching := true; lf_cancelled := false; lf_stopper := StopWaiting;
     lf_listening := true; lf_main := Serving;
     lf_pool := if pool then PoolOpen else PoolClosed; lf_requests := []; lf_jobs := [];
     lf_closed := [] |}.

Definition with_main (m : main_at) (c : life) : life :=
  {| lf_signal := lf_signal c; lf_watching := lf_watching c; lf_cancelled := lf_cancelled c;
     lf_stopper := lf_stopper c; lf_listening := lf_listening c; lf_main := m;
     lf_pool := lf_pool c; lf_requests := lf_requests c; lf_jobs := lf_jobs c;
     lf_closed := lf_closed c |}.
Definition with_requests (rs : list request) (c : life) : life :=
  {| lf_signal := lf_signal c; lf_watching := lf_watching c; lf_cancelled := lf_cancelled c;
     lf_stopper := lf_stopper c; lf_listening := lf_listening c; lf_main := lf_main c;
     lf_pool := lf_pool c; lf_requests := rs; lf_jobs := lf_jobs c;
     lf_closed := lf_closed c |}.
Definition with_jobs (js : list bool) (c : life) : life :=
  {| lf_signal := lf_signal c; lf_watching := lf_watching c; lf_cancelled := lf_cancelled c;
     lf_stopper := lf_stopper c; lf_listening := lf_listening c; lf_main := lf_main c;
     lf_pool := lf_pool c; lf_requests := lf_requests c; lf_jobs := js;
     lf_closed := lf_closed c |}.
Definition cancelled (c : life) : life :=
  {| lf_signal := lf_signal c; lf_watching := lf_watching c; lf_cancelled := true;
     lf_stopper := lf_stopper c; lf_listening := lf_listening c; lf_main := lf_main c;
     lf_pool := lf_pool c; lf_requests := lf_requests c; lf_jobs := lf_jobs c;
     lf_closed := lf_closed c |}.
Definition with_stopper (s : stopper) (listening : bool) (c : life) : life :=
  {| lf_signal := lf_signal c; lf_watching := lf_watching c; lf_cancelled := lf_cancelled c;
     lf_stopper := s; lf_listening := listening; lf_main := lf_main c;
     lf_pool := lf_pool c; lf_requests := lf_requests c; lf_jobs := lf_jobs c;
     lf_closed := lf_closed c |}.
Definition with_pool (p : pool_state) (c : life) : life :=
  {| lf_signal := lf_signal c; lf_watching := lf_watching c; lf_cancelled := lf_cancelled c;
     lf_stopper := lf_stopper c; lf_listening := lf_listening c; lf_main := lf_main c;
     lf_pool := p; lf_requests := lf_requests c; lf_jobs := lf_jobs c;
     lf_closed := lf_closed c |}.
Definition note_closed (d : closer) (c : life) : life :=
  {| lf_signal := lf_signal c; lf_watching := lf_watching c; lf_cancelled := lf_cancelled c;
     lf_stopper := lf_stopper c; lf_listening := lf_listening c; lf_main := lf_main c;
     lf_pool := lf_pool c; lf_requests := lf_requests c; lf_jobs := lf_jobs c;
     lf_closed := lf_closed c ++ [d] |}.
Definition with_signal (sig watching : bool) (c : life) : life :=
  {| lf_signal := sig; lf_watching := watching; lf_cancelled := lf_cancelled c;
     lf_stopper := lf_stopper c; lf_listening := lf_listening c; lf_main := lf_main c;
     lf_pool := lf_pool c; lf_requests := lf_requests c; lf_jobs := lf_jobs c;
     lf_closed := lf_closed c |}.

(** ** The steps *)

(** What a request can do next, given the state of the pool. *)
Inductive request_step (p : pool_state) : request → request → Prop :=
| refuse : request_step p Opening Gone
| upgrade : request_step p Opening Waiting
| frame : request_step p Waiting (InTurn false)
| hang_up : request_step p Waiting Gone
| acquire_conn : p = PoolOpen → request_step p (InTurn false) (InTurn true)
| release_conn : request_step p (InTurn true) (InTurn false)
| end_turn : request_step p (InTurn false) Waiting.

(** Every connection is back in the pool. *)
Definition quiet (c : life) : Prop := (InTurn true ∉ lf_requests c) ∧ true ∉ lf_jobs c.

(** The goroutines of the process; a job has a connection of the pool or not. *)
Inductive moves : life → life → Prop :=
| signal_sent c : moves c (with_signal true (lf_watching c) c)
| signal_received c :
    lf_signal c = true → lf_watching c = true → moves c (cancelled (with_signal false false c))
| shutdown_called c :
    lf_cancelled c = true → lf_stopper c = StopWaiting →
    moves c (with_stopper StopDraining false c)
| shutdown_done c :
    lf_stopper c = StopDraining → Opening ∉ lf_requests c →
    moves c (with_stopper StopDone (lf_listening c) c)
| accept c : lf_listening c = true → moves c (with_requests (lf_requests c ++ [Opening]) c)
| request_moves c i r r' :
    lf_requests c !! i = Some r → request_step (lf_pool c) r r' →
    moves c (with_requests (<[i := r']> (lf_requests c)) c)
| job_starts c : moves c (with_jobs (lf_jobs c ++ [false]) c)
| job_acquires c i :
    lf_jobs c !! i = Some false → lf_pool c = PoolOpen →
    moves c (with_jobs (<[i := true]> (lf_jobs c)) c)
| job_releases c i :
    lf_jobs c !! i = Some true → moves c (with_jobs (<[i := false]> (lf_jobs c)) c)
| listen_failed c :
    lf_main c = Serving → lf_listening c = true →
    moves c (with_stopper (lf_stopper c) false (with_main (Deferred (closers nats pool)) c))
| run_returned c :
    lf_main c = Serving → lf_listening c = false →
    moves c (with_main (Deferred (closers nats pool)) c)
| defer_cancel c ds :
    lf_main c = Deferred (CancelContext :: ds) →
    moves c (note_closed CancelContext (cancelled (with_main (Deferred ds) c)))
| defer_pool c ds :
    lf_main c = Deferred (ClosePool :: ds) →
    moves c (with_pool PoolClosing (with_main (ClosingPool ds) c))
| pool_closed c ds :
    lf_main c = ClosingPool ds → quiet c →
    moves c (note_closed ClosePool (with_pool PoolClosed (with_main (Deferred ds) c)))
| defer_nats c ds :
    lf_main c = Deferred (CloseNats :: ds) →
    moves c (note_closed CloseNats (with_main (Deferred ds) c))
| main_returned c : lf_main c = Deferred [] → moves c (with_main Exited c).

(** All of them end when [main] returns. *)
Definition life_step (c c' : life) : Prop := lf_main c ≠ Exited ∧ moves c c'.

(** ** Lemmas *)

(** The deferred calls still to run. *)
Definition left_to_close (m : main_at) : list closer :=
  match m with
  | Serving => closers nats pool
  | Deferred ds => ds
  | ClosingPool ds => ClosePool :: ds
  | Exited => []
  end.

(** The pool follows [main]. *)
Definition pool_at (m : main_at) : pool_state :=
  if decide (ClosePool ∈ left_to_close m)
  then if m is ClosingPool _ then PoolClosing else PoolOpen
  else PoolClosed.

(** What every moment of the process satisfies. *)
Record orderly (c : life) : Prop := {
  closers_in_order : lf_closed c ++ left_to_close (lf_main c) = closers nats pool;
  closed_cancelled : CancelContext ∈ lf_closed c → lf_cancelled c = true;
  deferred_not_listening : lf_main c ≠ Serving → lf_listening c = false;
  pool_follows : lf_pool c = pool_at (lf_main c);
  pool_closed_quiet : lf_pool c = PoolClosed → quiet c;
  draining_not_listening : lf_stopper c ≠ StopWaiting → lf_listening c = false;
  signal_or_cancelled : lf_watching c = false → lf_cancelled c = true;
}.

Lemma served_orderly : orderly served.
Proof.
  split; cbn; try done.
  - by intros H%not_elem_of_nil.
  - unfold pool_at. cbn. by destruct nats, pool.
  - intros _. split; apply not_elem_of_nil.
Qed.

(** Each of the deferred calls is there once. *)
Lemma closers_once d ds cs : cs ++ d :: ds = closers nats pool → d ∉ ds.
Proof.
  intros E Hin. assert (NoDup (closers nats pool)) as Hnd
    by (destruct nats, pool; refine (bool_decide_unpack _ _); exact I).
  rewrite <- E in Hnd. apply NoDup_app in Hnd as (_ & _ & Hnd). by apply NoDup_cons in Hnd as [? _].
Qed.

Lemma pool_at_cons d ds : d ≠ ClosePool → pool_at (Deferred (d :: ds)) = pool_at (Deferred ds).
Proof.
  intros Hd. unfold pool_at. cbn. apply decide_ext. rewrite elem_of_cons. naive_solver.
Qed.

Lemma not_elem_insert {A} (l : list A) i x y : y ∉ l → y ≠ x → y ∉ <[i := x]> l.
Proof.
  intros Hl Hne Hin. apply list_elem_of_lookup in Hin as [j Hj].
  destruct (decide (i = j)) as [<-|Hij].
  - destruct (decide (i < length l)%nat).
    + rewrite list_lookup_insert_eq in Hj by done. congruence.
    + rewrite list_insert_ge in Hj by lia. by eapply Hl, list_elem_of_lookup_2.
  - rewrite list_lookup_insert_ne in Hj by done. by eapply Hl, list_elem_of_lookup_2.
Qed.

Lemma not_elem_snoc {A} (l : list A) x y : y ∉ l → y ≠ x → y ∉ l ++ [x].
Proof. rewrite not_elem_of_app, list_elem_of_singleton. done. Qed.

Lemma step_orderly c c' : orderly c → life_step c c' → orderly c'.
Proof.
  intros [H1 H2 H3 H4 H5 H6 H7] [Hx Hm].
  destruct Hm as [c|c Hs Hw|c Hc Hst|c Hst Ho|c Hl|c i r r' Hr Hrs|c|c i Hj Hp|c i Hj
    |c Hs Hl|c Hs Hl|c ds Hd|c ds Hd|c ds Hd Hq|c ds Hd|c Hd]; try rewrite Hd in *;
    split; cbn in *; try done; auto.
  - intros _. apply H6. by rewrite Hst.
  - intros Hp. destruct (H5 Hp). split; [by apply not_elem_snoc|done].
  - intros Hp. destruct (H5 Hp). split; [|done]. apply not_elem_insert; [done|].
    intros <-. inversion Hrs; congruence.
  - intros Hp. destruct (H5 Hp). split; [done|by apply not_elem_snoc].
  - intros Hp'. congruence.
  - intros Hp. destruct (H5 Hp). split; [done|by apply not_elem_insert].
  - by rewrite Hs in H1.
  - by rewrite H4, Hs.
  - by rewrite Hs in H1.
  - by rewrite H4, Hs.
  - by rewrite <- app_assoc.
  - by rewrite H4, pool_at_cons.
  - by rewrite <- app_assoc.
  - rewrite elem_of_app, list_elem_of_singleton. intros [?|[=]]. auto.
  - unfold pool_at. cbn. rewrite decide_False; [done|]. by eapply closers_once.
  - by rewrite <- app_assoc.
  - rewrite elem_of_app, list_elem_of_singleton. intros [?|[=]]. auto.
  - by rewrite H4, pool_at_cons.
Qed.

(** The statements in progress can come to their end. *)
Lemma drain_requests c pre post :
  lf_main c ≠ Exited → lf_requests c = pre ++ post → InTurn true ∉ pre →
  ∃ c', rtc life_step c c' ∧ lf_main c' = lf_main c ∧ InTurn true ∉ lf_requests c'.
Proof.
  revert c pre. induction post as [|r post IH]; intros c pre Hx Hr Hp.
  { exists c. rewrite Hr, app_nil_r. by split_and!. }
  destruct (decide (r = InTurn true)) as [->|Hne].
  - set (c1 := with_requests (<[length pre := InTurn false]> (lf_requests c)) c).
    destruct (IH c1 (pre ++ [InTurn false])) as (c' & Hc' & Hm & Hq); [done| |by apply not_elem_snoc|].
    + cbn. rewrite Hr, <- app_assoc. by rewrite insert_app_r_alt, Nat.sub_diag by lia.
    + exists c'. split; [|done]. eapply rtc_l; [|exact Hc']. split; [done|].
      eapply request_moves; [|apply release_conn]. rewrite Hr.
      by rewrite lookup_app_r, Nat.sub_diag by lia.
  - destruct (IH c (pre ++ [r])) as (c' & Hc' & Hm & Hq); [done|by rewrite Hr, <- app_assoc| |by exists c'].
    by apply not_elem_snoc.
Qed.

Lemma drain_jobs c pre post :
  lf_main c ≠ Exited → lf_jobs c = pre ++ post → true ∉ pre →
  ∃ c', rtc life_step c c' ∧ lf_main c' = lf_main c ∧ lf_requests c' = lf_requests c ∧
    true ∉ lf_jobs c'.
Proof.
  revert c pre. induction post as [|j post IH]; intros c pre Hx Hj Hp.
  { exists c. rewrite Hj, app_nil_r. by split_and!. }
  destruct j.
  - set (c1 := with_jobs (<[length pre := false]> (lf_jobs c)) c).
    destruct (IH c1 (pre ++ [false])) as (c' & Hc' & H); [done| |by apply not_elem_snoc|].
    + cbn. rewrite Hj, <- app_assoc. by rewrite insert_app_r_alt, Nat.sub_diag by lia.
    + exists c'. split; [|done]. eapply rtc_l; [|exact Hc']. split; [done|].
      apply job_releases. rewrite Hj. by rewrite lookup_app_r, Nat.sub_diag by lia.
  - destruct (IH c (pre ++ [false])) as (c' & Hc' & H); [done|by rewrite Hj, <- app_assoc| |by exists c'].
    by apply not_elem_snoc.
Qed.

Lemma drain c : lf_main c ≠ Exited → ∃ c', rtc life_step c c' ∧ lf_main c' = lf_main c ∧ quiet c'.
Proof.
  intros Hx.
  destruct (drain_requests c [] (lf_requests c)) as (c1 & Hc1 & Hm1 & Hq1);
    [done|done|apply not_elem_of_nil|].
  destruct (drain_jobs c1 [] (lf_jobs c1)) as (c2 & Hc2 & Hm2 & Hr2 & Hq2);
    [by rewrite Hm1|done|apply not_elem_of_nil|].
  exists c2. split; [by etrans|]. split; [congruence|]. split; [by rewrite Hr2|done].
Qed.

Lemma can_exit ds c : lf_main c = Deferred ds → ∃ c', rtc life_step c c' ∧ lf_main c' = Exited.
Proof.
  revert c. induction ds as [|d ds IH]; intros c Hm.
  { eexists. split; [apply rtc_once; split; [by rewrite Hm|by apply main_returned]|done]. }
  assert (∀ c1, life_step c c1 → (∃ c', rtc life_step c1 c' ∧ lf_main c' = Exited) →
    ∃ c', rtc life_step c c' ∧ lf_main c' = Exited) as Hstep.
  { intros c1 H1 (c' & Hc' & Hx). exists c'. split; [by eapply rtc_l|done]. }
  destruct d.
  - eapply Hstep; [split; [by rewrite Hm|by apply defer_cancel]|]. by apply IH.
  - eapply Hstep; [split; [by rewrite Hm|by apply defer_pool]|].
    destruct (drain (with_pool PoolClosing (with_main (ClosingPool ds) c)))
      as (c1 & Hc1 & Hm1 & Hq); [done|]. cbn in Hm1.
    destruct (IH (note_closed ClosePool (with_pool PoolClosed (with_main (Deferred ds) c1))))
      as (c' & Hc' & Hx); [done|].
    exists c'. split; [|done]. etrans; [exact Hc1|]. eapply rtc_l; [|exact Hc'].
    split; [by rewrite Hm1|by apply pool_closed].
  - eapply Hstep; [split; [by rewrite Hm|by apply defer_nats]|]. by apply IH.
Qed.

Lemma life_orderly c : rtc life_step served c → orderly c.
Proof.
  intros H. remember served as c0 eqn:E. assert (orderly c0) as H0 by (subst; apply served_orderly).
  clear E. induction H as [|c0 c1 c H01 _ IH]; [done|]. by eapply IH, step_orderly.
Qed.

(** The listener stays closed, and then no request arrives. *)
Lemma not_listening_stays c c' :
  lf_listening c = false → rtc life_step c c' →
  lf_listening c' = false ∧ length (lf_requests c') = length (lf_requests c).
Proof.
  intros Hl H. induction H as [|c c1 c' [_ Hm] _ IH]; [done|].
  assert (lf_listening c1 = false ∧ length (lf_requests c1) = length (lf_requests c)) as [H1 <-].
  { destruct Hm; cbn; try done; [congruence|by rewrite length_insert]. }
  by apply IH.
Qed.

(** ** Properties *)

(** C29: the process ends in order: once a signal has been sent, from any moment [main] can
    come to its end; when it does, the listener is closed, the context of the process is
    cancelled, the deferred calls have all run, once and in the order context, pool, NATS,
    and no statement is running: a query in progress is never cut; and once the listener is
    closed no request arrives. *)
Theorem shutdown_orderly (c : life) :
  rtc life_step served c →
  (lf_signal c = true ∨ lf_cancelled c = true → ∃ c', rtc life_step c c' ∧ lf_main c' = Exited) ∧
  (lf_main c = Exited →
     lf_listening c = false ∧ lf_cancelled c = true ∧ lf_closed c = closers nats pool ∧
     quiet c) ∧
  (lf_listening c = false → ∀ c', rtc life_step c c' →
     length (lf_requests c') = length (lf_requests c)).
Proof.
  intros Hc. pose proof (life_orderly c Hc) as [H1 H2 H3 H4 H5 H6 H7]. split_and!.
  - intros Hs. destruct (lf_main c) as [|ds|ds|] eqn:Em; [| | |by exists c].
    + assert (∃ c1, rtc life_step c c1 ∧ lf_main c1 = Serving ∧ lf_listening c1 = false)
        as (c1 & Hc1 & Hm1 & Hl1).
      { assert (∃ c0, rtc life_step c c0 ∧ lf_main c0 = Serving ∧ lf_cancelled c0 = true ∧
          (lf_stopper c0 ≠ StopWaiting → lf_listening c0 = false)) as (c0 & Hc0 & Hm0 & Hx0 & Hl0).
        { destruct (lf_cancelled c) eqn:Ex; [by exists c|].
          destruct Hs as [Hs|]; [|done]. destruct (lf_watching c) eqn:Ew; [|by specialize (H7 eq_refl)].
          eexists. split; [apply rtc_once; split; [by rewrite Em|by apply signal_received]|].
          by split_and!. }
        destruct (lf_stopper c0) eqn:Es; [|exists c0; by split_and!; [..|apply Hl0]..].
        eexists. split; [eapply rtc_r; [exact Hc0|split; [by rewrite Hm0|by apply shutdown_called]]|].
        by split_and!. }
      destruct (can_exit (closers nats pool) (with_main (Deferred (closers nats pool)) c1))
        as (c' & Hc' & Hx); [done|]. exists c'. split; [|done]. etrans; [exact Hc1|].
      eapply rtc_l; [|exact Hc']. split; [by rewrite Hm1|by apply run_returned].
    + by eapply can_exit.
    + destruct (drain c) as (c1 & Hc1 & Hm1 & Hq); [by rewrite Em|]. rewrite Em in Hm1.
      destruct (can_exit ds (note_closed ClosePool (with_pool PoolClosed (with_main (Deferred ds) c1))))
        as (c' & Hc' & Hx); [done|]. exists c'. split; [|done]. etrans; [exact Hc1|].
      eapply rtc_l; [|exact Hc']. split; [by rewrite Hm1|by apply pool_closed].
  - intros Em. rewrite Em in *. cbn in *. rewrite app_nil_r in H1.
    split_and!; [by apply H3| |done|by apply H5]. apply H2. rewrite H1. left.
  - intros Hl c' Hc'. by eapply not_listening_stays.
Qed.
End process.

(** ** Witnesses and examples *)

Ltac life_moves r := eapply rtc_l; [split; [done|eapply r; done]|cbn].

(** A signal while a turn is between two statements: [Shutdown] does not wait for it, the
    pool closes, and the process ends in the middle of the turn. *)
Lemma turn_cut : ∃ c, rtc (life_step true true) (served true) c ∧
  lf_main c = Exited ∧ lf_requests c = [InTurn false].
Proof.
  eexists. split.
  - unfold served. life_moves accept.
    eapply rtc_l; [split; [done|]; eapply (request_moves _ _ _ 0 Opening Waiting); [done|constructor]|].
    eapply rtc_l; [split; [done|]; eapply (request_moves _ _ _ 0 Waiting (InTurn false)); [done|constructor]|].
    cbn. life_moves signal_sent. life_moves signal_received. life_moves shutdown_called.
    life_moves run_returned. life_moves defer_cancel.
    life_moves defer_pool.
    eapply rtc_l; [split; [done|]; eapply pool_closed; [done|]|].
    { split; [by intros [=]%list_elem_of_singleton|apply not_elem_of_nil]. }
    cbn. life_moves defer_nats. life_moves main_returned. apply rtc_refl.
  - by split.
Qed.

Lemma shutdown_orderly_witness : ∃ c, rtc (life_step true true) (served true) c ∧
  lf_main c = Exited ∧
  (lf_listening c = false ∧ lf_cancelled c = true ∧
   lf_closed c = [CancelContext; ClosePool; CloseNats] ∧ quiet c).
Proof.
  destruct turn_cut as (c & Hc & Hm & _). exists c. split; [exact Hc|]. split; [exact Hm|].
  exact (proj1 (proj2 (shutdown_orderly true true c Hc)) Hm).
Defined.
